(* ===== verification/_CoqProject ===== *)
-Q . S2P
Prelude.v
GoStrings.v
GoNet.v
Domains.v
IPv4Tree.v
Sha256.v
Dataset.v
GoCodec.v
Config.v
Classifier.v
GoHeap.v
Lru.v
Learning.v
Failover.v
Firewall.v
DnsCache.v
SessionTable.v
SniffParse.v
SniffPeek.v
SniffHello.v
DnsMsg.v
Resolver.v
DnsTransport.v
AddrText.v
GoDuration.v
GoJson.v
GoUnmarshal.v
ConfigJson.v
Control.v
Tcp.v
Relay.v
Udp.v
DnsRouting.v
DnsServing.v
GoConn.v
Socks5.v
HttpConnect.v
SocksUdp.v
FailOpen.v
RelayFallback.v
RelayDials.v
Hy2.v
Hy2Status.v
Hy2Client.v
DataTool.v
Application.v
DnsUpstreams.v
Sockets.v
Main.v
