(* ===== verification/Prelude.v ===== *)
(** * hy2route: a verification library for the hy2route-core transparent proxy

    ** The program

    hy2route runs on an OpenWrt router.  nftables redirects the traffic of the
    LAN to the daemon [hy2route-core], which decides for every connection,
    datagram and DNS query whether it leaves directly or through a relay (HY2, or
    Reality with HY2 as its backup), possibly behind a landing proxy.  Its parts
    and how they interact:

    - the policy ([internal/policy]): rules and the China lists are compiled into
      trees that classify names and addresses; a learning table remembers which
      names were seen to resolve to an address;
    - the data file ([internal/dataset], [cmd/hy2route-data]) that carries the
      China lists, and the configuration ([internal/config]);
    - the DNS proxy ([internal/dnsproxy]): asks the domestic or the trusted
      upstream as the policy says, caches the answer and hands it to the learner,
      which updates the nftables sets ([internal/firewall]);
    - the data plane ([internal/dataplane], [internal/sniff]): recovers the
      original destination, sniffs the TLS or HTTP host name, asks the policy and
      relays; UDP flows live in a bounded session table;
    - the transports ([internal/transport], [internal/landing],
      [internal/failover]): direct, HY2 and Reality dialers, the relay fallback,
      fail-open with its controller, the HTTP and SOCKS5 landings;
    - the commands ([cmd/hy2route-core]): assemble all this from the
      configuration, run it, and report its status on a control socket
      ([internal/control]).

    ** Files

    Foundations.  [Prelude]: Go values, errors, the error monad ([let?]), slices,
    big-endian integers, the tactics and the hint database.  [GoStrings],
    [GoNet], [GoCodec], [GoHeap], [Sha256], [AddrText], [GoDuration], [GoJson],
    [GoUnmarshal]: the parts of the Go standard library the program computes with
    (UTF-8 and [strings], [netip] and [net] addresses, hex and base64,
    [container/heap], SHA-256, printing and parsing of endpoints and durations,
    and [encoding/json]: its scanner, its encoder, and its decoder into structs
    with unknown fields refused or ignored).  [Lru]: the bounded recency list that three tables
    share, with its specification [touch].  [GoConn]: a stream connection with
    its reads, writes and closing, as a small monad.  [DnsMsg]: the part of the
    miekg/dns message type that is used, and the class [DnsLib] with the laws
    [DnsLaws] that stands for that library.

    Components, each with the Go file it models:
    - [Domains] ([policy/types.go], [domains.go]), [IPv4Tree] ([policy/ipv4.go]),
      [Classifier] ([policy/classifier.go]), [Learning] ([policy/learning.go]);
    - [Dataset] ([dataset/format.go]), [DataTool] ([cmd/hy2route-data/main.go]),
      [Config] (validation and defaults, [config/config.go]), [ConfigJson]
      (decoding and loading from bytes, [config/config.go], [load.go]);
    - [DnsCache] ([dnsproxy/cache.go]), [Resolver] ([dnsproxy/resolver.go],
      [server.go], [upstream.go]), [DnsServing] (the concurrent queries of the
      server, step by step), [DnsTransport] ([transport/dnstcp.go],
      [dnsfallback.go]), [Firewall] ([firewall/learner.go], [nft_linux.go]);
    - [SniffParse], [SniffPeek] ([sniff/*.go]) and [SniffHello], an encoder of
      ClientHello records as the reference;
    - [SessionTable] ([dataplane/session_table.go]), [Tcp] ([dataplane/tcp.go],
      [original_destination_linux.go]), [Relay] (the two interleaved copies of a
      relayed connection, [dataplane/tcp.go]), [Udp] ([dataplane/udp.go]), [Sockets]
      (the system calls of [dataplane/listener_linux.go], of the servers' [Run],
      of [transport/socketmark.go], [socketmark_linux.go], [direct.go],
      [transport/reality/client.go], [transport/hy2/client.go] and
      [dnsproxy/upstream.go]);
    - [Failover] ([failover/controller.go]), [FailOpen] ([transport/failopen.go],
      [failopen_packet.go], [block.go]), [RelayFallback]
      ([transport/relay_fallback.go]) and [RelayDials] (its overlapping dials,
      step by step), [Socks5], [HttpConnect], [SocksUdp]
      ([landing/*.go]);
    - [Hy2] ([transport/hy2/client.go], [reconnect.go], [resolver.go]),
      [Hy2Client] (the interleaved calls of [client.go] on the core),
      [Hy2Status] ([cmd/hy2route-core/hy2_status.go]);
    - [Control] ([control/control.go]), [DnsRouting] (the resolver, the learner
      and the routing decisions together, [cmd/hy2route-core/application.go]),
      [DnsUpstreams] (the DNS servers behind the assembled resolver),
      [Application] ([cmd/hy2route-core/application.go]), [Main] ([main.go],
      [probe.go], [buildinfo]).

    ** How the code is modelled

    A byte is an integer in 0..255 and a string a list of bytes; machine integers
    are [Z] with their wrap-around written out where it can happen ([u8], [u16],
    [u32], [u64]); times and durations are nanoseconds.  A Go [(T, error)] is
    [result T]; an outer [option] is [None] for a panic (an index or slice out of
    range, a nil list element), so a theorem that a function returns [Some] is a
    theorem that it does not panic.  Every reading of the clock and every outcome
    of the operating system, the network or a library is an argument, so the
    theorems hold for all of them; the order in which Go visits a map is an
    argument too.  A method that holds its mutex for its whole body is one
    function on the state.  Where the lock is released in between, the method is
    split there, and the theorems quantify over all interleavings of the pieces:
    [send_begin]/[send_end] of [RelayFallback], [fp_snapshot]/[fp_after_send] of
    [FailOpen], [do_begin]/[do_end] of [Hy2] and the steps of [Hy2Client],
    the pieces of dials in [FailOpen], [dial_step] of [RelayDials], [query_step]
    of [DnsServing], [accept_step] of [Tcp], [relay_step] of [Relay], the events of
    [Udp], the states [app_reachable] of [DnsRouting].  The dial modelled as a
    whole ([relay_Dial]) is shown to be what its steps do undisturbed.  Sessions and connections are
    numbered as they are opened, and closings are logged, so that leaks and double
    closings can be stated.

    Loops are structural where the code's are; otherwise they take fuel that is
    the length of the input or the size of a table, and totality is proved: no
    theorem about a result holds only because fuel ran out ([read_loop_total] of
    [Dataset], [parse_total] of [SniffParse], [peek_loop_spec] of [SniffPeek],
    [chunks_fuel_enough] of [GoStrings], [mime_loop_fuel] of [HttpConnect], whose
    buffered reader takes one unit per byte still to come,
    [read_value_total] of [GoJson]).  The JSON reader takes twice the length of its
    input plus one, since every call consumes a byte or steps into a container;
    the string and duration readers take the length.

    ** What the theorems show

    - Routing.  The domain and prefix trees compute exactly the decision of the
      rule lists, in the documented order wherever the rules do not contradict
      each other ([Domain_refines_rules], [IP_follows_documented_precedence]); the
      handlers of the data plane follow it and lose no byte that was sniffed
      ([handle_routes_by_policy], [dialTarget_is_original_or_sni],
      [original_destination_recovered]); the addresses of a DNS answer are routed
      as the name was, through every interleaving of queries and lookups
      ([answers_route_their_addresses]); a relay delivers both directions in order
      and ends ([relay_delivers_in_order], [relay_ends_after_full_close]); and the
      whole application, assembled from the files it is given, starts
      ([accepted_files_serve], [validated_config_starts]), routes
      every connection by the policy ([application_routes_connections]), has no
      way out that was not configured ([no_unconfigured_exit],
      [proxied_dials_stay_configured]), marks every socket of its dialers before
      using it ([own_sockets_marked]) and leaks none
      ([sockets_not_leaked]).
    - DNS.  However concurrent queries interleave, every reply belongs to its
      request and carries only records the chosen upstreams gave for its name
      ([served_answers_follow_policy]).  Which servers may see which name, what is
      learned and cached, and that every request gets its reply
      ([names_reach_chosen_servers], [Resolve_learns_and_caches], [resolveUnknown_prefers_china_answers],
      [serveDNS_reply_matches_request]).
    - Tables.  The learning table refines a bounded recency list and never
      panics ([learning_table_safe], [Observe_refines_bounded_lru],
      [Lookup_sees_live_observations]); UDP sessions are closed exactly once and
      flows do not mix ([sessions_closed_exactly_once], [udp_flows_isolated]);
      the nftables sets stay in agreement with the learned state
      ([Replace_keeps_sets_synced], [reconcile_sends_wanted_states]).
    - Formats.  The data file has one encoding per value and round-trips
      ([Write_Read_roundtrip], [Read_accepts_only_written],
      [compiled_data_loads], [writeData_atomic]); sniffing is safe on every input,
      stable, and finds the name a client announced ([parse_safe_and_stable],
      [Peek_parses_prefix], [sniffed_name_is_announced_name]); SOCKS5 and HTTP
      CONNECT hand-shakes leave the tunnel at its first byte
      ([socks5_Dial_handshake], [http_Dial_tunnel]); UDP packets survive the
      landing ([udp_packet_roundtrip], [association_pinned],
      [Receive_filters_sources]).
    - Failures.  The controller trips and recovers as configured
      ([consecutive_failures_trip], [controller_recovery]); probes do not
      pile up ([recovery_probes_rate_limited]); a failed relay rests, also when
      dials overlap, and its sessions do not leak ([failed_primary_rests],
      [overlapping_dials_follow_records], [fallback_session_never_leaks]); the HY2 client loses no call or connection
      and its status is that of the current connection ([hy2_calls_accounted],
      [status_shows_current_connection]); a pin admits one certificate only
      ([pinned_certificate_only]).
    - Configuration.  Every byte string is decided: which ones are accepted, that
      an accepted one satisfies every condition the program relies on, and that a
      configuration printed with any spacing is read back ([Decode_accepts_exactly],
      [Decode_establishes_config_ok], [Decode_reads_printed_config],
      [Validate_establishes_config_ok]).
    - Status.  The snapshot the server takes is the one the client decodes
      ([status_reaches_client]).

    Examples next to the theorems evaluate behaviour that is easy to get wrong
    or that differs from the documentation ([intermittent_failures_trip],
    [proxy_only_is_not_inspected], [ip_direct_beats_shorter_proxy],
    [sniffed_name_overrides_ip_rule], [zero_ttl_order], [send_after_close_leaks],
    [redaction_undone], [escaped_reason_too_long], [stale_update_wins],
    [success_in_flight_ends_rest]).

    ** Not modelled

    The vendored hysteria client ([third_party]), the QUIC, Reality, DNS and
    netlink libraries: arguments of the definitions that call them.  Of
    [encoding/json], what the program's types do not use (maps, interfaces,
    embedded structs).  The scheduling of goroutines beyond the interleavings
    above, time spent blocking (how long a query waits for an upstream, the timeout
    contexts of the resolver), deadlines that end a read early (they are read
    errors), the sockets of the system's name resolution (that it is asked is
    logged by [Sockets]), flag parsing (its outcome is an argument), logging.  Everything that
    is not Go: the ucode generator, the init script, the LuCI page and the nftables
    rules. *)

From stdpp Require Export base list gmap sets strings numbers option.
From Stdlib Require Export ZArith Lia.

#[global] Open Scope Z_scope.

(** ** Go values *)

(** A Go [byte] is a [Z] in [0..255]; a Go [string] and a Go [[]byte] are both
    byte sequences. *)
Abbreviation bytes := (list Z).

Definition is_byte (b : Z) : bool := (0 <=? b) && (b <? 256).

(** A string literal of the source as its bytes. *)
Definition str (s : string) : bytes :=
  (λ a, Z.of_N (Ascii.N_of_ascii a)) <$> String.list_ascii_of_string s.

(** Unsigned conversions at their width. *)
Definition u8 (v : Z) : Z := v mod 2 ^ 8.
Definition u16 (v : Z) : Z := v mod 2 ^ 16.
Definition u32 (v : Z) : Z := v mod 2 ^ 32.
Definition u64 (v : Z) : Z := v mod 2 ^ 64.

(** [time.Duration] and [time.Time] in nanoseconds; [0] is the zero [Time]. *)
Abbreviation duration := Z (only parsing).
Abbreviation time := Z (only parsing).
Definition Millisecond : duration := 1000000.
Definition Second : duration := 1000 * Millisecond.
Definition Minute : duration := 60 * Second.
Definition Hour : duration := 60 * Minute.

(** ** Errors and results *)

(** The errors the program builds, wraps, joins and tests for. *)
Inductive error :=
| EMsg (msg : string)                  (* errors.New, fmt.Errorf without a wrapped error *)
| EWrap (msg : string) (inner : error) (* fmt.Errorf with a wrapped error *)
| EJoin (first second : error)         (* errors.Join of two errors *)
| ENetClosed                           (* net.ErrClosed *)
| EEOF                                 (* io.EOF *)
| ECanceled                            (* context.Canceled *)
| EDeadline                            (* context.DeadlineExceeded *)
| EHyClosed                            (* coreErrs.ClosedError *)
| EHyDial (msg : string)               (* coreErrs.DialError *)
| ESys (code : Z).                     (* an error of the operating system or a library *)

#[export] Instance error_eq_dec : EqDecision error.
Proof. solve_decision. Defined.

(** [errors.Is] (and [errors.As] for an error type): the error or one it wraps
    or joins satisfies the test. *)
Fixpoint errors_Is (P : error → bool) (e : error) : bool :=
  P e || match e with
         | EWrap _ inner => errors_Is P inner
         | EJoin a b => errors_Is P a || errors_Is P b
         | _ => false
         end.

(** A Go result [(T, error)]: exactly one of the two is meaningful. *)
Inductive result (A : Type) :=
| Ok (a : A)
| Err (e : error).
Arguments Ok {A} a.
Arguments Err {A} e.

Definition is_ok {A} (r : result A) : bool :=
  match r with Ok _ => true | Err _ => false end.

Definition errorf {A} (msg : string) : result A := Err (EMsg msg).

Declare Scope go_scope.
Delimit Scope go_scope with go.
#[global] Open Scope go_scope.

(** [let? x := e in k]: the early return on a non-nil error. *)
Notation "'let?' x ':=' e 'in' k" :=
  (match e with Ok x => k | Err er => Err er end)
  (at level 10, x pattern, e at level 100, k at level 200) : go_scope.

(** ** Slices

    [None] is a run-time panic.  Go bounds a slice expression by the capacity;
    the model bounds it by the length, so an expression proved in range here is
    in range in Go. *)
Definition slice {A} (l : list A) (a b : nat) : option (list A) :=
  if decide (a ≤ b ∧ b ≤ length l)%nat then Some (take (b - a) (drop a l)) else None.

(** ** Big-endian integers of [encoding/binary] *)

Definition put_u16 (v : Z) : bytes := [u8 (Z.shiftr v 8); u8 v].
Definition put_u32 (v : Z) : bytes :=
  [u8 (Z.shiftr v 24); u8 (Z.shiftr v 16); u8 (Z.shiftr v 8); u8 v].

(** [BigEndian.Uint16(b)] panics when the slice is shorter than its width. *)
Definition be_u16 (l : bytes) : option Z :=
  match l with
  | b0 :: b1 :: _ => Some (Z.lor b1 (Z.shiftl b0 8))
  | _ => None
  end.
Definition be_u32 (l : bytes) : option Z :=
  match l with
  | b0 :: b1 :: b2 :: b3 :: _ =>
      Some (Z.lor (Z.lor (Z.lor b3 (Z.shiftl b2 8)) (Z.shiftl b1 16)) (Z.shiftl b0 24))
  | _ => None
  end.

(** ** Automation *)

Create HintDb go discriminated.

Ltac simp_if :=
  repeat match goal with
  | H : context [if decide ?P then _ else _] |- _ => destruct (decide P)
  | |- context [if decide ?P then _ else _] => destruct (decide P)
  | H : context [if bool_decide ?P then _ else _] |- _ => case_bool_decide
  | |- context [if bool_decide ?P then _ else _] => case_bool_decide
  end.

(** Boolean comparisons of the code as propositions. *)
Ltac bools :=
  repeat match goal with
  | H : _ && _ = true |- _ => apply andb_prop in H as [? ?]
  | H : _ || _ = false |- _ => apply orb_false_elim in H as [? ?]
  | H : negb _ = true |- _ => apply negb_true_iff in H
  | H : negb _ = false |- _ => apply negb_false_iff in H
  | H : (_ =? _) = true |- _ => apply Z.eqb_eq in H
  | H : (_ =? _) = false |- _ => apply Z.eqb_neq in H
  | H : (_ <? _) = true |- _ => apply Z.ltb_lt in H
  | H : (_ <? _) = false |- _ => apply Z.ltb_ge in H
  | H : (_ <=? _) = true |- _ => apply Z.leb_le in H
  | H : (_ <=? _) = false |- _ => apply Z.leb_gt in H
  | H : (_ =? _)%nat = true |- _ => apply Nat.eqb_eq in H
  | H : (_ =? _)%nat = false |- _ => apply Nat.eqb_neq in H
  | H : (_ <? _)%nat = true |- _ => apply Nat.ltb_lt in H
  | H : (_ <? _)%nat = false |- _ => apply Nat.ltb_ge in H
  | H : (_ <=? _)%nat = true |- _ => apply Nat.leb_le in H
  | H : (_ <=? _)%nat = false |- _ => apply Nat.leb_gt in H
  | H : bool_decide _ = true |- _ => apply bool_decide_eq_true in H
  | H : bool_decide _ = false |- _ => apply bool_decide_eq_false in H
  end.

(** Case analysis on every test of the goal or of a hypothesis. *)
Ltac break_match :=
  match goal with
  | |- context [match ?x with _ => _ end] => destruct x eqn:?
  | H : context [match ?x with _ => _ end] |- _ => destruct x eqn:?
  end.
Ltac break := repeat (break_match; simplify_eq/=; try done).

(** ** Slices: generic lemmas *)

Section slices.
Context {A : Type}.
Implicit Types l : list A.

Lemma slice_Some l (a b : nat) :
  (a ≤ b)%nat → (b ≤ length l)%nat → slice l a b = Some (take (b - a) (drop a l)).
Proof. intros. unfold slice. by rewrite decide_True by lia. Qed.

Lemma slice_inv l (a b : nat) r :
  slice l a b = Some r →
  (a ≤ b)%nat ∧ (b ≤ length l)%nat ∧ r = take (b - a) (drop a l) ∧ length r = (b - a)%nat.
Proof.
  unfold slice. intros H. case_decide as Hab; simplify_eq. destruct Hab.
  rewrite length_take, length_drop. repeat split; [done|done|lia].
Qed.

Lemma slice_is_Some l (a b : nat) : (a ≤ b)%nat → (b ≤ length l)%nat → is_Some (slice l a b).
Proof. intros. rewrite slice_Some by done. eauto. Qed.

(** Reading back a field laid out after a prefix of known length. *)
Lemma slice_app (p x q : list A) a b :
  a = length p → b = (length p + length x)%nat → slice (p ++ x ++ q) a b = Some x.
Proof.
  intros -> ->. rewrite slice_Some; [|lia|rewrite !length_app; lia].
  rewrite drop_app_length. replace (_ + _ - _)%nat with (length x) by lia.
  by rewrite take_app_length.
Qed.

Lemma lookup_app_mid (p : list A) x q i : i = length p → (p ++ x :: q) !! i = Some x.
Proof. intros ->. by rewrite list_lookup_middle. Qed.
End slices.

Lemma forallb_Forall {A} (P : A → bool) l : forallb P l = true ↔ Forall (λ x, P x = true) l.
Proof.
  induction l as [|x l IH]; simpl; [by split|].
  by rewrite andb_true_iff, list.Forall_cons, IH.
Qed.

Lemma mjoin_cons {A} (x : list A) (l : list (list A)) : mjoin (x :: l) = x ++ mjoin l.
Proof. done. Qed.

(** ** Machine integers *)

Lemma u8_byte v : is_byte (u8 v) = true.
Proof. unfold is_byte, u8. pose proof (Z.mod_pos_bound v (2 ^ 8)). lia. Qed.

Lemma u8_small v : 0 ≤ v < 256 → u8 v = v.
Proof. intros. apply Z.mod_small. lia. Qed.

Lemma is_byte_spec b : is_byte b = true ↔ 0 ≤ b < 256.
Proof. unfold is_byte. lia. Qed.

(** A disjoint [lor] of a byte below a shifted value is an addition. *)
Lemma lor_shiftl_add a b n : 0 ≤ n → 0 ≤ a < 2 ^ n → Z.lor a (Z.shiftl b n) = a + b * 2 ^ n.
Proof.
  intros Hn Ha. rewrite Z.shiftl_mul_pow2 by done.
  assert (Hl : Z.land a (b * 2 ^ n) = 0).
  { apply Z.bits_inj'. intros i Hi. rewrite Z.land_spec, Z.bits_0.
    destruct (Z.lt_ge_cases i n).
    - rewrite Z.mul_pow2_bits_low by done. apply andb_false_r.
    - rewrite <- (Z.mod_small a (2 ^ n)) by done.
      by rewrite Z.mod_pow2_bits_high by lia. }
  rewrite <- (Z.lxor_lor _ _ Hl). symmetry. by apply Z.add_nocarry_lxor.
Qed.

Lemma be_put_u16 v l : 0 ≤ v < 2 ^ 16 → be_u16 (put_u16 v ++ l) = Some v.
Proof.
  intros Hv. unfold put_u16, be_u16. simpl. f_equal.
  unfold u8. rewrite Z.shiftr_div_pow2 by lia.
  rewrite lor_shiftl_add; [|lia|apply Z.mod_pos_bound; lia].
  pose proof (Z.div_mod v (2 ^ 8)).
  rewrite (Z.mod_small (v / 2 ^ 8)); [lia|].
  split; [apply Z.div_pos; lia|apply Z.div_lt_upper_bound; lia].
Qed.

Lemma u8_shiftr v n : 0 ≤ n → u8 (Z.shiftr v n) = (v / 2 ^ n) mod 256.
Proof. intros. unfold u8. by rewrite Z.shiftr_div_pow2. Qed.

Lemma be_put_u32 v l : 0 ≤ v < 2 ^ 32 → be_u32 (put_u32 v ++ l) = Some v.
Proof.
  intros Hv. unfold put_u32, be_u32. simpl. f_equal.
  rewrite !u8_shiftr by lia. unfold u8. change (2 ^ 8) with 256.
  rewrite (lor_shiftl_add (v mod 256)); [|lia|apply Z.mod_pos_bound; lia].
  rewrite (lor_shiftl_add _ _ 16);
    [|lia|Z.div_mod_to_equations; lia].
  rewrite (lor_shiftl_add _ _ 24); [|lia|Z.div_mod_to_equations; lia].
  Z.div_mod_to_equations; lia.
Qed.

Lemma be_u16_bound l v :
  Forall (λ b, is_byte b = true) l → be_u16 l = Some v → 0 ≤ v < 2 ^ 16.
Proof.
  destruct l as [|b0 [|b1 l]]; simpl; intros Hl [= <-] || intros ? ?; try done.
  decompose_Forall_hyps. rewrite is_byte_spec in *.
  rewrite lor_shiftl_add by lia. lia.
Qed.

Lemma put_be_u16 b0 b1 : is_byte b0 = true → is_byte b1 = true →
  put_u16 (Z.lor b1 (Z.shiftl b0 8)) = [b0; b1].
Proof.
  rewrite !is_byte_spec. intros. rewrite lor_shiftl_add by lia. unfold put_u16.
  rewrite u8_shiftr by lia. unfold u8. f_equal; [|f_equal]; Z.div_mod_to_equations; lia.
Qed.

Lemma be_u32_arith b0 b1 b2 b3 : is_byte b0 = true → is_byte b1 = true →
  is_byte b2 = true → is_byte b3 = true →
  Z.lor (Z.lor (Z.lor b3 (Z.shiftl b2 8)) (Z.shiftl b1 16)) (Z.shiftl b0 24) =
  b3 + b2 * 2 ^ 8 + b1 * 2 ^ 16 + b0 * 2 ^ 24.
Proof.
  rewrite !is_byte_spec. intros.
  rewrite (lor_shiftl_add b3) by lia. rewrite (lor_shiftl_add _ _ 16) by lia.
  by rewrite (lor_shiftl_add _ _ 24) by lia.
Qed.

Lemma put_be_u32 b0 b1 b2 b3 : is_byte b0 = true → is_byte b1 = true →
  is_byte b2 = true → is_byte b3 = true →
  put_u32 (b3 + b2 * 2 ^ 8 + b1 * 2 ^ 16 + b0 * 2 ^ 24) = [b0; b1; b2; b3].
Proof.
  rewrite !is_byte_spec. intros. unfold put_u32. rewrite !u8_shiftr by lia. unfold u8.
  repeat f_equal; Z.div_mod_to_equations; lia.
Qed.

Lemma take_split {A} (l : list A) (a b c : nat) :
  (a ≤ b)%nat → c = (b - a)%nat → take b l = take a l ++ take c (drop a l).
Proof. intros Hab ->. rewrite take_take_drop. f_equal. lia. Qed.

Lemma length_put_u16 v : length (put_u16 v) = 2%nat.
Proof. done. Qed.
Lemma length_put_u32 v : length (put_u32 v) = 4%nat.
Proof. done. Qed.

#[export] Hint Resolve u8_byte : go.
