(* ===== verification/GoStrings.v ===== *)
(** * The Go string library used by hy2route

    The functions of [strings], [bytes], [unicode], [unicode/utf8] and [strconv]
    that the program calls, on byte sequences: UTF-8 decoding as the language's
    [range] over a string does it, Unicode lower-casing with the simple case
    mapping of the Unicode tables, splitting, trimming, searching and decimal
    parsing.  The lemmas relate the rune view to the byte view for the ASCII
    alphabets the program accepts. *)

From S2P Require Import Prelude.

(** ** UTF-8 ([unicode/utf8]) *)

Definition RuneError : Z := 65533.

Definition in_range (lo hi x : Z) : bool := (lo <=? x) && (x <=? hi).

(** Size and accepted range of the second byte for a lead byte; [None] for a
    byte that cannot start a sequence (the table [first] of the package). *)
Definition utf8_first (b : Z) : option (nat * Z * Z) :=
  if in_range 194 223 b then Some (2%nat, 128, 191)
  else if b =? 224 then Some (3%nat, 160, 191)
  else if in_range 225 236 b || in_range 238 239 b then Some (3%nat, 128, 191)
  else if b =? 237 then Some (3%nat, 128, 159)
  else if b =? 240 then Some (4%nat, 144, 191)
  else if in_range 241 243 b then Some (4%nat, 128, 191)
  else if b =? 244 then Some (4%nat, 128, 143)
  else None.

Definition cont (b : Z) : Z := Z.land b 63.

(** [DecodeRune]: the first rune and its width; an invalid sequence is
    [RuneError] of width 1. *)
Definition decode_rune (l : bytes) : Z * nat :=
  match l with
  | [] => (RuneError, 0%nat)
  | b0 :: t =>
      if b0 <? 128 then (b0, 1%nat)
      else match utf8_first b0, t with
      | Some (2%nat, lo, hi), b1 :: _ =>
          if in_range lo hi b1
          then (Z.lor (Z.shiftl (Z.land b0 31) 6) (cont b1), 2%nat)
          else (RuneError, 1%nat)
      | Some (3%nat, lo, hi), b1 :: b2 :: _ =>
          if in_range lo hi b1 && in_range 128 191 b2
          then (Z.lor (Z.lor (Z.shiftl (Z.land b0 15) 12) (Z.shiftl (cont b1) 6)) (cont b2), 3%nat)
          else (RuneError, 1%nat)
      | Some (4%nat, lo, hi), b1 :: b2 :: b3 :: _ =>
          if in_range lo hi b1 && in_range 128 191 b2 && in_range 128 191 b3
          then (Z.lor (Z.lor (Z.lor (Z.shiftl (Z.land b0 7) 18) (Z.shiftl (cont b1) 12))
                             (Z.shiftl (cont b2) 6)) (cont b3), 4%nat)
          else (RuneError, 1%nat)
      | _, _ => (RuneError, 1%nat)
      end
  end.

(** [AppendRune]. *)
Definition encode_rune (r : Z) : bytes :=
  if (r <? 0) || in_range 55296 57343 r || (1114111 <? r) then [239; 191; 189]
  else if r <? 128 then [r]
  else if r <? 2048 then [Z.lor 192 (Z.shiftr r 6); Z.lor 128 (cont r)]
  else if r <? 65536 then
    [Z.lor 224 (Z.shiftr r 12); Z.lor 128 (cont (Z.shiftr r 6)); Z.lor 128 (cont r)]
  else [Z.lor 240 (Z.shiftr r 18); Z.lor 128 (cont (Z.shiftr r 12));
        Z.lor 128 (cont (Z.shiftr r 6)); Z.lor 128 (cont r)].

(** The runes of a string, each with the bytes it was decoded from.  The fuel is
    the length of the string: every step consumes at least one byte. *)
Fixpoint chunks_fuel (fuel : nat) (l : bytes) : list (Z * bytes) :=
  match fuel, l with
  | S f, _ :: _ =>
      let '(r, n) := decode_rune l in (r, take n l) :: chunks_fuel f (drop n l)
  | _, _ => []
  end.
Definition chunks (l : bytes) : list (Z * bytes) := chunks_fuel (length l) l.
Definition runes (l : bytes) : list Z := (chunks l).*1.

(** ** Case mapping and character classes ([unicode]) *)

(** The code points above ASCII with a simple lower-case mapping, as
    [(first, last, stride, delta)]. *)
Definition lower_table : list (Z * Z * Z * Z) :=
  [ (192,214,1,32); (216,222,1,32); (256,302,2,1); (304,304,1,-199); (306,310,2,1);
    (313,327,2,1); (330,374,2,1); (376,376,1,-121); (377,381,2,1); (385,385,1,210);
    (386,388,2,1); (390,390,1,206); (391,391,1,1); (393,394,1,205); (395,395,1,1);
    (398,398,1,79); (399,399,1,202); (400,400,1,203); (401,401,1,1); (403,403,1,205);
    (404,404,1,207); (406,406,1,211); (407,407,1,209); (408,408,1,1); (412,412,1,211);
    (413,413,1,213); (415,415,1,214); (416,420,2,1); (422,422,1,218); (423,423,1,1);
    (425,425,1,218); (428,428,1,1); (430,430,1,218); (431,431,1,1); (433,434,1,217);
    (435,437,2,1); (439,439,1,219); (440,440,1,1); (444,444,1,1); (452,452,1,2); (453,453,1,1);
    (455,455,1,2); (456,456,1,1); (458,458,1,2); (459,475,2,1); (478,494,2,1); (497,497,1,2);
    (498,500,2,1); (502,502,1,-97); (503,503,1,-56); (504,542,2,1); (544,544,1,-130);
    (546,562,2,1); (570,570,1,10795); (571,571,1,1); (573,573,1,-163); (574,574,1,10792);
    (577,577,1,1); (579,579,1,-195); (580,580,1,69); (581,581,1,71); (582,590,2,1);
    (880,882,2,1); (886,886,1,1); (895,895,1,116); (902,902,1,38); (904,906,1,37);
    (908,908,1,64); (910,911,1,63); (913,929,1,32); (931,939,1,32); (975,975,1,8);
    (984,1006,2,1); (1012,1012,1,-60); (1015,1015,1,1); (1017,1017,1,-7); (1018,1018,1,1);
    (1021,1023,1,-130); (1024,1039,1,80); (1040,1071,1,32); (1120,1152,2,1); (1162,1214,2,1);
    (1216,1216,1,15); (1217,1229,2,1); (1232,1326,2,1); (1329,1366,1,48); (4256,4293,1,7264);
    (4295,4295,1,7264); (4301,4301,1,7264); (5024,5103,1,38864); (5104,5109,1,8);
    (7312,7354,1,-3008); (7357,7359,1,-3008); (7680,7828,2,1); (7838,7838,1,-7615);
    (7840,7934,2,1); (7944,7951,1,-8); (7960,7965,1,-8); (7976,7983,1,-8); (7992,7999,1,-8);
    (8008,8013,1,-8); (8025,8031,2,-8); (8040,8047,1,-8); (8072,8079,1,-8); (8088,8095,1,-8);
    (8104,8111,1,-8); (8120,8121,1,-8); (8122,8123,1,-74); (8124,8124,1,-9); (8136,8139,1,-86);
    (8140,8140,1,-9); (8152,8153,1,-8); (8154,8155,1,-100); (8168,8169,1,-8);
    (8170,8171,1,-112); (8172,8172,1,-7); (8184,8185,1,-128); (8186,8187,1,-126);
    (8188,8188,1,-9); (8486,8486,1,-7517); (8490,8490,1,-8383); (8491,8491,1,-8262);
    (8498,8498,1,28); (8544,8559,1,16); (8579,8579,1,1); (9398,9423,1,26); (11264,11311,1,48);
    (11360,11360,1,1); (11362,11362,1,-10743); (11363,11363,1,-3814); (11364,11364,1,-10727);
    (11367,11371,2,1); (11373,11373,1,-10780); (11374,11374,1,-10749); (11375,11375,1,-10783);
    (11376,11376,1,-10782); (11378,11378,1,1); (11381,11381,1,1); (11390,11391,1,-10815);
    (11392,11490,2,1); (11499,11501,2,1); (11506,11506,1,1); (42560,42604,2,1);
    (42624,42650,2,1); (42786,42798,2,1); (42802,42862,2,1); (42873,42875,2,1);
    (42877,42877,1,-35332); (42878,42886,2,1); (42891,42891,1,1); (42893,42893,1,-42280);
    (42896,42898,2,1); (42902,42920,2,1); (42922,42922,1,-42308); (42923,42923,1,-42319);
    (42924,42924,1,-42315); (42925,42925,1,-42305); (42926,42926,1,-42308);
    (42928,42928,1,-42258); (42929,42929,1,-42282); (42930,42930,1,-42261);
    (42931,42931,1,928); (42932,42946,2,1); (42948,42948,1,-48); (42949,42949,1,-42307);
    (42950,42950,1,-35384); (42951,42953,2,1); (42960,42960,1,1); (42966,42968,2,1);
    (42997,42997,1,1); (65313,65338,1,32); (66560,66599,1,40); (66736,66771,1,40);
    (66928,66938,1,39); (66940,66954,1,39); (66956,66962,1,39); (66964,66965,1,39);
    (68736,68786,1,64); (71840,71871,1,32); (93760,93791,1,32); (125184,125217,1,34) ].

Definition table_delta (r : Z) (e : Z * Z * Z * Z) : option Z :=
  let '(lo, hi, stride, d) := e in
  if (lo <=? r) && (r <=? hi) && ((r - lo) mod stride =? 0) then Some d else None.

Fixpoint table_lookup (r : Z) (t : list (Z * Z * Z * Z)) : Z :=
  match t with
  | [] => 0
  | e :: t' => match table_delta r e with Some d => d | None => table_lookup r t' end
  end.

Definition unicode_ToLower (r : Z) : Z :=
  if r <? 128 then (if in_range 65 90 r then r + 32 else r)
  else r + table_lookup r lower_table.

Definition unicode_IsSpace (r : Z) : bool :=
  in_range 9 13 r || (r =? 32) || (r =? 133) || (r =? 160) || (r =? 5760)
  || in_range 8192 8202 r || (r =? 8232) || (r =? 8233) || (r =? 8239)
  || (r =? 8287) || (r =? 12288).

(** ** [strings] and [bytes] *)

Definition ToLower (s : bytes) : bytes :=
  mjoin ((λ r, encode_rune (unicode_ToLower r)) <$> runes s).

Definition drop_space : list (Z * bytes) → list (Z * bytes) :=
  fix go l := match l with
              | c :: l' => if unicode_IsSpace c.1 then go l' else l
              | [] => []
              end.

Definition TrimSpace (s : bytes) : bytes :=
  mjoin (reverse (drop_space (reverse (drop_space (chunks s))))).*2.

(** [strings.Fields]: the maximal runs of runes that are not white space. *)
Fixpoint fields_of (cur : bytes) (l : list (Z * bytes)) : list bytes :=
  match l with
  | [] => match cur with [] => [] | _ => [cur] end
  | c :: l' =>
      if unicode_IsSpace c.1
      then match cur with [] => fields_of [] l' | _ => cur :: fields_of [] l' end
      else fields_of (cur ++ c.2) l'
  end.
Definition Fields (s : bytes) : list bytes := fields_of [] (chunks s).

Fixpoint Join (l : list bytes) (sep : bytes) : bytes :=
  match l with
  | [] => []
  | [x] => x
  | x :: l' => x ++ sep ++ Join l' sep
  end.

(** [strings.EqualFold(s, t)] for an ASCII [t]: the only runes above ASCII that
    fold to an ASCII letter are U+017F (s) and U+212A (k). *)
Definition fold_rune (r : Z) : Z :=
  if in_range 65 90 r then r + 32 else if r =? 383 then 115 else if r =? 8490 then 107 else r.
Definition EqualFold (s t : bytes) : bool :=
  bool_decide (fold_rune <$> runes s = fold_rune <$> runes t).

Fixpoint HasPrefix (s p : bytes) : bool :=
  match p, s with
  | [], _ => true
  | x :: p', y :: s' => (x =? y) && HasPrefix s' p'
  | _ :: _, [] => false
  end.

Definition HasSuffix (s p : bytes) : bool :=
  (length p <=? length s)%nat && bool_decide (drop (length s - length p) s = p).

Definition TrimSuffix (s p : bytes) : bytes :=
  if HasSuffix s p then take (length s - length p) s else s.

(** [IndexByte], [LastIndexByte], [Index]: [None] is the result [-1]. *)
Fixpoint IndexByte (s : bytes) (c : Z) : option nat :=
  match s with
  | [] => None
  | b :: s' => if b =? c then Some 0%nat else S <$> IndexByte s' c
  end.

Fixpoint LastIndexByte (s : bytes) (c : Z) : option nat :=
  match s with
  | [] => None
  | b :: s' => match LastIndexByte s' c with
               | Some i => Some (S i)
               | None => if b =? c then Some 0%nat else None
               end
  end.

Fixpoint Index (s p : bytes) : option nat :=
  if HasPrefix s p then Some 0%nat
  else match s with
       | [] => None
       | _ :: s' => S <$> Index s' p
       end.

Definition Contains (s p : bytes) : bool := match Index s p with Some _ => true | None => false end.
Definition ContainsByte (s : bytes) (c : Z) : bool :=
  match IndexByte s c with Some _ => true | None => false end.
Definition ContainsAny (s cs : bytes) : bool := existsb (ContainsByte s) cs.

(** [Split] at a separator of one byte, and at the separator CR LF. *)
Fixpoint split_byte (c : Z) (cur s : bytes) : list bytes :=
  match s with
  | [] => [cur]
  | b :: s' => if b =? c then cur :: split_byte c [] s' else split_byte c (cur ++ [b]) s'
  end.
Definition Split (s : bytes) (c : Z) : list bytes := split_byte c [] s.

Fixpoint split_crlf (cur s : bytes) : list bytes :=
  match s with
  | [] => [cur]
  | 13 :: ((10 :: s'') as s') => cur :: split_crlf [] s''
  | b :: s' => split_crlf (cur ++ [b]) s'
  end.
Definition SplitCRLF (s : bytes) : list bytes := split_crlf [] s.

(** [ReplaceAll] of a non-empty [old] (the callers exclude the empty string).
    The fuel is the length of the string. *)
Fixpoint replace_fuel (fuel : nat) (s old new : bytes) : bytes :=
  match fuel, s with
  | S f, b :: s' =>
      if HasPrefix s old then new ++ replace_fuel f (drop (length old) s) old new
      else b :: replace_fuel f s' old new
  | _, _ => []
  end.
Definition ReplaceAll (s old new : bytes) : bytes := replace_fuel (length s) s old new.

(** Byte-wise string order ([<] on Go strings). *)
Fixpoint str_ltb (s t : bytes) : bool :=
  match s, t with
  | _, [] => false
  | [], _ :: _ => true
  | a :: s', b :: t' => (a <? b) || ((a =? b) && str_ltb s' t')
  end.

(** ** [strconv] *)

Definition is_digit (c : Z) : bool := in_range 48 57 c.

Fixpoint digits_val (acc : Z) (s : bytes) : option Z :=
  match s with
  | [] => Some acc
  | c :: s' => if is_digit c then digits_val (acc * 10 + (c - 48)) s' else None
  end.

(** [ParseUint(s, 10, bits)]. *)
Definition ParseUint (s : bytes) (bits : Z) : option Z :=
  match s with
  | [] => None
  | _ => match digits_val 0 s with
         | Some v => if v <? 2 ^ bits then Some v else None
         | None => None
         end
  end.

(** [Atoi]: an optional sign and decimal digits, within [int64]. *)
Definition Atoi (s : bytes) : option Z :=
  let '(neg, d) := match s with
                   | 43 :: d => (false, d)
                   | 45 :: d => (true, d)
                   | d => (false, d)
                   end in
  match d with
  | [] => None
  | _ => match digits_val 0 d with
         | Some v => let v' := if neg : bool then - v else v in
                     if (- 2 ^ 63 <=? v') && (v' <? 2 ^ 63) then Some v' else None
         | None => None
         end
  end.

(** [Itoa] of a non-negative number: decimal digits, no leading zero. *)
Fixpoint itoa_fuel (fuel : nat) (n : Z) (acc : bytes) : bytes :=
  match fuel with
  | O => acc
  | S f => if n <? 10 then (48 + n) :: acc
           else itoa_fuel f (n / 10) ((48 + n mod 10) :: acc)
  end.
Definition Itoa (n : Z) : bytes := itoa_fuel 20 n [].

(** ** Lemmas: decoding *)

Lemma in_range_spec lo hi x : in_range lo hi x = true ↔ lo ≤ x ≤ hi.
Proof. unfold in_range. lia. Qed.

Lemma decode_rune_ascii b t : b < 128 → decode_rune (b :: t) = (b, 1%nat).
Proof. intros. unfold decode_rune. by rewrite (proj2 (Z.ltb_lt b 128)) by done. Qed.

Lemma decode_rune_width b t :
  let n := (decode_rune (b :: t)).2 in (1 ≤ n)%nat ∧ (n ≤ length (b :: t))%nat.
Proof.
  unfold decode_rune. destruct (b <? 128); simpl; [lia|].
  repeat break_match; simplify_eq/=; lia.
Qed.

Lemma lor_ge_l a b : 0 ≤ a → 0 ≤ b → a ≤ Z.lor a b.
Proof.
  intros Ha Hb. apply Z.ldiff_le; [by apply Z.lor_nonneg|].
  apply Z.bits_inj'. intros i Hi. rewrite Z.ldiff_spec, Z.lor_spec, Z.bits_0.
  by destruct (Z.testbit a i), (Z.testbit b i).
Qed.

Lemma cont_bound b : 0 ≤ cont b < 64.
Proof. unfold cont. change 63 with (Z.ones 6). rewrite Z.land_ones by lia. apply Z.mod_pos_bound. lia. Qed.

Ltac rune_bound b0 m n :=
  replace (Z.land b0 m) with (b0 mod 2 ^ n)
    by (symmetry; change m with (Z.ones n); apply Z.land_ones; lia).

Lemma utf8_first_2 b n lo hi : utf8_first b = Some (n, lo, hi) →
  (n = 2%nat ∧ 194 ≤ b ≤ 223) ∨
  (n = 3%nat ∧ 224 ≤ b ≤ 239 ∧ 128 ≤ lo ∧ hi ≤ 191 ∧ (b = 224 → 160 ≤ lo)) ∨
  (n = 4%nat ∧ 240 ≤ b ≤ 244 ∧ 128 ≤ lo ∧ hi ≤ 191 ∧ (b = 240 → 144 ≤ lo)).
Proof. unfold utf8_first, in_range. repeat break_match; intros; simplify_eq; lia. Qed.

(** A byte above ASCII never decodes to an ASCII rune. *)
Lemma decode_rune_high b t : 128 ≤ b → 128 ≤ (decode_rune (b :: t)).1.
Proof.
  intros Hb. unfold decode_rune. rewrite (proj2 (Z.ltb_ge b 128)) by done.
  destruct (utf8_first b) as [[[n lo] hi]|] eqn:Hf; [|unfold RuneError; simpl; lia].
  apply utf8_first_2 in Hf as [(-> & ?)|[(-> & ? & ? & ? & ?)|(-> & ? & ? & ? & ?)]].
  - destruct t as [|b1 t]; [done|]. destruct (in_range _ _ b1); [|done]. simpl.
    pose proof (cont_bound b1). rune_bound b 31 5. rewrite Z.shiftl_mul_pow2 by lia.
    etransitivity; [|apply lor_ge_l]; Z.div_mod_to_equations; lia.
  - destruct t as [|b1 [|b2 t]]; [done..|].
    destruct (_ && _) eqn:Hr; [|done]. simpl. bools.
    rewrite in_range_spec in *. pose proof (cont_bound b1). pose proof (cont_bound b2).
    rune_bound b 15 4. rewrite !Z.shiftl_mul_pow2 by lia.
    etransitivity; [|apply lor_ge_l; [apply Z.lor_nonneg; Z.div_mod_to_equations; lia|lia]].
    destruct (decide (b = 224)) as [->|].
    + rewrite Z.lor_comm. unfold cont in *. rune_bound b1 63 6.
      etransitivity; [|apply lor_ge_l]; Z.div_mod_to_equations; lia.
    + etransitivity; [|apply lor_ge_l]; Z.div_mod_to_equations; lia.
  - destruct t as [|b1 [|b2 [|b3 t]]]; [done..|].
    destruct (_ && _) eqn:Hr; [|done]. simpl. bools.
    rewrite in_range_spec in *. pose proof (cont_bound b1). pose proof (cont_bound b2).
    pose proof (cont_bound b3). rune_bound b 7 3. rewrite !Z.shiftl_mul_pow2 by lia.
    etransitivity; [|apply lor_ge_l; [repeat (apply Z.lor_nonneg; split); Z.div_mod_to_equations; lia|lia]].
    etransitivity; [|apply lor_ge_l; [repeat (apply Z.lor_nonneg; split); Z.div_mod_to_equations; lia|lia]].
    destruct (decide (b = 240)) as [->|].
    + rewrite Z.lor_comm. unfold cont in *. rune_bound b1 63 6.
      etransitivity; [|apply lor_ge_l]; Z.div_mod_to_equations; lia.
    + etransitivity; [|apply lor_ge_l]; Z.div_mod_to_equations; lia.
Qed.

Lemma chunks_fuel_enough f l :
  (length l ≤ f)%nat → chunks_fuel f l = chunks_fuel (length l) l.
Proof.
  revert l. induction f as [f IH] using lt_wf_ind. intros l Hl.
  destruct l as [|b t]; [by destruct f|]. destruct f as [|f]; [simpl in Hl; lia|].
  cbn [chunks_fuel length]. destruct (decode_rune (b :: t)) as [r n] eqn:Hd.
  pose proof (decode_rune_width b t) as Hw. rewrite Hd in Hw. simpl in Hw, Hl.
  assert (length (drop n (b :: t)) ≤ length t)%nat by (rewrite length_drop; simpl; lia).
  f_equal. rewrite (IH f) by lia. symmetry. destruct (decide (length t < S f)%nat);
    [|lia]. rewrite (IH (length t)) by lia. done.
Qed.

Lemma chunks_cons b t :
  chunks (b :: t) = ((decode_rune (b :: t)).1, take (decode_rune (b :: t)).2 (b :: t))
                    :: chunks (drop (decode_rune (b :: t)).2 (b :: t)).
Proof.
  unfold chunks at 1. cbn [length chunks_fuel].
  pose proof (decode_rune_width b t) as Hw.
  destruct (decode_rune (b :: t)) as [r n]. simpl in Hw. simpl fst. simpl snd. f_equal.
  apply chunks_fuel_enough. rewrite length_drop. simpl. lia.
Qed.

Lemma chunks_cons_ascii b t : b < 128 → chunks (b :: t) = (b, [b]) :: chunks t.
Proof. intros Hb. rewrite chunks_cons, decode_rune_ascii by done. done. Qed.

Lemma runes_cons_ascii b t : b < 128 → runes (b :: t) = b :: runes t.
Proof. intros. unfold runes. by rewrite chunks_cons_ascii. Qed.

Lemma runes_ascii l : Forall (λ b, b < 128) l → runes l = l.
Proof. induction 1; [done|]. rewrite runes_cons_ascii by done. by f_equal. Qed.

(** No byte is lost or changed by decoding. *)
Lemma chunks_concat l : mjoin (chunks l).*2 = l.
Proof.
  remember (length l) as n eqn:Hn. revert l Hn.
  induction n as [n IH] using lt_wf_ind. intros [|b t] Hn; [done|].
  rewrite chunks_cons. rewrite fmap_cons, mjoin_cons. cbn [snd].
  pose proof (decode_rune_width b t) as Hw. simpl in Hw.
  rewrite (IH (length (drop (decode_rune (b :: t)).2 (b :: t)))); [apply take_drop| |done].
  rewrite length_drop. subst n. simpl. lia.
Qed.

(** Testing the runes of a string against an ASCII alphabet is testing its bytes. *)
Lemma forallb_runes (P : Z → bool) l :
  (∀ r, P r = true → r < 128) → forallb P (runes l) = forallb P l.
Proof.
  intros HP. induction l as [|b t IH]; [done|].
  destruct (decide (b < 128)) as [Hb|Hb].
  - rewrite runes_cons_ascii by done. simpl. by rewrite IH.
  - unfold runes. rewrite chunks_cons. cbn [fmap list_fmap fst forallb].
    destruct (P (decode_rune (b :: t)).1) eqn:H1.
    { apply HP in H1. pose proof (decode_rune_high b t). lia. }
    destruct (P b) eqn:H2; [apply HP in H2; lia|done].
Qed.

(** ** Lemmas: lower-casing *)

Lemma table_ok :
  forallb (λ '(lo, hi, stride, d),
    (128 <=? lo) && ((128 <=? lo + d) || ((lo =? hi) && ((lo =? 304) || (lo =? 8490)))))
    lower_table = true.
Proof. vm_compute. done. Qed.

(** Only U+0130 and U+212A are lowered into ASCII. *)
Lemma unicode_ToLower_high r :
  128 ≤ r → r ≠ 304 → r ≠ 8490 → 128 ≤ unicode_ToLower r.
Proof.
  intros Hr H1 H2. unfold unicode_ToLower. rewrite (proj2 (Z.ltb_ge r 128)) by done.
  generalize table_ok. generalize lower_table as t. intros t.
  induction t as [|[[[lo hi] st] d] t IH]; simpl; intros Ht; [lia|].
  apply andb_prop in Ht as [He Ht]. destruct (_ && _ && _) eqn:Hm; [|auto]. bools.
  match goal with H : _ || _ = true |- _ => apply orb_prop in H as [?|He] end; bools; [lia|].
  match goal with H : _ || _ = true |- _ => apply orb_prop in H as [?|?] end; bools; lia.
Qed.

Definition lower_byte (b : Z) : Z := if in_range 65 90 b then b + 32 else b.

Lemma lower_byte_ascii b : b < 128 → lower_byte b < 128.
Proof. unfold lower_byte, in_range. break_match; lia. Qed.

Lemma encode_rune_ascii r : 0 ≤ r < 128 → encode_rune r = [r].
Proof.
  intros. unfold encode_rune, in_range.
  rewrite (proj2 (Z.ltb_ge r 0)), (proj2 (Z.ltb_ge 1114111 r)), (proj2 (Z.leb_gt 55296 r)) by lia.
  simpl. by rewrite (proj2 (Z.ltb_lt r 128)) by lia.
Qed.

Definition ascii_byte (b : Z) : Prop := 0 ≤ b < 128.

Lemma ToLower_ascii l : Forall ascii_byte l → ToLower l = lower_byte <$> l.
Proof.
  unfold ToLower. induction 1 as [|b t Hb Ht IH]; [done|].
  unfold ascii_byte in Hb. rewrite runes_cons_ascii by lia.
  rewrite !fmap_cons, mjoin_cons, IH.
  unfold unicode_ToLower. rewrite (proj2 (Z.ltb_lt b 128)) by lia.
  fold (lower_byte b).
  rewrite encode_rune_ascii; [done|].
  pose proof (lower_byte_ascii b). unfold lower_byte in *. break_match; lia.
Qed.

Lemma lower_byte_id b : (b < 65 ∨ 90 < b) → lower_byte b = b.
Proof. unfold lower_byte, in_range. break_match; bools; lia. Qed.

(** ** Lemmas: splitting *)

Lemma split_byte_cur c cur s :
  ∃ x rest, split_byte c [] s = x :: rest ∧ split_byte c cur s = (cur ++ x) :: rest.
Proof.
  revert cur. induction s as [|b s IH]; intros cur.
  - exists [], []. simpl. by rewrite app_nil_r.
  - simpl. destruct (b =? c).
    + exists [], (split_byte c [] s). by rewrite app_nil_r.
    + destruct (IH [b]) as (x & rest & H1 & H2), (IH (cur ++ [b])) as (x' & rest' & H1' & H2').
      rewrite H1 in H1'. simplify_eq. exists ([b] ++ x'), rest'. split; [done|].
      rewrite H2'. by rewrite <- app_assoc.
Qed.

Lemma Split_cons_sep c s : Split (c :: s) c = [] :: Split s c.
Proof. unfold Split. simpl. by rewrite Z.eqb_refl. Qed.

Lemma Split_cons_ne c b s : b ≠ c →
  ∃ x rest, Split s c = x :: rest ∧ Split (b :: s) c = (b :: x) :: rest.
Proof.
  intros Hb. unfold Split. simpl. rewrite (proj2 (Z.eqb_neq b c)) by done.
  destruct (split_byte_cur c [b] s) as (x & rest & H1 & H2).
  exists x, rest. split; [done|]. by rewrite H2.
Qed.

Lemma Split_not_nil s c : Split s c ≠ [].
Proof. destruct (split_byte_cur c [] s) as (x & rest & H & _). unfold Split. by rewrite H. Qed.

Lemma Join_cons_cons x y l sep : Join (x :: y :: l) sep = x ++ sep ++ Join (y :: l) sep.
Proof. done. Qed.

(** [Join] is a left inverse of [Split] ... *)
Lemma Join_Split s c : Join (Split s c) [c] = s.
Proof.
  induction s as [|b s IH]; [done|].
  destruct (decide (b = c)) as [->|Hb].
  - rewrite Split_cons_sep. pose proof (Split_not_nil s c).
    destruct (Split s c) as [|x rest] eqn:E; [done|].
    rewrite Join_cons_cons. by rewrite IH.
  - destruct (Split_cons_ne c b s Hb) as (x & rest & H1 & H2). rewrite H2.
    rewrite H1 in IH. destruct rest; simpl in *; by rewrite IH.
Qed.

Lemma Split_no_sep s c : Forall (λ b, b ≠ c) s → Split s c = [s].
Proof.
  induction 1 as [|b s Hb Hs IH]; [done|].
  destruct (Split_cons_ne c b s Hb) as (x & rest & H1 & H2). congruence.
Qed.

(** ... and a right inverse on labels that do not contain the separator. *)
Lemma Split_Join ls c :
  ls ≠ [] → Forall (Forall (λ b, b ≠ c)) ls → Split (Join ls [c]) c = ls.
Proof.
  intros Hne Hls. induction Hls as [|l ls Hl Hls IH]; [done|].
  destruct ls as [|l2 ls]; [by apply Split_no_sep|].
  rewrite Join_cons_cons. specialize (IH ltac:(done)).
  change ([c] ++ ?t) with (c :: t). generalize dependent (Join (l2 :: ls) [c]). intros j IH.
  clear Hne Hls. induction Hl as [|b l Hb Hl IHl].
  - simpl app. rewrite Split_cons_sep. by f_equal.
  - destruct (Split_cons_ne c b (l ++ c :: j) Hb) as (x & rest & H1 & H2).
    simpl app. rewrite IHl in H1. congruence.
Qed.

Lemma Split_Forall (P : Z → Prop) s c : Forall P s → Forall (Forall P) (Split s c).
Proof.
  intros Hs. induction Hs as [|b s Hb Hs IH]; [by repeat constructor|].
  destruct (decide (b = c)) as [->|Hne].
  - rewrite Split_cons_sep. by constructor.
  - destruct (Split_cons_ne c b s Hne) as (x & rest & H1 & H2). rewrite H2.
    rewrite H1 in IH. inversion IH; subst. by repeat constructor.
Qed.

Lemma Split_labels_no_sep s c : Forall (Forall (λ b, b ≠ c)) (Split s c).
Proof.
  induction s as [|b s IH]; [by repeat constructor|].
  destruct (decide (b = c)) as [->|Hne].
  - rewrite Split_cons_sep. by constructor.
  - destruct (Split_cons_ne c b s Hne) as (x & rest & H1 & H2). rewrite H2.
    rewrite H1 in IH. inversion IH; subst. by repeat constructor.
Qed.

Lemma HasPrefix_app s t p : HasPrefix s p = true → HasPrefix (s ++ t) p = true.
Proof.
  revert s. induction p as [|x p IH]; intros s H; [by destruct s, t|].
  destruct s as [|y s]; [done|]. simpl in *. apply andb_prop in H as [-> H]. simpl. by apply IH.
Qed.
