(* ===== verification/GoNet.v ===== *)
(** * The Go network address library used by hy2route

    [netip.Addr], [netip.Prefix], [net.IP] and the textual forms the program
    parses and prints: [netip.ParseAddr], [netip.ParsePrefix], [net.ParseIP],
    [net.SplitHostPort], [net.JoinHostPort] and [net.LookupPort].  The service
    database behind [net.LookupPort] belongs to the system and is an argument. *)

From S2P Require Import Prelude GoStrings.

(** ** [netip.Addr] *)

Inductive Addr :=
| AddrZero
| Addr4 (a b c d : Z)
| Addr6 (ip : bytes) (zone : bytes).

#[export] Instance Addr_eq_dec : EqDecision Addr.
Proof. solve_decision. Defined.

#[export] Instance Addr_countable : Countable Addr.
Proof.
  refine (inj_countable'
    (λ a, match a with
          | AddrZero => inl ()
          | Addr4 a b c d => inr (inl (a, b, c, d))
          | Addr6 ip z => inr (inr (ip, z))
          end)
    (λ s, match s with
          | inl _ => AddrZero
          | inr (inl (a, b, c, d)) => Addr4 a b c d
          | inr (inr (ip, z)) => Addr6 ip z
          end) _).
  by intros [].
Defined.

(** The first twelve bytes of an IPv4-mapped IPv6 address. *)
Definition mapped_prefix : bytes := [0;0;0;0;0;0;0;0;0;0;255;255].

Definition is_mapped (ip : bytes) : bool :=
  (length ip =? 16)%nat && bool_decide (take 12 ip = mapped_prefix).

Definition Is4 (a : Addr) : bool := match a with Addr4 _ _ _ _ => true | _ => false end.
Definition Is6 (a : Addr) : bool := match a with Addr6 _ _ => true | _ => false end.
Definition Is4In6 (a : Addr) : bool :=
  match a with Addr6 ip _ => is_mapped ip | _ => false end.

(** [As4] panics ([None]) on an address that has no IPv4 form. *)
Definition As4 (a : Addr) : option bytes :=
  match a with
  | Addr4 a b c d => Some [a; b; c; d]
  | Addr6 ip _ => if is_mapped ip then Some (drop 12 ip) else None
  | AddrZero => None
  end.

Definition AddrFromSlice (l : bytes) : option Addr :=
  match l with
  | [a; b; c; d] => Some (Addr4 a b c d)
  | _ => if (length l =? 16)%nat then Some (Addr6 l []) else None
  end.

Definition Unmap (a : Addr) : Addr :=
  match a with
  | Addr6 ip _ =>
      if is_mapped ip then
        match drop 12 ip with [a; b; c; d] => Addr4 a b c d | _ => a end
      else a
  | _ => a
  end.

Definition AsSlice (a : Addr) : bytes :=
  match a with
  | AddrZero => []
  | Addr4 a b c d => [a; b; c; d]
  | Addr6 ip _ => ip
  end.

Record AddrPort := mkAddrPort { ap_addr : Addr; ap_port : Z }.

#[export] Instance AddrPort_eq_dec : EqDecision AddrPort.
Proof. solve_decision. Defined.
#[export] Instance AddrPort_countable : Countable AddrPort.
Proof.
  refine (inj_countable' (λ p, (ap_addr p, ap_port p)) (λ '(a, p), mkAddrPort a p) _).
  by intros [].
Defined.

(** ** [netip.Prefix]: [pbits] is [-1] for an invalid prefix *)

Record Prefix := mkPrefix { paddr : Addr; pbits : Z }.

#[export] Instance Prefix_eq_dec : EqDecision Prefix.
Proof. solve_decision. Defined.
#[export] Instance Prefix_countable : Countable Prefix.
Proof.
  refine (inj_countable' (λ p, (paddr p, pbits p)) (λ '(a, p), mkPrefix a p) _).
  by intros [].
Defined.

Definition BitLen (a : Addr) : Z :=
  match a with AddrZero => 0 | Addr4 _ _ _ _ => 32 | Addr6 _ _ => 128 end.

Definition without_zone (a : Addr) : Addr :=
  match a with Addr6 ip _ => Addr6 ip [] | _ => a end.

Definition PrefixFrom (a : Addr) (bits : Z) : Prefix :=
  mkPrefix (without_zone a)
    (if negb (bool_decide (a = AddrZero)) && (0 <=? bits) && (bits <=? BitLen a)
     then bits else -1).

Definition prefix_IsValid (p : Prefix) : bool := 0 <=? pbits p.

(** The byte whose top [k] bits are kept. *)
Definition mask_byte (k b : Z) : Z :=
  Z.land b (256 - 2 ^ (8 - Z.max 0 (Z.min 8 k))).

Fixpoint mask_bytes (bits : Z) (l : bytes) : bytes :=
  match l with
  | [] => []
  | b :: l' => mask_byte bits b :: mask_bytes (bits - 8) l'
  end.

Definition Masked (p : Prefix) : Prefix :=
  if prefix_IsValid p then
    match paddr p with
    | AddrZero => mkPrefix AddrZero (-1)
    | Addr4 a b c d =>
        match mask_bytes (pbits p) [a; b; c; d] with
        | [a; b; c; d] => mkPrefix (Addr4 a b c d) (pbits p)
        | _ => mkPrefix AddrZero (-1)
        end
    | Addr6 ip z => mkPrefix (Addr6 (mask_bytes (pbits p) ip) []) (pbits p)
    end
  else mkPrefix AddrZero (-1).

(** ** Parsing *)

(** [parseIPv4Fields]: [first] and [prev_dot] say whether the current byte is
    the first one and whether the byte before it is a dot. *)
Fixpoint parse4 (s : bytes) (first prev_dot : bool) (val : Z) (diglen : nat) (fields : bytes)
  : option bytes :=
  match s with
  | [] => if (length fields <? 3)%nat then None else Some (reverse (val :: fields))
  | c :: s' =>
      if is_digit c then
        if (diglen =? 1)%nat && (val =? 0) then None
        else let val' := val * 10 + (c - 48) in
             if 255 <? val' then None else parse4 s' false false val' (S diglen) fields
      else if c =? 46 then
        if first || bool_decide (s' = []) || prev_dot then None
        else if (length fields =? 3)%nat then None
        else parse4 s' false true 0 0 (val :: fields)
      else None
  end.

Definition parseIPv4Fields (s : bytes) : option bytes := parse4 s true false 0 0 [].

Definition hex_val (c : Z) : option Z :=
  if is_digit c then Some (c - 48)
  else if in_range 97 102 c then Some (c - 97 + 10)
  else if in_range 65 70 c then Some (c - 65 + 10)
  else None.

(** One group of hexadecimal digits: value, number of digits, rest; [None] for
    more than four digits or an overflow. *)
Fixpoint hex_group (s : bytes) (off : nat) (acc : Z) : option (Z * nat * bytes) :=
  match s with
  | [] => Some (acc, off, [])
  | c :: s' =>
      match hex_val c with
      | None => Some (acc, off, s)
      | Some v =>
          let acc' := acc * 16 + v in
          if (3 <? off)%nat then None
          else if 65535 <? acc' then None
          else hex_group s' (S off) acc'
      end
  end.

(** The loop of [parseIPv6] over at most eight groups; the result is the bytes
    read, the position of the ellipsis and the unread text. *)
Fixpoint parse6_loop (fuel : nat) (ip : bytes) (ell : option nat) (s : bytes)
  : option (bytes * option nat * bytes) :=
  match fuel with
  | O => Some (ip, ell, s)
  | S f =>
      if (16 <=? length ip)%nat then Some (ip, ell, s) else
      match hex_group s 0 0 with
      | None => None
      | Some (_, O, _) => None
      | Some (_, _, 46 :: _) =>
          if bool_decide (ell = None) && negb (length ip =? 12)%nat then None
          else if (16 <? length ip + 4)%nat then None
          else match parseIPv4Fields s with
               | Some q => Some (ip ++ q, ell, [])
               | None => None
               end
      | Some (acc, _, rest) =>
          let ip' := ip ++ [u8 (Z.shiftr acc 8); u8 acc] in
          match rest with
          | [] => Some (ip', ell, [])
          | 58 :: [] => None
          | 58 :: 58 :: rest2 =>
              match ell with
              | Some _ => None
              | None => match rest2 with
                        | [] => Some (ip', Some (length ip'), [])
                        | _ => parse6_loop f ip' (Some (length ip')) rest2
                        end
              end
          | 58 :: rest1 => parse6_loop f ip' ell rest1
          | _ => None
          end
      end
  end.

Definition parseIPv6 (s : bytes) : option Addr :=
  let '(s0, zone, bad_zone) :=
    match IndexByte s 37 with
    | Some i => (take i s, drop (S i) s, bool_decide (drop (S i) s = []))
    | None => (s, [], false)
    end in
  if bad_zone : bool then None else
  let '(ell, s1) := match s0 with
                    | 58 :: 58 :: r => (Some 0%nat, r)
                    | r => (None, r)
                    end in
  match ell, s1 with
  | Some _, [] => Some (Addr6 (replicate 16 0) zone)
  | _, _ =>
      match parse6_loop 8 [] ell s1 with
      | Some (ip, ell', []) =>
          if (length ip <? 16)%nat then
            match ell' with
            | None => None
            | Some e => Some (Addr6 (take e ip ++ replicate (16 - length ip) 0 ++ drop e ip) zone)
            end
          else match ell' with
               | Some _ => None
               | None => Some (Addr6 ip zone)
               end
      | _ => None
      end
  end.

Fixpoint parse_addr_scan (rest s : bytes) : option Addr :=
  match rest with
  | [] => None
  | c :: rest' =>
      if c =? 46 then
        match parseIPv4Fields s with
        | Some [a; b; c; d] => Some (Addr4 a b c d)
        | _ => None
        end
      else if c =? 58 then parseIPv6 s
      else if c =? 37 then None
      else parse_addr_scan rest' s
  end.
Definition ParseAddr (s : bytes) : option Addr := parse_addr_scan s s.

Definition ParsePrefix (s : bytes) : option Prefix :=
  match LastIndexByte s 47 with
  | None => None
  | Some i =>
      match ParseAddr (take i s) with
      | None => None
      | Some a =>
          let zoned := match a with Addr6 _ (_ :: _) => true | _ => false end in
          let bits_str := drop (S i) s in
          let odd := match bits_str with
                     | c :: _ :: _ => negb (in_range 49 57 c)
                     | _ => false
                     end in
          if zoned || odd then None else
          match Atoi bits_str with
          | None => None
          | Some bits =>
              if (bits <? 0) || (BitLen a <? bits) then None else Some (PrefixFrom a bits)
          end
      end
  end.

(** ** [net.IP] *)

Definition As16 (a : Addr) : bytes :=
  match a with
  | AddrZero => replicate 16 0
  | Addr4 a b c d => mapped_prefix ++ [a; b; c; d]
  | Addr6 ip _ => ip
  end.

(** [net.ParseIP]: [None] is the nil address; zones are refused. *)
Definition ParseIP (s : bytes) : option bytes :=
  match ParseAddr s with
  | Some (Addr6 _ (_ :: _)) => None
  | Some a => Some (As16 a)
  | None => None
  end.

Definition To4 (ip : bytes) : option bytes :=
  if (length ip =? 4)%nat then Some ip
  else if is_mapped ip then Some (drop 12 ip) else None.

Definition IsUnspecified (ip : bytes) : bool :=
  match To4 ip with
  | Some v4 => bool_decide (v4 = [0; 0; 0; 0])
  | None => bool_decide (ip = replicate 16 0)
  end.

(** ** Printing *)

Definition string4 (a b c d : Z) : bytes :=
  Join [Itoa a; Itoa b; Itoa c; Itoa d] [46].

Definition hex_digit (v : Z) : Z := if v <? 10 then 48 + v else 97 + (v - 10).

Definition hex16 (v : Z) : bytes :=
  let d3 := Z.shiftr v 12 in
  let d2 := Z.land (Z.shiftr v 8) 15 in
  let d1 := Z.land (Z.shiftr v 4) 15 in
  let d0 := Z.land v 15 in
  if 4095 <? v then hex_digit <$> [d3; d2; d1; d0]
  else if 255 <? v then hex_digit <$> [d2; d1; d0]
  else if 15 <? v then hex_digit <$> [d1; d0]
  else [hex_digit d0].

Fixpoint groups16 (ip : bytes) : list Z :=
  match ip with
  | hi :: lo :: ip' => (hi * 256 + lo) :: groups16 ip'
  | _ => []
  end.

Fixpoint zero_run (g : list Z) : nat :=
  match g with 0 :: g' => S (zero_run g') | _ => 0 end.

(** The longest run of at least two zero groups, the first of that length. *)
Fixpoint best_run (i : nat) (g : list Z) (start len : nat) : nat * nat :=
  match g with
  | [] => (start, len)
  | _ :: g' =>
      let l := zero_run g in
      if (2 <=? l)%nat && (len <? l)%nat then best_run (S i) g' i l
      else best_run (S i) g' start len
  end.

Definition string6 (ip : bytes) : bytes :=
  let g := groups16 ip in
  let '(start, len) := best_run 0 g 0 0 in
  if (len =? 0)%nat then Join (hex16 <$> g) [58]
  else Join (hex16 <$> take start g) [58] ++ [58; 58]
       ++ Join (hex16 <$> drop (start + len) g) [58].

(** [net.IP.String] of a 4- or 16-byte address. *)
Definition IP_String (ip : bytes) : bytes :=
  match To4 ip with
  | Some [a; b; c; d] => string4 a b c d
  | _ => string6 ip
  end.

Definition addr_String (a : Addr) : bytes :=
  match a with
  | AddrZero => str "invalid IP"
  | Addr4 a b c d => string4 a b c d
  | Addr6 ip zone =>
      let base := if is_mapped ip
                  then match drop 12 ip with
                       | [a; b; c; d] => str "::ffff:" ++ string4 a b c d
                       | _ => string6 ip
                       end
                  else string6 ip in
      match zone with [] => base | _ => base ++ [37] ++ zone end
  end.

Definition prefix_String (p : Prefix) : bytes :=
  if prefix_IsValid p then addr_String (paddr p) ++ [47] ++ Itoa (pbits p)
  else str "invalid Prefix".

(** [AddrPort.String] of an IPv4 endpoint. *)
Definition addrport_String (ap : AddrPort) : bytes :=
  match ap_addr ap with
  | Addr4 a b c d => string4 a b c d ++ [58] ++ Itoa (ap_port ap)
  | AddrZero => str "invalid AddrPort"
  | a => [91] ++ addr_String a ++ [93; 58] ++ Itoa (ap_port ap)
  end.

(** ** Host and port *)

Definition SplitHostPort (s : bytes) : result (bytes * bytes) :=
  match LastIndexByte s 58 with
  | None => errorf "missing port in address"
  | Some i =>
      let finish (host : bytes) (j k : nat) :=
        if ContainsByte (drop j s) 91 then errorf "unexpected '[' in address"
        else if ContainsByte (drop k s) 93 then errorf "unexpected ']' in address"
        else Ok (host, drop (S i) s) in
      match s with
      | 91 :: _ =>
          match IndexByte s 93 with
          | None => errorf "missing ']' in address"
          | Some e =>
              if (S e =? length s)%nat then errorf "missing port in address"
              else if (S e =? i)%nat then finish (take (e - 1) (drop 1 s)) 1%nat (S e)
              else if bool_decide (s !! S e = Some 58) then errorf "too many colons in address"
              else errorf "missing port in address"
          end
      | _ =>
          if ContainsByte (take i s) 58 then errorf "too many colons in address"
          else finish (take i s) 0%nat 0%nat
      end
  end.

Definition JoinHostPort (host port : bytes) : bytes :=
  if ContainsByte host 58 then [91] ++ host ++ [93; 58] ++ port
  else host ++ [58] ++ port.

(** [parsePort]: the number and whether the service must be looked up. *)
Definition port_cutoff : Z := 2 ^ 30.

Fixpoint port_digits (s : bytes) (n : Z) : option Z :=
  match s with
  | [] => Some n
  | d :: s' =>
      if is_digit d then
        if port_cutoff <=? n then Some (2 ^ 32 - 1)
        else let n10 := u32 (n * 10) in
             let nn := u32 (n10 + (d - 48)) in
             if nn <? n10 then Some (2 ^ 32 - 1) else port_digits s' nn
      else None
  end.

Definition parsePort (service : bytes) : Z * bool :=
  match service with
  | [] => (0, false)
  | c :: rest =>
      let '(neg, d) := if c =? 43 then (false, rest)
                       else if c =? 45 then (true, rest) else (false, service) in
      match port_digits d 0 with
      | None => (0, true)
      | Some n =>
          let port := if negb neg && (port_cutoff <=? n) then port_cutoff - 1
                      else if neg && (port_cutoff <? n) then port_cutoff else n in
          (if neg : bool then - port else port, false)
      end
  end.

(** [LookupPort(network, service)] for the networks tcp and udp. *)
Definition LookupPort (services : bytes → bytes → option Z) (network service : bytes)
  : result Z :=
  let '(port, needs_lookup) := parsePort service in
  let? p := if needs_lookup : bool then
              match services network service with
              | Some p => Ok p
              | None => errorf "unknown port"
              end
            else Ok port in
  if (p <? 0) || (65535 <? p) then errorf "invalid port" else Ok p.
