(* ===== verification/Domains.v ===== *)
(** * Domain policy: [internal/policy/types.go] and [internal/policy/domains.go]

    Actions and their precedence, domain normalisation, and the suffix tree that
    stores domain rules by reversed label.  The tree is refined to the list of
    the rules that were added: a query gets the strongest action of the rules
    that cover it. *)

From S2P Require Import Prelude GoStrings.

(** ** Types *)

Inductive Action := Unknown | Direct | Proxy.

#[export] Instance Action_eq_dec : EqDecision Action.
Proof. solve_decision. Defined.
#[export] Instance Action_countable : Countable Action.
Proof.
  refine (inj_countable' (λ a, match a with Unknown => 0 | Direct => 1 | Proxy => 2 end)
    (λ z, match z with 0 => Unknown | 1 => Direct | _ => Proxy end) _).
  by intros [].
Defined.

Inductive Source :=
| SourceExplicitDomain | SourceExplicitIP | SourceChinaDomain | SourceChinaIP | SourceDefault.

#[export] Instance Source_eq_dec : EqDecision Source.
Proof. solve_decision. Defined.

Record Decision := mkDecision { dec_action : Action; dec_source : Source; dec_domain : bytes }.

#[export] Instance Decision_eq_dec : EqDecision Decision.
Proof. solve_decision. Defined.

Definition selectAction (current candidate : Action) : Action :=
  if bool_decide (current = Proxy) || bool_decide (candidate = Proxy) then Proxy
  else if negb (bool_decide (candidate = Unknown)) then candidate
  else current.

(** ** [NormalizeDomain] *)

Definition dns_char (c : Z) : bool := in_range 97 122 c || in_range 48 57 c || (c =? 45).

(** The checks of one label, in the order of the code. *)
Definition check_label (label : bytes) : result unit :=
  if (length label =? 0)%nat || (63 <? length label)%nat
     || bool_decide (label !! 0%nat = Some 45)
     || bool_decide (label !! (length label - 1)%nat = Some 45)
  then errorf "domain has an invalid label"
  else if forallb dns_char (runes label) then Ok ()
  else errorf "domain is not ASCII DNS syntax".

Fixpoint check_labels (labels : list bytes) : result unit :=
  match labels with
  | [] => Ok ()
  | l :: ls => let? _ := check_label l in check_labels ls
  end.

Definition NormalizeDomain (value : bytes) : result bytes :=
  let value := TrimSuffix (ToLower value) [46] in
  if bool_decide (value = []) || (253 <? length value)%nat
  then errorf "domain is empty or too long"
  else let? _ := check_labels (Split value 46) in Ok value.

(** ** The suffix tree *)

#[warnings="-register-all"]
Inductive domainNode := DNode (children : gmap bytes domainNode) (suffix exact : Action).

Definition children (n : domainNode) := match n with DNode c _ _ => c end.
Definition suffix (n : domainNode) := match n with DNode _ s _ => s end.
Definition exact (n : domainNode) := match n with DNode _ _ e => e end.
Definition emptyNode : domainNode := DNode ∅ Unknown Unknown.

(** [domainTree.add]: the loop walks the labels from the last to the first. *)
Fixpoint add_labels (labels : list bytes) (ex : bool) (action : Action) (node : domainNode)
  : domainNode :=
  match labels with
  | [] => if ex then DNode (children node) (suffix node) (selectAction (exact node) action)
          else DNode (children node) (selectAction (suffix node) action) (exact node)
  | l :: ls =>
      let child := default emptyNode (children node !! l) in
      DNode (<[l := add_labels ls ex action child]> (children node)) (suffix node) (exact node)
  end.

Definition domainTree_add (tree : domainNode) (domain : bytes) (ex : bool) (action : Action)
  : domainNode := add_labels (reverse (Split domain 46)) ex action tree.

(** [domainTree.match]: [index == 0] holds when no label is left. *)
Fixpoint match_labels (labels : list bytes) (node : domainNode) (result : Action) : Action :=
  match labels with
  | [] => result
  | l :: ls =>
      match children node !! l with
      | None => result
      | Some child =>
          let result := if negb (bool_decide (suffix child = Unknown))
                        then selectAction result (suffix child) else result in
          let result := if bool_decide (ls = []) && negb (bool_decide (exact child = Unknown))
                        then selectAction result (exact child) else result in
          match_labels ls child result
      end
  end.

Definition domainTree_match (tree : domainNode) (domain : bytes) : Action * bool :=
  let result := match_labels (reverse (Split domain 46)) tree Unknown in
  (result, negb (bool_decide (result = Unknown))).

(** ** Specification: a rule list *)

Record domainRule := mkDomainRule { dr_domain : bytes; dr_exact : bool; dr_action : Action }.

(** A suffix rule covers its domain and every subdomain, an exact rule only its
    domain; both compare whole labels. *)
Definition covers (ex : bool) (rule query : list bytes) : bool :=
  if ex then bool_decide (rule = query)
  else bool_decide (take (length rule) query = rule).

Definition rule_covers (r : domainRule) (query : bytes) : bool :=
  covers (dr_exact r) (reverse (Split (dr_domain r) 46)) (reverse (Split query 46)).

Definition add_rule (tree : domainNode) (r : domainRule) : domainNode :=
  domainTree_add tree (dr_domain r) (dr_exact r) (dr_action r).

(** The strongest action of the rules that cover the query. *)
Definition rules_action (rules : list domainRule) (query : bytes) : Action :=
  foldl (λ acc r, if rule_covers r query then selectAction acc (dr_action r) else acc)
        Unknown rules.

(** ** Precedence is a semilattice *)

Lemma selectAction_Unknown_r a : selectAction a Unknown = a.
Proof. by destruct a. Qed.
Lemma selectAction_Unknown_l a : selectAction Unknown a = a.
Proof. by destruct a. Qed.
Lemma selectAction_comm a b : selectAction a b = selectAction b a.
Proof. by destruct a, b. Qed.
Lemma selectAction_assoc a b c :
  selectAction (selectAction a b) c = selectAction a (selectAction b c).
Proof. by destruct a, b, c. Qed.
Lemma selectAction_Proxy a b : selectAction a b = Proxy ↔ a = Proxy ∨ b = Proxy.
Proof. destruct a, b; cbv; intuition congruence. Qed.
Lemma selectAction_Unknown a b : selectAction a b = Unknown ↔ a = Unknown ∧ b = Unknown.
Proof. destruct a, b; cbv; intuition congruence. Qed.

Lemma selectAction_skip (r a : Action) :
  (if negb (bool_decide (a = Unknown)) then selectAction r a else r) = selectAction r a.
Proof. by destruct r, a. Qed.

Lemma selectAction_right_comm a b c :
  selectAction (selectAction a b) c = selectAction (selectAction a c) b.
Proof. by destruct a, b, c. Qed.

(** ** The tree refines the rule list *)

(** What one step of the walk adds to the result. *)
Definition step_action (last : bool) (n : domainNode) (r : Action) : Action :=
  let r := selectAction r (suffix n) in
  if last then selectAction r (exact n) else r.

Lemma match_labels_cons l ls n r :
  match_labels (l :: ls) n r =
  match children n !! l with
  | None => r
  | Some c => match_labels ls c (step_action (bool_decide (ls = [])) c r)
  end.
Proof.
  simpl. destruct (children n !! l) as [c|]; [|done]. f_equal.
  unfold step_action. rewrite selectAction_skip.
  case_bool_decide; simpl; [|done]. by rewrite selectAction_skip.
Qed.

Lemma step_action_select last n r a :
  step_action last n (selectAction r a) = selectAction (step_action last n r) a.
Proof. destruct last, n as [c s e]; by destruct r, a, s, e. Qed.

Lemma match_labels_select ls n r a :
  match_labels ls n (selectAction r a) = selectAction (match_labels ls n r) a.
Proof.
  revert n r. induction ls as [|l ls IH]; intros n r; [done|].
  rewrite !match_labels_cons. destruct (children n !! l); [|done].
  by rewrite step_action_select, IH.
Qed.

Lemma match_labels_children ls n m r :
  children n = children m → match_labels ls n r = match_labels ls m r.
Proof. intros H. destruct ls; [done|]. by rewrite !match_labels_cons, H. Qed.

Lemma match_labels_empty ls r : match_labels ls emptyNode r = r.
Proof. destruct ls; [done|]. rewrite match_labels_cons. simpl. by rewrite lookup_empty. Qed.

Lemma covers_nil ex q : covers ex [] q = negb ex || bool_decide (q = []).
Proof. destruct ex, q; done. Qed.

Lemma covers_cons ex l ls k ks :
  covers ex (l :: ls) (k :: ks) = bool_decide (l = k) && covers ex ls ks.
Proof.
  unfold covers. destruct ex; simpl;
    repeat case_bool_decide; simpl; try done; exfalso; intuition congruence.
Qed.

(** Adding at the root node only strengthens the step into it. *)
Lemma step_add_nil last ex a n r :
  step_action last (add_labels [] ex a n) r =
  if negb ex || last then selectAction (step_action last n r) a else step_action last n r.
Proof.
  destruct n as [c s e], ex, last; simpl; unfold step_action; simpl; by destruct r, a, s, e.
Qed.

Lemma step_add_cons last l ls ex a n r :
  step_action last (add_labels (l :: ls) ex a n) r = step_action last n r.
Proof. by destruct n. Qed.

(** A missing child behaves as an empty one. *)
Lemma match_child_default n k ks r :
  match_labels (k :: ks) n r =
  let c := default emptyNode (children n !! k) in
  match_labels ks c (step_action (bool_decide (ks = [])) c r).
Proof.
  rewrite match_labels_cons. destruct (children n !! k); [done|]. simpl.
  rewrite match_labels_empty. unfold step_action. simpl.
  case_bool_decide; by rewrite !selectAction_Unknown_r.
Qed.

Lemma match_add_child l ls ex a n k ks r :
  match_labels (k :: ks) (add_labels (l :: ls) ex a n) r =
  if decide (l = k) then
    let c := add_labels ls ex a (default emptyNode (children n !! k)) in
    match_labels ks c (step_action (bool_decide (ks = [])) c r)
  else match_labels (k :: ks) n r.
Proof.
  rewrite !match_labels_cons. cbn [add_labels children].
  destruct (decide (l = k)) as [->|Hne].
  - by rewrite lookup_insert_eq.
  - by rewrite lookup_insert_ne.
Qed.

(** Walking the tree after adding a rule at a node below it: the rule counts
    exactly when it covers the walk. *)
Lemma match_add_labels l ls ex a n q r :
  match_labels q (add_labels (l :: ls) ex a n) r =
  if covers ex (l :: ls) q then selectAction (match_labels q n r) a else match_labels q n r.
Proof.
  revert l n q r. induction ls as [|l2 ls IH]; intros l n [|k ks] r; try (by destruct ex).
  - rewrite covers_cons, covers_nil, match_add_child.
    destruct (decide (l = k)) as [->|Hne]; [|by rewrite (bool_decide_false (l = k)) by done].
    rewrite (bool_decide_true (k = k)) by done. rewrite match_child_default. simpl andb. cbv zeta.
    set (c := default emptyNode (children n !! k)).
    rewrite step_add_nil, (match_labels_children ks (add_labels [] ex a c) c) by (by destruct c, ex).
    destruct (negb ex || _); [by rewrite match_labels_select|done].
  - rewrite covers_cons, match_add_child.
    destruct (decide (l = k)) as [->|Hne]; [|by rewrite (bool_decide_false (l = k)) by done].
    rewrite (bool_decide_true (k = k)) by done. rewrite match_child_default. simpl andb. cbv zeta.
    by rewrite step_add_cons, IH.
Qed.

Lemma match_add_rule tree r query :
  (domainTree_match (add_rule tree r) query).1 =
  if rule_covers r query
  then selectAction (domainTree_match tree query).1 (dr_action r)
  else (domainTree_match tree query).1.
Proof.
  unfold domainTree_match, add_rule, domainTree_add, rule_covers. simpl.
  destruct (reverse (Split (dr_domain r) 46)) as [|l ls] eqn:E.
  - exfalso. apply (Split_not_nil (dr_domain r) 46).
    rewrite <- (reverse_involutive (Split _ _)), E. done.
  - apply match_add_labels.
Qed.

(** Every tree built by additions answers as the list of its rules. *)
Lemma tree_refines_rules rules query :
  (domainTree_match (foldl add_rule emptyNode rules) query).1 = rules_action rules query.
Proof.
  unfold rules_action. induction rules as [|r rules IH] using rev_ind.
  - unfold domainTree_match. simpl. by rewrite match_labels_empty.
  - rewrite !foldl_snoc, match_add_rule, IH. done.
Qed.

Lemma domainTree_match_ok tree query :
  domainTree_match tree query =
  ((domainTree_match tree query).1, negb (bool_decide ((domainTree_match tree query).1 = Unknown))).
Proof. done. Qed.

Lemma rules_action_Proxy rules query :
  rules_action rules query = Proxy ↔
  ∃ r, r ∈ rules ∧ rule_covers r query = true ∧ dr_action r = Proxy.
Proof.
  unfold rules_action. induction rules as [|r rules IH] using rev_ind.
  - simpl. set_solver.
  - rewrite foldl_snoc. setoid_rewrite elem_of_app. setoid_rewrite list_elem_of_singleton.
    destruct (rule_covers r query) eqn:E.
    + rewrite selectAction_Proxy, IH. split.
      * intros [(r0 & ? & ? & ?)|?]; eauto 6.
      * intros (r0 & [?| ->] & ? & ?); eauto.
    + rewrite IH. split.
      * intros (r0 & ? & ? & ?); eauto 6.
      * intros (r0 & [?| ->] & ? & ?); [eauto|congruence].
Qed.

Lemma rules_action_Unknown rules query :
  rules_action rules query = Unknown ↔
  ∀ r, r ∈ rules → rule_covers r query = true → dr_action r = Unknown.
Proof.
  unfold rules_action. induction rules as [|r rules IH] using rev_ind.
  - simpl. set_solver.
  - rewrite foldl_snoc. setoid_rewrite elem_of_app. setoid_rewrite list_elem_of_singleton.
    destruct (rule_covers r query) eqn:E.
    + rewrite selectAction_Unknown, IH. split.
      * intros [H1 ?] r0 [?| ->]; auto.
      * intros H. split; [intros r0 ?; apply H; auto|apply H; auto].
    + rewrite IH. split.
      * intros H1 r0 [?| ->]; [auto|congruence].
      * intros H r0 ?; apply H; auto.
Qed.

(** ** Normal forms of domain names *)

(** The letter-digit-hyphen names of the DNS, in lower case and without the
    final dot. *)
Definition ldh_label (l : bytes) : Prop :=
  (1 ≤ length l ≤ 63)%nat ∧ l !! 0%nat ≠ Some 45 ∧ l !! (length l - 1)%nat ≠ Some 45 ∧
  Forall (λ c, dns_char c = true) l.

Definition normalized (d : bytes) : Prop :=
  (1 ≤ length d ≤ 253)%nat ∧ Forall ldh_label (Split d 46).

Lemma dns_char_ascii c : dns_char c = true → 0 ≤ c < 128 ∧ (c < 65 ∨ 90 < c).
Proof. unfold dns_char, in_range. lia. Qed.

Lemma check_label_spec l : is_ok (check_label l) = true ↔ ldh_label l.
Proof.
  unfold check_label, ldh_label. rewrite forallb_runes by (intros; apply dns_char_ascii; done).
  rewrite <- forallb_Forall.
  destruct (_ || _ || _ || _) eqn:E; [|destruct (forallb _ l) eqn:F]; simpl.
  - split; [done|]. intros (? & ? & ? & ?).
    rewrite !orb_true_iff, Nat.eqb_eq, Nat.ltb_lt, !bool_decide_eq_true in E.
    destruct E as [[[?|?]|?]|?]; try lia; done.
  - split; [|done]. intros _. bools. repeat split; try done; lia.
  - split; [done|]. by intros (? & ? & ? & ?).
Qed.

Lemma check_labels_spec ls : is_ok (check_labels ls) = true ↔ Forall ldh_label ls.
Proof.
  induction ls as [|l ls IH]; simpl; [by split|].
  rewrite list.Forall_cons, <- IH, <- check_label_spec.
  destruct (check_label l); simpl; intuition congruence.
Qed.

Lemma Split_snoc s c : Split (s ++ [c]) c = Split s c ++ [[]].
Proof.
  induction s as [|b s IH]; simpl app; [by rewrite Split_cons_sep|].
  destruct (decide (b = c)) as [->|Hne].
  - by rewrite !Split_cons_sep, IH.
  - destruct (Split_cons_ne c b s Hne) as (x & rest & H1 & ->).
    destruct (Split_cons_ne c b (s ++ [c]) Hne) as (x' & rest' & H2 & ->).
    rewrite IH, H1 in H2. simpl in *. congruence.
Qed.

Lemma TrimSuffix_dot s :
  (∃ s', s = s' ++ [46] ∧ TrimSuffix s [46] = s') ∨ TrimSuffix s [46] = s.
Proof.
  unfold TrimSuffix. destruct (HasSuffix s [46]) eqn:E; [left|by right].
  unfold HasSuffix in E. bools. simpl in *. exists (take (length s - 1) s).
  split; [|done]. rewrite <- (take_drop (length s - 1) s) at 1. by f_equal.
Qed.

Lemma TrimSuffix_normalized d : Forall ldh_label (Split d 46) → TrimSuffix d [46] = d.
Proof.
  intros H. destruct (TrimSuffix_dot d) as [(s' & -> & _)|]; [|done].
  rewrite Split_snoc, Forall_app, Forall_singleton in H.
  destruct H as [_ ((? & _) & _)]. simpl in *. lia.
Qed.

Lemma Join_Forall (P : Z → Prop) ls sep :
  Forall (Forall P) ls → Forall P sep → Forall P (Join ls sep).
Proof.
  intros Hls Hsep. induction Hls as [|l [|l2 ls] Hl Hls IH]; [constructor|done|].
  rewrite Join_cons_cons. by repeat apply Forall_app_2.
Qed.

Lemma ToLower_normalized d : Forall ldh_label (Split d 46) → ToLower d = d.
Proof.
  intros H.
  assert (Forall (λ c, ascii_byte c ∧ (c < 65 ∨ 90 < c)) d) as Hd.
  { rewrite <- (Join_Split d 46). apply Join_Forall; [|repeat constructor; unfold ascii_byte; lia].
    eapply list.Forall_impl; [exact H|]. intros l (_ & _ & _ & Hl).
    eapply list.Forall_impl; [exact Hl|]. intros c ?%dns_char_ascii. done. }
  rewrite ToLower_ascii by (eapply list.Forall_impl; [exact Hd|]; naive_solver).
  clear H. induction Hd as [|c d [_ Hc] _ IH]; [done|]. rewrite fmap_cons, IH.
  by rewrite lower_byte_id.
Qed.

Lemma NormalizeDomain_Ok v d :
  NormalizeDomain v = Ok d → d = TrimSuffix (ToLower v) [46] ∧ normalized d.
Proof.
  unfold NormalizeDomain. set (w := TrimSuffix (ToLower v) [46]).
  destruct (_ || _) eqn:E; [done|]. bools.
  destruct (check_labels (Split w 46)) eqn:C; [|done]. intros [= <-]. split; [done|].
  split; [|by apply check_labels_spec; rewrite C].
  destruct w; [done|]. simpl in *. lia.
Qed.

Lemma normalized_fix d : normalized d → NormalizeDomain d = Ok d.
Proof.
  intros [Hlen Hls]. unfold NormalizeDomain.
  rewrite ToLower_normalized, TrimSuffix_normalized by done.
  rewrite bool_decide_false by (intros ->; simpl in Hlen; lia). simpl.
  rewrite (proj2 (Nat.ltb_ge 253 (length d))) by lia.
  apply check_labels_spec in Hls. by destruct (check_labels (Split d 46)).
Qed.

#[export] Hint Resolve normalized_fix : go.

(** [NormalizeDomain] returns canonical names: what it returns is the input in
    lower case without one final dot, 1 to 253 bytes long and made of
    letter-digit-hyphen labels of 1 to 63 bytes that neither start nor end with a
    hyphen; and the names of that form are exactly those it returns unchanged. *)
Theorem NormalizeDomain_canonical (v : bytes) :
  (∀ d, NormalizeDomain v = Ok d → d = TrimSuffix (ToLower v) [46] ∧ normalized d) ∧
  (NormalizeDomain v = Ok v ↔ normalized v).
Proof.
  split; [apply NormalizeDomain_Ok|]. split; [|apply normalized_fix].
  intros H. by apply NormalizeDomain_Ok in H as [_ ?].
Qed.
