(* ===== verification/IPv4Tree.v ===== *)
(** * IPv4 policy: [internal/policy/ipv4.go]

    The binary prefix tree.  It is refined to the list of the prefixes that were
    added: a lookup returns the action of the longest prefix that contains the
    address, equal prefixes being merged with the precedence of [selectAction]. *)

From S2P Require Import Prelude GoStrings GoNet Domains.

(** ** The tree ([inil] is the nil pointer) *)

Inductive ipv4Node :=
| inil
| inode (zero one : ipv4Node) (action : Action).

Definition iaction (n : ipv4Node) : Action := match n with inil => Unknown | inode _ _ a => a end.

(** [(bytes[bitIndex/8] >> (7 - (bitIndex % 8))) & 1]; the address has four bytes. *)
Definition bit_at (bytes : bytes) (bitIndex : nat) : Z :=
  Z.land (Z.shiftr (nth (bitIndex / 8) bytes 0) (7 - Z.of_nat (bitIndex mod 8))) 1.

(** The bits the loops of [add] and [match] visit. *)
Definition bit_path (bytes : bytes) (n : nat) : list bool :=
  (λ i, negb (bit_at bytes i =? 0)) <$> seq 0 n.

Definition fresh (n : ipv4Node) : ipv4Node :=
  match n with inil => inode inil inil Unknown | _ => n end.

Fixpoint add_path (path : list bool) (action : Action) (node : ipv4Node) : ipv4Node :=
  match fresh node with
  | inil => inil
  | inode z o a =>
      match path with
      | [] => inode z o (selectAction a action)
      | false :: p => inode (add_path p action z) o a
      | true :: p => inode z (add_path p action o) a
      end
  end.

Definition ipv4Tree_add (tree : ipv4Node) (prefix : Prefix) (action : Action) : ipv4Node :=
  match As4 (paddr (Masked prefix)) with
  | Some bytes => add_path (bit_path bytes (Z.to_nat (pbits prefix))) action tree
  | None => tree
  end.

Fixpoint match_path (path : list bool) (node : ipv4Node) (result : Action) : Action :=
  match path with
  | [] => result
  | b :: p =>
      match (match node with inil => inil | inode z o _ => if b : bool then o else z end) with
      | inil => result
      | next => match_path p next
                  (if negb (bool_decide (iaction next = Unknown)) then iaction next else result)
      end
  end.

Definition ipv4Tree_match (tree : ipv4Node) (addr : Addr) : Action * bool :=
  if negb (Is4 addr) || Is4In6 addr then (Unknown, false) else
  match As4 addr with
  | Some bytes =>
      let result := match_path (bit_path bytes 32) tree (iaction tree) in
      (result, negb (bool_decide (result = Unknown)))
  | None => (Unknown, false)
  end.

(** ** Specification: longest prefix match over a rule list *)

Record ipRule := mkIpRule { ir_prefix : Prefix; ir_action : Action }.

Definition add_ip_rule (tree : ipv4Node) (r : ipRule) : ipv4Node :=
  ipv4Tree_add tree (ir_prefix r) (ir_action r).

(** [netip.Prefix.Contains] for IPv4: the masked addresses agree. *)
Definition Contains4 (p : Prefix) (a : Addr) : bool :=
  match As4 (paddr p), As4 a with
  | Some pb, Some ab => bool_decide (mask_bytes (pbits p) pb = mask_bytes (pbits p) ab)
  | _, _ => false
  end.

(** The merged action of the rules of length [n] that contain the address. *)
Definition action_of_length (rules : list ipRule) (a : Addr) (n : nat) : Action :=
  foldl (λ acc r, if Contains4 (ir_prefix r) a && (pbits (ir_prefix r) =? Z.of_nat n)
                  then selectAction acc (ir_action r) else acc) Unknown rules.

(** The longest length with an action, from [n] down. *)
Fixpoint longest (rules : list ipRule) (a : Addr) (n : nat) : Action :=
  match action_of_length rules a n with
  | Unknown => match n with O => Unknown | S m => longest rules a m end
  | act => act
  end.
Definition longest_prefix_action (rules : list ipRule) (a : Addr) : Action :=
  longest rules a 32.

(** An IPv4 prefix as [netip.ParsePrefix] and the dataset reader produce it. *)
Definition byte4 (a : Addr) : Prop :=
  match a with
  | Addr4 a b c d => 0 ≤ a < 256 ∧ 0 ≤ b < 256 ∧ 0 ≤ c < 256 ∧ 0 ≤ d < 256
  | _ => False
  end.
Definition prefix4_ok (p : Prefix) : Prop := byte4 (paddr p) ∧ 0 ≤ pbits p ≤ 32.

(** ** The action stored at a path *)

Fixpoint action_at (path : list bool) (n : ipv4Node) : Action :=
  match n, path with
  | inil, _ => Unknown
  | inode _ _ a, [] => a
  | inode z o _, b :: p => action_at p (if b : bool then o else z)
  end.

Lemma action_at_inil p : action_at p inil = Unknown.
Proof. by destruct p. Qed.

Lemma action_at_nil n : action_at [] n = iaction n.
Proof. by destruct n. Qed.

Lemma action_at_add p a n q :
  action_at q (add_path p a n) =
  if decide (p = q) then selectAction (action_at q n) a else action_at q n.
Proof.
  revert n q. induction p as [|b p IH]; intros n q.
  - destruct n as [|z o act], q as [|c q]; simpl; try done.
    by destruct c; rewrite ?action_at_inil.
  - destruct n as [|z o act], b, q as [|c q]; simpl; try done; destruct c; simpl;
      rewrite ?IH, ?action_at_inil; repeat case_decide; congruence || done.
Qed.

(** Walking the tree visits the actions stored at the prefixes of the path; the
    last one that is set wins. *)
Definition keep (a r : Action) : Action := if decide (a = Unknown) then r else a.

Lemma keep_code a r : (if negb (bool_decide (a = Unknown)) then a else r) = keep a r.
Proof. by destruct a. Qed.

Fixpoint last_action (path : list bool) (at_ : list bool → Action) (r : Action) : Action :=
  match path with
  | [] => r
  | b :: p => last_action p (λ q, at_ (b :: q)) (keep (at_ [b]) r)
  end.

Lemma last_action_none p r : last_action p (λ _, Unknown) r = r.
Proof. revert r. induction p as [|b p IH]; intros r; simpl; [done|apply IH]. Qed.

Lemma last_action_ext p f g r : (∀ q, f q = g q) → last_action p f r = last_action p g r.
Proof.
  revert f g r. induction p as [|b p IH]; intros f g r H; simpl; [done|].
  rewrite H. apply IH. intros. apply H.
Qed.

Lemma match_path_last p n r : match_path p n r = last_action p (λ q, action_at q n) r.
Proof.
  revert n r. induction p as [|b p IH]; intros n r; [done|].
  cbn [match_path last_action].
  set (next := match n with inil => inil | inode z o _ => if b then o else z end).
  assert (Hat : ∀ q, action_at (b :: q) n = action_at q next).
  { intros q. subst next. destruct n; simpl; [by rewrite action_at_inil|done]. }
  rewrite Hat, (last_action_ext p _ (λ q, action_at q next)) by (intros; apply Hat).
  rewrite action_at_nil. destruct next as [|z o a] eqn:E.
  - rewrite (last_action_ext p _ (λ _, Unknown)) by (intros; apply action_at_inil).
    by rewrite last_action_none.
  - by rewrite keep_code, IH.
Qed.

(** The last action along a path, from its end. *)
Lemma last_action_snoc p b f r :
  last_action (p ++ [b]) f r = keep (f (p ++ [b])) (last_action p f r).
Proof.
  revert f r. induction p as [|c p IH]; intros f r; simpl; [done|]. apply IH.
Qed.

(** ** Bits and masks *)

Definition bits8 (b : Z) : list bool :=
  (λ j, negb (Z.land (Z.shiftr b (7 - j)) 1 =? 0)) <$> [0; 1; 2; 3; 4; 5; 6; 7].

Definition of_bits (l : list bool) : Z := foldl (λ acc (b : bool), acc * 2 + (if b then 1 else 0)) 0 l.

(** A statement about every byte and every clamped length, by evaluation. *)
Lemma byte_mask_check :
  forallb (λ k, forallb (λ b,
      (mask_byte (Z.of_nat k) b =? of_bits (take k (bits8 b) ++ replicate (8 - k) false))
      && bool_decide (take k (bits8 (mask_byte (Z.of_nat k) b)) = take k (bits8 b))
      && is_byte (mask_byte (Z.of_nat k) b))
    (Z.of_nat <$> seq 0 256)) (seq 0 9) = true.
Proof. vm_compute. done. Qed.

Lemma byte_mask_ok k b : (k ≤ 8)%nat → 0 ≤ b < 256 →
  mask_byte (Z.of_nat k) b = of_bits (take k (bits8 b) ++ replicate (8 - k) false) ∧
  take k (bits8 (mask_byte (Z.of_nat k) b)) = take k (bits8 b) ∧
  0 ≤ mask_byte (Z.of_nat k) b < 256.
Proof.
  intros Hk Hb. pose proof byte_mask_check as H.
  rewrite forallb_Forall, list.Forall_forall in H.
  specialize (H k). rewrite forallb_Forall, list.Forall_forall in H.
  specialize (H ltac:(apply elem_of_seq; lia) b). bools.
  assert (Hin : b ∈ Z.of_nat <$> seq 0 256).
  { apply list_elem_of_fmap. exists (Z.to_nat b). rewrite elem_of_seq. lia. }
  specialize (H Hin). bools. by rewrite <- is_byte_spec.
Qed.

Lemma mask_byte_clamp k b : mask_byte k b = mask_byte (Z.of_nat (Z.to_nat k `min` 8)) b.
Proof. unfold mask_byte. do 4 f_equal. lia. Qed.

Lemma take_clamp {A} k (l : list A) : length l = 8%nat → take k l = take (k `min` 8) l.
Proof. intros. destruct (decide (k ≤ 8)%nat); [by rewrite Nat.min_l|].
  rewrite Nat.min_r by lia. by rewrite !take_ge by lia. Qed.

(** Two bytes have the same top bits exactly when they have the same mask. *)
Lemma mask_byte_eq k b c : 0 ≤ b < 256 → 0 ≤ c < 256 →
  mask_byte k b = mask_byte k c ↔ take (Z.to_nat k) (bits8 b) = take (Z.to_nat k) (bits8 c).
Proof.
  intros Hb Hc. rewrite (mask_byte_clamp k b), (mask_byte_clamp k c).
  rewrite (take_clamp (Z.to_nat k) (bits8 b)), (take_clamp (Z.to_nat k) (bits8 c)) by done.
  assert (Z.to_nat k `min` 8 ≤ 8)%nat as Hk by lia.
  revert Hk. generalize (Z.to_nat k `min` 8)%nat as j. intros j Hk.
  destruct (byte_mask_ok j b Hk Hb) as (H1 & H2 & _), (byte_mask_ok j c Hk Hc) as (H3 & H4 & _).
  split; intros H; [by rewrite <- H2, <- H4, H|by rewrite H1, H3, H].
Qed.

Lemma length_bit_path l n : length (bit_path l n) = n.
Proof. unfold bit_path. by rewrite length_fmap, length_seq. Qed.

Lemma take_bit_path l k n : (k ≤ n)%nat → take k (bit_path l n) = bit_path l k.
Proof. intros. unfold bit_path. rewrite <- fmap_take, take_seq. by rewrite Nat.min_l. Qed.

Lemma bit_path_32 a b c d :
  bit_path [a; b; c; d] 32 = bits8 a ++ bits8 b ++ bits8 c ++ bits8 d.
Proof. done. Qed.

Lemma take_app_eq {A} k (l1 l2 m1 m2 : list A) :
  length l1 = 8%nat → length m1 = 8%nat →
  take k (l1 ++ l2) = take k (m1 ++ m2) ↔
  take k l1 = take k m1 ∧ take (k - 8) l2 = take (k - 8) m2.
Proof.
  intros H1 H2. rewrite !take_app, H1, H2. split; [|by intros [-> ->]].
  intros H. apply app_inj_1 in H; [done|]. rewrite !length_take. lia.
Qed.

(** A path prefix agrees exactly when the masked addresses agree. *)
Lemma bit_path_eq k a b c d a' b' c' d' :
  byte4 (Addr4 a b c d) → byte4 (Addr4 a' b' c' d') → 0 ≤ k ≤ 32 →
  bit_path [a; b; c; d] (Z.to_nat k) = bit_path [a'; b'; c'; d'] (Z.to_nat k) ↔
  mask_bytes k [a; b; c; d] = mask_bytes k [a'; b'; c'; d'].
Proof.
  intros (? & ? & ? & ?) (? & ? & ? & ?) Hk.
  rewrite <- !(take_bit_path _ (Z.to_nat k) 32), !bit_path_32 by lia.
  rewrite !take_app_eq by done. cbn [mask_bytes].
  pose proof (mask_byte_eq k a a') as Ha. pose proof (mask_byte_eq (k - 8) b b') as Hb.
  pose proof (mask_byte_eq (k - 8 - 8) c c') as Hc. pose proof (mask_byte_eq (k - 8 - 8 - 8) d d') as Hd.
  replace (Z.to_nat (k - 8)) with (Z.to_nat k - 8)%nat in Hb by lia.
  replace (Z.to_nat (k - 8 - 8)) with (Z.to_nat k - 8 - 8)%nat in Hc by lia.
  replace (Z.to_nat (k - 8 - 8 - 8)) with (Z.to_nat k - 8 - 8 - 8)%nat in Hd by lia.
  rewrite <- Ha, <- Hb, <- Hc, <- Hd by done.
  split; [by intros (-> & -> & -> & ->)|by intros [= -> -> -> ->]].
Qed.

(** ** The tree refines the rule list *)

Definition emptyTree : ipv4Node := inode inil inil Unknown.

Lemma mask_byte_bound k b : 0 ≤ b < 256 → 0 ≤ mask_byte k b < 256.
Proof.
  intros. rewrite mask_byte_clamp. apply byte_mask_ok; [lia|done].
Qed.

Lemma mask_bytes_idem k l : mask_bytes k (mask_bytes k l) = mask_bytes k l.
Proof.
  revert k. induction l as [|b l IH]; intros k; [done|]. simpl. rewrite IH. f_equal.
  unfold mask_byte. by rewrite <- Z.land_assoc, Z.land_diag.
Qed.

(** The path added for a prefix, compared with a prefix of an address's path. *)
Lemma added_path_eq p a n bytes :
  prefix4_ok p → byte4 a → (n ≤ 32)%nat → As4 a = Some bytes →
  ∃ pb, As4 (paddr (Masked p)) = Some pb ∧
  (bit_path pb (Z.to_nat (pbits p)) = bit_path bytes n ↔
   Contains4 p a && (pbits p =? Z.of_nat n) = true).
Proof.
  destruct p as [[|x y z w|] k]; intros [Hp Hk] Ha Hn Hb; simpl in Hp, Hk; try done.
  destruct a as [|a b c d|]; try done. simpl in Hb. simplify_eq.
  unfold Masked, prefix_IsValid. cbn [paddr pbits].
  rewrite (proj2 (Z.leb_le 0 k)) by lia. cbn [mask_bytes paddr As4].
  eexists. split; [done|].
  rewrite andb_true_iff, Z.eqb_eq. unfold Contains4. cbn [paddr pbits As4].
  rewrite bool_decide_eq_true. rewrite <- (mask_bytes_idem k [x; y; z; w]).
  change (mask_bytes k (mask_bytes k [x; y; z; w])) with
    (mask_bytes k [mask_byte k x; mask_byte (k - 8) y; mask_byte (k - 8 - 8) z;
                   mask_byte (k - 8 - 8 - 8) w]).
  rewrite <- bit_path_eq;
    [|simpl in *; repeat split; apply mask_byte_bound; lia|done|done].
  split.
  - intros H. assert (Z.to_nat k = n) as <-
      by (apply (f_equal length) in H; by rewrite !length_bit_path in H).
    split; [done|lia].
  - intros [H ->]. by rewrite Nat2Z.id in *.
Qed.

Lemma action_at_rules rules a bytes n :
  Forall (λ r, prefix4_ok (ir_prefix r)) rules → byte4 a → As4 a = Some bytes → (n ≤ 32)%nat →
  action_at (bit_path bytes n) (foldl add_ip_rule emptyTree rules) = action_of_length rules a n.
Proof.
  intros Hr Ha Hb Hn. unfold action_of_length. induction rules as [|r rules IH] using rev_ind.
  - simpl. by destruct (bit_path bytes n) as [|[] ?]; simpl; rewrite ?action_at_inil.
  - apply Forall_app in Hr as [Hr Hp]. rewrite Forall_singleton in Hp. rewrite !foldl_snoc.
    unfold add_ip_rule at 1, ipv4Tree_add.
    destruct (added_path_eq (ir_prefix r) a n bytes) as (pb & -> & Heq); try done.
    rewrite action_at_add, IH by done.
    destruct (Contains4 _ _ && _) eqn:E.
    + by rewrite decide_True by (by apply Heq).
    + rewrite decide_False; [done|]. rewrite Heq. done.
Qed.

Lemma bit_path_S l n : bit_path l (S n) = bit_path l n ++ [negb (bit_at l n =? 0)].
Proof. unfold bit_path. by rewrite seq_S, fmap_app. Qed.

Lemma longest_keep rules a n :
  longest rules a (S n) = keep (action_of_length rules a (S n)) (longest rules a n).
Proof. simpl. by destruct (action_of_length rules a (S n)). Qed.

Lemma match_longest rules a bytes n :
  Forall (λ r, prefix4_ok (ir_prefix r)) rules → byte4 a → As4 a = Some bytes → (n ≤ 32)%nat →
  let tree := foldl add_ip_rule emptyTree rules in
  last_action (bit_path bytes n) (λ q, action_at q tree) (iaction tree) = longest rules a n.
Proof.
  intros Hr Ha Hb Hn tree. induction n as [|n IH].
  - cbn [bit_path seq fmap list_fmap last_action longest]. rewrite <- action_at_nil.
    change [] with (bit_path bytes 0). unfold tree.
    rewrite (action_at_rules rules a bytes 0) by (done || lia).
    by destruct (action_of_length rules a 0).
  - rewrite bit_path_S, last_action_snoc, <- bit_path_S, IH, longest_keep by lia.
    unfold tree. by rewrite (action_at_rules rules a bytes (S n)).
Qed.

(** A lookup in a tree built by additions is the longest prefix match. *)
Lemma tree_refines_longest rules a :
  Forall (λ r, prefix4_ok (ir_prefix r)) rules → byte4 a →
  (ipv4Tree_match (foldl add_ip_rule emptyTree rules) a).1 = longest_prefix_action rules a.
Proof.
  intros Hr Ha. unfold ipv4Tree_match, longest_prefix_action.
  destruct a as [|x y z w|]; try done. cbn [Is4 Is4In6 negb orb As4 fst].
  rewrite match_path_last. by apply match_longest.
Qed.

Lemma ipv4Tree_match_ok tree a :
  (ipv4Tree_match tree a).2 = negb (bool_decide ((ipv4Tree_match tree a).1 = Unknown)).
Proof. unfold ipv4Tree_match. repeat break_match; done. Qed.

(** ** Rules in the documented order: proxy before direct *)

(** A rule of the action covers the address. *)
Definition ip_covered (rules : list ipRule) (x : Action) (a : Addr) : bool :=
  existsb (λ r, Contains4 (ir_prefix r) a && bool_decide (ir_action r = x)) rules.

(** No direct rule is more specific than every proxy rule that covers the same
    address. *)
Definition proxy_as_specific (rules : list ipRule) (a : Addr) : Prop :=
  ∀ d, d ∈ rules → Contains4 (ir_prefix d) a = true → ir_action d = Direct →
    ip_covered rules Proxy a = true →
    ∃ p, p ∈ rules ∧ Contains4 (ir_prefix p) a = true ∧ ir_action p = Proxy ∧
         pbits (ir_prefix d) ≤ pbits (ir_prefix p).

Lemma ip_covered_true rules x a :
  ip_covered rules x a = true ↔
  ∃ r, r ∈ rules ∧ Contains4 (ir_prefix r) a = true ∧ ir_action r = x.
Proof.
  unfold ip_covered. rewrite existsb_exists. setoid_rewrite andb_true_iff.
  setoid_rewrite bool_decide_eq_true. setoid_rewrite list_elem_of_In. naive_solver.
Qed.

Lemma action_of_length_Proxy rules a n :
  action_of_length rules a n = Proxy ↔
  ∃ r, r ∈ rules ∧ Contains4 (ir_prefix r) a = true ∧ ir_action r = Proxy ∧ pbits (ir_prefix r) = Z.of_nat n.
Proof.
  unfold action_of_length. induction rules as [|r rules IH] using rev_ind.
  - split; [done|]. intros (r & Hr & _). by apply not_elem_of_nil in Hr.
  - rewrite foldl_snoc. setoid_rewrite elem_of_app. setoid_rewrite list_elem_of_singleton.
    destruct (_ && _) eqn:E; [apply andb_true_iff in E as [E1 E2%Z.eqb_eq]; rewrite selectAction_Proxy, IH|rewrite IH].
    + split.
      * intros [(r' & ? & ? & ? & ?)|?]; eauto 8.
      * intros (r' & [Hr| ->] & ? & ? & ?); [left; eauto 6|by right].
    + split; [intros (r' & ? & ? & ? & ?); eauto 8|]. intros (r' & [Hr| ->] & Hc & Ha & Hb); [by eauto 6|].
      by rewrite Hc, Hb, Z.eqb_refl in E.
Qed.

Lemma action_of_length_Unknown rules a n :
  action_of_length rules a n = Unknown ↔
  ∀ r, r ∈ rules → Contains4 (ir_prefix r) a = true → pbits (ir_prefix r) = Z.of_nat n → ir_action r = Unknown.
Proof.
  unfold action_of_length. induction rules as [|r rules IH] using rev_ind.
  - split; [|done]. intros _ r Hr. by apply not_elem_of_nil in Hr.
  - rewrite foldl_snoc. setoid_rewrite elem_of_app. setoid_rewrite list_elem_of_singleton.
    destruct (_ && _) eqn:E; [apply andb_true_iff in E as [E1 E2%Z.eqb_eq]; rewrite selectAction_Unknown, IH|rewrite IH].
    + split.
      * intros [H ?] r' [Hr| ->] ??; [by apply H|done].
      * intros H. split; [intros r' ?; apply H; by left|by apply H; [right|..]].
    + split; [|intros H r' ?; apply H; by left]. intros H r' [Hr| ->] Hc Hb; [by eauto|].
      by rewrite Hc, Hb, Z.eqb_refl in E.
Qed.

Lemma action_of_length_Direct rules a n :
  action_of_length rules a n = Direct →
  ∃ r, r ∈ rules ∧ Contains4 (ir_prefix r) a = true ∧ ir_action r = Direct ∧ pbits (ir_prefix r) = Z.of_nat n.
Proof.
  intros H.
  destruct (decide (Exists (λ r, Contains4 (ir_prefix r) a = true ∧ ir_action r = Direct ∧
                                 pbits (ir_prefix r) = Z.of_nat n) rules)) as [Hex|Hex].
  - by apply list.Exists_exists in Hex.
  - assert (HU : action_of_length rules a n ≠ Unknown) by congruence. destruct HU.
    apply action_of_length_Unknown. intros r Hr Hc Hb. destruct (ir_action r) eqn:E; [done| |].
    + destruct Hex. apply list.Exists_exists. eauto.
    + assert (action_of_length rules a n = Proxy) by (apply action_of_length_Proxy; eauto 6). congruence.
Qed.

(** The length that decides, if any. *)
Lemma longest_decided rules a n :
  match longest rules a n with
  | Unknown => ∀ j, (j ≤ n)%nat → action_of_length rules a j = Unknown
  | x => ∃ k, (k ≤ n)%nat ∧ action_of_length rules a k = x ∧
              ∀ j, (k < j ≤ n)%nat → action_of_length rules a j = Unknown
  end.
Proof.
  induction n as [|n IH].
  - simpl. destruct (action_of_length rules a 0) eqn:E; [|exists 0%nat..];
      try (split; [done|]; split; [done|]; lia). intros j Hj. by replace j with 0%nat by lia.
  - rewrite longest_keep. destruct (action_of_length rules a (S n)) eqn:E; simpl.
    + assert (Hj : ∀ j, (j ≤ S n)%nat → j = S n ∨ (j ≤ n)%nat) by lia.
      destruct (longest rules a n).
      * intros j [-> |?]%Hj; auto.
      * destruct IH as (k & ? & ? & Hk). exists k. split; [lia|]. split; [done|].
        intros j [? [-> |?]%Hj]; auto.
      * destruct IH as (k & ? & ? & Hk). exists k. split; [lia|]. split; [done|].
        intros j [? [-> |?]%Hj]; auto.
    + exists (S n). split; [done|]. split; [done|]. lia.
    + exists (S n). split; [done|]. split; [done|]. lia.
Qed.

(** The length of a covering rule is one the search looks at. *)
Lemma covering_length rules r :
  Forall (λ r, prefix4_ok (ir_prefix r)) rules → r ∈ rules →
  ∃ n, pbits (ir_prefix r) = Z.of_nat n ∧ (n ≤ 32)%nat.
Proof.
  intros Hok Hr. rewrite list.Forall_forall in Hok. destruct (Hok r Hr) as [_ Hb].
  exists (Z.to_nat (pbits (ir_prefix r))). lia.
Qed.

Lemma longest_prefix_documented rules a :
  Forall (λ r, prefix4_ok (ir_prefix r)) rules → proxy_as_specific rules a →
  longest_prefix_action rules a =
    if ip_covered rules Proxy a then Proxy else if ip_covered rules Direct a then Direct else Unknown.
Proof.
  intros Hok Hspec. unfold longest_prefix_action. pose proof (longest_decided rules a 32) as H.
  destruct (longest rules a 32).
  - assert (Hno : ∀ x, x ≠ Unknown → ip_covered rules x a = false).
    { intros x Hx. apply not_true_is_false. intros (r & Hr & Hc & Ha)%ip_covered_true.
      destruct (covering_length rules r Hok Hr) as (n & Hn & Hle).
      pose proof (proj1 (action_of_length_Unknown rules a n) (H n Hle) r Hr Hc Hn). congruence. }
    by rewrite !Hno.
  - destruct H as (k & Hk & Hd & Habove). apply action_of_length_Direct in Hd as Hex.
    destruct Hex as (d & Hd1 & Hd2 & Hd3 & Hd4).
    rewrite (proj2 (ip_covered_true rules Direct a)) by eauto.
    destruct (ip_covered rules Proxy a) eqn:HP; [exfalso|done].
    destruct (Hspec d Hd1 Hd2 Hd3 HP) as (p & Hp1 & Hp2 & Hp3 & Hp4).
    destruct (covering_length rules p Hok Hp1) as (m & Hm & Hle).
    assert (HPm : action_of_length rules a m = Proxy) by (apply action_of_length_Proxy; eauto 6).
    destruct (decide (m = k)) as [-> |Hne]; [congruence|].
    rewrite Habove in HPm by lia. done.
  - destruct H as (k & Hk & Hp & _). apply action_of_length_Proxy in Hp as (p & ? & ? & ? & _).
    by rewrite (proj2 (ip_covered_true rules Proxy a)) by eauto.
Qed.
