(* ===== verification/Sha256.v ===== *)
(** * SHA-256 ([crypto/sha256], FIPS 180-4)

    The digest used by the dataset format and by certificate pinning, on byte
    sequences, so that files and pins can be computed in the model. *)

From S2P Require Import Prelude.

(** The constants as the standard defines them: the first 32 bits of the
    fractional parts of the cube roots (round constants) and of the square roots
    (initial state) of the first primes. *)
Definition is_prime (p : Z) : bool :=
  forallb (λ d, negb (p mod d =? 0)) (seqZ 2 (p - 2)).

Definition first_primes (n : nat) : list Z := take n (List.filter is_prime (seqZ 2 310)).

(** The integer cube root, one bit at a time from bit [n - 1] down. *)
Fixpoint cube_root (n : nat) (root v : Z) : Z :=
  match n with
  | O => root
  | S m =>
      let next := root + 2 ^ Z.of_nat m in
      cube_root m (if next ^ 3 <=? v then next else root) v
  end.

Definition sha_K : list Z :=
  Eval vm_compute in (λ p, u32 (cube_root 36 0 (p * 2 ^ 96))) <$> first_primes 64.

Record sha_state := mkSha { sA : Z; sB : Z; sC : Z; sD : Z; sE : Z; sF : Z; sG : Z; sH : Z }.

Definition sha_init : sha_state :=
  Eval vm_compute in
    match (λ p, u32 (Z.sqrt (p * 2 ^ 64))) <$> first_primes 8 with
    | [a; b; c; d; e; f; g; h] => mkSha a b c d e f g h
    | _ => mkSha 0 0 0 0 0 0 0 0
    end.

Definition rotr (x n : Z) : Z := Z.lor (Z.shiftr x n) (u32 (Z.shiftl x (32 - n))).

Definition sha_round (s : sha_state) (kw : Z * Z) : sha_state :=
  let '(k, w) := kw in
  let S1 := Z.lxor (Z.lxor (rotr (sE s) 6) (rotr (sE s) 11)) (rotr (sE s) 25) in
  let ch := Z.lxor (Z.land (sE s) (sF s)) (Z.land (Z.lxor (sE s) 0xffffffff) (sG s)) in
  let t1 := u32 (sH s + S1 + ch + k + w) in
  let S0 := Z.lxor (Z.lxor (rotr (sA s) 2) (rotr (sA s) 13)) (rotr (sA s) 22) in
  let maj := Z.lxor (Z.lxor (Z.land (sA s) (sB s)) (Z.land (sA s) (sC s))) (Z.land (sB s) (sC s)) in
  let t2 := u32 (S0 + maj) in
  mkSha (u32 (t1 + t2)) (sA s) (sB s) (sC s) (u32 (sD s + t1)) (sE s) (sF s) (sG s).

(** The message schedule, newest word first. *)
Fixpoint sha_schedule (n : nat) (ws : list Z) : list Z :=
  match n with
  | O => reverse ws
  | S m =>
      let w2 := nth 1 ws 0 in let w7 := nth 6 ws 0 in
      let w15 := nth 14 ws 0 in let w16 := nth 15 ws 0 in
      let s1 := Z.lxor (Z.lxor (rotr w2 17) (rotr w2 19)) (Z.shiftr w2 10) in
      let s0 := Z.lxor (Z.lxor (rotr w15 7) (rotr w15 18)) (Z.shiftr w15 3) in
      sha_schedule m (u32 (s1 + w7 + s0 + w16) :: ws)
  end.

Fixpoint words (l : bytes) : list Z :=
  match l with
  | a :: b :: c :: d :: l' => (a * 2 ^ 24 + b * 2 ^ 16 + c * 2 ^ 8 + d) :: words l'
  | _ => []
  end.

Definition sha_block (s : sha_state) (block : bytes) : sha_state :=
  let w := sha_schedule 48 (reverse (words block)) in
  let r := foldl sha_round s (zip sha_K w) in
  mkSha (u32 (sA s + sA r)) (u32 (sB s + sB r)) (u32 (sC s + sC r)) (u32 (sD s + sD r))
        (u32 (sE s + sE r)) (u32 (sF s + sF r)) (u32 (sG s + sG r)) (u32 (sH s + sH r)).

Fixpoint sha_blocks (fuel : nat) (s : sha_state) (l : bytes) : sha_state :=
  match fuel, l with
  | S f, _ :: _ => sha_blocks f (sha_block s (take 64 l)) (drop 64 l)
  | _, _ => s
  end.

(** The message, a one bit, zeros up to 56 modulo 64, the length in bits. *)
Definition sha_pad (l : bytes) : bytes :=
  let n := Z.of_nat (length l) in
  l ++ [128] ++ replicate (Z.to_nat ((55 - n) mod 64)) 0
    ++ put_u32 (Z.shiftr (n * 8) 32) ++ put_u32 (u32 (n * 8)).

Definition Sum256 (l : bytes) : bytes :=
  let p := sha_pad l in
  let s := sha_blocks (length p) sha_init p in
  put_u32 (sA s) ++ put_u32 (sB s) ++ put_u32 (sC s) ++ put_u32 (sD s)
  ++ put_u32 (sE s) ++ put_u32 (sF s) ++ put_u32 (sG s) ++ put_u32 (sH s).

Lemma length_Sum256 l : length (Sum256 l) = 32%nat.
Proof. done. Qed.

Lemma Sum256_bytes l : Forall (λ b, is_byte b = true) (Sum256 l).
Proof. unfold Sum256, put_u32. simpl. repeat constructor; apply u8_byte. Qed.

(** The test vector of the standard. *)
Example Sum256_abc :
  Sum256 (str "abc") =
  [0xba; 0x78; 0x16; 0xbf; 0x8f; 0x01; 0xcf; 0xea; 0x41; 0x41; 0x40; 0xde; 0x5d; 0xae; 0x22; 0x23;
   0xb0; 0x03; 0x61; 0xa3; 0x96; 0x17; 0x7a; 0x9c; 0xb4; 0x10; 0xff; 0x61; 0xf2; 0x00; 0x15; 0xad].
Proof. vm_compute. done. Qed.
