(* ===== verification/Dataset.v ===== *)
(** * The routing data file: [internal/dataset/format.go]

    The binary format that carries the China domains and IPv4 prefixes: writer,
    reader, and the proofs that the reader never panics, accepts every file the
    writer produces with the data unchanged, and accepts nothing else. *)

From S2P Require Import Prelude GoStrings GoNet IPv4Tree Sha256.

Definition magic : bytes := str "H2RDATA1".

Record Domain := mkDomain { Name : bytes; Exact : bool }.
Record Data := mkData { Domains : list Domain; Prefixes : list Prefix }.

Definition name_char (c : Z) : bool :=
  in_range 97 122 c || in_range 48 57 c || (c =? 46) || (c =? 45).

Definition validateDomain (domain : Domain) : result unit :=
  if (length (Name domain) =? 0)%nat || (65535 <? Z.of_nat (length (Name domain)))
  then errorf "dataset domain length is invalid"
  else if forallb name_char (runes (Name domain)) then Ok ()
  else errorf "dataset domain is not lower-case ASCII".

(** [writeUint16] and [writeUint32] append to the payload buffer. *)
Definition writeUint16 (buffer : bytes) (value : Z) : bytes := buffer ++ put_u16 (u16 value).
Definition writeUint32 (buffer : bytes) (value : Z) : bytes := buffer ++ put_u32 (u32 value).

Fixpoint write_domains (buffer : bytes) (ds : list Domain) : result bytes :=
  match ds with
  | [] => Ok buffer
  | d :: ds' =>
      let? _ := validateDomain d in
      let kind := if Exact d then 1 else 0 in
      let buffer := writeUint16 (buffer ++ [kind]) (Z.of_nat (length (Name d))) in
      write_domains (buffer ++ Name d) ds'
  end.

Fixpoint write_prefixes (buffer : bytes) (ps : list Prefix) : result bytes :=
  match ps with
  | [] => Ok buffer
  | p :: ps' =>
      if negb (prefix_IsValid p) || negb (Is4 (paddr p)) || Is4In6 (paddr p)
      then errorf "invalid IPv4 prefix"
      else match As4 (paddr p) with
           | Some addr => write_prefixes (buffer ++ addr ++ [u8 (pbits p)]) ps'
           | None => errorf "invalid IPv4 prefix"
           end
  end.

Definition write_payload (data : Data) : result bytes :=
  if (2 ^ 32 - 1 <? Z.of_nat (length (Domains data)))
     || (2 ^ 32 - 1 <? Z.of_nat (length (Prefixes data)))
  then errorf "dataset has too many entries" else
  let payload := writeUint32 magic (Z.of_nat (length (Domains data))) in
  let? payload := write_domains payload (Domains data) in
  write_prefixes (writeUint32 payload (Z.of_nat (length (Prefixes data)))) (Prefixes data).

(** [Write]: the chunks handed to the writer, and the error returned.  [write]
    is the writer's verdict on a chunk. *)
Definition Write (write : bytes → option error) (data : Data) : list bytes * option error :=
  match write_payload data with
  | Err e => ([], Some e)
  | Ok payload =>
      match write payload with
      | Some e => ([payload], Some e)
      | None => ([payload; Sum256 payload], write (Sum256 payload))
      end
  end.

(** ** The reader: [None] is a panic *)

Definition readUint32 (raw : bytes) (offset : nat) : option (option (Z * nat)) :=
  if (length raw <? offset + 4)%nat then Some None
  else s ← slice raw offset (offset + 4);
       v ← be_u32 s;
       Some (Some (v, (offset + 4)%nat)).

(** One iteration of the domain loop. *)
Definition read_domain (payload : bytes) (offset : nat) : option (result (Domain * nat)) :=
  if (length payload <? offset + 3)%nat then Some (errorf "dataset domain is truncated") else
  kind ← payload !! offset;
  let offset := S offset in
  s ← slice payload offset (offset + 2);
  v ← be_u16 s;
  let length_ := Z.to_nat v in
  let offset := (offset + 2)%nat in
  if (negb (kind =? 0) && negb (kind =? 1)) || (length_ =? 0)%nat
     || (length payload <? offset + length_)%nat
  then Some (errorf "dataset domain entry is invalid") else
  name ← slice payload offset (offset + length_);
  let domain := mkDomain name (kind =? 1) in
  Some (let? _ := validateDomain domain in Ok (domain, (offset + length_)%nat)).

Definition read_prefix (payload : bytes) (offset : nat) : option (result (Prefix * nat)) :=
  if (length payload <? offset + 5)%nat then Some (errorf "dataset prefix is truncated") else
  s ← slice payload offset (offset + 4);
  bits ← payload !! (offset + 4)%nat;
  match s with
  | [a; b; c; d] =>
      if 32 <? bits then Some (errorf "dataset prefix bits are invalid")
      else Some (Ok (PrefixFrom (Addr4 a b c d) bits, (offset + 5)%nat))
  | _ => None
  end.

(** A counted loop of the reader.  An iteration consumes at least one byte, so
    the length of the payload bounds the iterations; fuel [S (length payload)]
    is never exhausted. *)
Fixpoint read_loop {A} (item : nat → option (result (A * nat))) (fuel : nat) (count : Z)
    (offset : nat) : option (result (list A * nat)) :=
  if count <=? 0 then Some (Ok ([], offset)) else
  match fuel with
  | O => None
  | S f =>
      r ← item offset;
      match r with
      | Err e => Some (Err e)
      | Ok (x, offset) =>
          rest ← read_loop item f (count - 1) offset;
          Some (let? (xs, offset) := rest in Ok (x :: xs, offset))
      end
  end.

Definition read_payload (payload : bytes) : option (result Data) :=
  m ← slice payload 0 (length magic);
  if negb (bool_decide (m = magic)) then Some (errorf "dataset magic mismatch") else
  dc ← readUint32 payload (length magic);
  match dc with
  | None => Some (errorf "dataset domain count is truncated")
  | Some (domainCount, offset) =>
      ds ← read_loop (read_domain payload) (S (length payload)) domainCount offset;
      match ds with
      | Err e => Some (Err e)
      | Ok (domains, offset) =>
          pc ← readUint32 payload offset;
          match pc with
          | None => Some (errorf "dataset prefix count is truncated")
          | Some (prefixCount, offset) =>
              ps ← read_loop (read_prefix payload) (S (length payload)) prefixCount offset;
              match ps with
              | Err e => Some (Err e)
              | Ok (prefixes, offset) =>
                  if negb (offset =? length payload)%nat
                  then Some (errorf "dataset has trailing payload")
                  else Some (Ok (mkData domains prefixes))
              end
          end
      end
  end.

(** [Read] on the outcome of [io.ReadAll].  The two [make] calls are sized by the
    counts of the file: at most [2^32 - 1] entries of 32 bytes, below the
    runtime's limit of [2^48] bytes on the 64-bit targets the project builds for,
    so they do not panic; running out of memory is not modelled. *)
Definition Read (input : result bytes) : option (result Data) :=
  match input with
  | Err e => Some (Err e)
  | Ok raw =>
      if (length raw <? length magic + 4 + 4 + 32)%nat
      then Some (errorf "dataset is too short") else
      payload ← slice raw 0 (length raw - 32);
      expectedSum ← slice raw (length raw - 32) (length raw);
      if negb (bool_decide (Sum256 payload = expectedSum))
      then Some (errorf "dataset checksum mismatch")
      else read_payload payload
  end.

(** [Load]: the outcome of opening the file, then of reading it. *)
Definition Load (open_ : option error) (contents : result bytes) : option (result Data) :=
  match open_ with
  | Some e => Some (Err (EWrap "open data" e))
  | None => Read contents
  end.

Example dataset_roundtrip_small :
  let data := mkData [mkDomain (str "cn") false; mkDomain (str "a.example") true]
                     [mkPrefix (Addr4 1 0 1 0) 24] in
  Read (Ok (mjoin (Write (λ _, None) data).1)) = Some (Ok data).
Proof. vm_compute. done. Qed.

(** ** The reader does not panic *)

Lemma readUint32_total raw offset : is_Some (readUint32 raw offset).
Proof.
  unfold readUint32. destruct (_ <? _)%nat eqn:E; [eauto|]. bools.
  destruct (slice_is_Some raw offset (offset + 4)) as [s Hs]; [lia|lia|]. rewrite Hs. simpl.
  apply slice_inv in Hs as (_ & _ & _ & Hl). replace (offset + 4 - offset)%nat with 4%nat in Hl by lia.
  destruct s as [|? [|? [|? [|? ?]]]]; simpl in Hl; try lia. simpl. eauto.
Qed.

(** What an iteration of a reader loop guarantees: an answer, and progress. *)
Definition item_ok {A} (item : nat → option (result (A * nat))) (len : nat) : Prop :=
  ∀ offset, ∃ r, item offset = Some r ∧
    ∀ x offset', r = Ok (x, offset') → (offset < offset' ≤ len)%nat.

Lemma read_loop_S {A} (item : nat → option (result (A * nat))) f count offset :
  read_loop item (S f) count offset =
  if count <=? 0 then Some (Ok ([], offset)) else
  r ← item offset;
  match r with
  | Err e => Some (Err e)
  | Ok (x, offset) =>
      rest ← read_loop item f (count - 1) offset;
      Some (let? (xs, offset) := rest in Ok (x :: xs, offset))
  end.
Proof. done. Qed.

#[local] Arguments read_loop : simpl never.
#[local] Arguments Nat.add : simpl never.
#[local] Arguments Nat.ltb : simpl never.

Ltac item_err := eexists; split; [reflexivity|intros ? ? [=]].

Lemma read_domain_total payload : item_ok (read_domain payload) (length payload).
Proof.
  intros offset. unfold read_domain.
  destruct (_ <? _)%nat eqn:E; [item_err|]. bools.
  destruct (lookup_lt_is_Some_2 payload offset) as [kind ->]; [lia|]. simpl.
  destruct (slice_is_Some payload (S offset) (S offset + 2)) as [s Hs]; [lia|lia|].
  simpl in Hs. rewrite Hs. simpl. apply slice_inv in Hs as (_ & _ & _ & Hl).
  destruct s as [|? [|? ?]]; simpl in Hl; try lia. simpl.
  destruct (_ || _ || _) eqn:E2; [item_err|]. bools.
  match goal with |- context [slice payload ?a ?b] =>
    destruct (slice_is_Some payload a b) as [name ->]; [lia|lia|] end. simpl.
  destruct (validateDomain _); eexists; (split; [done|]); intros; simplify_eq; lia.
Qed.

Lemma read_prefix_total payload : item_ok (read_prefix payload) (length payload).
Proof.
  intros offset. unfold read_prefix.
  destruct (_ <? _)%nat eqn:E; [item_err|]. bools.
  destruct (slice_is_Some payload offset (offset + 4)) as [s Hs]; [lia|lia|]. rewrite Hs. simpl.
  destruct (lookup_lt_is_Some_2 payload (offset + 4)) as [bits ->]; [lia|]. simpl.
  apply slice_inv in Hs as (_ & _ & _ & Hl).
  destruct s as [|? [|? [|? [|? [|? ?]]]]]; simpl in Hl; try lia.
  destruct (32 <? bits); eexists; (split; [done|]); intros; simplify_eq; lia.
Qed.

Lemma read_loop_total {A} (item : nat → option (result (A * nat))) len fuel count offset :
  item_ok item len → (len - offset < fuel)%nat → is_Some (read_loop item fuel count offset).
Proof.
  intros Hitem. revert count offset. induction fuel as [|f IH]; intros count offset Hf; [lia|].
  rewrite read_loop_S. destruct (count <=? 0); [eauto|].
  destruct (Hitem offset) as (r & -> & Hr). simpl. destruct r as [[x o]|e]; [|eauto].
  specialize (Hr x o eq_refl). destruct (IH (count - 1) o) as [rest ->]; [lia|]. simpl. eauto.
Qed.

Lemma read_payload_total payload : (8 ≤ length payload)%nat → is_Some (read_payload payload).
Proof.
  intros Hlen. unfold read_payload. rewrite slice_Some by (simpl; lia). simpl.
  destruct (negb _); [eauto|].
  destruct (readUint32_total payload 8) as [[[dc off]|] ->]; simpl; [|eauto].
  destruct (read_loop_total (read_domain payload) (length payload) (S (length payload)) dc off)
    as [[[ds off']|] ->]; [apply read_domain_total|lia| |simpl; eauto]. simpl.
  destruct (readUint32_total payload off') as [[[pc off2]|] ->]; simpl; [|eauto].
  destruct (read_loop_total (read_prefix payload) (length payload) (S (length payload)) pc off2)
    as [[[ps off3]|] ->]; [apply read_prefix_total|lia| |simpl; eauto]. simpl.
  destruct (negb _); eauto.
Qed.

Lemma Read_total input : is_Some (Read input).
Proof.
  destruct input as [raw|e]; simpl; [|eauto]. destruct (_ <? _)%nat eqn:E; [eauto|]. bools.
  rewrite !slice_Some by (simpl in *; lia). simpl.
  destruct (negb _); [eauto|]. apply read_payload_total.
  rewrite length_take, length_drop. simpl in *. lia.
Qed.

(** ** The writer's layout *)

Definition enc_domain (d : Domain) : bytes :=
  (if Exact d then 1 else 0) :: put_u16 (u16 (Z.of_nat (length (Name d)))) ++ Name d.

Definition enc_prefix (p : Prefix) : bytes :=
  default [] (As4 (paddr p)) ++ [u8 (pbits p)].

Definition domain_ok (d : Domain) : Prop := validateDomain d = Ok ().

(** A prefix [Write] accepts. *)
Definition prefix_writable (p : Prefix) : bool := prefix_IsValid p && Is4 (paddr p).

Lemma write_domains_spec buffer ds out :
  write_domains buffer ds = Ok out ↔
  Forall domain_ok ds ∧ out = buffer ++ mjoin (enc_domain <$> ds).
Proof.
  revert buffer. induction ds as [|d ds IH]; intros buffer; cbn [write_domains].
  - simpl. rewrite app_nil_r. split; [intros [= <-]; by split|by intros [_ ->]].
  - rewrite list.Forall_cons. unfold domain_ok at 1. destruct (validateDomain d) as [[]|] eqn:E.
    + rewrite IH, fmap_cons, mjoin_cons. unfold writeUint16, enc_domain.
      rewrite <- !app_assoc. naive_solver.
    + split; [done|]. intros [[? _] _]. done.
Qed.

Lemma write_prefixes_spec buffer ps out :
  write_prefixes buffer ps = Ok out ↔
  Forall (λ p, prefix_writable p = true) ps ∧ out = buffer ++ mjoin (enc_prefix <$> ps).
Proof.
  revert buffer. induction ps as [|p ps IH]; intros buffer; cbn [write_prefixes].
  - simpl. rewrite app_nil_r. split; [intros [= <-]; by split|by intros [_ ->]].
  - rewrite list.Forall_cons. unfold prefix_writable at 1. destruct p as [a k].
    destruct (prefix_IsValid _) eqn:E, a as [|x y z w|ip zn]; cbn [paddr Is4 Is4In6 As4 negb orb andb];
      try (split; [done|]; intros [[? _] _]; done).
    rewrite IH, fmap_cons, mjoin_cons. unfold enc_prefix at 2. cbn [paddr As4 default from_option id].
    rewrite <- !app_assoc. naive_solver.
Qed.

(** ** Reading back what was written *)

Lemma domain_ok_inv d : domain_ok d →
  (0 < length (Name d))%nat ∧ Z.of_nat (length (Name d)) < 2 ^ 16.
Proof. unfold domain_ok, validateDomain. destruct (_ || _) eqn:E; [done|]. bools. lia. Qed.

Lemma read_domain_enc pre d post :
  domain_ok d →
  read_domain (pre ++ enc_domain d ++ post) (length pre) =
  Some (Ok (d, (length pre + length (enc_domain d))%nat)).
Proof.
  intros Hd. pose proof (domain_ok_inv d Hd) as [Hpos Hlen].
  unfold enc_domain. set (k := if Exact d then 1 else 0).
  set (n := Z.of_nat (length (Name d))) in *.
  replace (u16 n) with n by (symmetry; apply Z.mod_small; lia).
  set (payload := pre ++ _ ++ post).
  assert (Hl : length payload = (length pre + 3 + length (Name d) + length post)%nat).
  { unfold payload. rewrite length_app, length_app, length_cons, length_app. simpl. lia. }
  assert (Hk : payload !! length pre = Some k) by (by apply lookup_app_mid).
  assert (Hs : slice payload (S (length pre)) (S (length pre) + 2) = Some (put_u16 n)).
  { unfold payload. replace (pre ++ (k :: put_u16 n ++ Name d) ++ post)
      with ((pre ++ [k]) ++ put_u16 n ++ Name d ++ post) by (by rewrite <- !app_assoc).
    apply slice_app; rewrite length_app; simpl; lia. }
  assert (Hn : slice payload (S (length pre) + 2) (S (length pre) + 2 + length (Name d)) = Some (Name d)).
  { unfold payload. replace (pre ++ (k :: put_u16 n ++ Name d) ++ post)
      with ((pre ++ [k] ++ put_u16 n) ++ Name d ++ post) by (by rewrite <- !app_assoc).
    apply slice_app; rewrite !length_app; simpl; lia. }
  clearbody payload. unfold read_domain. rewrite Hl, Hk, (proj2 (Nat.ltb_ge _ _)) by lia. simpl.
  rewrite Hs. cbn [mbind option_bind].
  pose proof (be_put_u16 n [] ltac:(lia)) as Hbe. rewrite app_nil_r in Hbe. rewrite Hbe. cbn [mbind option_bind].
  replace (Z.to_nat n) with (length (Name d)) by lia.
  rewrite (proj2 (Nat.eqb_neq _ 0)), (proj2 (Nat.ltb_ge _ _)), Hn by lia.
  replace (negb _ && negb _) with false by (unfold k; by destruct (Exact d)). simpl.
  replace (k =? 1) with (Exact d) by (unfold k; by destruct (Exact d)).
  destruct d as [nm ex]. simpl in *. unfold domain_ok in Hd. rewrite Hd. do 3 f_equal.
  rewrite ?length_app. simpl. lia.
Qed.

Lemma read_prefix_enc pre p post :
  prefix4_ok p →
  read_prefix (pre ++ enc_prefix p ++ post) (length pre) =
  Some (Ok (p, (length pre + length (enc_prefix p))%nat)).
Proof.
  destruct p as [[|x y z w|] k]; intros [Hp Hk]; simpl in Hp, Hk; try done.
  unfold enc_prefix. cbn [paddr pbits As4 default from_option id].
  rewrite u8_small by lia. set (payload := pre ++ _ ++ post).
  assert (Hl : length payload = (length pre + 5 + length post)%nat).
  { unfold payload. rewrite !length_app. simpl. lia. }
  assert (Hs : slice payload (length pre) (length pre + 4) = Some [x; y; z; w]).
  { unfold payload. rewrite <- app_assoc. apply slice_app; simpl; lia. }
  assert (Hk' : payload !! (length pre + 4)%nat = Some k).
  { unfold payload. replace (pre ++ _ ++ post) with ((pre ++ [x; y; z; w]) ++ k :: post)
      by (by rewrite <- !app_assoc). apply lookup_app_mid. rewrite length_app. simpl. lia. }
  clearbody payload. unfold read_prefix.
  rewrite Hl, Hs, Hk', (proj2 (Nat.ltb_ge _ _)) by lia. simpl.
  rewrite (proj2 (Z.ltb_ge 32 k)) by lia. unfold PrefixFrom. simpl.
  rewrite (proj2 (Z.leb_le 0 k)), (proj2 (Z.leb_le k 32)) by lia. done.
Qed.

(** A counted loop reads back a list of encoded items. *)
Lemma read_loop_enc {A} (item : bytes → nat → option (result (A * nat))) (enc : A → bytes)
    (P : A → Prop) payload pre xs post fuel :
  (∀ pre x post, P x → item (pre ++ enc x ++ post) (length pre) =
     Some (Ok (x, (length pre + length (enc x))%nat))) →
  Forall P xs → payload = pre ++ mjoin (enc <$> xs) ++ post → (length xs < fuel)%nat →
  read_loop (item payload) fuel (Z.of_nat (length xs)) (length pre) =
  Some (Ok (xs, (length pre + length (mjoin (enc <$> xs)))%nat)).
Proof.
  intros Hitem HP. revert pre fuel. induction HP as [|x xs Hx HP IH]; intros pre fuel Hpl Hf.
  - destruct fuel; [simpl in Hf; lia|]. rewrite read_loop_S. simpl. by rewrite Nat.add_0_r.
  - destruct fuel as [|f]; [simpl in Hf; lia|]. rewrite read_loop_S.
    rewrite (proj2 (Z.leb_gt _ 0)) by (simpl; lia).
    rewrite fmap_cons, mjoin_cons in *. rewrite <- app_assoc in Hpl.
    rewrite Hpl at 1. rewrite Hitem by done. cbn [mbind option_bind].
    replace (Z.of_nat (length (x :: xs)) - 1) with (Z.of_nat (length xs)) by (simpl; lia).
    rewrite <- length_app, (IH (pre ++ enc x) f); [| |simpl in Hf; lia].
    + cbn [mbind option_bind]. rewrite !length_app. do 3 f_equal. lia.
    + by rewrite Hpl, <- !app_assoc.
Qed.

Lemma read_written_u32 pre v post : 0 ≤ v < 2 ^ 32 →
  readUint32 (pre ++ put_u32 (u32 v) ++ post) (length pre) = Some (Some (v, (length pre + 4)%nat)).
Proof.
  intros Hv. replace (u32 v) with v by (symmetry; by apply Z.mod_small).
  unfold readUint32. rewrite !length_app, length_put_u32, (proj2 (Nat.ltb_ge _ _)) by lia.
  rewrite (slice_app pre (put_u32 v)) by (rewrite ?length_put_u32; lia). cbn [mbind option_bind].
  pose proof (be_put_u32 v [] Hv) as Hbe. rewrite app_nil_r in Hbe. by rewrite Hbe.
Qed.

Lemma length_mjoin_ge {A} (enc : A → bytes) xs :
  (∀ x, (1 ≤ length (enc x))%nat) → (length xs ≤ length (mjoin (enc <$> xs)))%nat.
Proof.
  intros H. induction xs as [|x xs IH]; [done|].
  rewrite fmap_cons, mjoin_cons, length_app, length_cons. specialize (H x). lia.
Qed.

Lemma enc_domain_pos d : (1 ≤ length (enc_domain d))%nat.
Proof. unfold enc_domain. simpl. lia. Qed.
Lemma enc_prefix_pos p : (1 ≤ length (enc_prefix p))%nat.
Proof. unfold enc_prefix. rewrite length_app. simpl. lia. Qed.

Definition layout (data : Data) : bytes :=
  magic ++ put_u32 (u32 (Z.of_nat (length (Domains data)))) ++ mjoin (enc_domain <$> Domains data)
  ++ put_u32 (u32 (Z.of_nat (length (Prefixes data)))) ++ mjoin (enc_prefix <$> Prefixes data).

Definition counts_ok (data : Data) : Prop :=
  Z.of_nat (length (Domains data)) < 2 ^ 32 ∧ Z.of_nat (length (Prefixes data)) < 2 ^ 32.

Lemma write_payload_spec data payload :
  write_payload data = Ok payload ↔
  counts_ok data ∧ Forall domain_ok (Domains data) ∧
  Forall (λ p, prefix_writable p = true) (Prefixes data) ∧ payload = layout data.
Proof.
  unfold write_payload, counts_ok, layout, writeUint32. destruct (_ || _) eqn:E.
  { split; [done|]. intros [? _]. apply orb_prop in E as [?|?]; bools; lia. }
  bools. destruct (write_domains _ _) as [p1|e] eqn:W.
  - apply write_domains_spec in W as [Hd ->]. rewrite write_prefixes_spec, <- !app_assoc.
    split; [intros [? ->]; repeat split; done || lia|by intros (_ & _ & ? & ->)].
  - split; [done|]. intros (_ & Hd & _).
    destruct (write_domains_spec (magic ++ put_u32 (u32 (Z.of_nat (length (Domains data)))))
      (Domains data) (magic ++ put_u32 (u32 (Z.of_nat (length (Domains data))))
                      ++ mjoin (enc_domain <$> Domains data))) as [_ H2].
    rewrite H2 in W by (split; [done|by rewrite app_assoc]). done.
Qed.

Lemma read_layout data :
  counts_ok data → Forall domain_ok (Domains data) → Forall prefix4_ok (Prefixes data) →
  read_payload (layout data) = Some (Ok data).
Proof.
  intros [Hnd Hnp] Hd Hp. set (payload := layout data).
  set (n1 := put_u32 (u32 (Z.of_nat (length (Domains data))))).
  set (D := mjoin (enc_domain <$> Domains data)).
  set (n2 := put_u32 (u32 (Z.of_nat (length (Prefixes data))))).
  set (P := mjoin (enc_prefix <$> Prefixes data)).
  assert (Hpl : payload = magic ++ n1 ++ D ++ n2 ++ P) by done.
  assert (Hlen : length payload = (8 + 4 + length D + 4 + length P)%nat).
  { rewrite Hpl, !length_app. unfold n1, n2. rewrite !length_put_u32. simpl. lia. }
  pose proof (length_mjoin_ge enc_domain (Domains data) enc_domain_pos).
  pose proof (length_mjoin_ge enc_prefix (Prefixes data) enc_prefix_pos).
  assert (Hm : slice payload 0 (length magic) = Some magic).
  { rewrite Hpl. apply (slice_app [] magic (n1 ++ D ++ n2 ++ P)); done. }
  assert (Hc1 : readUint32 payload (length magic) = Some (Some (Z.of_nat (length (Domains data)), 12%nat))).
  { rewrite Hpl. apply read_written_u32. lia. }
  assert (Hc2 : readUint32 payload (12 + length D) =
                Some (Some (Z.of_nat (length (Prefixes data)), (12 + length D + 4)%nat))).
  { rewrite Hpl. replace (magic ++ n1 ++ D ++ n2 ++ P) with ((magic ++ n1 ++ D) ++ n2 ++ P)
      by (by rewrite <- !app_assoc).
    replace (12 + length D)%nat with (length (magic ++ n1 ++ D)) by (rewrite !length_app; simpl; lia).
    apply read_written_u32. lia. }
  unfold read_payload. rewrite Hm. cbn [mbind option_bind].
  rewrite bool_decide_true by done. cbn [negb]. rewrite Hc1. cbn [mbind option_bind].
  rewrite (read_loop_enc read_domain enc_domain domain_ok payload (magic ++ n1)
             (Domains data) (n2 ++ P));
    [|intros; by apply read_domain_enc|done|by rewrite Hpl, <- !app_assoc|fold D in H; lia].
  cbn [mbind option_bind]. change (length (magic ++ n1)) with 12%nat. fold D.
  rewrite Hc2. cbn [mbind option_bind].
  replace (12 + length D + 4)%nat with (length (magic ++ n1 ++ D ++ n2))
    by (rewrite !length_app; simpl; lia).
  rewrite (read_loop_enc read_prefix enc_prefix prefix4_ok payload (magic ++ n1 ++ D ++ n2)
             (Prefixes data) []);
    [|intros; by apply read_prefix_enc|done|by rewrite Hpl, <- !app_assoc, app_nil_r|fold P in H0; lia].
  cbn [mbind option_bind]. fold P.
  rewrite (proj2 (Nat.eqb_eq _ _)) by (rewrite Hlen, !length_app; simpl; lia).
  by destruct data.
Qed.

Lemma layout_min data : (16 ≤ length (layout data))%nat.
Proof. unfold layout. rewrite !length_app, !length_put_u32. simpl. lia. Qed.

Lemma Read_appended payload : (16 ≤ length payload)%nat →
  Read (Ok (payload ++ Sum256 payload)) = read_payload payload.
Proof.
  intros H. unfold Read. rewrite length_app, length_Sum256, (proj2 (Nat.ltb_ge _ _)) by (simpl; lia).
  replace (length payload + 32 - 32)%nat with (length payload) by lia.
  pose proof (slice_app [] payload (Sum256 payload) 0 (length payload)) as S1.
  pose proof (slice_app payload (Sum256 payload) [] (length payload) (length payload + 32)) as S2.
  rewrite app_nil_r in S2. simpl in S1. rewrite S1 by done. cbn [mbind option_bind].
  rewrite S2 by (rewrite ?length_Sum256; done). cbn [mbind option_bind].
  by rewrite bool_decide_true.
Qed.

(** ** Nothing else is accepted *)

(** What a successful iteration read is the encoding of its item. *)
Definition item_inv {A} (item : nat → option (result (A * nat))) (enc : A → bytes)
    (P : A → Prop) (payload : bytes) : Prop :=
  ∀ off x off', item off = Some (Ok (x, off')) →
    P x ∧ (off ≤ off')%nat ∧ (off' ≤ length payload)%nat ∧
    take off' payload = take off payload ++ enc x.

Abbreviation all_bytes l := (Forall (λ b, is_byte b = true) l).

Lemma read_domain_inv payload :
  all_bytes payload → item_inv (read_domain payload) enc_domain domain_ok payload.
Proof.
  intros Hb off d off' H. unfold read_domain in H.
  destruct (_ <? _)%nat eqn:E; [done|]. bools.
  destruct (payload !! off) as [kind|] eqn:Hk; [|done]. cbn [mbind option_bind] in H.
  destruct (slice payload _ _) as [s|] eqn:Hs; [|done]. cbn [mbind option_bind] in H.
  apply slice_inv in Hs as (_ & _ & Hs & Hsl).
  destruct s as [|b0 [|b1 [|? ?]]]; simpl in Hsl; try lia. cbn [be_u16 mbind option_bind] in H.
  set (v := Z.lor b1 (Z.shiftl b0 8)) in *.
  destruct (_ || _ || _) eqn:E2; [done|]. bools.
  destruct (slice payload _ _) as [name|] eqn:Hn; [|done]. cbn [mbind option_bind] in H.
  apply slice_inv in Hn as (_ & ? & Hn & Hnl).
  destruct (validateDomain _) as [[]|] eqn:Hv; [|done]. simplify_eq.
  assert (Hb01 : all_bytes [b0; b1]) by (rewrite Hs; by apply Forall_take, Forall_drop).
  decompose_Forall_hyps. split; [done|]. split; [lia|]. split; [lia|].
  assert (Hv16 : 0 ≤ v < 2 ^ 16).
  { unfold v. rewrite is_byte_spec in *. rewrite lor_shiftl_add by lia. lia. }
  assert (Hput : put_u16 v = [b0; b1]) by (by apply put_be_u16).
  clearbody v. set (name := take (off + 2 + _ - _) _) in *.
  remember (Z.to_nat v) as n eqn:En.
  assert (Hn : name = take n (drop (S off + 2) payload)).
  { unfold name. f_equal. lia. }
  assert (Hln : Z.of_nat (length name) = v).
  { rewrite Hnl. lia. }
  clearbody name. rewrite (take_split payload off (S off + 2 + n) (S (2 + n))) by lia. f_equal.
  rewrite (drop_S _ _ _ Hk). unfold enc_domain. cbn [Name Exact take]. f_equal.
  { apply andb_false_iff in H0 as [?|?]; bools; subst kind; done. }
  rewrite (take_split _ 2 (2 + n) n) by lia. rewrite drop_drop, Hn. f_equal.
  replace (off + 2 - off)%nat with 2%nat in Hs by lia. rewrite <- Hs, <- Hn, Hln.
  unfold u16. by rewrite Z.mod_small by done.
Qed.

Lemma read_prefix_inv payload :
  all_bytes payload → item_inv (read_prefix payload) enc_prefix prefix4_ok payload.
Proof.
  intros Hb off p off' H. unfold read_prefix in H.
  destruct (_ <? _)%nat eqn:E; [done|]. bools.
  destruct (slice payload _ _) as [s|] eqn:Hs; [|done]. cbn [mbind option_bind] in H.
  destruct (payload !! (off + 4)%nat) as [bits|] eqn:Hk; [|done]. cbn [mbind option_bind] in H.
  apply slice_inv in Hs as (_ & _ & Hs & Hsl).
  replace (off + 4 - off)%nat with 4%nat in * by lia.
  assert (Hbs : all_bytes s) by (rewrite Hs; by apply Forall_take, Forall_drop).
  assert (Hbb : is_byte bits = true) by (by eapply list.Forall_lookup_1 in Hk; [|exact Hb]).
  destruct s as [|x [|y [|z [|w [|? ?]]]]]; try (simpl in Hsl; lia).
  destruct (32 <? bits) eqn:Eb; [done|]. bools. simplify_eq.
  rewrite is_byte_spec in Hbb. unfold PrefixFrom. simpl.
  rewrite (proj2 (Z.leb_le 0 bits)), (proj2 (Z.leb_le bits 32)) by lia. simpl.
  split.
  { decompose_Forall_hyps. rewrite is_byte_spec in *. repeat split; simpl; lia. }
  split; [lia|]. split; [lia|].
  rewrite (take_split payload off (off + 5) 5) by lia. f_equal.
  unfold enc_prefix. cbn [paddr pbits As4 default from_option id]. rewrite u8_small by lia.
  rewrite (take_split _ 4 5 1), <- Hs, drop_drop by lia. f_equal.
  by rewrite (drop_S _ _ _ Hk).
Qed.

Lemma read_loop_inv {A} (item : nat → option (result (A * nat))) enc P payload fuel count off xs off' :
  item_inv item enc P payload → (off ≤ length payload)%nat →
  read_loop item fuel count off = Some (Ok (xs, off')) →
  Forall P xs ∧ (off ≤ off')%nat ∧ (off' ≤ length payload)%nat ∧
  Z.of_nat (length xs) = Z.max 0 count ∧
  take off' payload = take off payload ++ mjoin (enc <$> xs).
Proof.
  intros Hinv. revert count off xs. induction fuel as [|f IH]; intros count off xs Hoff H;
    unfold read_loop in H; fold (@read_loop A) in H; destruct (count <=? 0) eqn:Ec; bools; try done.
  1,2: simplify_eq; simpl; rewrite app_nil_r; repeat split; done || lia.
  destruct (item off) as [[[x o]|]|] eqn:Hi; [|done..]. cbn [mbind option_bind] in H.
  apply Hinv in Hi as (Hx & ? & ? & Ht).
  destruct (read_loop item f _ o) as [[[ys o']|]|] eqn:Hr; [|done..]. cbn [mbind option_bind] in H.
  simplify_eq. apply IH in Hr as (Hys & ? & ? & Hlen & Ht'); [|done].
  split; [by constructor|]. split; [lia|]. split; [done|]. split; [simpl; lia|].
  by rewrite Ht', Ht, fmap_cons, mjoin_cons, <- app_assoc.
Qed.

Lemma readUint32_inv payload off v off' :
  all_bytes payload → readUint32 payload off = Some (Some (v, off')) →
  0 ≤ v < 2 ^ 32 ∧ off' = (off + 4)%nat ∧ (off' ≤ length payload)%nat ∧
  take off' payload = take off payload ++ put_u32 (u32 v).
Proof.
  intros Hb H. unfold readUint32 in H. destruct (_ <? _)%nat eqn:E; [done|]. bools.
  destruct (slice payload _ _) as [s|] eqn:Hs; [|done]. cbn [mbind option_bind] in H.
  apply slice_inv in Hs as (_ & _ & Hs & Hsl). replace (off + 4 - off)%nat with 4%nat in * by lia.
  assert (Hbs : all_bytes s) by (rewrite Hs; by apply Forall_take, Forall_drop).
  destruct s as [|x [|y [|z [|w [|? ?]]]]]; try (simpl in Hsl; lia).
  cbn [be_u32 mbind option_bind] in H. decompose_Forall_hyps.
  rewrite be_u32_arith by done.
  assert (Hv : 0 ≤ w + z * 2 ^ 8 + y * 2 ^ 16 + x * 2 ^ 24 < 2 ^ 32)
    by (rewrite is_byte_spec in *; lia).
  split; [done|]. split; [done|]. split; [lia|].
  unfold u32. rewrite Z.mod_small, put_be_u32 by done.
  by rewrite (take_split payload off (off + 4) 4), Hs by lia.
Qed.

Lemma read_payload_inv payload data :
  all_bytes payload → read_payload payload = Some (Ok data) →
  payload = layout data ∧ counts_ok data ∧
  Forall domain_ok (Domains data) ∧ Forall prefix4_ok (Prefixes data).
Proof.
  intros Hb H. unfold read_payload in H.
  destruct (slice payload _ _) as [m|] eqn:Hm; [|done]. cbn [mbind option_bind] in H.
  destruct (negb _) eqn:E; [done|]. bools. subst m.
  apply slice_inv in Hm as (_ & Hl & Hm & _). rewrite drop_0, Nat.sub_0_r in Hm.
  destruct (readUint32 payload _) as [[[dc o1]|]|] eqn:H1; [|done..]. cbn [mbind option_bind] in H.
  apply readUint32_inv in H1 as (Hdc & Ho1 & Hl1 & Ht1); [|done].
  destruct (read_loop (read_domain _) _ _ _) as [[[ds o2]|]|] eqn:H2; [|done..].
  cbn [mbind option_bind] in H.
  apply (read_loop_inv _ _ _ _ _ _ _ _ _ (read_domain_inv payload Hb)) in H2
    as (Hds & ? & ? & Hn2 & Ht2); [|done].
  destruct (readUint32 payload _) as [[[pc o3]|]|] eqn:H3; [|done..]. cbn [mbind option_bind] in H.
  apply readUint32_inv in H3 as (Hpc & Ho3 & Hl3 & Ht3); [|done].
  destruct (read_loop (read_prefix _) _ _ _) as [[[ps o4]|]|] eqn:H4; [|done..].
  cbn [mbind option_bind] in H.
  apply (read_loop_inv _ _ _ _ _ _ _ _ _ (read_prefix_inv payload Hb)) in H4
    as (Hps & ? & ? & Hn4 & Ht4); [|done].
  destruct (negb _) eqn:E; [done|]. bools. simplify_eq. unfold counts_ok, layout. simpl Domains. simpl Prefixes.
  rewrite firstn_all, Ht3, Ht2, Ht1, <- Hm, <- !app_assoc in Ht4.
  rewrite Z.max_r in Hn2, Hn4 by lia. rewrite <- Hn2, <- Hn4 in Ht4.
  repeat split; [done|lia|lia|done|done].
Qed.

(** ** Correctness of the format *)

(** Reading the bytes of a file never panics, whatever the file holds: every
    index and slice expression of [Read] is in range and every loop ends, so the
    outcome is the data or one of the reported errors. *)
Theorem Read_never_panics (open_ : option error) (contents : result bytes) :
  ∃ outcome, Load open_ contents = Some outcome.
Proof.
  destruct open_ as [e|]; simpl; [eauto|]. destruct (Read_total contents) as [o ->]. eauto.
Qed.

(** C21: whenever [Write] reports no error, [Read] of the bytes it emitted gives
    the data back unchanged, entry for entry and in order (for prefixes whose
    address is a well-formed IPv4 value, as [netip] keeps them). *)
Theorem Write_Read_roundtrip (data : Data) :
  Forall (λ p, prefix4_ok p) (Prefixes data) →
  (Write (λ _, None) data).2 = None →
  Read (Ok (mjoin (Write (λ _, None) data).1)) = Some (Ok data).
Proof.
  intros Hp H. unfold Write in *. destruct (write_payload data) as [payload|] eqn:W; [|done].
  apply write_payload_spec in W as (Hc & Hd & _ & ->). cbn [fst]. rewrite !mjoin_cons.
  rewrite (app_nil_r (Sum256 _)), Read_appended by apply layout_min. by apply read_layout.
Qed.

(** C22: [Read] accepts nothing but the writer's output: a byte string it accepts
    is exactly the payload [Write] produces for the data it returns followed by
    that payload's SHA-256 sum. *)
Theorem Read_accepts_only_written (raw : bytes) (data : Data) :
  Forall (λ b, is_byte b = true) raw → Read (Ok raw) = Some (Ok data) →
  Write (λ _, None) data = ([layout data; Sum256 (layout data)], None) ∧
  raw = layout data ++ Sum256 (layout data).
Proof.
  intros Hb H. unfold Read in H. destruct (_ <? _)%nat eqn:E; [done|]. bools. simpl in E.
  rewrite !slice_Some in H by lia. cbn [mbind option_bind] in H.
  destruct (negb _) eqn:E2; [done|]. bools. rewrite drop_0, Nat.sub_0_r in *.
  replace (length raw - (length raw - 32))%nat with 32%nat in E2 by lia.
  set (payload := take (length raw - 32) raw) in *.
  apply read_payload_inv in H as (Hpl & Hc & Hd & Hp); [|by apply Forall_take].
  assert (Hraw : raw = payload ++ Sum256 payload).
  { rewrite E2. unfold payload. rewrite (take_ge _ 32) by (rewrite length_drop; lia).
    by rewrite take_drop. }
  rewrite Hpl in Hraw. split; [|done]. unfold Write.
  assert (write_payload data = Ok (layout data)) as ->; [|done].
  apply write_payload_spec. split; [done|]. split; [done|]. split; [|done].
  eapply list.Forall_impl; [exact Hp|]. intros [[] bits] [Ha Hbits]; [done| |done].
  unfold prefix_writable, prefix_IsValid. simpl in *. lia.
Qed.

Definition sample_data : Data :=
  mkData [mkDomain (str "cn") false; mkDomain (str "a.example") true] [mkPrefix (Addr4 1 0 1 0) 24].

Lemma sample_prefixes_ok : Forall (λ p, prefix4_ok p) (Prefixes sample_data).
Proof. repeat constructor; simpl; lia. Qed.

Lemma Write_Read_roundtrip_witness :
  Read (Ok (mjoin (Write (λ _, None) sample_data).1)) = Some (Ok sample_data).
Proof.
  apply (Write_Read_roundtrip sample_data sample_prefixes_ok). vm_compute. reflexivity.
Defined.

Lemma Read_accepts_only_written_witness :
  Write (λ _, None) sample_data = ([layout sample_data; Sum256 (layout sample_data)], None).
Proof.
  apply (Read_accepts_only_written (layout sample_data ++ Sum256 (layout sample_data)) sample_data).
  - apply forallb_Forall. vm_compute. reflexivity.
  - vm_compute. reflexivity.
Defined.
