(* ===== verification/GoCodec.v ===== *)
(** * Text encodings of the Go standard library the program uses

    [encoding/hex] and [encoding/base64] (the raw URL alphabet).  [None] is the
    error of the Go function. *)

From S2P Require Import Prelude GoStrings GoNet.

(** ** [hex.DecodeString] *)

Fixpoint hex_DecodeString (s : bytes) : option bytes :=
  match s with
  | [] => Some []
  | hi :: lo :: s' =>
      a ← hex_val hi; b ← hex_val lo; r ← hex_DecodeString s';
      Some (Z.lor (Z.shiftl a 4) b :: r)
  | _ => None
  end.

Definition hex_of_byte (b : Z) : bytes := [hex_digit (b / 16); hex_digit (b mod 16)].
Definition hex_EncodeToString (l : bytes) : bytes := mjoin (hex_of_byte <$> l).

(** ** [base64.RawURLEncoding.DecodeString]

    Line breaks are skipped anywhere; there is no padding and the decoder is not
    strict, so the unused low bits of a final partial group are ignored. *)

Definition b64_val (c : Z) : option Z :=
  if in_range 65 90 c then Some (c - 65)
  else if in_range 97 122 c then Some (c - 97 + 26)
  else if in_range 48 57 c then Some (c - 48 + 52)
  else if c =? 45 then Some 62
  else if c =? 95 then Some 63
  else None.

Fixpoint b64_groups (s : bytes) : option bytes :=
  match s with
  | [] => Some []
  | [_] => None
  | [c0; c1] =>
      a ← b64_val c0; b ← b64_val c1;
      Some [u8 (Z.shiftr (a * 2 ^ 18 + b * 2 ^ 12) 16)]
  | [c0; c1; c2] =>
      a ← b64_val c0; b ← b64_val c1; c ← b64_val c2;
      let v := a * 2 ^ 18 + b * 2 ^ 12 + c * 2 ^ 6 in
      Some [u8 (Z.shiftr v 16); u8 (Z.shiftr v 8)]
  | c0 :: c1 :: c2 :: c3 :: s' =>
      a ← b64_val c0; b ← b64_val c1; c ← b64_val c2; d ← b64_val c3;
      let v := a * 2 ^ 18 + b * 2 ^ 12 + c * 2 ^ 6 + d in
      r ← b64_groups s';
      Some (u8 (Z.shiftr v 16) :: u8 (Z.shiftr v 8) :: u8 v :: r)
  end.

Definition b64url_DecodeString (s : bytes) : option bytes :=
  b64_groups (filter (λ c, c ≠ 10 ∧ c ≠ 13) s).

Example hex_decode_small : hex_DecodeString (str "00fFa9") = Some [0; 255; 169].
Proof. vm_compute. done. Qed.
Example b64_decode_small : b64url_DecodeString (str "aGVsbG8") = Some (str "hello").
Proof. vm_compute. done. Qed.

