(* ===== verification/Config.v ===== *)
(** * Configuration: [internal/config/config.go]

    The configuration record and its validation with the defaults it fills in.
    Validation mutates the record in place, so every validator maps
    a configuration to the configuration it leaves behind and the error it
    returns. *)

From S2P Require Import Prelude GoStrings GoNet GoCodec.

Definition defaultInitialStreamWindow : Z := Z.shiftl 1 20.
Definition defaultMaxStreamWindow : Z := Z.shiftl 4 20.
Definition defaultInitialConnectionWindow : Z := Z.shiftl 4 20.
Definition defaultMaxConnectionWindow : Z := Z.shiftl 8 20.

(** ** The record *)

Record ListenConfig := mkListen { listen_dns : bytes; listen_tcp : bytes; listen_udp : bytes }.

Record HY2Config := mkHY2 {
  hy2_server : bytes; hy2_auth : bytes; hy2_sni : bytes; hy2_insecure : bool;
  hy2_pin : bytes; hy2_max_idle : duration; hy2_keep_alive : duration;
  hy2_init_stream : Z; hy2_max_stream : Z; hy2_init_conn : Z; hy2_max_conn : Z;
  hy2_max_dials : Z }.

Record TCPRelayConfig := mkRelay {
  relay_enabled : bool; relay_server : bytes; relay_uuid : bytes; relay_server_name : bytes;
  relay_public_key : bytes; relay_short_id : bytes; relay_fingerprint : bytes;
  relay_flow : bytes }.

Record LandingConfig := mkLanding {
  landing_udp : bool; landing_max_udp_payload : Z; landing_type : bytes;
  landing_server : bytes; landing_username : bytes; landing_password : bytes }.

Record LimitsConfig := mkLimits {
  lim_dns_cache : Z; lim_learned_ip : Z; lim_tcp_sessions : Z; lim_udp_sessions : Z;
  lim_udp_idle : duration; lim_sniff_bytes : Z; lim_sniff_timeout : duration }.

Record HealthConfig := mkHealth {
  health_failures : Z; health_successes : Z; health_cooldown : duration;
  health_probe_interval : duration }.

Record FirewallConfig := mkFirewall {
  fw_table : bytes; fw_lan_interface : bytes; fw_mark : Z; fw_bypass_mark : Z;
  fw_route_table : Z; fw_canary_source : bytes }.

Record RuleConfig := mkRule { rule_action : bytes; rule_type : bytes; rule_value : bytes }.

Record Config := mkConfig {
  cfg_listen : ListenConfig; cfg_domestic_dns : bytes; cfg_trusted_dns : bytes;
  cfg_hy2 : HY2Config; cfg_relay : TCPRelayConfig; cfg_tcp_domain_dial : bool;
  cfg_udp_policy : bytes; cfg_landing : LandingConfig; cfg_limits : LimitsConfig;
  cfg_health : HealthConfig; cfg_firewall : FirewallConfig; cfg_rules : list RuleConfig;
  cfg_routing : bytes; cfg_control_socket : bytes; cfg_log_level : bytes;
  cfg_fail_open : bool }.

(** Assignments to the fields that validation fills in. *)
Definition set_control_socket (v : bytes) (c : Config) : Config :=
  let '(mkConfig l d t h r td u la li he f ru da _ lo fo) := c in
  mkConfig l d t h r td u la li he f ru da v lo fo.
Definition set_hy2 (v : HY2Config) (c : Config) : Config :=
  let '(mkConfig l d t _ r td u la li he f ru da cs lo fo) := c in
  mkConfig l d t v r td u la li he f ru da cs lo fo.
Definition set_relay (v : TCPRelayConfig) (c : Config) : Config :=
  let '(mkConfig l d t h _ td u la li he f ru da cs lo fo) := c in
  mkConfig l d t h v td u la li he f ru da cs lo fo.
Definition set_udp_policy (v : bytes) (c : Config) : Config :=
  let '(mkConfig l d t h r td _ la li he f ru da cs lo fo) := c in
  mkConfig l d t h r td v la li he f ru da cs lo fo.
Definition set_limits (v : LimitsConfig) (c : Config) : Config :=
  let '(mkConfig l d t h r td u la _ he f ru da cs lo fo) := c in
  mkConfig l d t h r td u la v he f ru da cs lo fo.
Definition set_health (v : HealthConfig) (c : Config) : Config :=
  let '(mkConfig l d t h r td u la li _ f ru da cs lo fo) := c in
  mkConfig l d t h r td u la li v f ru da cs lo fo.
Definition set_firewall (v : FirewallConfig) (c : Config) : Config :=
  let '(mkConfig l d t h r td u la li he _ ru da cs lo fo) := c in
  mkConfig l d t h r td u la li he v ru da cs lo fo.

Definition on_hy2 (f : HY2Config → HY2Config) (c : Config) : Config := set_hy2 (f (cfg_hy2 c)) c.
Definition on_relay (f : TCPRelayConfig → TCPRelayConfig) (c : Config) : Config :=
  set_relay (f (cfg_relay c)) c.
Definition on_limits (f : LimitsConfig → LimitsConfig) (c : Config) : Config :=
  set_limits (f (cfg_limits c)) c.
Definition on_health (f : HealthConfig → HealthConfig) (c : Config) : Config :=
  set_health (f (cfg_health c)) c.

(** The zero value of a field stands for its default. *)
Definition default_Z (v d : Z) : Z := if v =? 0 then d else v.
Definition default_str (v : bytes) (d : string) : bytes :=
  if bool_decide (v = []) then str d else v.

(** ** Validators *)

Definition validator := Config → Config * option error.

(** [if err := v(); err != nil { return err }; w()] *)
Definition andThen (v w : validator) : validator := λ c,
  match v c with
  | (c', Some e) => (c', Some e)
  | (c', None) => w c'
  end.
Notation "v ;;; w" := (andThen v w) (at level 65, right associativity) : go_scope.

(** [if !test { return errors.New(msg) }] *)
Definition require (test : Config → bool) (msg : string) : validator := λ c,
  (c, if test c then None else Some (EMsg msg)).
Definition assign (f : Config → Config) : validator := λ c, (f c, None).
Definition check (f : Config → option error) : validator := λ c, (c, f c).

Definition between (value min max : duration) : bool := (min <=? value) && (value <=? max).
Definition betweenInt (value min max : Z) : bool := (min <=? value) && (value <=? max).

(** The pattern [^[A-Za-z0-9_.-]+$]. *)
Definition name_pattern_char (c : Z) : bool :=
  in_range 65 90 c || in_range 97 122 c || in_range 48 57 c || (c =? 95) || (c =? 46) || (c =? 45).
Definition validName (value : bytes) : bool :=
  negb (bool_decide (value = [])) && forallb name_pattern_char (runes value).

Definition validDNSLabel (label : bytes) : bool :=
  negb ((length label =? 0)%nat || (63 <? length label)%nat
        || bool_decide (label !! 0%nat = Some 45)
        || bool_decide (label !! (length label - 1)%nat = Some 45))
  && forallb (λ char, in_range 97 122 char || in_range 48 57 char || (char =? 45)) (runes label).

Definition validDNSName (name : bytes) : bool :=
  let name := TrimSuffix (ToLower name) [46] in
  negb ((length name =? 0)%nat || (253 <? length name)%nat)
  && forallb validDNSLabel (Split name 46).

(** The pattern of a UUID: groups of 8, 4, 4, 4 and 12 hexadecimal digits. *)
Definition is_hex (c : Z) : bool := in_range 48 57 c || in_range 97 102 c || in_range 65 70 c.
Definition hex_word (n : nat) (s : bytes) : bool := (length s =? n)%nat && forallb is_hex s.
Definition uuid_pattern (s : bytes) : bool :=
  match Split s 45 with
  | [a; b; c; d; e] =>
      hex_word 8 a && hex_word 4 b && hex_word 4 c && hex_word 4 d && hex_word 12 e
  | _ => false
  end.

Definition one_of (s : bytes) (names : list string) : bool :=
  existsb (λ n, bool_decide (s = str n)) names.

(** [services network name] is the port of a service name in the system's
    service database. *)
Section validation.
Context (services : bytes → bytes → option Z).

Definition parseIPv4Endpoint (endpoint : bytes) : result (Addr * Z) :=
  let? (host, service) := SplitHostPort endpoint in
  match ParseAddr host with
  | None => errorf "not IPv4"
  | Some addr =>
      if negb (Is4 addr) || Is4In6 addr then errorf "not IPv4" else
      match LookupPort services (str "udp") service with
      | Err _ => errorf "invalid port"
      | Ok port =>
          if (port <? 1) || (65535 <? port) then errorf "invalid port"
          else Ok (addr, u16 port)
      end
  end.

Definition validateIPv4Endpoint (name : string) (endpoint : bytes) : option error :=
  match parseIPv4Endpoint endpoint with
  | Err _ => Some (EMsg (name +:+ " must be an IPv4 address and port"))
  | Ok _ => None
  end.

Definition validateHostPort (name : string) (endpoint : bytes) : option error :=
  match SplitHostPort endpoint with
  | Err _ => Some (EMsg (name +:+ " must be an IPv4 or DNS host and port"))
  | Ok (host, service) =>
      if bool_decide (host = []) || Contains host (str ":")
      then Some (EMsg (name +:+ " must be an IPv4 or DNS host and port"))
      else match LookupPort services (str "tcp") service with
           | Err _ => Some (EMsg (name +:+ " must have a valid port"))
           | Ok _ => None
           end
  end.

(** [validateListen] ranges over a map literal: [order] is the order in which the
    run visits its three keys. *)
Inductive listenName := LDNS | LTCP | LUDP.

Definition listen_name (n : listenName) : string :=
  match n with LDNS => "listen.dns" | LTCP => "listen.tcp" | LUDP => "listen.udp" end.
Definition listen_endpoint (l : ListenConfig) (n : listenName) : bytes :=
  match n with LDNS => listen_dns l | LTCP => listen_tcp l | LUDP => listen_udp l end.

Fixpoint listen_loop (order : list listenName) (listen : ListenConfig) (ports : gset Z)
  : result (gset Z) :=
  match order with
  | [] => Ok ports
  | name :: order' =>
      match parseIPv4Endpoint (listen_endpoint listen name) with
      | Err _ => errorf (listen_name name +:+ " must be an IPv4 address and port")
      | Ok (addr, port) =>
          if negb (Is4 addr) || (port =? 0)
          then errorf (listen_name name +:+ " must be an IPv4 address and port")
          else listen_loop order' listen
                 (match name with LUDP => ports | _ => {[port]} ∪ ports end)
      end
  end.

Definition validateListen (order : list listenName) (listen : ListenConfig) : option error :=
  match listen_loop order listen ∅ with
  | Err e => Some e
  | Ok ports => if negb (size ports =? 2)%nat
                then Some (EMsg "DNS and TCP listen ports must be distinct") else None
  end.

Definition setWindowDefaults (h : HY2Config) : HY2Config :=
  mkHY2 (hy2_server h) (hy2_auth h) (hy2_sni h) (hy2_insecure h) (hy2_pin h)
    (hy2_max_idle h) (hy2_keep_alive h)
    (default_Z (hy2_init_stream h) defaultInitialStreamWindow)
    (default_Z (hy2_max_stream h) defaultMaxStreamWindow)
    (default_Z (hy2_init_conn h) defaultInitialConnectionWindow)
    (default_Z (hy2_max_conn h) defaultMaxConnectionWindow)
    (hy2_max_dials h).

Definition set_dials (v : Z) (h : HY2Config) : HY2Config :=
  mkHY2 (hy2_server h) (hy2_auth h) (hy2_sni h) (hy2_insecure h) (hy2_pin h)
    (hy2_max_idle h) (hy2_keep_alive h) (hy2_init_stream h) (hy2_max_stream h)
    (hy2_init_conn h) (hy2_max_conn h) v.

Definition windows_valid (h : HY2Config) : bool :=
  negb ((hy2_init_stream h =? 0) || (hy2_max_stream h =? 0) || (hy2_init_conn h =? 0)
        || (hy2_max_conn h =? 0) || (hy2_max_stream h <? hy2_init_stream h)
        || (hy2_max_conn h <? hy2_init_conn h)).

Definition validateHY2 : validator :=
  check (λ c, validateHostPort "hy2.server" (hy2_server (cfg_hy2 c))) ;;;
  require (λ c, negb (bool_decide (TrimSpace (hy2_auth (cfg_hy2 c)) = []))) "hy2 auth is required" ;;;
  require (λ c, validDNSName (hy2_sni (cfg_hy2 c))) "hy2 sni must be a DNS name" ;;;
  require (λ c, bool_decide (hy2_pin (cfg_hy2 c) = []) || (length (hy2_pin (cfg_hy2 c)) =? 64)%nat)
    "hy2 pinned_cert_sha256 must be 64 hex characters" ;;;
  require (λ c, bool_decide (hy2_pin (cfg_hy2 c) = [])
                || bool_decide (is_Some (hex_DecodeString (hy2_pin (cfg_hy2 c)))))
    "hy2 pinned_cert_sha256 must be hexadecimal" ;;;
  require (λ c, between (hy2_max_idle (cfg_hy2 c)) (4 * Second) (120 * Second))
    "hy2 max_idle must be between 4s and 120s" ;;;
  require (λ c, between (hy2_keep_alive (cfg_hy2 c)) (2 * Second) (60 * Second))
    "hy2 keep_alive must be between 2s and 60s" ;;;
  assign (on_hy2 setWindowDefaults) ;;;
  assign (on_hy2 (λ h, set_dials (default_Z (hy2_max_dials h) 32) h)) ;;;
  require (λ c, betweenInt (hy2_max_dials (cfg_hy2 c)) 1 256)
    "hy2 max_concurrent_dials must be between 1 and 256" ;;;
  require (λ c, windows_valid (cfg_hy2 c)) "hy2 windows are invalid".

Definition set_fingerprint (v : bytes) (r : TCPRelayConfig) : TCPRelayConfig :=
  mkRelay (relay_enabled r) (relay_server r) (relay_uuid r) (relay_server_name r)
    (relay_public_key r) (relay_short_id r) v (relay_flow r).
Definition set_flow (v : bytes) (r : TCPRelayConfig) : TCPRelayConfig :=
  mkRelay (relay_enabled r) (relay_server r) (relay_uuid r) (relay_server_name r)
    (relay_public_key r) (relay_short_id r) (relay_fingerprint r) v.

Definition fingerprints : list string :=
  ["chrome"; "firefox"; "safari"; "ios"; "android"; "edge"; "random"; "randomized"]%string.
Definition flows : list string := ["xtls-rprx-vision"; "xtls-rprx-vision-udp443"]%string.

Definition validateEnabledRelay : validator :=
  check (λ c, validateHostPort "tcp_relay.server" (relay_server (cfg_relay c))) ;;;
  require (λ c, uuid_pattern (relay_uuid (cfg_relay c))) "tcp_relay uuid must be a UUID" ;;;
  require (λ c, validDNSName (relay_server_name (cfg_relay c)))
    "tcp_relay server_name must be a DNS name" ;;;
  require (λ c, match b64url_DecodeString (relay_public_key (cfg_relay c)) with
                | Some key => (length key =? 32)%nat | None => false end)
    "tcp_relay public_key must be a base64url X25519 public key" ;;;
  require (λ c, (length (relay_short_id (cfg_relay c)) <=? 16)%nat)
    "tcp_relay short_id must be at most 16 hex characters" ;;;
  require (λ c, bool_decide (is_Some (hex_DecodeString (relay_short_id (cfg_relay c)))))
    "tcp_relay short_id must contain pairs of hex characters" ;;;
  assign (on_relay (λ r, set_fingerprint (default_str (relay_fingerprint r) "chrome") r)) ;;;
  require (λ c, one_of (relay_fingerprint (cfg_relay c)) fingerprints)
    "tcp_relay fingerprint is unsupported" ;;;
  assign (on_relay (λ r, set_flow (default_str (relay_flow r) "xtls-rprx-vision") r)) ;;;
  require (λ c, one_of (relay_flow (cfg_relay c)) flows)
    "tcp_relay flow must be xtls-rprx-vision or xtls-rprx-vision-udp443".

Definition validateTCPRelay : validator := λ c,
  if negb (relay_enabled (cfg_relay c)) then (c, None) else validateEnabledRelay c.

Definition validateLanding (c : Config) : option error :=
  let l := cfg_landing c in
  if landing_udp l && negb (bool_decide (landing_type l = str "socks5"))
  then Some (EMsg "landing UDP requires socks5 with UDP ASSOCIATE support")
  else if (landing_max_udp_payload l <? 0) || (65507 <? landing_max_udp_payload l)
  then Some (EMsg "landing max_udp_payload must be between 0 and 65507")
  else if bool_decide (landing_type l = str "direct") then
    if negb (bool_decide (landing_server l = [])) || negb (bool_decide (landing_username l = []))
       || negb (bool_decide (landing_password l = []))
    then Some (EMsg "landing credentials are allowed only for http or socks5") else None
  else if one_of (landing_type l) ["http"; "socks5"]%string
  then validateHostPort "landing.server" (landing_server l)
  else Some (EMsg "landing type must be direct, http, or socks5").

Definition set_tcp_sessions (v : Z) (l : LimitsConfig) : LimitsConfig :=
  mkLimits (lim_dns_cache l) (lim_learned_ip l) v (lim_udp_sessions l) (lim_udp_idle l)
    (lim_sniff_bytes l) (lim_sniff_timeout l).

Definition validateLimits : validator :=
  assign (on_limits (λ l, set_tcp_sessions (default_Z (lim_tcp_sessions l) 256) l)) ;;;
  require (λ c, betweenInt (lim_tcp_sessions (cfg_limits c)) 64 4096)
    "TCP session limit is out of range" ;;;
  require (λ c, betweenInt (lim_dns_cache (cfg_limits c)) 64 65536
                && betweenInt (lim_learned_ip (cfg_limits c)) 64 131072
                && betweenInt (lim_udp_sessions (cfg_limits c)) 64 65536)
    "cache and session limits are out of range" ;;;
  require (λ c, between (lim_udp_idle (cfg_limits c)) (2 * Second) (600 * Second)
                && between (lim_sniff_timeout (cfg_limits c)) (10 * Millisecond) (2 * Second)
                && betweenInt (lim_sniff_bytes (cfg_limits c)) 1024 16384)
    "udp or sniff limits are out of range".

Definition set_probe_interval (v : duration) (h : HealthConfig) : HealthConfig :=
  mkHealth (health_failures h) (health_successes h) (health_cooldown h) v.

Definition validateHealth : validator :=
  assign (on_health (λ h, set_probe_interval
                            (default_Z (health_probe_interval h) (10 * Second)) h)) ;;;
  require (λ c, betweenInt (health_failures (cfg_health c)) 1 10
                && betweenInt (health_successes (cfg_health c)) 1 10
                && between (health_cooldown (cfg_health c)) (5 * Second) (15 * Minute)
                && between (health_probe_interval (cfg_health c)) Second (5 * Minute))
    "health settings are out of range".

Definition validateFirewall (c : Config) : option error :=
  let f := cfg_firewall c in
  if negb (validName (fw_table f)) || negb (validName (fw_lan_interface f))
  then Some (EMsg "firewall table and lan_interface must contain only [A-Za-z0-9_.-]")
  else if (fw_mark f =? 0) || (fw_route_table f =? 0)
  then Some (EMsg "firewall mark and route_table must be non-zero")
  else if fw_bypass_mark f =? fw_mark f
  then Some (EMsg "firewall bypass_mark must differ from mark")
  else if fw_bypass_mark f =? 1
  then Some (EMsg "firewall bypass_mark 1 is reserved for heartbeat selectors")
  else if bool_decide (fw_canary_source f = []) then None
  else match ParseAddr (fw_canary_source f) with
       | Some addr => if negb (Is4 addr) || Is4In6 addr
                      then Some (EMsg "firewall canary_source must be an IPv4 host address")
                      else None
       | None => Some (EMsg "firewall canary_source must be an IPv4 host address")
       end.

Definition validateRule (rule : RuleConfig) : option error :=
  if negb (one_of (rule_action rule) ["direct"; "proxy"]%string)
  then Some (EMsg "rule action must be direct or proxy")
  else if bool_decide (rule_type rule = str "domain") then
    if negb (validDNSName (rule_value rule)) then Some (EMsg "rule domain is invalid") else None
  else if bool_decide (rule_type rule = str "ip") then
    match ParsePrefix (rule_value rule) with
    | Some prefix => if negb (Is4 (paddr prefix)) || Is4In6 (paddr prefix)
                     then Some (EMsg "rule IP must be an IPv4 CIDR") else None
    | None => Some (EMsg "rule IP must be an IPv4 CIDR")
    end
  else Some (EMsg "rule type must be domain or ip").

Fixpoint validateRules (rules : list RuleConfig) : option error :=
  match rules with
  | [] => None
  | rule :: rules' => match validateRule rule with
                      | Some e => Some e
                      | None => validateRules rules'
                      end
  end.

Definition set_bypass_mark (v : Z) (f : FirewallConfig) : FirewallConfig :=
  mkFirewall (fw_table f) (fw_lan_interface f) (fw_mark f) v (fw_route_table f)
    (fw_canary_source f).

(** The bypass mark defaults to the successor of the mark, which must exist. *)
Definition defaultBypassMark : validator := λ c,
  let f := cfg_firewall c in
  if fw_bypass_mark f =? 0 then
    if fw_mark f =? 2 ^ 32 - 1 then (c, Some (EMsg "firewall mark leaves no bypass mark"))
    else (set_firewall (set_bypass_mark (u32 (fw_mark f + 1)) f) c, None)
  else (c, None).

Definition Validate (order : list listenName) : validator :=
  assign (λ c, set_control_socket
                 (default_str (cfg_control_socket c) "/var/run/hy2route-core.sock") c) ;;;
  require (λ c, HasPrefix (cfg_control_socket c) (str "/"))
    "control_socket must be an absolute path" ;;;
  check (λ c, validateListen order (cfg_listen c)) ;;;
  check (λ c, validateIPv4Endpoint "domestic_dns" (cfg_domestic_dns c)) ;;;
  check (λ c, validateIPv4Endpoint "trusted_dns" (cfg_trusted_dns c)) ;;;
  validateHY2 ;;;
  validateTCPRelay ;;;
  assign (λ c, set_udp_policy (default_str (cfg_udp_policy c) "proxy") c) ;;;
  require (λ c, one_of (cfg_udp_policy c) ["proxy"; "direct"; "block"]%string)
    "udp_policy must be proxy, direct, or block" ;;;
  check validateLanding ;;;
  validateLimits ;;;
  validateHealth ;;;
  defaultBypassMark ;;;
  check validateFirewall ;;;
  check (λ c, validateRules (cfg_rules c)) ;;;
  require (λ c, negb (bool_decide (TrimSpace (cfg_routing c) = []))) "data routing path is required" ;;;
  require (λ c, one_of (cfg_log_level c) [""; "debug"; "info"; "warn"; "error"]%string)
    "log_level must be debug, info, warn, or error".

(** ** What a valid configuration is *)

Definition hy2_ok (h : HY2Config) : Prop :=
  validateHostPort "hy2.server" (hy2_server h) = None ∧
  TrimSpace (hy2_auth h) ≠ [] ∧ validDNSName (hy2_sni h) = true ∧
  (hy2_pin h = [] ∨ length (hy2_pin h) = 64%nat ∧ is_Some (hex_DecodeString (hy2_pin h))) ∧
  4 * Second ≤ hy2_max_idle h ≤ 120 * Second ∧ 2 * Second ≤ hy2_keep_alive h ≤ 60 * Second ∧
  1 ≤ hy2_max_dials h ≤ 256 ∧
  hy2_init_stream h ≠ 0 ∧ hy2_max_stream h ≠ 0 ∧ hy2_init_conn h ≠ 0 ∧ hy2_max_conn h ≠ 0 ∧
  hy2_init_stream h ≤ hy2_max_stream h ∧ hy2_init_conn h ≤ hy2_max_conn h.

Definition relay_ok (r : TCPRelayConfig) : Prop :=
  relay_enabled r = true →
  validateHostPort "tcp_relay.server" (relay_server r) = None ∧
  uuid_pattern (relay_uuid r) = true ∧ validDNSName (relay_server_name r) = true ∧
  (∃ key, b64url_DecodeString (relay_public_key r) = Some key ∧ length key = 32%nat) ∧
  (length (relay_short_id r) ≤ 16)%nat ∧ is_Some (hex_DecodeString (relay_short_id r)) ∧
  one_of (relay_fingerprint r) fingerprints = true ∧ one_of (relay_flow r) flows = true.

Definition limits_ok (l : LimitsConfig) : Prop :=
  64 ≤ lim_tcp_sessions l ≤ 4096 ∧ 64 ≤ lim_dns_cache l ≤ 65536 ∧
  64 ≤ lim_learned_ip l ≤ 131072 ∧ 64 ≤ lim_udp_sessions l ≤ 65536 ∧
  2 * Second ≤ lim_udp_idle l ≤ 600 * Second ∧
  10 * Millisecond ≤ lim_sniff_timeout l ≤ 2 * Second ∧ 1024 ≤ lim_sniff_bytes l ≤ 16384.

Definition health_ok (h : HealthConfig) : Prop :=
  1 ≤ health_failures h ≤ 10 ∧ 1 ≤ health_successes h ≤ 10 ∧
  5 * Second ≤ health_cooldown h ≤ 15 * Minute ∧
  Second ≤ health_probe_interval h ≤ 5 * Minute.

Record config_ok (order : list listenName) (c : Config) : Prop := {
  ok_socket : HasPrefix (cfg_control_socket c) (str "/") = true;
  ok_listen : validateListen order (cfg_listen c) = None;
  ok_domestic : is_ok (parseIPv4Endpoint (cfg_domestic_dns c)) = true;
  ok_trusted : is_ok (parseIPv4Endpoint (cfg_trusted_dns c)) = true;
  ok_hy2 : hy2_ok (cfg_hy2 c);
  ok_relay : relay_ok (cfg_relay c);
  ok_udp_policy : one_of (cfg_udp_policy c) ["proxy"; "direct"; "block"]%string = true;
  ok_landing : validateLanding c = None;
  ok_limits : limits_ok (cfg_limits c);
  ok_health : health_ok (cfg_health c);
  ok_bypass : fw_bypass_mark (cfg_firewall c) ≠ 0;
  ok_firewall : validateFirewall c = None;
  ok_rules : validateRules (cfg_rules c) = None;
  ok_routing : TrimSpace (cfg_routing c) ≠ [];
  ok_log : one_of (cfg_log_level c) [""; "debug"; "info"; "warn"; "error"]%string = true }.

(** ** Validators as conditions *)

Lemma andThen_None v w c c' :
  andThen v w c = (c', None) ↔ ∃ c1, v c = (c1, None) ∧ w c1 = (c', None).
Proof.
  unfold andThen. destruct (v c) as [c1 [e|]]; split; naive_solver.
Qed.

Lemma require_None t m c c' : require t m c = (c', None) ↔ c' = c ∧ t c = true.
Proof. unfold require. destruct (t c); naive_solver. Qed.

Lemma assign_None f c c' : assign f c = (c', None) ↔ c' = f c.
Proof. unfold assign. naive_solver. Qed.

Lemma check_None f c c' : check f c = (c', None) ↔ c' = c ∧ f c = None.
Proof. unfold check. split; [by intros [= <- ->]|by intros [-> ->]]. Qed.

(** Runs through a chain of validators that succeeded. *)
Ltac validated :=
  repeat match goal with
  | H : andThen _ _ _ = (_, None) |- _ => apply andThen_None in H as (? & ? & ?)
  | H : require _ _ _ = (_, None) |- _ => apply require_None in H as [-> ?]
  | H : assign _ _ = (_, None) |- _ => apply assign_None in H as ->
  | H : check _ _ = (_, None) |- _ => apply check_None in H as [-> ?]
  end.

Ltac cfg_simpl :=
  cbn [cfg_listen cfg_domestic_dns cfg_trusted_dns cfg_hy2 cfg_relay cfg_tcp_domain_dial
       cfg_udp_policy cfg_landing cfg_limits cfg_health cfg_firewall cfg_rules cfg_routing
       cfg_control_socket cfg_log_level cfg_fail_open set_control_socket set_hy2 set_relay
       set_udp_policy set_limits set_health set_firewall on_hy2 on_relay on_limits on_health] in *.
Ltac relay_simpl :=
  cbn [relay_enabled relay_server relay_uuid relay_server_name relay_public_key relay_short_id
       relay_fingerprint relay_flow set_fingerprint set_flow] in *.
Ltac cfg_destruct c := destruct c as [l d t h r td u la li he f ru da cs lo fo]; cfg_simpl.

Lemma validateHY2_None c c' :
  validateHY2 c = (c', None) → ∃ h, c' = set_hy2 h c ∧ hy2_ok h.
Proof.
  intros H. unfold validateHY2 in H. validated. cfg_destruct c.
  eexists; split; [reflexivity|]. destruct h as [sv au sn ins pin mi ka w1 w2 w3 w4 dials].
  unfold hy2_ok, between, betweenInt, windows_valid, set_dials, setWindowDefaults in *.
  simpl in *. bools.
  repeat match goal with |- _ ∧ _ => split end; try done; try lia.
  rewrite orb_true_iff, !bool_decide_eq_true, ?Nat.eqb_eq in *. tauto.
Qed.

(** ** Valid configurations are left as they are *)

Definition accepts (v : validator) (c : Config) : Prop := v c = (c, None).

Lemma accepts_andThen v w c : accepts v c → accepts w c → accepts (v ;;; w) c.
Proof. intros Hv Hw. apply andThen_None. eauto. Qed.
Lemma accepts_require t m c : t c = true → accepts (require t m) c.
Proof. intros. by apply require_None. Qed.
Lemma accepts_check f c : f c = None → accepts (check f) c.
Proof. intros. by apply check_None. Qed.
Lemma accepts_assign f c : f c = c → accepts (assign f) c.
Proof. intros. by apply assign_None. Qed.

Lemma default_Z_id v d : v ≠ 0 → default_Z v d = v.
Proof. intros. unfold default_Z. by rewrite (proj2 (Z.eqb_neq _ _)). Qed.
Lemma default_str_id v d : v ≠ [] → default_str v d = v.
Proof. intros. unfold default_str. by rewrite bool_decide_false. Qed.

Ltac accept :=
  repeat lazymatch goal with
  | |- accepts (andThen _ _) _ => apply accepts_andThen
  | |- accepts (require _ _) _ => apply accepts_require
  | |- accepts (check _) _ => apply accepts_check
  | |- accepts (assign _) _ => apply accepts_assign
  end.

Lemma validateHY2_ok c : hy2_ok (cfg_hy2 c) → accepts validateHY2 c.
Proof.
  cfg_destruct c. destruct h as [sv au sn ins pin mi ka w1 w2 w3 w4 dials].
  unfold hy2_ok. simpl. intros H. destruct_and! H. unfold validateHY2. accept; cfg_simpl; simpl.
  all: unfold on_hy2, setWindowDefaults, set_dials, between, betweenInt, windows_valid; simpl;
    rewrite ?default_Z_id by lia; try done; try lia.
  - by rewrite bool_decide_false.
  - rewrite orb_true_iff, bool_decide_eq_true, Nat.eqb_eq. tauto.
  - rewrite orb_true_iff, !bool_decide_eq_true. tauto.
Qed.

Lemma one_of_nil v l : one_of v l = true → one_of [] l = false → v ≠ [].
Proof. intros ? ? ->. congruence. Qed.

Lemma validateTCPRelay_None c c' :
  validateTCPRelay c = (c', None) → ∃ r, c' = set_relay r c ∧ relay_ok r.
Proof.
  intros H. unfold validateTCPRelay in H. cfg_destruct c. destruct (negb _) eqn:E; bools.
  - simplify_eq. exists r. split; [done|]. intros ?. congruence.
  - unfold validateEnabledRelay in H. validated. cfg_simpl. eexists; split; [reflexivity|].
    intros _. destruct r as [en sv uu sn pk si fp fl]. relay_simpl. bools.
    repeat match goal with |- _ ∧ _ => split end; try done.
    destruct (b64url_DecodeString pk) as [key|]; [|done]. bools. eauto.
Qed.

Lemma validateTCPRelay_ok c : relay_ok (cfg_relay c) → accepts validateTCPRelay c.
Proof.
  unfold accepts, validateTCPRelay. cfg_destruct c. intros H. destruct (relay_enabled r) eqn:E; [|done].
  specialize (H E). change (negb true) with false. cbv iota.
  destruct r as [en sv uu sn pk si fp fl]. relay_simpl. subst en. destruct_and! H.
  assert (fp ≠ []) by (eapply one_of_nil; [eassumption|reflexivity]). assert (fl ≠ []) by (eapply one_of_nil; [eassumption|reflexivity]).
  change (accepts validateEnabledRelay
    (mkConfig l d t h (mkRelay true sv uu sn pk si fp fl) td u la li he f ru da cs lo fo)).
  unfold validateEnabledRelay. accept; cfg_simpl; relay_simpl; try done.
  - destruct_and?. match goal with H : ∃ key, _ |- _ => destruct H as (key & -> & ->) end. done.
  - by apply Nat.leb_le.
  - by apply bool_decide_eq_true.
  - by rewrite default_str_id.
  - by rewrite default_str_id.
Qed.

Lemma validateLimits_None c c' :
  validateLimits c = (c', None) → ∃ l, c' = set_limits l c ∧ limits_ok l.
Proof.
  intros H. unfold validateLimits in H. validated. cfg_destruct c. eexists; split; [reflexivity|].
  destruct li. unfold limits_ok, between, betweenInt, set_tcp_sessions in *. simpl in *. bools. lia.
Qed.

Lemma validateLimits_ok c : limits_ok (cfg_limits c) → accepts validateLimits c.
Proof.
  cfg_destruct c. destruct li. unfold limits_ok. simpl. intros H. destruct_and! H.
  unfold validateLimits. accept; cfg_simpl; simpl; unfold between, betweenInt;
    [|lia..]. unfold set_tcp_sessions. simpl. by rewrite default_Z_id by lia.
Qed.

Lemma validateHealth_None c c' :
  validateHealth c = (c', None) → ∃ h, c' = set_health h c ∧ health_ok h.
Proof.
  intros H. unfold validateHealth in H. validated. cfg_destruct c. eexists; split; [reflexivity|].
  destruct he. unfold health_ok, between, betweenInt, set_probe_interval in *. simpl in *. bools. lia.
Qed.

Lemma validateHealth_ok c : health_ok (cfg_health c) → accepts validateHealth c.
Proof.
  cfg_destruct c. destruct he. unfold health_ok. simpl. intros H. destruct_and! H.
  unfold validateHealth. accept; cfg_simpl; simpl; unfold between, betweenInt; [|lia].
  unfold set_probe_interval. simpl. rewrite default_Z_id; [done|]. unfold Second, Millisecond in *. lia.
Qed.

Lemma defaultBypassMark_None c c' :
  0 ≤ fw_mark (cfg_firewall c) < 2 ^ 32 → defaultBypassMark c = (c', None) →
  ∃ f, c' = set_firewall f c ∧ fw_bypass_mark f ≠ 0.
Proof.
  cfg_destruct c. unfold defaultBypassMark. cfg_simpl. intros Hm H.
  destruct (fw_bypass_mark f =? 0) eqn:E; bools; [|simplify_eq; eauto].
  destruct (fw_mark f =? 2 ^ 32 - 1) eqn:E2; bools; [done|]. simplify_eq.
  eexists; split; [reflexivity|]. simpl. unfold u32. rewrite Z.mod_small; lia.
Qed.

Lemma defaultBypassMark_ok c :
  fw_bypass_mark (cfg_firewall c) ≠ 0 → accepts defaultBypassMark c.
Proof.
  intros. unfold accepts, defaultBypassMark. by rewrite (proj2 (Z.eqb_neq _ _)).
Qed.

Lemma validateIPv4Endpoint_None name e :
  validateIPv4Endpoint name e = None ↔ is_ok (parseIPv4Endpoint e) = true.
Proof. unfold validateIPv4Endpoint. by destruct (parseIPv4Endpoint e). Qed.

Lemma Validate_config_ok order c c' :
  0 ≤ fw_mark (cfg_firewall c) < 2 ^ 32 → Validate order c = (c', None) → config_ok order c'.
Proof.
  cfg_destruct c. intros Hm H. unfold Validate in H.
  repeat (match goal with
  | H : andThen _ _ _ = (_, None) |- _ => apply andThen_None in H as (? & ? & ?)
  | H : require _ _ _ = (_, None) |- _ => apply require_None in H as [-> ?]
  | H : assign _ _ = (_, None) |- _ => apply assign_None in H as ->
  | H : check _ _ = (_, None) |- _ => apply check_None in H as [-> ?]
  | H : validateHY2 _ = _ |- _ => apply validateHY2_None in H as (? & -> & ?)
  | H : validateTCPRelay _ = _ |- _ => apply validateTCPRelay_None in H as (? & -> & ?)
  | H : validateLimits _ = _ |- _ => apply validateLimits_None in H as (? & -> & ?)
  | H : validateHealth _ = _ |- _ => apply validateHealth_None in H as (? & -> & ?)
  | H : defaultBypassMark _ = _ |- _ => apply defaultBypassMark_None in H as (? & -> & ?); [|done]
  | H : validateIPv4Endpoint _ _ = _ |- _ => apply validateIPv4Endpoint_None in H
  end; cfg_simpl).
  bools. by constructor.
Qed.

Lemma config_ok_accepted order c : config_ok order c → accepts (Validate order) c.
Proof.
  intros []. unfold Validate. accept.
  all: rewrite ?validateIPv4Endpoint_None; auto using validateHY2_ok, validateTCPRelay_ok,
    validateLimits_ok, validateHealth_ok, defaultBypassMark_ok.
  - rewrite default_str_id; [by destruct c|]. intros E. by rewrite E in ok_socket0.
  - rewrite default_str_id; [by destruct c|]. by eapply one_of_nil.
  - by rewrite bool_decide_false.
Qed.

(** ** What validation changes *)

(** A validator that succeeds leaves the configuration mapped by [f]. *)
Definition fills (v : validator) (f : Config → Config) : Prop := ∀ c c', v c = (c', None) → c' = f c.

Definition fill_relay (r : TCPRelayConfig) : TCPRelayConfig :=
  if relay_enabled r
  then set_flow (default_str (relay_flow r) "xtls-rprx-vision")
         (set_fingerprint (default_str (relay_fingerprint r) "chrome") r)
  else r.
Definition fill_bypass (f : FirewallConfig) : FirewallConfig :=
  if fw_bypass_mark f =? 0 then set_bypass_mark (u32 (fw_mark f + 1)) f else f.

Lemma fills_TCPRelay : fills validateTCPRelay (on_relay fill_relay).
Proof.
  intros c c' H. unfold validateTCPRelay in H. cfg_destruct c. unfold fill_relay.
  destruct (relay_enabled r) eqn:E; simpl in H; [|by simplify_eq].
  unfold validateEnabledRelay in H. validated. cfg_simpl. by destruct r.
Qed.

Lemma fills_bypass : fills defaultBypassMark (λ c, set_firewall (fill_bypass (cfg_firewall c)) c).
Proof.
  intros c c' H. unfold defaultBypassMark in H. cfg_destruct c. unfold fill_bypass.
  destruct (_ =? 0); [|by simplify_eq]. destruct (_ =? _); by simplify_eq.
Qed.

(** The defaults: every field that is empty or zero and has one. *)
Definition fill_defaults (c : Config) : Config :=
  let '(mkConfig l d t h r td u la li he f ru da cs lo fo) := c in
  mkConfig l d t (set_dials (default_Z (hy2_max_dials h) 32) (setWindowDefaults h)) (fill_relay r) td
    (default_str u "proxy") la (set_tcp_sessions (default_Z (lim_tcp_sessions li) 256) li)
    (set_probe_interval (default_Z (health_probe_interval he) (10 * Second)) he) (fill_bypass f) ru da
    (default_str cs "/var/run/hy2route-core.sock") lo fo.

Lemma Validate_fills order : fills (Validate order) fill_defaults.
Proof.
  intros c c' H. unfold Validate, validateHY2, validateLimits, validateHealth in H. validated.
  repeat match goal with
  | H : validateTCPRelay _ = _ |- _ => apply fills_TCPRelay in H as ->
  | H : defaultBypassMark _ = _ |- _ => apply fills_bypass in H as ->
  end.
  cfg_destruct c. done.
Qed.

(** ** The listen endpoints, in whatever order the map is visited *)

Lemma parseIPv4Endpoint_Ok e a p :
  parseIPv4Endpoint e = Ok (a, p) → Is4 a = true ∧ 1 ≤ p ≤ 65535.
Proof.
  unfold parseIPv4Endpoint. destruct (SplitHostPort e) as [[host service]|]; [|done].
  destruct (ParseAddr host) as [addr|]; [|done]. destruct (negb _ || _) eqn:E; [done|]. bools.
  destruct (LookupPort _ _ _) as [port|]; [|done]. destruct (_ || _) eqn:E2; [done|]. bools.
  intros [= <- <-]. unfold u16. rewrite Z.mod_small by lia. split; [done|lia].
Qed.

Definition endpoint_port (e : bytes) : option Z :=
  match parseIPv4Endpoint e with Ok (_, p) => Some p | Err _ => None end.

(** The ports a visit adds to the set; [None] is the error return. *)
Definition visit (listen : ListenConfig) (n : listenName) (ports : gset Z) : option (gset Z) :=
  p ← endpoint_port (listen_endpoint listen n);
  Some (match n with LUDP => ports | _ => {[p]} ∪ ports end).

Lemma listen_loop_visit order listen ports :
  match listen_loop order listen ports with Ok r => Some r | Err _ => None end =
  foldl (λ acc n, acc ≫= visit listen n) (Some ports) order.
Proof.
  revert ports. induction order as [|n order IH]; intros ports; [done|]. cbn [listen_loop foldl].
  cbn [mbind option_bind]. unfold visit at 2, endpoint_port.
  destruct (parseIPv4Endpoint _) as [[a p]|] eqn:E; cbn [mbind option_bind].
  - apply parseIPv4Endpoint_Ok in E as [-> ?]. rewrite (proj2 (Z.eqb_neq p 0)) by lia. apply IH.
  - clear. by induction order.
Qed.

Lemma visit_swap listen m n (acc : option (gset Z)) :
  (acc ≫= visit listen m) ≫= visit listen n = (acc ≫= visit listen n) ≫= visit listen m.
Proof.
  destruct acc as [ports|]; [|done]. cbn [mbind option_bind]. unfold visit.
  destruct (endpoint_port (listen_endpoint listen m)), (endpoint_port (listen_endpoint listen n));
    cbn [mbind option_bind]; try done.
  destruct m, n; try done; f_equal; set_solver.
Qed.

Lemma listen_order_irrelevant order order' listen (acc : option (gset Z)) :
  order ≡ₚ order' →
  foldl (λ acc n, acc ≫= visit listen n) acc order =
  foldl (λ acc n, acc ≫= visit listen n) acc order'.
Proof.
  intros Hp. revert acc. induction Hp as [|n l l' _ IH|m n l|l1 l2 l3 _ IH1 _ IH2]; intros acc;
    cbn [foldl]; [done|apply IH|by rewrite visit_swap|by rewrite IH1].
Qed.

Lemma size_two (a b : Z) : size ({[b]} ∪ ({[a]} ∪ ∅) : gset Z) = 2%nat ↔ a ≠ b.
Proof.
  rewrite union_empty_r_L. destruct (decide (a = b)) as [->|Hab].
  - rewrite (subseteq_union_1_L {[b]} {[b]}) by done. by rewrite size_singleton.
  - rewrite size_union, !size_singleton by set_solver. by split.
Qed.

(** Whichever order the run visits the three endpoints of the map literal in,
    the listen section is accepted exactly when DNS, TCP and UDP are each an IPv4
    address with a port in 1..65535 and the DNS and TCP ports differ. *)
Theorem validateListen_iff (order : list listenName) (listen : ListenConfig) :
  order ≡ₚ [LDNS; LTCP; LUDP] →
  validateListen order listen = None ↔
  ∃ d t u, endpoint_port (listen_dns listen) = Some d ∧ endpoint_port (listen_tcp listen) = Some t ∧
           endpoint_port (listen_udp listen) = Some u ∧ d ≠ t.
Proof.
  intros Hp. unfold validateListen. pose proof (listen_loop_visit order listen ∅) as Hv.
  rewrite (listen_order_irrelevant _ _ _ _ Hp) in Hv. cbn [foldl mbind option_bind] in Hv.
  unfold visit in Hv. simpl listen_endpoint in Hv.
  destruct (listen_loop order listen ∅) as [ports|e].
  - destruct (endpoint_port (listen_dns listen)) as [d|], (endpoint_port (listen_tcp listen)) as [t|],
      (endpoint_port (listen_udp listen)) as [u|]; cbn [mbind option_bind] in Hv; try done.
    injection Hv as ->. destruct (negb _) eqn:E; bools.
    + split; [done|]. intros (? & ? & ? & [= <-] & [= <-] & _ & Hne). by apply size_two in Hne.
    + apply size_two in E. naive_solver.
  - split; [done|]. intros (d & t & u & Hd & Ht & Hu & _). by rewrite Hd, Ht, Hu in Hv.
Qed.

(** Validation ends in a valid configuration and is idempotent: when
    [Validate] returns nil, the configuration it leaves behind, defaults filled
    in, satisfies every range, pattern and consistency condition the program
    relies on (session limits, windows, thresholds, marks, endpoints), and
    validating it again succeeds and changes nothing. *)
Theorem Validate_establishes_config_ok (order : list listenName) (c c' : Config) :
  0 ≤ fw_mark (cfg_firewall c) < 2 ^ 32 → Validate order c = (c', None) →
  config_ok order c' ∧ Validate order c' = (c', None).
Proof.
  intros Hm H. pose proof (Validate_config_ok order c c' Hm H) as Hok.
  split; [done|]. by apply config_ok_accepted.
Qed.

End validation.

(** ** A complete configuration *)

Definition sample_config : Config :=
  mkConfig (mkListen (str "127.0.0.1:1053") (str "127.0.0.1:1080") (str "127.0.0.1:1080"))
    (str "223.5.5.5:53") (str "8.8.8.8:53")
    (mkHY2 (str "hy2.example.com:443") (str "secret") (str "hy2.example.com") false []
       (30 * Second) (10 * Second) 0 0 0 0 0)
    (mkRelay false [] [] [] [] [] [] []) false []
    (mkLanding false 0 (str "direct") [] [] [])
    (mkLimits 4096 8192 0 1024 (60 * Second) 4096 (200 * Millisecond))
    (mkHealth 3 2 (30 * Second) 0)
    (mkFirewall (str "hy2route") (str "br-lan") 1088 0 100 [])
    [mkRule (str "proxy") (str "domain") (str "example.org");
     mkRule (str "direct") (str "ip") (str "10.0.0.0/8")]
    (str "/usr/share/hy2route/routing.dat") [] [] true.

Lemma Validate_establishes_config_ok_witness :
  let c' := (Validate (λ _ _, None) [LUDP; LDNS; LTCP] sample_config).1 in
  config_ok (λ _ _, None) [LUDP; LDNS; LTCP] c' ∧ lim_tcp_sessions (cfg_limits c') = 256.
Proof.
  split; [|vm_compute; reflexivity].
  refine (proj1 (Validate_establishes_config_ok _ [LUDP; LDNS; LTCP] sample_config _ _ _)).
  - simpl. lia.
  - vm_compute. reflexivity.
Defined.

Lemma validateListen_iff_witness :
  validateListen (λ _ _, None) [LUDP; LTCP; LDNS] (cfg_listen sample_config) = None.
Proof.
  apply (validateListen_iff (λ _ _, None) [LUDP; LTCP; LDNS] (cfg_listen sample_config)).
  - symmetry. apply (Permutation_rev [LDNS; LTCP; LUDP]).
  - exists 1053, 1080, 1080. vm_compute. repeat split; done.
Defined.
