(* ===== verification/Classifier.v ===== *)
(** * The classifier: [internal/policy/classifier.go]

    Builds the four trees from the routing data and the explicit rules, and
    answers domain and address queries.  The answers are refined to the rule
    lists themselves: explicit rules before the China data before the default. *)

From S2P Require Import Prelude GoStrings GoNet Domains IPv4Tree Sha256 Dataset GoCodec Config.

Record Classifier := mkClassifier {
  explicitDomains : domainNode;
  chinaDomains : domainNode;
  explicitIPv4 : ipv4Node;
  chinaIPv4 : ipv4Node }.

Definition parseAction (value : bytes) : result Action :=
  if bool_decide (value = str "direct") then Ok Direct
  else if bool_decide (value = str "proxy") then Ok Proxy
  else errorf "rule action is invalid".

(** The three loops of [New]. *)
Fixpoint add_china_domains (tree : domainNode) (ds : list Domain) : result domainNode :=
  match ds with
  | [] => Ok tree
  | d :: ds' =>
      match NormalizeDomain (Name d) with
      | Err e => Err (EWrap "china domain" e)
      | Ok normalized => add_china_domains (domainTree_add tree normalized (Exact d) Direct) ds'
      end
  end.

Fixpoint add_china_prefixes (tree : ipv4Node) (ps : list Prefix) : result ipv4Node :=
  match ps with
  | [] => Ok tree
  | p :: ps' =>
      if negb (prefix_IsValid p) || negb (Is4 (paddr p)) || Is4In6 (paddr p)
      then errorf "china prefix is not IPv4"
      else add_china_prefixes (ipv4Tree_add tree p Direct) ps'
  end.

Fixpoint add_rules (domains : domainNode) (ips : ipv4Node) (rules : list RuleConfig)
  : result (domainNode * ipv4Node) :=
  match rules with
  | [] => Ok (domains, ips)
  | rule :: rules' =>
      let? action := parseAction (rule_action rule) in
      if bool_decide (rule_type rule = str "domain") then
        match NormalizeDomain (rule_value rule) with
        | Err e => Err (EWrap "rule domain" e)
        | Ok normalized => add_rules (domainTree_add domains normalized false action) ips rules'
        end
      else if bool_decide (rule_type rule = str "ip") then
        match ParsePrefix (rule_value rule) with
        | None => errorf "rule IP is not IPv4 CIDR"
        | Some prefix =>
            if negb (Is4 (paddr prefix)) || Is4In6 (paddr prefix)
            then errorf "rule IP is not IPv4 CIDR"
            else add_rules domains (ipv4Tree_add ips prefix action) rules'
        end
      else errorf "rule type is invalid"
  end.

Definition New (data : Data) (rules : list RuleConfig) : result Classifier :=
  let? china := add_china_domains emptyNode (Domains data) in
  let? chinaIP := add_china_prefixes emptyTree (Prefixes data) in
  let? (domains, ips) := add_rules emptyNode emptyTree rules in
  Ok (mkClassifier domains china ips chinaIP).

Definition classify_Domain (classifier : Classifier) (domain : bytes) : Decision :=
  match NormalizeDomain domain with
  | Err _ => mkDecision Proxy SourceDefault []
  | Ok normalized =>
      match domainTree_match (explicitDomains classifier) normalized with
      | (action, true) => mkDecision action SourceExplicitDomain normalized
      | _ =>
          match domainTree_match (chinaDomains classifier) normalized with
          | (action, true) => mkDecision action SourceChinaDomain normalized
          | _ => mkDecision Proxy SourceDefault normalized
          end
      end
  end.

Definition classify_IP (classifier : Classifier) (addr : Addr) : Decision :=
  match ipv4Tree_match (explicitIPv4 classifier) addr with
  | (action, true) => mkDecision action SourceExplicitIP []
  | _ =>
      match ipv4Tree_match (chinaIPv4 classifier) addr with
      | (action, true) => mkDecision action SourceChinaIP []
      | _ => mkDecision Proxy SourceDefault []
      end
  end.

(** ** The rule lists the inputs denote *)

Definition china_domain_rules (data : Data) : list domainRule :=
  omap (λ d, match NormalizeDomain (Name d) with
             | Ok n => Some (mkDomainRule n (Exact d) Direct) | Err _ => None end) (Domains data).

Definition china_ip_rules (data : Data) : list ipRule :=
  (λ p, mkIpRule p Direct) <$> Prefixes data.

Definition action_of (rule : RuleConfig) : Action :=
  match parseAction (rule_action rule) with Ok a => a | Err _ => Unknown end.

Definition explicit_domain_rules (rules : list RuleConfig) : list domainRule :=
  omap (λ r, if bool_decide (rule_type r = str "domain") then
               match NormalizeDomain (rule_value r) with
               | Ok n => Some (mkDomainRule n false (action_of r)) | Err _ => None end
             else None) rules.

Definition explicit_ip_rules (rules : list RuleConfig) : list ipRule :=
  omap (λ r, if bool_decide (rule_type r = str "domain") then None
             else p ← ParsePrefix (rule_value r); Some (mkIpRule p (action_of r))) rules.

(** ** Parsed prefixes are IPv4 prefixes *)

Lemma parse4_bytes s first prev val dl fields r :
  parse4 s first prev val dl fields = Some r →
  0 ≤ val < 256 → Forall (λ b, 0 ≤ b < 256) fields → Forall (λ b, 0 ≤ b < 256) r.
Proof.
  revert first prev val dl fields. induction s as [|c s IH]; intros first prev val dl fields H Hv Hf;
    cbn [parse4] in H.
  - destruct (_ <? _)%nat; simplify_eq. apply Forall_reverse. by constructor.
  - destruct (is_digit c) eqn:Hd.
    + unfold is_digit, in_range in Hd. bools. destruct (_ && _); [done|].
      destruct (255 <? _) eqn:E; [done|]. bools. by apply IH in H; [| lia |].
    + destruct (c =? 46); [|done]. destruct (_ || _); [done|]. destruct (_ =? _)%nat; [done|].
      apply IH in H; [done|lia|by constructor].
Qed.

Lemma parseIPv6_not4 s a : parseIPv6 s = Some a → Is4 a = false.
Proof.
  unfold parseIPv6. generalize (parse6_loop 8). intros loop.
  destruct (match IndexByte s 37 with Some _ => _ | None => _ end) as [[s0 zone] [|]]; [done|].
  destruct (match s0 with [] => _ | _ => _ end) as [ell s1].
  assert (Hloop : ∀ o : option (bytes * option nat * bytes),
    match o with
    | Some (ip, ell', []) =>
        if (length ip <? 16)%nat then
          match ell' with
          | None => None
          | Some e => Some (Addr6 (take e ip ++ replicate (16 - length ip) 0 ++ drop e ip) zone)
          end
        else match ell' with Some _ => None | None => Some (Addr6 ip zone) end
    | _ => None
    end = Some a → Is4 a = false).
  { intros [[[ip e] [|]]|]; [|done|done]. destruct (_ <? _)%nat, e; by intros [= <-]. }
  destruct ell, s1; try apply Hloop. by intros [= <-].
Qed.

Lemma ParseAddr_byte4 s a : ParseAddr s = Some a → Is4 a = true → byte4 a.
Proof.
  unfold ParseAddr. generalize s at 1. intros rest. induction rest as [|c rest IH]; [done|].
  cbn [parse_addr_scan]. destruct (c =? 46).
  - unfold parseIPv4Fields. destruct (parse4 _ _ _ _ _ _) as [r|] eqn:E; [|done].
    apply parse4_bytes in E; [|lia|constructor].
    destruct r as [|? [|? [|? [|? [|? ?]]]]]; try done. intros [= <-] _.
    decompose_Forall_hyps. simpl. lia.
  - destruct (c =? 58); [|by destruct (c =? 37)].
    intros H Ha. apply parseIPv6_not4 in H. congruence.
Qed.

Lemma ParsePrefix_ok s p :
  ParsePrefix s = Some p → Is4 (paddr p) = true → prefix4_ok p.
Proof.
  unfold ParsePrefix. destruct (LastIndexByte s 47) as [i|]; [|done].
  destruct (ParseAddr (take i s)) as [a|] eqn:Ha; [|done].
  destruct (_ || _); [done|]. destruct (Atoi _) as [bits|]; [|done].
  destruct (_ || _) eqn:E; [done|]. bools. intros [= <-]. simpl paddr.
  destruct a as [|x y z w|ip zn]; [done| |done]. intros _.
  pose proof (ParseAddr_byte4 _ _ Ha eq_refl) as Hb. unfold PrefixFrom. simpl in *.
  rewrite (proj2 (Z.leb_le 0 bits)), (proj2 (Z.leb_le bits 32)) by lia. split; [done|simpl; lia].
Qed.

(** ** The trees are the rule lists *)

Lemma add_china_domains_spec ds tree tree' :
  add_china_domains tree ds = Ok tree' →
  tree' = foldl add_rule tree (china_domain_rules (mkData ds [])).
Proof.
  revert tree. induction ds as [|d ds IH]; intros tree H; [by simplify_eq/=|].
  cbn [add_china_domains] in H. unfold china_domain_rules. simpl.
  destruct (NormalizeDomain (Name d)) as [n|]; [|done]. by apply IH in H.
Qed.

Lemma add_china_prefixes_spec ps tree tree' :
  add_china_prefixes tree ps = Ok tree' →
  tree' = foldl add_ip_rule tree ((λ p, mkIpRule p Direct) <$> ps).
Proof.
  revert tree. induction ps as [|p ps IH]; intros tree H; [by simplify_eq/=|].
  cbn [add_china_prefixes] in H. destruct (_ || _ || _); [done|]. by apply IH in H.
Qed.

Lemma add_rules_spec rules dt it dt' it' :
  add_rules dt it rules = Ok (dt', it') →
  dt' = foldl add_rule dt (explicit_domain_rules rules) ∧
  it' = foldl add_ip_rule it (explicit_ip_rules rules) ∧
  Forall (λ r, prefix4_ok (ir_prefix r)) (explicit_ip_rules rules).
Proof.
  revert dt it. induction rules as [|r rules IH]; intros dt it H; [simplify_eq/=; by repeat split|].
  cbn [add_rules] in H. unfold explicit_domain_rules, explicit_ip_rules, action_of. simpl.
  destruct (parseAction (rule_action r)) as [act|] eqn:Ha; [|done].
  case_bool_decide as Hd.
  - destruct (NormalizeDomain (rule_value r)) as [n|] eqn:Hn; [|done].
    by apply IH in H.
  - case_bool_decide as Hi; [|done].
    destruct (ParsePrefix (rule_value r)) as [p|] eqn:Hp; [|done].
    destruct (_ || _) eqn:E; [done|]. bools. apply IH in H as (-> & -> & Hf). simpl.
    split; [done|]. split; [done|]. constructor; [|done]. by eapply ParsePrefix_ok.
Qed.

(** The decisions the rule lists prescribe. *)
Definition domain_spec (data : Data) (rules : list RuleConfig) (domain : bytes) : Decision :=
  match NormalizeDomain domain with
  | Err _ => mkDecision Proxy SourceDefault []
  | Ok n =>
      match rules_action (explicit_domain_rules rules) n with
      | Unknown =>
          match rules_action (china_domain_rules data) n with
          | Unknown => mkDecision Proxy SourceDefault n
          | a => mkDecision a SourceChinaDomain n
          end
      | a => mkDecision a SourceExplicitDomain n
      end
  end.

Definition ip_spec (data : Data) (rules : list RuleConfig) (addr : Addr) : Decision :=
  match longest_prefix_action (explicit_ip_rules rules) addr with
  | Unknown =>
      match longest_prefix_action (china_ip_rules data) addr with
      | Unknown => mkDecision Proxy SourceDefault []
      | a => mkDecision a SourceChinaIP []
      end
  | a => mkDecision a SourceExplicitIP []
  end.

Lemma New_spec data rules cl :
  New data rules = Ok cl →
  cl = mkClassifier (foldl add_rule emptyNode (explicit_domain_rules rules))
                    (foldl add_rule emptyNode (china_domain_rules data))
                    (foldl add_ip_rule emptyTree (explicit_ip_rules rules))
                    (foldl add_ip_rule emptyTree (china_ip_rules data)) ∧
  Forall (λ r, prefix4_ok (ir_prefix r)) (explicit_ip_rules rules).
Proof.
  unfold New. destruct (add_china_domains _ _) as [cd|] eqn:H1; [|done].
  destruct (add_china_prefixes _ _) as [ci|] eqn:H2; [|done].
  destruct (add_rules _ _ _) as [[dt it]|] eqn:H3; [|done]. intros [= <-].
  apply add_china_domains_spec in H1 as ->. apply add_china_prefixes_spec in H2 as ->.
  by apply add_rules_spec in H3 as (-> & -> & ?).
Qed.

(** A tree answer read as an action: [Unknown] when there is no match. *)
Lemma match_cases {A} (m : Action * bool) (f : Action → A) (g : A) :
  m.2 = negb (bool_decide (m.1 = Unknown)) →
  match m with (a, true) => f a | _ => g end = match m.1 with Unknown => g | a => f a end.
Proof. destruct m as [a b]. simpl. intros ->. by destruct a. Qed.

Lemma classify_Domain_spec data rules cl domain :
  New data rules = Ok cl → classify_Domain cl domain = domain_spec data rules domain.
Proof.
  intros H. apply New_spec in H as [-> _]. unfold classify_Domain, domain_spec.
  cbn [explicitDomains chinaDomains]. destruct (NormalizeDomain domain) as [n|]; [|done].
  rewrite !match_cases by done. by rewrite !tree_refines_rules.
Qed.

Lemma classify_IP_spec data rules cl addr :
  New data rules = Ok cl → Forall prefix4_ok (Prefixes data) → byte4 addr →
  classify_IP cl addr = ip_spec data rules addr.
Proof.
  intros H Hd Ha. apply New_spec in H as [-> Hr]. unfold classify_IP, ip_spec.
  cbn [explicitIPv4 chinaIPv4].
  rewrite !match_cases by apply ipv4Tree_match_ok.
  rewrite !tree_refines_longest; [done| |done..].
  unfold china_ip_rules. by rewrite Forall_fmap.
Qed.

(** The rules of an action that cover a name. *)
Definition some_rule (rules : list domainRule) (a : Action) (n : bytes) : Prop :=
  ∃ r, r ∈ rules ∧ rule_covers r n = true ∧ dr_action r = a.

(** ** Validated rules build a classifier *)

Lemma validDNSLabel_check l : validDNSLabel l = is_ok (check_label l).
Proof.
  unfold validDNSLabel, check_label, dns_char. destruct (_ || _ || _ || _); [done|]. simpl.
  by destruct (forallb _ _).
Qed.

Lemma validDNSName_normalizes v : validDNSName v = is_ok (NormalizeDomain v).
Proof.
  unfold validDNSName, NormalizeDomain. set (w := TrimSuffix (ToLower v) [46]).
  replace (length w =? 0)%nat with (bool_decide (w = [])) by (by destruct w).
  destruct (_ || _); [done|]. simpl. induction (Split w 46) as [|l ls IH]; [done|].
  simpl. rewrite validDNSLabel_check. destruct (check_label l); [|done]. simpl. rewrite IH.
  by destruct (check_labels ls).
Qed.

Lemma parseAction_valid v :
  one_of v ["direct"; "proxy"]%string = true → is_ok (parseAction v) = true.
Proof.
  unfold one_of, parseAction. cbn [existsb]. rewrite orb_false_r.
  by destruct (bool_decide (v = str "direct")), (bool_decide (v = str "proxy")).
Qed.

Lemma add_rules_validated rules dt it :
  validateRules rules = None → is_ok (add_rules dt it rules) = true.
Proof.
  revert dt it. induction rules as [|r rules IH]; intros dt it H; [done|].
  cbn [validateRules add_rules] in *. destruct (validateRule r) eqn:E; [done|].
  unfold validateRule in E. destruct (negb _) eqn:Ea; [done|]. bools.
  apply parseAction_valid in Ea. destruct (parseAction _) as [act|]; [|done].
  case_bool_decide.
  - rewrite validDNSName_normalizes in E. destruct (NormalizeDomain _); [|done]. by apply IH.
  - case_bool_decide; [|done]. destruct (ParsePrefix _) as [p|]; [|done].
    destruct (_ || _); [done|]. by apply IH.
Qed.

Lemma add_china_domains_ok ds tree :
  Forall (λ d, is_ok (NormalizeDomain (Name d)) = true) ds →
  is_ok (add_china_domains tree ds) = true.
Proof.
  intros H. revert tree. induction H as [|d ds Hd _ IH]; intros tree; [done|].
  cbn [add_china_domains]. destruct (NormalizeDomain (Name d)); [|done]. apply IH.
Qed.

Lemma add_china_prefixes_ok ps tree :
  Forall prefix4_ok ps → is_ok (add_china_prefixes tree ps) = true.
Proof.
  intros H. revert tree. induction H as [|p ps [Hp Hb] _ IH]; intros tree; [done|].
  cbn [add_china_prefixes]. unfold prefix_IsValid. rewrite (proj2 (Z.leb_le 0 (pbits p))) by lia.
  destruct (paddr p); [done| |done]. apply IH.
Qed.

(** C1: the decision for a name is the one the rule lists prescribe: a name that
    is not a DNS name is proxied by default; otherwise explicit domain rules
    decide first (suffix rules on whole labels, proxy before direct), then the
    China list, then the default proxy, each reported with its source. *)
Theorem Domain_refines_rules (data : Data) (rules : list RuleConfig) (cl : Classifier) :
  New data rules = Ok cl → ∀ domain, classify_Domain cl domain = domain_spec data rules domain.
Proof. intros H domain. by apply classify_Domain_spec. Qed.

Lemma rules_action_Direct rules n :
  rules_action rules n = Direct ↔ ¬ some_rule rules Proxy n ∧ some_rule rules Direct n.
Proof.
  unfold some_rule. rewrite <- rules_action_Proxy.
  pose proof (rules_action_Unknown rules n) as HU. split.
  - intros H. split; [congruence|]. rewrite H in HU. destruct HU as [_ HU].
    destruct (decide (Exists (λ r, rule_covers r n = true ∧ dr_action r = Direct) rules)) as [E|E].
    + apply list.Exists_exists in E as (r & ? & ? & ?). eauto.
    + exfalso. assert (Direct = Unknown); [|done]. apply HU. intros r Hr Hc.
      destruct (dr_action r) eqn:Ha; [done| |].
      * exfalso. apply E, list.Exists_exists. eauto.
      * assert (rules_action rules n = Proxy) by (apply rules_action_Proxy; eauto). congruence.
  - intros [HP (r & Hr & Hc & Ha)]. destruct (rules_action rules n) eqn:E; [|done|done].
    destruct HU as [HU _]. rewrite (HU eq_refl r Hr Hc) in Ha. done.
Qed.

Lemma china_only_direct data n : rules_action (china_domain_rules data) n ≠ Proxy.
Proof.
  rewrite rules_action_Proxy. intros (r & Hr & _ & Ha). unfold china_domain_rules in Hr.
  apply list_elem_of_omap in Hr as (d & _ & Hd). by destruct (NormalizeDomain _); simplify_eq.
Qed.

(** A name goes direct exactly when no explicit proxy rule covers it and
    either an explicit direct rule covers it, or no explicit rule does and a
    domain of the China list covers it. *)
Theorem Domain_direct_iff (data : Data) (rules : list RuleConfig) (cl : Classifier) (d n : bytes) :
  New data rules = Ok cl → NormalizeDomain d = Ok n →
  dec_action (classify_Domain cl d) = Direct ↔
  ¬ some_rule (explicit_domain_rules rules) Proxy n ∧
  (some_rule (explicit_domain_rules rules) Direct n ∨
   some_rule (china_domain_rules data) Direct n).
Proof.
  intros H Hn. rewrite (classify_Domain_spec _ _ _ _ H). unfold domain_spec. rewrite Hn.
  pose proof (rules_action_Direct (explicit_domain_rules rules) n) as HD.
  pose proof (rules_action_Proxy (explicit_domain_rules rules) n) as HP.
  pose proof (rules_action_Direct (china_domain_rules data) n) as CD.
  pose proof (china_only_direct data n) as CP. rewrite rules_action_Proxy in CP.
  fold (some_rule (explicit_domain_rules rules) Proxy n) in HP.
  fold (some_rule (china_domain_rules data) Proxy n) in CP.
  destruct (rules_action (explicit_domain_rules rules) n); simpl.
  - destruct (rules_action (china_domain_rules data) n); simpl; intuition congruence.
  - intuition congruence.
  - intuition congruence.
Qed.

(** The decision for an address in the documented order: explicit proxy rules
    before explicit direct rules, then the China prefixes, then the default. *)
Definition documented_ip (data : Data) (rules : list RuleConfig) (addr : Addr) : Decision :=
  if ip_covered (explicit_ip_rules rules) Proxy addr then mkDecision Proxy SourceExplicitIP []
  else if ip_covered (explicit_ip_rules rules) Direct addr then mkDecision Direct SourceExplicitIP []
  else if ip_covered (china_ip_rules data) Direct addr then mkDecision Direct SourceChinaIP []
  else mkDecision Proxy SourceDefault [].

Lemma china_not_covered_Proxy data addr : ip_covered (china_ip_rules data) Proxy addr = false.
Proof.
  apply not_true_is_false. intros (r & Hr & _ & Ha)%ip_covered_true.
  apply list_elem_of_fmap in Hr as (p & -> & _). done.
Qed.

Lemma china_longest data addr :
  Forall prefix4_ok (Prefixes data) →
  longest_prefix_action (china_ip_rules data) addr =
    if ip_covered (china_ip_rules data) Direct addr then Direct else Unknown.
Proof.
  intros Hd. rewrite longest_prefix_documented, china_not_covered_Proxy; [done| |].
  - unfold china_ip_rules. by rewrite Forall_fmap.
  - intros d _ _ _ H. by rewrite china_not_covered_Proxy in H.
Qed.

(** C2: an IPv4 address is decided in the documented order, explicit proxy rules
    before explicit direct rules, then the China prefixes, then the default proxy,
    each reported with its source, for every address at which no explicit direct
    prefix is longer than all the explicit proxy prefixes that cover it too. *)
Theorem IP_follows_documented_precedence (data : Data) (rules : list RuleConfig) (cl : Classifier) :
  New data rules = Ok cl → Forall prefix4_ok (Prefixes data) →
  ∀ addr, byte4 addr → proxy_as_specific (explicit_ip_rules rules) addr →
  classify_IP cl addr = documented_ip data rules addr.
Proof.
  intros H Hd addr Ha Hs. rewrite (classify_IP_spec data rules) by done.
  apply New_spec in H as [_ Hr]. unfold ip_spec, documented_ip.
  rewrite longest_prefix_documented, china_longest by done.
  by destruct (ip_covered _ Proxy addr), (ip_covered (explicit_ip_rules rules) Direct addr),
    (ip_covered (china_ip_rules data) Direct addr).
Qed.

Lemma New_total (data : Data) (rules : list RuleConfig) :
  validateRules rules = None →
  Forall (λ d, is_ok (NormalizeDomain (Name d)) = true) (Domains data) →
  Forall prefix4_ok (Prefixes data) → ∃ cl, New data rules = Ok cl.
Proof.
  intros Hr Hd Hp. unfold New.
  pose proof (add_china_domains_ok _ emptyNode Hd) as H1.
  pose proof (add_china_prefixes_ok _ emptyTree Hp) as H2.
  pose proof (add_rules_validated _ emptyNode emptyTree Hr) as H3.
  destruct (add_china_domains _ _); [|done]. destruct (add_china_prefixes _ _); [|done].
  destruct (add_rules _ _ _) as [[? ?]|]; [|done]. eauto.
Qed.

(** A rule set that configuration validation accepts never makes [New]
    fail: with domains that normalise and IPv4 prefixes in the data file, the
    classifier is built. *)
Theorem New_accepts_validated_rules (data : Data) (rules : list RuleConfig) :
  validateRules rules = None →
  Forall (λ d, is_ok (NormalizeDomain (Name d)) = true) (Domains data) →
  Forall prefix4_ok (Prefixes data) → ∃ cl, New data rules = Ok cl.
Proof. apply New_total. Qed.

(** ** Witnesses *)

Definition sample_rules : list RuleConfig :=
  [mkRule (str "proxy") (str "domain") (str "Video.Example.cn");
   mkRule (str "direct") (str "ip") (str "8.8.0.0/16");
   mkRule (str "proxy") (str "ip") (str "8.8.8.0/24")].

Definition sample_classifier : Classifier :=
  match New sample_data sample_rules with
  | Ok cl => cl
  | Err _ => mkClassifier emptyNode emptyNode emptyTree emptyTree
  end.

Lemma sample_New : New sample_data sample_rules = Ok sample_classifier.
Proof. vm_compute. reflexivity. Qed.

Lemma Domain_refines_rules_witness :
  classify_Domain sample_classifier (str "www.video.example.cn") =
  mkDecision Proxy SourceExplicitDomain (str "www.video.example.cn").
Proof.
  rewrite (Domain_refines_rules sample_data sample_rules sample_classifier sample_New).
  vm_compute. reflexivity.
Defined.

Lemma Domain_direct_iff_witness :
  dec_action (classify_Domain sample_classifier (str "WWW.example.cn.")) = Direct.
Proof.
  apply (Domain_direct_iff sample_data sample_rules sample_classifier
           (str "WWW.example.cn.") (str "www.example.cn") sample_New).
  - vm_compute. reflexivity.
  - split.
    + intros (r & Hr & Hc & _). apply list_elem_of_singleton in Hr as ->. by vm_compute in Hc.
    + right. exists (mkDomainRule (str "cn") false Direct).
      split; [apply list_elem_of_here|]. split; vm_compute; reflexivity.
Defined.

Lemma IP_follows_documented_precedence_witness :
  classify_IP sample_classifier (Addr4 8 8 8 8) = mkDecision Proxy SourceExplicitIP [] ∧
  classify_IP sample_classifier (Addr4 8 8 4 4) = mkDecision Direct SourceExplicitIP [].
Proof.
  split; rewrite (IP_follows_documented_precedence sample_data sample_rules sample_classifier
    sample_New sample_prefixes_ok); try (simpl; lia); try (vm_compute; reflexivity).
  - intros d Hd _ Ha _. exists (mkIpRule (mkPrefix (Addr4 8 8 8 0) 24) Proxy).
    apply elem_of_cons in Hd as [-> |Hd]; [|apply list_elem_of_singleton in Hd as ->; vm_compute in Ha; done].
    split; [apply list_elem_of_further, list_elem_of_here|]. vm_compute. done.
  - intros d _ _ _ H. vm_compute in H. discriminate.
Defined.

Lemma New_accepts_validated_rules_witness : ∃ cl, New sample_data sample_rules = Ok cl.
Proof.
  apply (New_accepts_validated_rules sample_data sample_rules).
  - vm_compute. reflexivity.
  - repeat constructor.
  - apply sample_prefixes_ok.
Defined.

(** Among explicit IP rules the longest prefix decides, whatever its action: a
    direct rule for a host beats a proxy rule for the network around it. *)
Example ip_direct_beats_shorter_proxy :
  let rules := [mkRule (str "proxy") (str "ip") (str "8.8.0.0/16");
                mkRule (str "direct") (str "ip") (str "8.8.8.8/32")] in
  ∃ cl, New (mkData [] []) rules = Ok cl ∧ dec_action (classify_IP cl (Addr4 8 8 8 8)) = Direct.
Proof. eexists. split; vm_compute; reflexivity. Qed.
