(* ===== verification/GoHeap.v ===== *)
(** * [container/heap]

    The binary heap of the Go standard library on a slice ordered by an integer
    key, with the proofs its users need: [Push] and [Pop] keep the heap order and
    the items, and the root of a heap is minimal. *)

From S2P Require Import Prelude.

Section heap.
Context {A : Type} (key : A → Z).
Implicit Types (h : list A) (i j k n : nat).

Definition Less h i j : bool :=
  match h !! i, h !! j with Some x, Some y => key x <? key y | _, _ => false end.

Definition Swap h i j : list A :=
  match h !! i, h !! j with Some x, Some y => <[i := y]> (<[j := x]> h) | _, _ => h end.

(** [up]: the index at least halves, so [S j] steps suffice. *)
Fixpoint up (fuel : nat) h j : list A :=
  match fuel with
  | O => h
  | S f =>
      let i := ((j - 1) / 2)%nat in
      if (i =? j)%nat || negb (Less h j i) then h else up f (Swap h i j) i
  end.

(** [down]: the index grows, so [n] steps suffice. *)
Fixpoint down (fuel : nat) h i n : list A :=
  match fuel with
  | O => h
  | S f =>
      let j1 := (2 * i + 1)%nat in
      if (n <=? j1)%nat then h else
      let j2 := S j1 in
      let j := if (j2 <? n)%nat && Less h j2 j1 then j2 else j1 in
      if negb (Less h j i) then h else down f (Swap h i j) j n
  end.

Definition heap_Push h (x : A) : list A :=
  let h := h ++ [x] in up (length h) h (length h - 1).

(** [Pop] of a non-empty heap: the removed item and the rest. *)
Definition heap_Pop h : option (A * list A) :=
  let n := (length h - 1)%nat in
  let h := down n (Swap h 0 n) 0 n in
  x ← h !! n; Some (x, take n h).

(** ** Order *)

Definition le_at h i j : Prop :=
  ∀ x y, h !! i = Some x → h !! j = Some y → key x ≤ key y.

(** Every item is at least its parent. *)
Definition heap_ok h : Prop := ∀ j, (0 < j)%nat → le_at h ((j - 1) / 2)%nat j.

Lemma parent_lt j : (0 < j)%nat → ((j - 1) / 2 < j)%nat.
Proof. intros. apply Nat.Div0.div_lt_upper_bound. lia. Qed.

(** [i] is the parent of [j]. *)
Definition parent_of i j : Prop := j = (2 * i + 1)%nat ∨ j = (2 * i + 2)%nat.

Lemma parent_of_div i j : (0 < j)%nat → i = ((j - 1) / 2)%nat ↔ parent_of i j.
Proof.
  intros Hj. pose proof (Nat.div_mod_eq (j - 1) 2). pose proof (Nat.mod_upper_bound (j - 1) 2).
  unfold parent_of. split; [intros ->; lia|]. intros [->| ->].
  - replace (2 * i + 1 - 1)%nat with (i * 2)%nat by lia. by rewrite Nat.div_mul.
  - replace (2 * i + 2 - 1)%nat with (1 + i * 2)%nat by lia. by rewrite Nat.div_add.
Qed.

Lemma heap_ok_alt h : heap_ok h ↔ ∀ i j, parent_of i j → le_at h i j.
Proof.
  split.
  - intros H i j Hp. assert (0 < j)%nat by (destruct Hp; lia).
    rewrite (proj2 (parent_of_div i j ltac:(done)) Hp). by apply H.
  - intros H j Hj. apply H. by apply parent_of_div.
Qed.

Lemma root_minimal h x y : heap_ok h → h !! 0%nat = Some x → y ∈ h → key x ≤ key y.
Proof.
  intros Hh Hx [j Hj]%list_elem_of_lookup. revert y Hj.
  induction (lt_wf j) as [j _ IH]. intros y Hj.
  destruct (decide (j = 0%nat)) as [->|Hj0]; [by simplify_eq|].
  pose proof (parent_lt j ltac:(lia)). pose proof (lookup_lt_Some _ _ _ Hj).
  destruct (lookup_lt_is_Some_2 h ((j - 1) / 2)) as [z Hz]; [lia|].
  specialize (IH _ ltac:(done) z Hz). specialize (Hh j ltac:(lia) z y Hz Hj). lia.
Qed.

(** ** Swapping *)

Lemma Swap_lookup h i j x y k : h !! i = Some x → h !! j = Some y →
  Swap h i j !! k = if decide (k = i) then Some y else if decide (k = j) then Some x else h !! k.
Proof.
  intros Hi Hj. unfold Swap. rewrite Hi, Hj.
  pose proof (lookup_lt_Some _ _ _ Hi). pose proof (lookup_lt_Some _ _ _ Hj).
  destruct (decide (k = i)) as [->|].
  { rewrite list_lookup_insert_eq; [done|]. by rewrite length_insert. }
  rewrite list_lookup_insert_ne by done. destruct (decide (k = j)) as [->|].
  - by rewrite list_lookup_insert_eq.
  - by rewrite list_lookup_insert_ne.
Qed.

Lemma length_Swap h i j : length (Swap h i j) = length h.
Proof. unfold Swap. repeat break_match; rewrite ?length_insert; done. Qed.

Lemma Swap_Permutation h i j : Swap h i j ≡ₚ h.
Proof.
  unfold Swap. destruct (h !! i) as [x|] eqn:Hi; [|done].
  destruct (h !! j) as [y|] eqn:Hj; [|done]. by apply Permutation_insert_swap.
Qed.

Lemma le_at_Swap h i j x y a b : h !! i = Some x → h !! j = Some y →
  le_at (Swap h i j) a b ↔
  (∀ u v, (if decide (a = i) then Some y else if decide (a = j) then Some x else h !! a) = Some u →
          (if decide (b = i) then Some y else if decide (b = j) then Some x else h !! b) = Some v →
          key u ≤ key v).
Proof. intros Hi Hj. unfold le_at. by rewrite !(Swap_lookup h i j x y) by done. Qed.

(** ** [up] repairs a heap that is broken only above [j] *)

Definition up_inv h j : Prop :=
  (∀ a b, parent_of a b → b ≠ j → le_at h a b) ∧
  (∀ a c, parent_of a j → parent_of j c → le_at h a c).

Lemma Less_spec h i j x y : h !! i = Some x → h !! j = Some y → Less h i j = (key x <? key y).
Proof. intros Hi Hj. unfold Less. by rewrite Hi, Hj. Qed.

Lemma up_step h j x y i :
  parent_of i j → h !! i = Some x → h !! j = Some y → key y < key x → up_inv h j →
  up_inv (Swap h i j) i.
Proof.
  intros Hp Hi Hj Hlt [H1 H2]. assert (i < j)%nat by (destruct Hp; lia). split.
  - intros a b Hab Hb. apply (le_at_Swap h i j x y); [done..|]. intros u v.
    destruct (decide (a = i)) as [->|Hai]; destruct (decide (b = i)) as [->|Hbi]; try done.
    + destruct (decide (b = j)) as [->|Hbj]; intros Hu Hv; simplify_eq; [lia|].
      specialize (H1 i b Hab Hbj x v Hi Hv). lia.
    + destruct (decide (a = j)) as [->|Haj]; intros Hu Hv.
      * simplify_eq. rewrite decide_False in Hv by (destruct Hab; lia).
        by apply (H2 i b Hp Hab _ v).
      * destruct (decide (b = j)) as [->|Hbj]; [destruct Hp, Hab; lia|].
        by apply (H1 a b Hab Hbj u v).
  - intros a c Ha Hc. apply (le_at_Swap h i j x y); [done..|]. intros u v.
    rewrite !decide_False by (destruct Ha, Hc; lia). intros Hu.
    assert (Hux : key u ≤ key x) by (apply (H1 a i Ha ltac:(lia) u x); done).
    destruct (decide (c = j)) as [->|Hcj]; intros Hv.
    + by simplify_eq.
    + specialize (H1 i c Hc Hcj x v Hi Hv). lia.
Qed.

Lemma up_spec fuel h j :
  (j < fuel)%nat → (j < length h)%nat → up_inv h j →
  heap_ok (up fuel h j) ∧ up fuel h j ≡ₚ h.
Proof.
  revert h j. induction fuel as [|f IH]; intros h j Hf Hj Hinv; [lia|]. cbn [up].
  destruct (decide (j = 0%nat)) as [->|Hj0].
  { split; [|done].
    apply heap_ok_alt. intros a b Hab. apply (proj1 Hinv); [done|]. destruct Hab; lia. }
  set (i := ((j - 1) / 2)%nat). assert (Hp : parent_of i j) by (apply parent_of_div; [lia|done]).
  assert (Hij : (i < j)%nat) by (apply parent_lt; lia).
  rewrite (proj2 (Nat.eqb_neq i j)) by lia. simpl.
  destruct (lookup_lt_is_Some_2 h j) as [y Hy]; [done|].
  destruct (lookup_lt_is_Some_2 h i) as [x Hx]; [lia|].
  rewrite (Less_spec _ _ _ _ _ Hy Hx). destruct (key y <? key x) eqn:E; bools; simpl.
  - destruct (IH (Swap h i j) i) as [H1 H2];
      [lia|rewrite length_Swap; lia|by eapply up_step|].
    split; [done|]. by rewrite H2, Swap_Permutation.
  - split; [|done]. apply heap_ok_alt. intros a b Hab.
    destruct (decide (b = j)) as [->|]; [|by apply (proj1 Hinv)].
    assert (a = i) as -> by (destruct Hab, Hp; lia). intros u v. intros. simplify_eq. lia.
Qed.

Lemma heap_Push_ok h x : heap_ok h → heap_ok (heap_Push h x) ∧ heap_Push h x ≡ₚ x :: h.
Proof.
  intros Hh. unfold heap_Push. rewrite length_app. simpl.
  replace (length h + 1 - 1)%nat with (length h) by lia.
  destruct (up_spec (length h + 1) (h ++ [x]) (length h)) as [H1 H2]; [lia|rewrite length_app; simpl; lia| |].
  - rewrite heap_ok_alt in Hh. split.
    + intros a b Hab Hb u v Hu Hv. assert (a < b)%nat by (destruct Hab; lia).
      pose proof (lookup_lt_Some _ _ _ Hv) as Hl. rewrite length_app in Hl. simpl in Hl.
      rewrite lookup_app_l in Hu, Hv by lia. by apply (Hh a b Hab).
    + intros a c _ Hc u v _ Hv. pose proof (lookup_lt_Some _ _ _ Hv) as Hl.
      rewrite length_app in Hl. simpl in Hl. destruct Hc; lia.
  - split; [done|]. rewrite H2. by rewrite Permutation_app_comm.
Qed.

(** ** [down] repairs a heap that is broken only below [i] *)

Definition down_inv h i n : Prop :=
  (∀ a b, parent_of a b → (b < n)%nat → a ≠ i → le_at h a b) ∧
  (∀ a c, parent_of a i → parent_of i c → (c < n)%nat → le_at h a c).

Definition heap_upto h n : Prop := ∀ a b, parent_of a b → (b < n)%nat → le_at h a b.

Lemma down_step h i j n x y :
  parent_of i j → (j < n)%nat → h !! i = Some x → h !! j = Some y → key y < key x →
  (∀ c z, parent_of i c → (c < n)%nat → h !! c = Some z → key y ≤ key z) →
  down_inv h i n → down_inv (Swap h i j) j n.
Proof.
  intros Hp Hjn Hi Hj Hlt Hmin [H1 H2]. assert (i < j)%nat by (destruct Hp; lia). split.
  - intros a b Hab Hb Haj. apply (le_at_Swap h i j x y); [done..|]. intros u v.
    assert (a < b)%nat by (destruct Hab; lia). rewrite (decide_False (P := a = j)) by done.
    destruct (decide (a = i)) as [->|Hai].
    + rewrite (decide_False (P := b = i)) by lia. intros Hu Hv. simplify_eq.
      destruct (decide (b = j)) as [->|]; [simplify_eq; lia|]. by apply (Hmin b v).
    + destruct (decide (b = i)) as [->|Hbi]; intros Hu Hv.
      * simplify_eq. by apply (H2 a j Hab Hp Hjn u v).
      * destruct (decide (b = j)) as [->|]; [destruct Hp, Hab; lia|]. by apply (H1 a b Hab Hb Hai).
  - intros a c Ha Hc Hcn. assert (a = i) as -> by (destruct Ha, Hp; lia).
    assert (j < c)%nat by (destruct Hc; lia).
    apply (le_at_Swap h i j x y); [done..|]. intros u v.
    rewrite decide_True, !decide_False by lia. intros Hu Hv. simplify_eq.
    by apply (H1 j c Hc Hcn ltac:(lia) u v).
Qed.

Lemma down_spec fuel h i n :
  (n ≤ fuel + i)%nat → (n ≤ length h)%nat → down_inv h i n →
  heap_upto (down fuel h i n) n ∧ down fuel h i n ≡ₚ h ∧
  (∀ k, (n ≤ k)%nat → down fuel h i n !! k = h !! k).
Proof.
  revert h i. induction fuel as [|f IH]; intros h i Hf Hn Hinv; cbn [down].
  { split; [|done]. intros a b Hab Hb. apply (proj1 Hinv); [done..|]. destruct Hab; lia. }
  destruct (n <=? 2 * i + 1)%nat eqn:E1; bools.
  { split; [|done]. intros a b Hab Hb. apply (proj1 Hinv); [done..|]. destruct Hab; lia. }
  set (j1 := (2 * i + 1)%nat) in *. set (j2 := S j1).
  set (j := if (j2 <? n)%nat && Less h j2 j1 then j2 else j1).
  destruct (lookup_lt_is_Some_2 h j1) as [y1 Hy1]; [lia|].
  destruct (lookup_lt_is_Some_2 h i) as [x Hx]; [lia|].
  assert (Hj : ∃ y, h !! j = Some y ∧ parent_of i j ∧ (j < n)%nat ∧
    ∀ c z, parent_of i c → (c < n)%nat → h !! c = Some z → key y ≤ key z).
  { unfold j. destruct (j2 <? n)%nat eqn:E2; bools; simpl.
    - destruct (lookup_lt_is_Some_2 h j2) as [y2 Hy2]; [lia|].
      rewrite (Less_spec _ _ _ _ _ Hy2 Hy1). destruct (key y2 <? key y1) eqn:E3; bools;
        eexists; (split; [done|]); (split; [unfold parent_of; lia|]); (split; [lia|]);
        intros c z [->| ->] Hc Hz; fold j1 in Hz; try (replace (2 * i + 2)%nat with j2 in Hz by lia);
        simplify_eq; lia.
    - exists y1. split; [done|]. split; [unfold parent_of; lia|]. split; [lia|].
      intros c z [->| ->] Hc Hz; fold j1 in Hz; simplify_eq; lia. }
  destruct Hj as (y & Hy & Hp & Hjn & Hmin). assert (i < j)%nat by (destruct Hp; lia).
  rewrite (Less_spec _ _ _ _ _ Hy Hx). destruct (key y <? key x) eqn:E; bools; simpl.
  - destruct (IH (Swap h i j) j) as (G1 & G2 & G3);
      [lia|by rewrite length_Swap|by eapply down_step|].
    split; [done|]. split; [by rewrite G2, Swap_Permutation|].
    intros k Hk. rewrite G3 by done. rewrite (Swap_lookup h i j x y) by done.
    by rewrite !decide_False by lia.
  - split; [|done]. intros a b Hab Hb. destruct (decide (a = i)) as [->|]; [|by apply (proj1 Hinv)].
    intros u v Hu Hv. simplify_eq. specialize (Hmin b v Hab Hb Hv). lia.
Qed.

(** [Pop] of a heap returns its root, which is minimal, and keeps the others. *)
Lemma heap_Pop_ok h x rest0 : h = x :: rest0 → heap_ok h →
  ∃ rest, heap_Pop h = Some (x, rest) ∧ heap_ok rest ∧ h ≡ₚ x :: rest ∧
          Forall (λ y, key x ≤ key y) rest.
Proof.
  intros Hh Hok. set (n := (length h - 1)%nat).
  assert (Hn : length h = S n) by (unfold n; rewrite Hh; simpl; lia).
  assert (H0 : h !! 0%nat = Some x) by (by rewrite Hh).
  destruct (lookup_lt_is_Some_2 h n) as [z Hz]; [lia|].
  assert (Hinv : down_inv (Swap h 0 n) 0 n).
  { rewrite heap_ok_alt in Hok. split.
    - intros a b Hab Hb Ha. apply (le_at_Swap h 0 n x z); [done..|]. intros u v.
      rewrite !decide_False by (destruct Hab; lia). by apply Hok.
    - intros a c Ha. destruct Ha; lia. }
  destruct (down_spec n (Swap h 0 n) 0 n) as (G1 & G2 & G3);
    [lia|rewrite length_Swap; lia|done|].
  set (g := down n (Swap h 0 n) 0 n) in *. rewrite Swap_Permutation in G2.
  assert (Hg : g !! n = Some x).
  { rewrite G3, (Swap_lookup h 0 n x z) by done. destruct (decide (n = 0%nat)) as [E|]; [|by rewrite decide_True].
    rewrite E in Hz. congruence. }
  assert (Hlen : length g = S n) by (by rewrite G2).
  assert (Hsplit : g = take n g ++ [x]).
  { rewrite <- (take_S_r g n x Hg). by rewrite firstn_all2 by lia. }
  assert (Hperm : h ≡ₚ x :: take n g).
  { rewrite <- G2. rewrite Hsplit at 1. by rewrite Permutation_app_comm. }
  exists (take n g). unfold heap_Pop. fold n. fold g. rewrite Hg. split; [done|]. split; [|split; [done|]].
  - apply heap_ok_alt. intros a b Hab u v Hu Hv.
    apply lookup_take_Some in Hu as [Hu ?]. apply lookup_take_Some in Hv as [Hv ?].
    by apply (G1 a b Hab).
  - apply list.Forall_forall. intros y Hy. eapply root_minimal; [done..|].
    rewrite Hperm. by apply list_elem_of_further.
Qed.

Lemma heap_ok_nil : heap_ok [].
Proof. intros j _ x y H. done. Qed.
End heap.
