(* ===== verification/Lru.v ===== *)
(** * Bounded tables with least-recently-used eviction

    The learning table, the DNS cache and the UDP session table all keep a map
    of entries beside a [container/list] of their keys, oldest first, and make
    room with the loop

      for len(entries) >= capacity { removeLocked(lru.Front()) }

    [LruTable] is the interface that loop uses and [LruLaws] what an
    implementation owes; the loop is modelled and proved once, against the
    interface.  A list element is identified with its key: the laws make the
    keys of the list distinct, so the two determine each other. *)

From S2P Require Import Prelude.

Class LruTable (T K : Type) := {
  lru_list : T → list K;          (* the keys in the list, front first *)
  lru_count : T → nat;            (* len(entries) *)
  lru_remove : T → K → T          (* removeLocked *) }.

(** [for len(entries) >= capacity { removeLocked(lru.Front()) }]; [None] is the
    nil dereference of an empty list, or an exhausted fuel. *)
Fixpoint evict {T K} `{!LruTable T K} (fuel : nat) (capacity : Z) (t : T) : option T :=
  if Z.of_nat (lru_count t) <? capacity then Some t else
  match fuel, lru_list t with
  | S f, k :: _ => evict f capacity (lru_remove t k)
  | _, _ => None
  end.

Class LruLaws (T K : Type) `{!LruTable T K} (inv : T → Prop) := {
  lru_inv_count t : inv t → lru_count t = length (lru_list t);
  lru_inv_remove t k l : inv t → lru_list t = k :: l →
    inv (lru_remove t k) ∧ lru_list (lru_remove t k) = l }.

Section evict.
Context {T K : Type} `{!LruTable T K} (inv : T → Prop) `{!LruLaws T K inv}.

(** The number of entries that must go for one more to fit. *)
Definition surplus (capacity : Z) (t : T) : nat :=
  (length (lru_list t) - Z.to_nat (capacity - 1))%nat.

(** The loop ends and removes exactly the [surplus] oldest keys, in order. *)
Lemma evict_spec fuel capacity t :
  inv t → 1 ≤ capacity → (length (lru_list t) ≤ fuel)%nat →
  evict fuel capacity t = Some (foldl lru_remove t (take (surplus capacity t) (lru_list t))) ∧
  inv (foldl lru_remove t (take (surplus capacity t) (lru_list t))) ∧
  lru_list (foldl lru_remove t (take (surplus capacity t) (lru_list t))) =
    drop (surplus capacity t) (lru_list t).
Proof.
  revert t. induction fuel as [|f IH]; intros t Hinv Hcap Hlen;
    unfold surplus; cbn [evict]; rewrite (lru_inv_count t Hinv).
  - destruct (lru_list t) as [|k l] eqn:El; simpl in Hlen; [|lia].
    rewrite (proj2 (Z.ltb_lt _ _)) by (simpl; lia). by rewrite take_nil, drop_nil.
  - destruct (_ <? capacity) eqn:E; bools.
    + replace (length _ - _)%nat with 0%nat by lia. by rewrite drop_0.
    + destruct (lru_list t) as [|k l] eqn:El; [simpl in E; lia|].
      destruct (lru_inv_remove t k l Hinv El) as [Hinv' Hl'].
      destruct (IH (lru_remove t k)) as (H1 & H2 & H3); [done|done|rewrite Hl'; simpl in Hlen; lia|].
      unfold surplus in *. rewrite Hl' in *. simpl length in *.
      replace (S (length l) - Z.to_nat (capacity - 1))%nat
        with (S (length l - Z.to_nat (capacity - 1))) by lia.
      done.
Qed.
End evict.

(** ** Recency lists *)

Section recency.
Context {K : Type} `{!EqDecision K}.
Implicit Types (l : list K) (k : K).

(** [lru.Remove] of the element of a key, and [MoveToBack]. *)
Definition remove_key l k : list K := filter (λ x, x ≠ k) l.
Definition move_to_back l k : list K := remove_key l k ++ [k].

(** The abstract bounded recency list: a use puts the key last, and the oldest
    keys beyond the capacity are forgotten. *)
Definition touch (capacity : nat) l k : list K :=
  let l' := move_to_back l k in drop (length l' - capacity) l'.

Lemma elem_of_remove_key l k x : x ∈ remove_key l k ↔ x ∈ l ∧ x ≠ k.
Proof. unfold remove_key. rewrite list_elem_of_filter. tauto. Qed.

Lemma NoDup_remove_key l k : NoDup l → NoDup (remove_key l k).
Proof. apply list.NoDup_filter. Qed.

Lemma remove_key_notin l k : k ∉ l → remove_key l k = l.
Proof.
  intros H. unfold remove_key. induction l as [|x l IH]; [done|].
  rewrite not_elem_of_cons in H. rewrite filter_cons_True by naive_solver. f_equal. apply IH, H.
Qed.

Lemma remove_key_head k l : NoDup (k :: l) → remove_key (k :: l) k = l.
Proof.
  intros H. apply list.NoDup_cons in H as [Hk _]. unfold remove_key.
  rewrite filter_cons_False by naive_solver. by apply remove_key_notin.
Qed.

Lemma remove_key_perm l k : NoDup l → k ∈ l → l ≡ₚ k :: remove_key l k.
Proof.
  intros Hn Hk. induction Hn as [|x l Hx Hn IH]; [by apply not_elem_of_nil in Hk|].
  destruct (decide (x = k)) as [->|Hne].
  - rewrite remove_key_head by (by constructor). done.
  - unfold remove_key in *. rewrite filter_cons_True by done.
    rewrite Permutation_swap, <- IH by set_solver. done.
Qed.

Lemma length_remove_key l k : NoDup l → k ∈ l → S (length (remove_key l k)) = length l.
Proof.
  intros Hn Hk. induction Hn as [|x l Hx Hn IH]; [by apply not_elem_of_nil in Hk|].
  unfold remove_key in *. destruct (decide (x = k)) as [->|Hne].
  - rewrite filter_cons_False by naive_solver. pose proof (remove_key_notin l k Hx) as E.
    unfold remove_key in E. by rewrite E.
  - rewrite filter_cons_True by done. simpl. f_equal. apply IH. set_solver.
Qed.

Lemma NoDup_move_to_back l k : NoDup l → NoDup (move_to_back l k).
Proof.
  intros H. unfold move_to_back. apply list.NoDup_app. split; [by apply NoDup_remove_key|].
  split; [|apply NoDup_singleton]. intros x Hx. rewrite elem_of_remove_key in Hx. set_solver.
Qed.

Lemma elem_of_move_to_back l k x : x ∈ move_to_back l k ↔ x ∈ l ∨ x = k.
Proof.
  unfold move_to_back. rewrite elem_of_app, elem_of_remove_key, list_elem_of_singleton.
  destruct (decide (x = k)); tauto.
Qed.

Lemma touch_present capacity l k :
  NoDup l → k ∈ l → (length l ≤ capacity)%nat → touch capacity l k = move_to_back l k.
Proof.
  intros Hn Hk Hl. unfold touch. pose proof (length_remove_key l k Hn Hk).
  replace (length (move_to_back l k) - capacity)%nat with 0%nat; [apply drop_0|].
  unfold move_to_back. rewrite length_app. simpl. lia.
Qed.

Lemma touch_absent capacity l k :
  k ∉ l → (1 ≤ capacity)%nat →
  touch capacity l k = drop (length l - (capacity - 1)) l ++ [k].
Proof.
  intros Hk Hc. unfold touch, move_to_back. rewrite remove_key_notin by done.
  rewrite length_app. simpl. rewrite drop_app_le by lia. f_equal. f_equal. lia.
Qed.

Lemma touch_last capacity l k : (1 ≤ capacity)%nat → k ∈ touch capacity l k.
Proof.
  intros Hc. unfold touch, move_to_back. rewrite length_app. simpl.
  rewrite drop_app_le by lia. set_solver.
Qed.
Lemma elem_of_touch capacity l k x : x ∈ touch capacity l k → x ∈ l ∨ x = k.
Proof.
  unfold touch. intros Hx. apply (elem_of_move_to_back l k x).
  rewrite <- (take_drop (length (move_to_back l k) - capacity) (move_to_back l k)).
  apply elem_of_app. by right.
Qed.

Lemma elem_of_touches capacity l ks x : x ∈ foldl (touch capacity) l ks → x ∈ l ∨ x ∈ ks.
Proof.
  revert l. induction ks as [|k ks IH]; intros l Hx; simpl in Hx; [by left|].
  apply IH in Hx as [Hx|Hx].
  - apply elem_of_touch in Hx as [?| ->]; [by left|right; apply list_elem_of_here].
  - right. by apply list_elem_of_further.
Qed.

(** A key with few newer keys survives the use of others. *)
Lemma touch_keeps capacity older newer x k :
  (S (length newer) < capacity)%nat →
  ∃ older' newer', touch capacity (older ++ x :: newer) k = older' ++ x :: newer' ∧
    (length newer' ≤ S (length newer))%nat.
Proof.
  intros Hc. unfold touch, move_to_back, remove_key. rewrite list.filter_app.
  pose proof (list.length_filter (λ y, y ≠ k) newer) as Hl. destruct (decide (x = k)) as [->|Hne].
  - rewrite filter_cons_False by naive_solver. set (l := filter _ older ++ filter _ newer).
    exists (drop (length (l ++ [k]) - capacity) l), []. split; [|simpl; lia].
    rewrite length_app. simpl. by rewrite drop_app_le by lia.
  - rewrite filter_cons_True by done. rewrite <- app_assoc, <- app_comm_cons.
    set (n' := filter _ newer ++ [k]). set (o' := filter _ older).
    assert (Hn : (length n' ≤ S (length newer))%nat) by (unfold n'; rewrite length_app; simpl; lia).
    exists (drop (length (o' ++ x :: n') - capacity) o'), n'. split; [|done].
    rewrite length_app. simpl. by rewrite drop_app_le by lia.
Qed.

Lemma touches_keep capacity older newer x ks :
  (length newer + length ks < capacity)%nat →
  ∃ older' newer', foldl (touch capacity) (older ++ x :: newer) ks = older' ++ x :: newer' ∧
    (length newer' ≤ length newer + length ks)%nat.
Proof.
  revert older newer. induction ks as [|k ks IH]; intros older newer Hc; simpl in *.
  - eexists _, _. split; [done|]. lia.
  - destruct (touch_keeps capacity older newer x k ltac:(lia)) as (o' & n' & -> & Hn).
    destruct (IH o' n' ltac:(lia)) as (o2 & n2 & -> & Hn2). eexists _, _. split; [done|]. lia.
Qed.

(** A key that was used is among the newest as many as were used. *)
Lemma touches_hold capacity l x ks :
  x ∈ ks → (length ks ≤ capacity)%nat →
  ∃ older newer, foldl (touch capacity) l ks = older ++ x :: newer ∧ (length newer < length ks)%nat.
Proof.
  intros (ks1 & ks2 & ->)%list_elem_of_split Hc. rewrite length_app in Hc. simpl in Hc.
  rewrite foldl_app. cbn [foldl]. set (l1 := foldl _ l ks1).
  assert (Ht : ∃ older, touch capacity l1 x = older ++ x :: []).
  { unfold touch, move_to_back. rewrite length_app. simpl. rewrite drop_app_le by lia. eauto. }
  destruct Ht as [older ->]. destruct (touches_keep capacity older [] x ks2) as (o & n & -> & Hn).
  { simpl. lia. }
  exists o, n. split; [done|]. rewrite length_app. simpl in *. lia.
Qed.

Lemma length_touch capacity l k : (length (touch capacity l k) ≤ capacity)%nat.
Proof. unfold touch. rewrite length_drop. lia. Qed.
End recency.

(** ** Maps beside their recency list *)

Section indexed.
Context {K V : Type} `{Countable K}.
Implicit Types (m : gmap K V) (l : list K).

(** The list holds the keys of the map, each once. *)
Definition indexed m l : Prop := NoDup l ∧ ∀ k, k ∈ l ↔ is_Some (m !! k).

Lemma indexed_size m l : indexed m l → size m = length l.
Proof.
  intros [Hn Hk]. rewrite <- size_dom. rewrite <- (size_list_to_set (C := gset K) l Hn).
  f_equal. apply set_eq. intros k. by rewrite elem_of_dom, elem_of_list_to_set, Hk.
Qed.

Lemma indexed_empty : indexed ∅ [].
Proof.
  split; [constructor|]. intros k. rewrite lookup_empty, is_Some_alt. set_solver.
Qed.

Lemma indexed_delete m l k : indexed m l → indexed (delete k m) (remove_key l k).
Proof.
  intros [Hn Hk]. split; [by apply NoDup_remove_key|]. intros k'.
  rewrite elem_of_remove_key, Hk. destruct (decide (k' = k)) as [->|].
  - rewrite lookup_delete_eq. split; [naive_solver|]. by intros [? ?].
  - rewrite lookup_delete_ne by done. tauto.
Qed.

Lemma indexed_insert_new m l k v : indexed m l → m !! k = None → indexed (<[k := v]> m) (l ++ [k]).
Proof.
  intros [Hn Hk] Hm. split.
  - apply list.NoDup_app. split; [done|]. split; [|apply NoDup_singleton].
    intros x Hx ->%list_elem_of_singleton. apply Hk in Hx as [? ?]. congruence.
  - intros k'. rewrite elem_of_app, list_elem_of_singleton, Hk.
    destruct (decide (k' = k)) as [->|]; [rewrite lookup_insert_eq|rewrite lookup_insert_ne by done]; naive_solver.
Qed.

Lemma indexed_update m l k v :
  indexed m l → is_Some (m !! k) → indexed (<[k := v]> m) (move_to_back l k).
Proof.
  intros [Hn Hk] Hm. split; [by apply NoDup_move_to_back|]. intros k'.
  rewrite elem_of_move_to_back, Hk.
  destruct (decide (k' = k)) as [->|]; [rewrite lookup_insert_eq|rewrite lookup_insert_ne by done]; naive_solver.
Qed.
End indexed.
