(* ===== verification/Learning.v ===== *)
(** * The learning table: [internal/policy/learning.go]

    Which domains were seen to resolve to an address, with what action and until
    when: a map of observations, an index by address, a heap of expiry times
    (with stale items left in it) and a recency list that bounds the whole. *)

From S2P Require Import Prelude GoStrings GoNet Domains IPv4Tree GoHeap Lru.

Record Observation := mkObservation {
  obs_domain : bytes; obs_action : Action; obs_ips : list Addr; obs_expires : time }.

Record LearnedDecision := mkLearned {
  ld_action : Action; ld_direct : bool; ld_proxy : bool; ld_inspect : bool }.

Record observationKey := mkKey { key_domain : bytes; key_action : Action; key_ip : Addr }.

#[export] Instance observationKey_eq_dec : EqDecision observationKey.
Proof. solve_decision. Defined.
#[export] Instance observationKey_countable : Countable observationKey.
Proof.
  refine (inj_countable' (λ k, (key_domain k, key_action k, key_ip k))
            (λ '(d, a, i), mkKey d a i) _).
  by intros [].
Defined.

Record expiryItem := mkItem { item_key : observationKey; item_expires : time }.

Record LearningTable := mkTable {
  lt_capacity : Z;
  lt_entries : gmap observationKey time;
  lt_byIP : gmap Addr (gset observationKey);
  lt_expirations : list expiryItem;
  lt_lru : list observationKey }.

Definition NewLearningTable (capacity : Z) : LearningTable :=
  mkTable (if capacity <? 1 then 1 else capacity) ∅ ∅ [] [].

Definition learning_removeLocked (table : LearningTable) (key : observationKey) : LearningTable :=
  match lt_entries table !! key with
  | None => table
  | Some _ =>
      let keys := default ∅ (lt_byIP table !! key_ip key) ∖ {[key]} in
      let byIP := if bool_decide (keys = ∅) then delete (key_ip key) (lt_byIP table)
                  else <[key_ip key := keys]> (lt_byIP table) in
      mkTable (lt_capacity table) (delete key (lt_entries table)) byIP
        (lt_expirations table) (remove_key (lt_lru table) key)
  end.

#[export] Instance learning_lru : LruTable LearningTable observationKey := {
  lru_list := lt_lru;
  lru_count t := size (lt_entries t);
  lru_remove := learning_removeLocked }.

(** One new or refreshed observation of the loop of [Observe]; [None] is a panic. *)
Definition observe_key (table : LearningTable) (key : observationKey) (expires : time)
  : option LearningTable :=
  table ←
    match lt_entries table !! key with
    | Some _ =>
        Some (mkTable (lt_capacity table) (<[key := expires]> (lt_entries table))
                (lt_byIP table) (lt_expirations table) (move_to_back (lt_lru table) key))
    | None =>
        table ← evict (size (lt_entries table)) (lt_capacity table) table;
        let keys := default ∅ (lt_byIP table !! key_ip key) in
        Some (mkTable (lt_capacity table) (<[key := expires]> (lt_entries table))
                (<[key_ip key := {[key]} ∪ keys]> (lt_byIP table))
                (lt_expirations table) (lt_lru table ++ [key]))
    end;
  Some (mkTable (lt_capacity table) (lt_entries table) (lt_byIP table)
          (heap_Push item_expires (lt_expirations table) (mkItem key expires)) (lt_lru table)).

Fixpoint observe_ips (table : LearningTable) (domain : bytes) (action : Action) (expires : time)
    (seen : gset Addr) (ips : list Addr) : option (LearningTable * option error) :=
  match ips with
  | [] => Some (table, None)
  | ip :: ips' =>
      if negb (Is4 ip) || Is4In6 ip then Some (table, Some (EMsg "learned IP must be IPv4"))
      else if bool_decide (ip ∈ seen) then observe_ips table domain action expires seen ips'
      else table ← observe_key table (mkKey domain action ip) expires;
           observe_ips table domain action expires ({[ip]} ∪ seen) ips'
  end.

Definition Observe (table : LearningTable) (observation : Observation)
  : option (LearningTable * option error) :=
  if negb (bool_decide (obs_action observation = Direct))
     && negb (bool_decide (obs_action observation = Proxy))
  then Some (table, Some (EMsg "learning action must be direct or proxy"))
  else if obs_expires observation =? 0
  then Some (table, Some (EMsg "learning expiry is required"))
  else match NormalizeDomain (obs_domain observation) with
       | Err e => Some (table, Some e)
       | Ok domain =>
           observe_ips table domain (obs_action observation) (obs_expires observation) ∅
             (obs_ips observation)
       end.

(** The loop of [expireLocked], with the addresses it collected; every iteration
    pops an item, so the number of items bounds the iterations. *)
Fixpoint expire_loop (fuel : nat) (table : LearningTable) (now : time) (changed : gset Addr)
  : LearningTable * gset Addr :=
  match fuel, lt_expirations table with
  | S f, root :: _ =>
      if now <? item_expires root then (table, changed) else
      match heap_Pop item_expires (lt_expirations table) with
      | None => (table, changed)
      | Some (item, rest) =>
          let table := mkTable (lt_capacity table) (lt_entries table) (lt_byIP table) rest
                         (lt_lru table) in
          match lt_entries table !! item_key item with
          | Some expires =>
              if expires =? item_expires item
              then expire_loop f (learning_removeLocked table (item_key item)) now
                     ({[key_ip (item_key item)]} ∪ changed)
              else expire_loop f table now changed
          | None => expire_loop f table now changed
          end
      end
  | _, _ => (table, changed)
  end.

Definition learning_expireLocked (table : LearningTable) (now : time)
  : LearningTable * gset Addr :=
  expire_loop (length (lt_expirations table)) table now ∅.

(** The result of [Expire] is a set: its order is that of a map iteration. *)
Definition Expire (table : LearningTable) (now : time) : LearningTable * gset Addr :=
  learning_expireLocked table now.

Definition lookupLocked (table : LearningTable) (ip : Addr) : LearnedDecision :=
  let keys := elements (default ∅ (lt_byIP table !! ip)) in
  let direct := existsb (λ k, bool_decide (key_action k = Direct)) keys in
  let proxy := existsb (λ k, bool_decide (key_action k = Proxy)) keys in
  mkLearned (if proxy then Proxy else if direct then Direct else Unknown)
    direct proxy (direct && proxy).

Definition Lookup (table : LearningTable) (ip : Addr) (now : time)
  : LearningTable * LearnedDecision :=
  let table := (learning_expireLocked table now).1 in
  (table, lookupLocked table ip).

Definition Snapshot (table : LearningTable) (now : time)
  : LearningTable * gmap Addr LearnedDecision :=
  let table := (learning_expireLocked table now).1 in
  (table, map_imap (λ ip _, Some (lookupLocked table ip)) (lt_byIP table)).

(** ** The invariant *)

Record learning_ok (t : LearningTable) : Prop := {
  lok_capacity : 1 ≤ lt_capacity t;
  lok_bound : Z.of_nat (size (lt_entries t)) ≤ lt_capacity t;
  lok_lru : indexed (lt_entries t) (lt_lru t);
  lok_byIP : ∀ ip k, k ∈ default ∅ (lt_byIP t !! ip) ↔ key_ip k = ip ∧ is_Some (lt_entries t !! k);
  lok_nonempty : ∀ ip s, lt_byIP t !! ip = Some s → s ≠ ∅;
  lok_heap : heap_ok item_expires (lt_expirations t);
  lok_items : ∀ k e, lt_entries t !! k = Some e → mkItem k e ∈ lt_expirations t }.

Lemma new_learning_ok capacity : learning_ok (NewLearningTable capacity).
Proof.
  unfold NewLearningTable. constructor; simpl.
  - destruct (capacity <? 1) eqn:E; bools; lia.
  - rewrite map_size_empty. destruct (capacity <? 1) eqn:E; bools; lia.
  - apply indexed_empty.
  - intros ip k. rewrite !lookup_empty. simpl. rewrite is_Some_alt. set_solver.
  - intros ip s. by rewrite lookup_empty.
  - apply heap_ok_nil.
  - intros k e. by rewrite lookup_empty.
Qed.

(** The index without a key. *)
Lemma byIP_remove t k ip :
  (∀ ip s, lt_byIP t !! ip = Some s → s ≠ ∅) → is_Some (lt_entries t !! k) →
  default ∅ (lt_byIP (learning_removeLocked t k) !! ip) =
  (if decide (ip = key_ip k) then default ∅ (lt_byIP t !! ip) ∖ {[k]}
   else default ∅ (lt_byIP t !! ip)).
Proof.
  intros Hne [e He]. unfold learning_removeLocked. rewrite He. simpl.
  case_bool_decide as E; destruct (decide (ip = key_ip k)) as [->|Hip].
  - by rewrite lookup_delete_eq, E.
  - by rewrite lookup_delete_ne.
  - by rewrite lookup_insert_eq.
  - by rewrite lookup_insert_ne.
Qed.

Lemma remove_learning_ok t k : learning_ok t → learning_ok (learning_removeLocked t k).
Proof.
  intros Ht. destruct (lt_entries t !! k) as [e|] eqn:He;
    [|unfold learning_removeLocked; by rewrite He].
  pose proof (byIP_remove t k) as Hby. destruct Ht as [H1 H2 H3 H4 H5 H6 H7].
  specialize (λ ip, Hby ip H5 (mk_is_Some _ _ He)).
  unfold learning_removeLocked in *. rewrite He in *. simpl in Hby. constructor; simpl.
  - done.
  - rewrite map_size_delete_Some by eauto. lia.
  - by apply indexed_delete.
  - intros ip k'. rewrite Hby. destruct (decide (k' = k)) as [->|Hk].
    + rewrite lookup_delete_eq. destruct (decide (ip = key_ip k)).
      * split; [set_solver|]. intros [_ [? ?]]. done.
      * rewrite H4. split; [naive_solver|]. intros [_ [? ?]]. done.
    + rewrite lookup_delete_ne by done. rewrite <- H4. destruct (decide (ip = key_ip k)); set_solver.
  - intros ip s. case_bool_decide as E.
    + intros [_ ?]%lookup_delete_Some. by eapply H5.
    + intros [[_ <-]|[_ ?]]%lookup_insert_Some; [done|by eapply H5].
  - done.
  - intros k' e' [_ ?]%lookup_delete_Some. by apply H7.
Qed.

#[export] Instance learning_lru_laws : LruLaws LearningTable observationKey learning_ok.
Proof.
  split.
  - intros t [? ? H]. by apply indexed_size.
  - intros t k l Ht Hl. split; [by apply remove_learning_ok|].
    destruct Ht as [_ _ [Hn Hk]]. simpl in *. rewrite Hl in Hn, Hk.
    destruct (proj1 (Hk k)) as [e He]; [set_solver|].
    unfold learning_removeLocked. rewrite He. simpl. rewrite Hl. by apply remove_key_head.
Qed.

(** ** Expiry *)

Definition with_heap (t : LearningTable) (h : list expiryItem) : LearningTable :=
  mkTable (lt_capacity t) (lt_entries t) (lt_byIP t) h (lt_lru t).

Lemma with_heap_ok t h :
  learning_ok t → heap_ok item_expires h →
  (∀ k e, lt_entries t !! k = Some e → mkItem k e ∈ h) → learning_ok (with_heap t h).
Proof. intros [] ? ?. by constructor. Qed.

Lemma remove_with_heap t k h :
  learning_removeLocked (with_heap t h) k = with_heap (learning_removeLocked t k) h.
Proof. unfold learning_removeLocked. simpl. by destruct (lt_entries t !! k). Qed.

Lemma remove_entries t k : lt_entries (learning_removeLocked t k) = delete k (lt_entries t).
Proof.
  unfold learning_removeLocked. destruct (lt_entries t !! k) eqn:E; [done|].
  by rewrite delete_id.
Qed.

Lemma remove_expirations t k : lt_expirations (learning_removeLocked t k) = lt_expirations t.
Proof. unfold learning_removeLocked. by destruct (lt_entries t !! k). Qed.

Lemma remove_capacity t k : lt_capacity (learning_removeLocked t k) = lt_capacity t.
Proof. unfold learning_removeLocked. by destruct (lt_entries t !! k). Qed.

(** The observations that are still valid at a time. *)
Definition live (now : time) (m : gmap observationKey time) : gmap observationKey time :=
  filter (λ p, now < p.2) m.

Lemma live_all now (m : gmap observationKey time) :
  (∀ k e, m !! k = Some e → now < e) → live now m = m.
Proof. intros H. apply map_filter_id. naive_solver. Qed.

Lemma live_delete now (m : gmap observationKey time) k e :
  m !! k = Some e → e ≤ now → live now (delete k m) = live now m.
Proof.
  intros Hk He. apply map_eq. intros k'. apply option_eq. intros e'. unfold live.
  rewrite !map_lookup_filter_Some. destruct (decide (k' = k)) as [->|].
  - rewrite lookup_delete_eq. simpl. split; [naive_solver|]. intros [? ?]. simplify_eq. lia.
  - by rewrite lookup_delete_ne.
Qed.

(** What one call of the expiry loop achieves. *)
Record expired (t : LearningTable) (now : time) (changed : gset Addr)
    (t' : LearningTable) (changed' : gset Addr) : Prop := {
  exp_ok : learning_ok t';
  exp_capacity : lt_capacity t' = lt_capacity t;
  exp_entries : lt_entries t' = live now (lt_entries t);
  exp_lru : lt_lru t' = filter (λ k, k ∈ dom (live now (lt_entries t))) (lt_lru t);
  exp_changed : ∀ ip, ip ∈ changed' ↔ ip ∈ changed ∨
    ∃ k e, lt_entries t !! k = Some e ∧ e ≤ now ∧ key_ip k = ip }.

Lemma filter_all {A} (P : A → Prop) `{!∀ x, base.Decision (P x)} (l : list A) :
  (∀ x, x ∈ l → P x) → filter P l = l.
Proof.
  intros Hl. induction l as [|x l IH]; [done|]. rewrite filter_cons_True by (apply Hl; set_solver).
  f_equal. apply IH. set_solver.
Qed.

Lemma expired_done t now changed :
  learning_ok t → (∀ k e, lt_entries t !! k = Some e → now < e) → expired t now changed t changed.
Proof.
  intros Ht H. constructor; [done|done|by rewrite live_all| |].
  - rewrite live_all by done. symmetry. apply filter_all. intros k.
    destruct Ht as [_ _ [_ Hk]]. rewrite Hk, elem_of_dom. done.
  - intros ip. split; [tauto|]. intros [?|(k & e & Hk & ? & _)]; [done|].
    apply H in Hk. lia.
Qed.

Lemma filter_remove_key (P : observationKey → Prop) `{!∀ k, base.Decision (P k)} (l : list observationKey) k :
  ¬ P k → filter P (remove_key l k) = filter P l.
Proof.
  intros Hk. unfold remove_key. induction l as [|x l IH]; [done|].
  destruct (decide (x = k)) as [->|Hx].
  - rewrite (filter_cons_False (λ x, x ≠ k)) by naive_solver.
    by rewrite (filter_cons_False P) by done.
  - rewrite (filter_cons_True (λ x, x ≠ k)) by done. rewrite !filter_cons, IH. done.
Qed.

Lemma expired_remove t k e now changed t' changed' :
  lt_entries t !! k = Some e → e ≤ now → indexed (lt_entries t) (lt_lru t) →
  expired (learning_removeLocked t k) now ({[key_ip k]} ∪ changed) t' changed' →
  expired t now changed t' changed'.
Proof.
  intros Hk He Hidx [H1 H2 H3 H4 H5]. rewrite remove_entries in H3, H4.
  rewrite (live_delete _ _ k e) in H3, H4 by done. constructor; [done| |done| |].
  - by rewrite H2, remove_capacity.
  - rewrite H4. unfold learning_removeLocked. rewrite Hk. simpl. apply filter_remove_key.
    rewrite not_elem_of_dom. apply map_lookup_filter_None. right. intros e' ?. simplify_eq. simpl. lia.
  - intros ip. rewrite H5, remove_entries, elem_of_union, elem_of_singleton. split.
    + intros [[->|?]|(k' & e' & [_ ?]%lookup_delete_Some & ? & ?)]; eauto 8.
    + intros [?|(k' & e' & ? & ? & <-)]; [tauto|].
      destruct (decide (k' = k)) as [->|]; [tauto|]. right.
      exists k', e'. by rewrite lookup_delete_ne.
Qed.

Lemma expire_loop_spec fuel t now changed t' changed' :
  learning_ok t → (length (lt_expirations t) ≤ fuel)%nat →
  expire_loop fuel t now changed = (t', changed') → expired t now changed t' changed'.
Proof.
  revert t changed. induction fuel as [|f IH]; intros t changed Ht Hlen; cbn [expire_loop].
  { intros [= <- <-]. apply expired_done; [done|]. intros k e Hk. apply lok_items in Hk; [|done].
    destruct (lt_expirations t); [by apply not_elem_of_nil in Hk|simpl in Hlen; lia]. }
  destruct (lt_expirations t) as [|root items] eqn:Hh.
  { intros [= <- <-]. apply expired_done; [done|]. intros k e Hk. apply lok_items in Hk; [|done].
    rewrite Hh in Hk. by apply not_elem_of_nil in Hk. }
  destruct (now <? item_expires root) eqn:E; bools.
  { intros [= <- <-]. apply expired_done; [done|]. intros k e Hk. apply lok_items in Hk; [|done].
    pose proof (root_minimal item_expires (lt_expirations t) root (mkItem k e)
      (lok_heap _ Ht) ltac:(by rewrite Hh) Hk). simpl in *. lia. }
  destruct (heap_Pop_ok item_expires (lt_expirations t) root items Hh (lok_heap _ Ht))
    as (rest & Hpop & Hrest & Hperm & _).
  rewrite Hh in Hpop. rewrite Hpop.
  fold (with_heap t rest). change (lt_entries (with_heap t rest)) with (lt_entries t).
  assert (Hl : (length rest ≤ f)%nat).
  { rewrite Hh in Hperm. apply Permutation_length in Hperm. simpl in *. lia. }
  assert (Hstale : (∀ e, lt_entries t !! item_key root = Some e → e ≠ item_expires root) →
                   expire_loop f (with_heap t rest) now changed = (t', changed') →
                   expired t now changed t' changed').
  { intros Hne Hloop. assert (Hr : learning_ok (with_heap t rest)).
    { apply with_heap_ok; [done..|]. intros k e' Hk.
      pose proof (lok_items _ Ht _ _ Hk) as Hin. rewrite Hperm in Hin.
      apply elem_of_cons in Hin as [<-|]; [|done]. by destruct (Hne _ Hk). }
    destruct (IH _ changed Hr Hl Hloop). by constructor. }
  destruct (lt_entries t !! item_key root) as [e|] eqn:He; [|by apply Hstale].
  destruct (e =? item_expires root) eqn:Ee; bools; [|apply Hstale; congruence].
  rewrite remove_with_heap. intros Hloop.
  eapply (expired_remove t (item_key root) e); [done|lia|by apply lok_lru|].
  assert (Hr : learning_ok (with_heap (learning_removeLocked t (item_key root)) rest)).
  { apply with_heap_ok; [by apply remove_learning_ok|done|]. intros k e'.
    rewrite remove_entries. intros [Hne Hk]%lookup_delete_Some.
    apply lok_items in Hk; [|done]. rewrite Hperm in Hk.
    apply elem_of_cons in Hk as [<-|]; done. }
  destruct (IH _ _ Hr Hl Hloop). by constructor.
Qed.

Lemma expireLocked_spec t now : learning_ok t →
  expired t now ∅ (learning_expireLocked t now).1 (learning_expireLocked t now).2.
Proof. intros Ht. eapply expire_loop_spec; [done..|]. apply surjective_pairing. Qed.

(** ** Observation *)

Lemma fold_remove_facts t ks :
  lt_capacity (foldl learning_removeLocked t ks) = lt_capacity t ∧
  lt_expirations (foldl learning_removeLocked t ks) = lt_expirations t ∧
  lt_entries (foldl learning_removeLocked t ks) ⊆ lt_entries t.
Proof.
  revert t. induction ks as [|k ks IH]; intros t; [done|]. simpl.
  destruct (IH (learning_removeLocked t k)) as (-> & -> & Hsub).
  rewrite remove_capacity, remove_expirations. rewrite remove_entries in Hsub.
  split; [done|]. split; [done|]. etrans; [done|]. apply delete_subseteq.
Qed.

(** The abstract effect of using keys one after the other with an expiry. *)
Definition lru_after (t : LearningTable) (ks : list observationKey) : list observationKey :=
  foldl (touch (Z.to_nat (lt_capacity t))) (lt_lru t) ks.

Record observed (t : LearningTable) (ks : list observationKey) (expires : time)
    (t' : LearningTable) : Prop := {
  ob_ok : learning_ok t';
  ob_capacity : lt_capacity t' = lt_capacity t;
  ob_lru : lt_lru t' = lru_after t ks;
  ob_entries : ∀ k, lt_entries t' !! k =
    if decide (k ∈ lt_lru t')
    then (if decide (k ∈ ks) then Some expires else lt_entries t !! k) else None }.

Lemma length_lru t : learning_ok t → (length (lt_lru t) ≤ Z.to_nat (lt_capacity t))%nat.
Proof. intros [? ? H]. apply indexed_size in H. lia. Qed.

Lemma push_heap_ok t k e : learning_ok t →
  learning_ok (with_heap t (heap_Push item_expires (lt_expirations t) (mkItem k e))).
Proof.
  intros Ht. destruct (heap_Push_ok item_expires (lt_expirations t) (mkItem k e) (lok_heap _ Ht))
    as [H1 H2]. apply with_heap_ok; [done..|]. intros k' e' Hk. rewrite H2.
  apply list_elem_of_further. by apply lok_items.
Qed.

(** The two tables of [observe_key] before their heap item is pushed. *)
Definition refreshed (t : LearningTable) (k : observationKey) (e : time) : LearningTable :=
  mkTable (lt_capacity t) (<[k := e]> (lt_entries t)) (lt_byIP t)
    (heap_Push item_expires (lt_expirations t) (mkItem k e)) (move_to_back (lt_lru t) k).
Definition added (t : LearningTable) (k : observationKey) (e : time) : LearningTable :=
  mkTable (lt_capacity t) (<[k := e]> (lt_entries t))
    (<[key_ip k := {[k]} ∪ default ∅ (lt_byIP t !! key_ip k)]> (lt_byIP t))
    (heap_Push item_expires (lt_expirations t) (mkItem k e)) (lt_lru t ++ [k]).

Lemma pushed_item t k e k' e' : learning_ok t →
  <[k := e]> (lt_entries t) !! k' = Some e' →
  mkItem k' e' ∈ heap_Push item_expires (lt_expirations t) (mkItem k e).
Proof.
  intros Ht H. destruct (heap_Push_ok item_expires (lt_expirations t) (mkItem k e) (lok_heap _ Ht))
    as [_ ->]. apply lookup_insert_Some in H as [[<- <-]|[_ H]]; [by apply list_elem_of_here|].
  apply list_elem_of_further. by apply lok_items.
Qed.

Lemma refreshed_ok t k e : learning_ok t → is_Some (lt_entries t !! k) → learning_ok (refreshed t k e).
Proof.
  intros Ht Hk. pose proof (pushed_item t k e) as Hpush. pose proof (push_heap_ok t k e Ht) as Hph.
  destruct Ht as [H1 H2 H3 H4 H5 H6 H7]. constructor; simpl; try done.
  - rewrite map_size_insert. destruct Hk as [e0 ->]. simpl. lia.
  - by apply indexed_update.
  - intros ip k'. rewrite H4. destruct (decide (k' = k)) as [->|].
    + rewrite lookup_insert_eq. split; intros [? _]; eauto.
    + by rewrite lookup_insert_ne.
  - apply Hph.
  - intros k' e' Hk'. by apply Hpush.
Qed.

Lemma added_ok t k e :
  learning_ok t → lt_entries t !! k = None → Z.of_nat (size (lt_entries t)) < lt_capacity t →
  learning_ok (added t k e).
Proof.
  intros Ht Hk Hsz. pose proof (pushed_item t k e) as Hpush. pose proof (push_heap_ok t k e Ht) as Hph.
  destruct Ht as [H1 H2 H3 H4 H5 H6 H7]. constructor; simpl; try done.
  - rewrite map_size_insert, Hk. simpl. lia.
  - by apply indexed_insert_new.
  - intros ip k'. destruct (decide (ip = key_ip k)) as [->|Hip].
    + rewrite lookup_insert_eq. simpl. rewrite elem_of_union, elem_of_singleton, H4.
      destruct (decide (k' = k)) as [->|].
      * rewrite lookup_insert_eq. split; eauto.
      * rewrite lookup_insert_ne by done. tauto.
    + rewrite lookup_insert_ne by done. rewrite H4.
      destruct (decide (k' = k)) as [->|]; [|by rewrite lookup_insert_ne].
      rewrite Hk. split; [intros [? _]; congruence|intros [? _]; congruence].
  - intros ip s [[_ <-]|[_ ?]]%lookup_insert_Some; [set_solver|by eapply H5].
  - apply Hph.
  - intros k' e' Hk'. by apply Hpush.
Qed.

Lemma observe_key_spec t k e :
  learning_ok t → ∃ t', observe_key t k e = Some t' ∧ observed t [k] e t'.
Proof.
  intros Ht. pose proof (lok_lru _ Ht) as [Hn Hin]. unfold observe_key.
  pose proof (length_lru t Ht) as Hlen. pose proof (lok_capacity _ Ht) as Hcap.
  destruct (lt_entries t !! k) as [e0|] eqn:Hk.
  - exists (refreshed t k e). split; [done|].
    assert (Hkl : k ∈ lt_lru t) by (apply Hin; eauto).
    constructor; simpl; [apply refreshed_ok; eauto|done| |].
    + unfold lru_after. simpl. by rewrite touch_present.
    + intros k'. destruct (decide (k' = k)) as [->|Hne].
      * rewrite lookup_insert_eq, !decide_True; [done|by apply list_elem_of_singleton|].
        apply elem_of_move_to_back. tauto.
      * rewrite lookup_insert_ne by done.
        rewrite (decide_False (P := k' ∈ [k])) by (by rewrite list_elem_of_singleton).
        destruct (decide (k' ∈ move_to_back (lt_lru t) k)) as [?|Hnot]; [done|].
        rewrite elem_of_move_to_back in Hnot.
        destruct (lt_entries t !! k') eqn:E; [|done]. destruct Hnot. left. apply Hin. eauto.
  - destruct (evict_spec learning_ok (size (lt_entries t)) (lt_capacity t) t Ht Hcap)
      as (Hev & Ht1 & Hl1).
    { change (lru_list t) with (lt_lru t). by rewrite (indexed_size _ _ (lok_lru _ Ht)). }
    rewrite Hev. cbn [mbind option_bind]. set (t1 := foldl _ t _) in *.
    destruct (fold_remove_facts t (take (surplus (lt_capacity t) t) (lru_list t))) as (Hc1 & Hx1 & Hsub).
    change (foldl learning_removeLocked) with (foldl (lru_remove (T := LearningTable))) in *. fold t1 in Hc1, Hx1, Hsub.
    change (lru_list t1) with (lt_lru t1) in Hl1. change (lru_list t) with (lt_lru t) in Hl1.
    assert (Hk1 : lt_entries t1 !! k = None).
    { destruct (lt_entries t1 !! k) eqn:E; [|done]. eapply lookup_weaken in E; [|done]. congruence. }
    exists (added t1 k e). split; [done|].
    assert (Hkl : k ∉ lt_lru t) by (rewrite Hin, Hk; by intros [? ?]).
    assert (Hl : lt_lru t1 ++ [k] = lru_after t [k]).
    { unfold lru_after. simpl. rewrite touch_absent by (done || lia). rewrite Hl1. f_equal.
      f_equal. unfold surplus. change (lru_list t) with (lt_lru t). lia. }
    constructor; simpl; [|done|done|].
    + apply added_ok; [done..|]. rewrite (indexed_size _ _ (lok_lru _ Ht1)), Hl1, Hc1, length_drop.
      unfold surplus. change (lru_list t) with (lt_lru t). lia.
    + intros k'. destruct (lok_lru _ Ht1) as [_ Hin1]. destruct (decide (k' = k)) as [->|Hne].
      * rewrite lookup_insert_eq, !decide_True; [done|by apply list_elem_of_singleton|].
        apply elem_of_app. right. by apply list_elem_of_singleton.
      * rewrite lookup_insert_ne by done.
        rewrite (decide_False (P := k' ∈ [k])) by (by rewrite list_elem_of_singleton).
        destruct (decide (k' ∈ lt_lru t1 ++ [k])) as [H|Hnot];
          rewrite elem_of_app, list_elem_of_singleton in *.
        -- destruct H as [H|?]; [|done]. apply Hin1 in H as [e1 He1]. rewrite He1.
           symmetry. by eapply lookup_weaken.
        -- destruct (lt_entries t1 !! k') eqn:E; [|done]. destruct Hnot. left. apply Hin1. eauto.
Qed.

Lemma observed_cons t k ks e t1 t' :
  observed t [k] e t1 → observed t1 ks e t' → observed t (k :: ks) e t'.
Proof.
  intros [A1 A2 A3 A4] [B1 B2 B3 B4].
  assert (Hl : lru_after t (k :: ks) = lru_after t1 ks).
  { unfold lru_after in *. simpl in *. by rewrite A2, A3. }
  constructor; [done|by rewrite B2, A2|by rewrite B3, Hl|]. intros k'. rewrite B4.
  destruct (decide (k' ∈ lt_lru t')) as [Hk'|]; [|done].
  destruct (decide (k' ∈ ks)) as [Hks|Hks].
  { by rewrite decide_True by (by apply list_elem_of_further). }
  rewrite A4. rewrite B3 in Hk'. apply elem_of_touches in Hk' as [Hk'|?]; [|done].
  rewrite (decide_True (P := k' ∈ lt_lru t1)) by done.
  destruct (decide (k' ∈ [k])) as [H|H]; rewrite list_elem_of_singleton in H.
  - subst. by rewrite decide_True by apply list_elem_of_here.
  - by rewrite decide_False by (rewrite elem_of_cons; tauto).
Qed.

Lemma observed_nil t e : learning_ok t → observed t [] e t.
Proof.
  intros Ht. constructor; [done..|]. intros k. destruct (lok_lru _ Ht) as [_ Hin].
  rewrite (decide_False (P := k ∈ [])) by apply not_elem_of_nil.
  destruct (decide (k ∈ lt_lru t)) as [|Hk]; [done|]. rewrite Hin in Hk.
  destruct (lt_entries t !! k); [|done]. destruct Hk. eauto.
Qed.

(** The addresses an observation records: those before the first that is not
    IPv4, each once. *)
Fixpoint recorded_ips (seen : gset Addr) (ips : list Addr) : list Addr :=
  match ips with
  | [] => []
  | ip :: ips' =>
      if Is4 ip then
        if bool_decide (ip ∈ seen) then recorded_ips seen ips'
        else ip :: recorded_ips ({[ip]} ∪ seen) ips'
      else []
  end.

Lemma Is4_not_mapped a : Is4 a = true → Is4In6 a = false.
Proof. by destruct a. Qed.

Lemma observe_ips_spec t d a e seen ips :
  learning_ok t →
  ∃ t', observe_ips t d a e seen ips =
          Some (t', if forallb Is4 ips then None else Some (EMsg "learned IP must be IPv4")) ∧
        observed t (mkKey d a <$> recorded_ips seen ips) e t'.
Proof.
  revert t seen. induction ips as [|ip ips IH]; intros t seen Ht; cbn [observe_ips recorded_ips].
  { exists t. split; [done|]. by apply observed_nil. }
  destruct (Is4 ip) eqn:H4; cbn [negb orb forallb]; rewrite H4.
  2:{ exists t. split; [done|]. by apply observed_nil. }
  rewrite (Is4_not_mapped ip H4). cbn [andb]. case_bool_decide; [by apply IH|].
  destruct (observe_key_spec t (mkKey d a ip) e Ht) as (t1 & -> & H1). cbn [mbind option_bind].
  destruct (IH t1 ({[ip]} ∪ seen) (ob_ok _ _ _ _ H1)) as (t' & -> & H').
  exists t'. split; [done|]. rewrite fmap_cons. by eapply observed_cons.
Qed.

(** ** Lookups *)

Lemma lookupLocked_spec t ip :
  learning_ok t →
  let d := lookupLocked t ip in
  (ld_direct d = true ↔ ∃ dom, is_Some (lt_entries t !! mkKey dom Direct ip)) ∧
  (ld_proxy d = true ↔ ∃ dom, is_Some (lt_entries t !! mkKey dom Proxy ip)) ∧
  ld_inspect d = ld_direct d && ld_proxy d ∧
  ld_action d = (if ld_proxy d then Proxy else if ld_direct d then Direct else Unknown).
Proof.
  intros Ht d. unfold d, lookupLocked. simpl.
  assert (H : ∀ a, existsb (λ k, bool_decide (key_action k = a))
                     (elements (default ∅ (lt_byIP t !! ip))) = true ↔
                   ∃ dom, is_Some (lt_entries t !! mkKey dom a ip)).
  { intros a. rewrite existsb_exists. split.
    - intros (k & Hk & Ha). bools. apply list_elem_of_In, elem_of_elements in Hk.
      apply lok_byIP in Hk as [Hip Hs]; [|done]. destruct k as [dom act i]. simpl in *. subst. eauto.
    - intros [dom Hs]. exists (mkKey dom a ip). split; [|by apply bool_decide_eq_true].
      apply list_elem_of_In, elem_of_elements, lok_byIP; [done|]. by split. }
  split; [apply H|]. split; [apply H|]. done.
Qed.

(** ** Sequences of operations *)

Inductive learning_op :=
| OpObserve (o : Observation)
| OpLookup (ip : Addr) (now : time)
| OpExpire (now : time)
| OpSnapshot (now : time).

(** [None] is a panic. *)
Definition learning_run (t : LearningTable) (op : learning_op) : option LearningTable :=
  match op with
  | OpObserve o => fst <$> Observe t o
  | OpLookup ip now => Some (Lookup t ip now).1
  | OpExpire now => Some (Expire t now).1
  | OpSnapshot now => Some (Snapshot t now).1
  end.

Inductive learning_reachable (capacity : Z) : LearningTable → Prop :=
| reach_new : learning_reachable capacity (NewLearningTable capacity)
| reach_run t op t' : learning_reachable capacity t → learning_run t op = Some t' →
    learning_reachable capacity t'.

Lemma Observe_ok t o : learning_ok t →
  ∃ t' err, Observe t o = Some (t', err) ∧ learning_ok t' ∧ lt_capacity t' = lt_capacity t.
Proof.
  intros Ht. unfold Observe. destruct (_ && _); [eauto|]. destruct (_ =? 0); [eauto|].
  destruct (NormalizeDomain _) as [d|]; [|eauto].
  destruct (observe_ips_spec t d (obs_action o) (obs_expires o) ∅ (obs_ips o) Ht) as (t' & -> & []).
  eauto.
Qed.

Lemma learning_run_ok t op : learning_ok t →
  ∃ t', learning_run t op = Some t' ∧ learning_ok t' ∧ lt_capacity t' = lt_capacity t.
Proof.
  intros Ht. destruct op as [o|ip now|now|now]; simpl.
  - destruct (Observe_ok t o Ht) as (t' & err & -> & ? & ?). simpl. eauto.
  - destruct (expireLocked_spec t now Ht). eauto.
  - unfold Expire. destruct (expireLocked_spec t now Ht). eauto.
  - destruct (expireLocked_spec t now Ht). eauto.
Qed.

Lemma reachable_ok capacity t : learning_reachable capacity t →
  learning_ok t ∧ lt_capacity t = Z.max 1 capacity.
Proof.
  induction 1 as [|t op t' _ [IH1 IH2] Hrun].
  - split; [apply new_learning_ok|]. simpl. destruct (capacity <? 1) eqn:E; bools; lia.
  - destruct (learning_run_ok t op IH1) as (t1 & Hrun' & H1 & H2). simplify_eq.
    split; [done|]. by rewrite H2.
Qed.

(** C7: in every state a sequence of [Observe], [Lookup], [Expire] and [Snapshot]
    calls can reach, the map, the address index, the expiry heap and the recency
    list agree, the number of observations stays within the capacity, and the
    next call, whatever it is, completes without a panic in such a state again. *)
Theorem learning_table_safe (capacity : Z) (t : LearningTable) :
  learning_reachable capacity t →
  learning_ok t ∧ Z.of_nat (size (lt_entries t)) ≤ Z.max 1 capacity ∧
  ∀ op, ∃ t', learning_run t op = Some t' ∧ learning_ok t'.
Proof.
  intros H. apply reachable_ok in H as [Ht Hc]. split; [done|]. split.
  - rewrite <- Hc. apply Ht.
  - intros op. destruct (learning_run_ok t op Ht) as (t' & ? & ? & _). eauto.
Qed.

(** C6: an accepted observation puts the keys of its addresses (up to the first
    that is not IPv4, each once) at the recent end of a recency list bounded by
    the capacity, drops exactly the observations that fall off its old end, gives
    the recorded keys the new expiry and leaves every other observation alone; it
    fails exactly when an address is not IPv4. *)
Theorem Observe_refines_bounded_lru (t : LearningTable) (o : Observation) (domain : bytes) :
  learning_ok t → obs_action o ≠ Unknown → obs_expires o ≠ 0 →
  NormalizeDomain (obs_domain o) = Ok domain →
  let keys := mkKey domain (obs_action o) <$> recorded_ips ∅ (obs_ips o) in
  ∃ t', Observe t o = Some (t', if forallb Is4 (obs_ips o) then None
                                else Some (EMsg "learned IP must be IPv4")) ∧
    lt_lru t' = foldl (touch (Z.to_nat (lt_capacity t))) (lt_lru t) keys ∧
    ∀ k, lt_entries t' !! k =
      if decide (k ∈ lt_lru t')
      then (if decide (k ∈ keys) then Some (obs_expires o) else lt_entries t !! k) else None.
Proof.
  intros Ht Ha He Hd keys. unfold Observe.
  replace (negb _ && negb _) with false by (by destruct (obs_action o)).
  rewrite (proj2 (Z.eqb_neq _ 0)), Hd by done.
  destruct (observe_ips_spec t domain (obs_action o) (obs_expires o) ∅ (obs_ips o) Ht)
    as (t' & -> & [_ _ Hl Hent]). eauto.
Qed.

(** C8: a lookup at a time sees exactly the observations of the address that are
    still valid then: it reports direct (proxy) when some domain was observed
    with that action and an expiry after the time, asks for inspection when both
    hold, and lets proxy win. *)
Theorem Lookup_sees_live_observations (t : LearningTable) (ip : Addr) (now : time) :
  learning_ok t →
  let d := (Lookup t ip now).2 in
  let seen a := ∃ domain e, lt_entries t !! mkKey domain a ip = Some e ∧ now < e in
  (ld_direct d = true ↔ seen Direct) ∧ (ld_proxy d = true ↔ seen Proxy) ∧
  ld_inspect d = ld_direct d && ld_proxy d ∧
  ld_action d = (if ld_proxy d then Proxy else if ld_direct d then Direct else Unknown).
Proof.
  intros Ht d seen. destruct (expireLocked_spec t now Ht) as [Ht' _ Hent _ _].
  destruct (lookupLocked_spec _ ip Ht') as (H1 & H2 & H3 & H4). rewrite Hent in H1, H2.
  assert (Hs : ∀ a, (∃ dom, is_Some (live now (lt_entries t) !! mkKey dom a ip)) ↔ seen a).
  { intros a. unfold seen, live. split.
    - intros (dom & e & [? ?]%map_lookup_filter_Some). eauto.
    - intros (dom & e & ? & ?). exists dom, e. by apply map_lookup_filter_Some. }
  rewrite Hs in H1, H2. done.
Qed.

(** Expiring at a time removes exactly the observations whose expiry is not
    after it, keeps the others and their recency order, and reports exactly the
    addresses that lost an observation. *)
Theorem Expire_exact (t : LearningTable) (now : time) :
  learning_ok t →
  let '(t', changed) := Expire t now in
  lt_entries t' = live now (lt_entries t) ∧
  lt_lru t' = filter (λ k, k ∈ dom (lt_entries t')) (lt_lru t) ∧
  ∀ ip, ip ∈ changed ↔ ∃ k e, lt_entries t !! k = Some e ∧ e ≤ now ∧ key_ip k = ip.
Proof.
  intros Ht. unfold Expire. pose proof (expireLocked_spec t now Ht) as Hx.
  destruct (learning_expireLocked t now) as [t' changed]. destruct Hx as [_ _ H1 H2 H3].
  cbn [fst snd] in *. split; [done|]. split; [by rewrite H2, H1|]. intros ip. rewrite H3.
  split; [|tauto]. intros [?|?]; [by apply not_elem_of_empty in H|done].
Qed.

(** ** Witnesses *)

Definition sample_observation : Observation :=
  mkObservation (str "Example.CN") Direct
    [Addr4 1 2 3 4; Addr4 5 6 7 8; Addr4 1 2 3 4; Addr4 9 9 9 9] 100.

Definition sample_table : LearningTable :=
  default (NewLearningTable 2) (fst <$> Observe (NewLearningTable 2) sample_observation).

Lemma sample_table_ok : learning_ok sample_table.
Proof.
  destruct (Observe_ok (NewLearningTable 2) sample_observation (new_learning_ok 2))
    as (t' & err & E & ? & _). unfold sample_table. by rewrite E.
Qed.

Example sample_table_evicted :
  key_ip <$> lt_lru sample_table = [Addr4 5 6 7 8; Addr4 9 9 9 9].
Proof. vm_compute. reflexivity. Qed.

Lemma learning_table_safe_witness :
  Z.of_nat (size (lt_entries sample_table)) ≤ 2.
Proof.
  apply (learning_table_safe 2 sample_table).
  apply (reach_run 2 (NewLearningTable 2) (OpObserve sample_observation)).
  - apply reach_new.
  - vm_compute. reflexivity.
Defined.

Lemma Observe_refines_bounded_lru_witness :
  ∃ t', Observe sample_table (mkObservation (str "b.cn") Proxy [Addr4 7 7 7 7] 50) = Some (t', None) ∧
        key_ip <$> lt_lru t' = [Addr4 9 9 9 9; Addr4 7 7 7 7].
Proof.
  destruct (Observe_refines_bounded_lru sample_table
    (mkObservation (str "b.cn") Proxy [Addr4 7 7 7 7] 50) (str "b.cn") sample_table_ok)
    as (t' & H1 & H2 & _).
  - discriminate.
  - discriminate.
  - vm_compute. reflexivity.
  - exists t'. split; [exact H1|]. rewrite H2. vm_compute. reflexivity.
Defined.

Lemma Lookup_sees_live_observations_witness :
  ld_direct (Lookup sample_table (Addr4 9 9 9 9) 99).2 = true ∧
  ld_proxy (Lookup sample_table (Addr4 9 9 9 9) 99).2 ≠ true.
Proof.
  destruct (Lookup_sees_live_observations sample_table (Addr4 9 9 9 9) 99 sample_table_ok)
    as (H1 & _). split; [|vm_compute; discriminate].
  apply H1. exists (str "example.cn"), 100. split; [vm_compute; reflexivity|lia].
Defined.

Lemma Expire_exact_witness : lt_entries (Expire sample_table 100).1 = ∅.
Proof.
  pose proof (Expire_exact sample_table 100 sample_table_ok) as H.
  destruct (Expire sample_table 100) as [t' changed]. destruct H as [H _]. simpl. rewrite H.
  vm_compute. reflexivity.
Defined.
