(* ===== verification/Failover.v ===== *)
(** * The failover controller: [internal/failover/controller.go]

    Proxy mode, a direct cool-down after too many failures, and a recovery phase
    that needs a run of successes.  Each operation takes the reading of the
    controller's clock at the call. *)

From S2P Require Import Prelude.

Inductive Mode := ModeProxy | DirectCooldown | DirectRecovery.

#[export] Instance Mode_eq_dec : EqDecision Mode.
Proof. solve_decision. Defined.

Record FailoverConfig := mkFailoverConfig { Failures : Z; Successes : Z; Cooldown : duration }.

Record Controller := mkController {
  ctl_cfg : FailoverConfig;
  ctl_mode : Mode;
  ctl_failures : Z;
  ctl_successes : Z;
  ctl_until : time }.

Definition NewController (cfg : FailoverConfig) : Controller :=
  let failures := if Failures cfg <? 1 then 1 else Failures cfg in
  let successes := if Successes cfg <? 1 then 1 else Successes cfg in
  mkController (mkFailoverConfig failures successes (Cooldown cfg)) ModeProxy 0 0 0.

(** [c.mode == DirectCooldown && !c.now().Before(c.until)]: the cool-down is over. *)
Definition leave_cooldown (c : Controller) (now : time) : Controller :=
  if bool_decide (ctl_mode c = DirectCooldown) && negb (now <? ctl_until c)
  then mkController (ctl_cfg c) DirectRecovery (ctl_failures c) (ctl_successes c) (ctl_until c)
  else c.

Definition controller_Mode (c : Controller) (now : time) : Controller * Mode :=
  let c := leave_cooldown c now in (c, ctl_mode c).

Definition RecordFailure (c : Controller) (now : time) : Controller :=
  match ctl_mode c with
  | ModeProxy =>
      let failures := ctl_failures c + 1 in
      if Failures (ctl_cfg c) <=? failures
      then mkController (ctl_cfg c) DirectCooldown failures 0 (now + Cooldown (ctl_cfg c))
      else mkController (ctl_cfg c) ModeProxy failures 0 (ctl_until c)
  | _ => mkController (ctl_cfg c) DirectCooldown (ctl_failures c) 0 (now + Cooldown (ctl_cfg c))
  end.

Definition RecordSuccess (c : Controller) (now : time) : Controller :=
  let c := leave_cooldown c now in
  match ctl_mode c with
  | DirectRecovery =>
      let successes := ctl_successes c + 1 in
      if Successes (ctl_cfg c) <=? successes
      then mkController (ctl_cfg c) ModeProxy 0 0 (ctl_until c)
      else mkController (ctl_cfg c) DirectRecovery (ctl_failures c) successes (ctl_until c)
  | _ => c
  end.

(** ** Traces *)

Inductive event := EvMode | EvFailure | EvSuccess.

#[export] Instance event_eq_dec : EqDecision event.
Proof. solve_decision. Defined.

Definition controller_step (c : Controller) (e : event * time) : Controller :=
  match e with
  | (EvMode, now) => (controller_Mode c now).1
  | (EvFailure, now) => RecordFailure c now
  | (EvSuccess, now) => RecordSuccess c now
  end.

Definition controller_run (c : Controller) (es : list (event * time)) : Controller :=
  foldl controller_step c es.

(** ** The invariant *)

Record controller_ok (c : Controller) : Prop := {
  cok_thresholds : 1 ≤ Failures (ctl_cfg c) ∧ 1 ≤ Successes (ctl_cfg c);
  cok_proxy : ctl_mode c = ModeProxy →
    0 ≤ ctl_failures c < Failures (ctl_cfg c) ∧ ctl_successes c = 0;
  cok_cooldown : ctl_mode c = DirectCooldown →
    Failures (ctl_cfg c) ≤ ctl_failures c ∧ ctl_successes c = 0;
  cok_recovery : ctl_mode c = DirectRecovery →
    Failures (ctl_cfg c) ≤ ctl_failures c ∧ 0 ≤ ctl_successes c < Successes (ctl_cfg c) }.

Lemma new_controller_ok cfg : controller_ok (NewController cfg).
Proof.
  unfold NewController. constructor; simpl; try done.
  - destruct (Failures cfg <? 1) eqn:E1, (Successes cfg <? 1) eqn:E2; bools; lia.
  - destruct (Failures cfg <? 1) eqn:E1; bools; lia.
Qed.

Ltac destruct_controller c :=
  destruct c as [[F S0 C] m f s u]; destruct m; simpl in *.

Lemma leave_cooldown_ok c now : controller_ok c → controller_ok (leave_cooldown c now).
Proof.
  intros [H1 H2 H3 H4]. unfold leave_cooldown. destruct_controller c; try done.
  destruct (negb (now <? u)); simpl; [|by constructor].
  specialize (H3 eq_refl). constructor; simpl; try done. intros _. lia.
Qed.

Lemma controller_step_ok c e : controller_ok c → controller_ok (controller_step c e).
Proof.
  intros H. destruct e as [[] now]; simpl.
  - by apply leave_cooldown_ok.
  - destruct H as [H1 H2 H3 H4]. unfold RecordFailure. destruct_controller c.
    + specialize (H2 eq_refl). destruct (F <=? f + 1) eqn:E; bools; constructor; simpl; try done;
        intros _; lia.
    + specialize (H3 eq_refl). constructor; simpl; try done; intros _; lia.
    + specialize (H4 eq_refl). constructor; simpl; try done; intros _; lia.
  - apply (leave_cooldown_ok c now) in H. unfold RecordSuccess.
    destruct (leave_cooldown c now) as [[F S0 C] m f s u]. destruct H as [H1 H2 H3 H4].
    destruct m; simpl in *; [by constructor..|]. specialize (H4 eq_refl).
    destruct (S0 <=? s + 1) eqn:E; bools; constructor; simpl; try done; intros _; lia.
Qed.

Lemma controller_run_ok c es : controller_ok c → controller_ok (controller_run c es).
Proof.
  revert c. induction es as [|e es IH]; intros c H; [done|]. simpl. by apply IH, controller_step_ok.
Qed.

(** ** Tripping *)

Definition failure_count (es : list (event * time)) : Z :=
  Z.of_nat (length (filter (λ e, e.1 = EvFailure) es)).

Lemma run_proxy_count c es :
  controller_ok c → ctl_mode c = ModeProxy →
  ctl_failures c + failure_count es < Failures (ctl_cfg c) →
  ctl_mode (controller_run c es) = ModeProxy ∧
  ctl_failures (controller_run c es) = ctl_failures c + failure_count es ∧
  ctl_cfg (controller_run c es) = ctl_cfg c.
Proof.
  revert c. induction es as [|[e now] es IH]; intros c Hok Hm Hlt.
  { unfold failure_count. simpl. repeat split; [done|lia]. }
  pose proof (controller_step_ok c (e, now) Hok) as Hok'.
  assert (Hstep : ctl_mode (controller_step c (e, now)) = ModeProxy ∧
    ctl_cfg (controller_step c (e, now)) = ctl_cfg c ∧
    ctl_failures (controller_step c (e, now)) + failure_count es =
    ctl_failures c + failure_count ((e, now) :: es)).
  { unfold failure_count in *. destruct c as [[F S0 C] m f s u]. simpl in Hm. subst m.
    destruct e.
    - rewrite filter_cons_False by done. done.
    - rewrite filter_cons_True in Hlt |- * by done. simpl in *. unfold RecordFailure. simpl.
      rewrite (proj2 (Z.leb_gt F (f + 1))) by lia. simpl. repeat split; lia.
    - rewrite filter_cons_False by done. done. }
  destruct Hstep as (H1 & H2 & H3).
  destruct (IH (controller_step c (e, now)) Hok' H1) as (G1 & G2 & G3); [rewrite H2; lia|].
  change (controller_run c ((e, now) :: es)) with (controller_run (controller_step c (e, now)) es).
  rewrite G1, G2, G3, H2. repeat split. lia.
Qed.

(** Without a success the controller does not come back to the proxy. *)
Lemma run_stays_away c es :
  Forall (λ e, e.1 ≠ EvSuccess) es → ctl_mode c ≠ ModeProxy → ctl_mode (controller_run c es) ≠ ModeProxy.
Proof.
  intros Hes. revert c. induction Hes as [|[e now] es He _ IH]; intros c Hm; [done|]. simpl in He. apply IH.
  destruct e; [|simpl; unfold RecordFailure; by destruct (ctl_mode c)|done].
  simpl. unfold leave_cooldown. by destruct (_ && _).
Qed.

Lemma run_trips c es :
  Forall (λ e, e.1 ≠ EvSuccess) es → 1 ≤ Failures (ctl_cfg c) → 0 ≤ ctl_failures c →
  Failures (ctl_cfg c) ≤ failure_count es → ctl_mode (controller_run c es) ≠ ModeProxy.
Proof.
  intros Hes Hone Hnn H. assert (Hle : Failures (ctl_cfg c) ≤ ctl_failures c + failure_count es) by lia.
  assert (Hpos : 0 < failure_count es) by lia. clear H Hone Hnn.
  revert c Hle. induction Hes as [|[e now] es He Hes IH]; intros c Hle; [done|]. simpl in He.
  unfold controller_run. cbn [foldl]. fold (controller_run (controller_step c (e, now)) es).
  unfold failure_count in *. destruct e; [|clear Hpos|done].
  - rewrite filter_cons_False in Hle, Hpos by done. apply IH; [done|]. simpl. unfold leave_cooldown.
    by destruct (_ && _).
  - rewrite filter_cons_True in Hle by done. simpl in Hle |- *. unfold RecordFailure.
    destruct (ctl_mode c) eqn:Hm; [|by apply run_stays_away..].
    destruct (Failures (ctl_cfg c) <=? ctl_failures c + 1) eqn:E; bools; [by apply run_stays_away|].
    apply IH; simpl; lia.
Qed.

Lemma controller_run_cfg c es : ctl_cfg (controller_run c es) = ctl_cfg c.
Proof.
  revert c. induction es as [|[e now] es IH]; intros c; [done|].
  unfold controller_run. cbn [foldl]. fold (controller_run (controller_step c (e, now)) es). rewrite IH.
  destruct e; simpl; unfold RecordFailure, RecordSuccess, leave_cooldown; by repeat case_match.
Qed.

Lemma new_controller_threshold cfg : Failures (ctl_cfg (NewController cfg)) = Z.max 1 (Failures cfg).
Proof. unfold NewController. simpl. destruct (Failures cfg <? 1) eqn:E; bools; lia. Qed.

(** C18: a run of failures with no success in between makes the controller leave
    proxy mode at the configured length and not before.  Whatever happened earlier,
    in proxy mode as many failures in a row as the threshold always lead away from
    the proxy, and until a success it does not come back.  In proxy mode with fresh
    counters, as at the start and after a recovery, fewer failures in a row change
    nothing, so a single one does not when the threshold is larger; and the one
    that reaches the threshold starts a cool-down of the configured length. *)
Theorem consecutive_failures_trip (cfg : FailoverConfig) (history es : list (event * time)) :
  let c := controller_run (NewController cfg) history in
  let threshold := Z.max 1 (Failures cfg) in
  ctl_mode c = ModeProxy → Forall (λ e, e.1 ≠ EvSuccess) es →
  (threshold ≤ failure_count es → ctl_mode (controller_run c es) ≠ ModeProxy) ∧
  (ctl_failures c = 0 → failure_count es < threshold →
     ctl_mode (controller_run c es) = ModeProxy ∧
     ∀ now, failure_count es = threshold - 1 →
       ctl_mode (RecordFailure (controller_run c es) now) = DirectCooldown ∧
       ctl_until (RecordFailure (controller_run c es) now) = now + Cooldown cfg).
Proof.
  intros c threshold Hm Hes. pose proof (controller_run_ok _ history (new_controller_ok cfg)) as Hok. fold c in Hok.
  pose proof (controller_run_cfg (NewController cfg) history) as Hcfg. fold c in Hcfg.
  assert (HF : Failures (ctl_cfg c) = threshold) by (rewrite Hcfg; apply new_controller_threshold).
  destruct (cok_proxy _ Hok Hm) as [[Hlo _] _]. split.
  - intros H. apply run_trips; [done|rewrite HF; unfold threshold; lia|done|by rewrite HF].
  - intros H0 Hlt. destruct (run_proxy_count c es Hok Hm) as (G1 & G2 & G3); [rewrite H0, HF; lia|].
    split; [done|]. intros now Heq. unfold RecordFailure. rewrite G1, G2, G3, H0, HF.
    rewrite (proj2 (Z.leb_le threshold _)) by lia. simpl. by rewrite Hcfg.
Qed.

(** ** Cooling down and recovering *)

Lemma cooldown_holds c es :
  ctl_mode c = DirectCooldown →
  Forall (λ e, e.1 ≠ EvFailure ∧ e.2 < ctl_until c) es → controller_run c es = c.
Proof.
  intros Hm Hes. induction Hes as [|[e now] es [He Hn] _ IH]; [done|]. simpl in He, Hn.
  change (controller_run c ((e, now) :: es)) with (controller_run (controller_step c (e, now)) es).
  assert (controller_step c (e, now) = c) as ->; [|done].
  assert (leave_cooldown c now = c) as Hl.
  { unfold leave_cooldown. rewrite (proj2 (Z.ltb_lt _ _)) by done. by rewrite andb_false_r. }
  destruct e; [|done|]; simpl; [by rewrite Hl|]. unfold RecordSuccess. by rewrite Hl, Hm.
Qed.

(** Successes alone, in recovery. *)
Lemma recovery_counts c ts :
  controller_ok c → ctl_mode c = DirectRecovery →
  ctl_successes c + Z.of_nat (length ts) < Successes (ctl_cfg c) →
  ctl_mode (controller_run c ((λ t, (EvSuccess, t)) <$> ts)) = DirectRecovery ∧
  ctl_cfg (controller_run c ((λ t, (EvSuccess, t)) <$> ts)) = ctl_cfg c ∧
  ctl_successes (controller_run c ((λ t, (EvSuccess, t)) <$> ts)) =
    ctl_successes c + Z.of_nat (length ts) ∧
  ctl_until (controller_run c ((λ t, (EvSuccess, t)) <$> ts)) = ctl_until c.
Proof.
  revert c. induction ts as [|t ts IH]; intros c Hok Hm Hlt; [simpl in *; repeat split; [done|lia]|].
  pose proof (controller_step_ok c (EvSuccess, t) Hok) as Hok'.
  destruct c as [[F S0 C] m f s u]. simpl in Hm. subst m. simpl in Hlt.
  assert (Hs : controller_step (mkController (mkFailoverConfig F S0 C) DirectRecovery f s u) (EvSuccess, t)
    = mkController (mkFailoverConfig F S0 C) DirectRecovery f (s + 1) u).
  { simpl. unfold RecordSuccess. simpl. by rewrite (proj2 (Z.leb_gt S0 (s + 1))) by lia. }
  rewrite Hs in Hok'. rewrite fmap_cons. unfold controller_run in *. cbn [foldl]. rewrite Hs.
  destruct (IH _ Hok' eq_refl) as (G1 & G2 & G3 & G4); [simpl in *; lia|].
  rewrite G1, G2, G3, G4. simpl. repeat split. lia.
Qed.

Lemma first_recovery_success c t :
  controller_ok c → ctl_mode c = DirectCooldown → ctl_until c ≤ t →
  RecordSuccess c t =
  if Successes (ctl_cfg c) <=? 1 then mkController (ctl_cfg c) ModeProxy 0 0 (ctl_until c)
  else mkController (ctl_cfg c) DirectRecovery (ctl_failures c) 1 (ctl_until c).
Proof.
  intros [_ _ H3 _] Hm Ht. destruct (H3 Hm) as [_ Hs].
  unfold RecordSuccess, leave_cooldown. rewrite Hm, (proj2 (Z.ltb_ge _ _)) by done. simpl.
  by rewrite Hs.
Qed.

(** C17: no return to the proxy during the cool-down, and recovery after it takes
    exactly the configured run of successes: while the cool-down lasts, successes
    and mode queries change nothing; after it, with no failure in between, one
    success short of the threshold the controller is still direct, and the
    success that reaches it restores proxy mode with fresh counters. *)
Theorem controller_recovery (c : Controller) (early : list (event * time)) (ts : list time) (t : time) :
  controller_ok c → ctl_mode c = DirectCooldown →
  Forall (λ e, e.1 ≠ EvFailure ∧ e.2 < ctl_until c) early →
  Forall (λ t, ctl_until c ≤ t) (ts ++ [t]) →
  Z.of_nat (length ts) + 1 = Successes (ctl_cfg c) →
  let successes := (λ t, (EvSuccess, t)) <$> ts in
  controller_run c early = c ∧
  ctl_mode (controller_run c (early ++ successes)) ≠ ModeProxy ∧
  controller_run c (early ++ successes ++ [(EvSuccess, t)]) =
    mkController (ctl_cfg c) ModeProxy 0 0 (ctl_until c).
Proof.
  intros Hok Hm Hearly Hts Hlen successes. pose proof (cooldown_holds c early Hm Hearly) as He.
  split; [done|]. unfold controller_run in *. rewrite !foldl_app, He.
  destruct ts as [|t0 ts]; simpl in Hlen, Hts.
  - split; [simpl; congruence|]. simpl. apply list.Forall_cons in Hts as [Ht _].
    rewrite first_recovery_success by done. by rewrite (proj2 (Z.leb_le _ _)) by lia.
  - apply list.Forall_cons in Hts as [Ht0 Hts].
    unfold successes. rewrite fmap_cons. cbn [foldl controller_step].
    pose proof (controller_step_ok c (EvSuccess, t0) Hok) as Hok1. simpl in Hok1.
    rewrite first_recovery_success in Hok1 |- * by done.
    rewrite (proj2 (Z.leb_gt _ 1)) in Hok1 |- * by lia.
    destruct (recovery_counts _ ts Hok1 eq_refl) as (G1 & G2 & G3 & G4); [simpl; lia|].
    unfold controller_run in *. split; [by rewrite G1|].
    set (c2 := foldl controller_step _ _) in *. cbn [foldl controller_step].
    unfold RecordSuccess, leave_cooldown. rewrite G1. simpl. rewrite G1, G2, G3, G4. simpl.
    by rewrite (proj2 (Z.leb_le _ _)) by lia.
Qed.

(** The failures that trip the controller need not be consecutive: successes in
    proxy mode do not reset the count. *)
Example intermittent_failures_trip :
  ctl_mode (controller_run (NewController (mkFailoverConfig 3 2 (30 * Second)))
    [(EvFailure, 0); (EvSuccess, 1); (EvSuccess, 2); (EvFailure, 3); (EvSuccess, 4); (EvFailure, 5)])
  = DirectCooldown.
Proof. vm_compute. reflexivity. Qed.

(** A failure while direct, in the cool-down or during recovery, starts a
    new full cool-down and forgets the successes counted so far, so a recovery is
    never completed by successes from both sides of a failure. *)
Theorem failure_restarts_cooldown (c : Controller) (now : time) :
  ctl_mode c ≠ ModeProxy →
  RecordFailure c now =
    mkController (ctl_cfg c) DirectCooldown (ctl_failures c) 0 (now + Cooldown (ctl_cfg c)) ∧
  ∀ es, Forall (λ e, e.1 ≠ EvFailure ∧ e.2 < now + Cooldown (ctl_cfg c)) es →
        ctl_mode (controller_run (RecordFailure c now) es) = DirectCooldown.
Proof.
  intros Hm. assert (HR : RecordFailure c now =
    mkController (ctl_cfg c) DirectCooldown (ctl_failures c) 0 (now + Cooldown (ctl_cfg c))).
  { unfold RecordFailure. by destruct (ctl_mode c). }
  split; [done|]. intros es Hes. rewrite HR. by rewrite cooldown_holds.
Qed.

(** ** Witnesses *)

Definition tripped : Controller :=
  RecordFailure (NewController (mkFailoverConfig 1 2 10)) 100.

Lemma tripped_ok : controller_ok tripped.
Proof. apply (controller_step_ok _ (EvFailure, 100)), new_controller_ok. Qed.

Lemma controller_recovery_witness :
  controller_run tripped ([(EvSuccess, 105)] ++ [(EvSuccess, 110)] ++ [(EvSuccess, 111)]) =
  mkController (mkFailoverConfig 1 2 10) ModeProxy 0 0 110.
Proof.
  apply (controller_recovery tripped [(EvSuccess, 105)] [110] 111 tripped_ok).
  - reflexivity.
  - apply Forall_singleton. split; [discriminate|reflexivity].
  - apply list.Forall_cons. split; [discriminate|]. apply Forall_singleton. discriminate.
  - reflexivity.
Defined.

Lemma consecutive_failures_trip_witness :
  ctl_mode (controller_run (NewController (mkFailoverConfig 2 1 10)) [(EvFailure, 1); (EvFailure, 2)]) ≠ ModeProxy ∧
  ctl_mode (controller_run (NewController (mkFailoverConfig 2 1 10)) [(EvFailure, 1)]) = ModeProxy.
Proof.
  split.
  - apply (consecutive_failures_trip (mkFailoverConfig 2 1 10) [] [(EvFailure, 1); (EvFailure, 2)]).
    + reflexivity.
    + apply list.Forall_cons. split; [discriminate|]. apply Forall_singleton. discriminate.
    + vm_compute. discriminate.
  - apply (consecutive_failures_trip (mkFailoverConfig 2 1 10) [] [(EvFailure, 1)]).
    + reflexivity.
    + apply Forall_singleton. discriminate.
    + reflexivity.
    + reflexivity.
Defined.

Lemma failure_restarts_cooldown_witness :
  ctl_mode (controller_run (RecordFailure tripped 200) [(EvSuccess, 205); (EvSuccess, 209)])
  = DirectCooldown.
Proof.
  apply (failure_restarts_cooldown tripped 200).
  - discriminate.
  - apply list.Forall_cons. split; [split; [discriminate|reflexivity]|].
    apply Forall_singleton. split; [discriminate|reflexivity].
Defined.
