(* ===== verification/Firewall.v ===== *)
(** * Firewall sets: [internal/firewall/learner.go] and [internal/firewall/nft_linux.go]

    The learner turns observations into set updates; the nftables client queues
    the netlink operations of a batch and remembers which set an address is in.
    What the kernel does with a batch is a parameter with the documented laws of
    nftables set elements. *)

From S2P Require Import Prelude GoStrings GoNet Domains IPv4Tree GoHeap Lru Learning.

Inductive SetState := SetNone | SetDirect | SetInspect.

#[export] Instance SetState_eq_dec : EqDecision SetState.
Proof. solve_decision. Defined.

Record SetUpdate := mkUpdate { su_ip : Addr; su_state : SetState; su_ttl : duration }.

(** ** The learner *)

Definition state_of (d : LearnedDecision) : SetState :=
  if ld_inspect d then SetInspect
  else if ld_direct d && negb (ld_proxy d) then SetDirect
  else SetNone.

(** The loop of [reconcile]; [clock] lists the readings of [l.now()], one per
    address. *)
Fixpoint reconcile_updates (table : LearningTable) (ips : list Addr) (clock : list time)
  : LearningTable * list SetUpdate :=
  match ips, clock with
  | ip :: ips', now :: clock' =>
      let '(table, d) := Lookup table ip now in
      let '(table, updates) := reconcile_updates table ips' clock' in
      (table, mkUpdate ip (state_of d) Hour :: updates)
  | _, _ => (table, [])
  end.

(** [replace] is the answer of the set client; a call is made unless there is
    nothing to update. *)
Definition reconcile (replace : list SetUpdate → option error) (table : LearningTable)
    (ips : list Addr) (clock : list time) : LearningTable * option error :=
  let '(table, updates) := reconcile_updates table ips clock in
  (table, if bool_decide (updates = []) then None else replace updates).

Definition Learner_Observe (replace : list SetUpdate → option error) (table : LearningTable)
    (o : Observation) (clock : list time) : option (LearningTable * option error) :=
  r ← Observe table o;
  match r with
  | (table, Some e) => Some (table, Some e)
  | (table, None) => Some (reconcile replace table (obs_ips o) clock)
  end.

(** [order] is the order in which the map of changed addresses is visited. *)
Definition Learner_Expire (replace : list SetUpdate → option error) (table : LearningTable)
    (now : time) (order : gset Addr → list Addr) (clock : list time)
  : LearningTable * option error :=
  let '(table, changed) := Expire table now in
  reconcile replace table (order changed) clock.

(** ** The nftables client *)

Definition clampTTL (ttl : duration) : duration :=
  if ttl <? Second then Second
  else if 24 * Hour <? ttl then 24 * Hour
  else ttl.

Inductive nftSet := direct4 | inspect4.

#[export] Instance nftSet_eq_dec : EqDecision nftSet.
Proof. solve_decision. Defined.

Inductive nftOp :=
| SetDeleteElements (set : nftSet) (key : Addr)
| SetAddElements (set : nftSet) (key : Addr) (timeout : duration).

Abbreviation states := (gmap Addr SetState).

Definition state_at (s : states) (ip : Addr) : SetState := default SetNone (s !! ip).

(** The deletion queued for the recorded state; its error is ignored. *)
Definition delete_ops (old : SetState) (ip : Addr) : list nftOp :=
  match old with
  | SetDirect => [SetDeleteElements direct4 ip]
  | SetInspect => [SetDeleteElements inspect4 ip]
  | SetNone => []
  end.

Definition add_ops (u : SetUpdate) : list nftOp :=
  match su_state u with
  | SetDirect => [SetAddElements direct4 (su_ip u) (clampTTL (su_ttl u))]
  | SetInspect => [SetAddElements inspect4 (su_ip u) (clampTTL (su_ttl u))]
  | SetNone => []
  end.

(** The loop of [Replace]: [add_err] is the error of queueing an addition.  The
    recorded state changes before the batch is sent. *)
Fixpoint replace_loop (add_err : SetUpdate → option error) (s : states) (updates : list SetUpdate)
    (queued : list nftOp) : states * list nftOp * option error :=
  match updates with
  | [] => (s, queued, None)
  | u :: updates' =>
      let queued := queued ++ delete_ops (state_at s (su_ip u)) (su_ip u) in
      match su_state u, add_err u with
      | (SetDirect | SetInspect), Some e => (s, queued, Some e)
      | _, _ => replace_loop add_err (<[su_ip u := su_state u]> s) updates' (queued ++ add_ops u)
      end
  end.

(** [Replace]: [ctx_err] is [ctx.Err()] and [conn_err] the error of opening a
    netlink connection; [flush] sends the queued batch to the kernel, whose state
    [k] it may change. *)
Definition Replace {K} (ctx_err conn_err : option error) (add_err : SetUpdate → option error)
    (flush : K → list nftOp → K * option error) (k : K) (s : states) (updates : list SetUpdate)
  : K * states * option error :=
  match ctx_err with
  | Some e => (k, s, Some e)
  | None =>
      match conn_err with
      | Some e => (k, s, Some e)
      | None =>
          match replace_loop add_err s updates [] with
          | (s, _, Some e) => (k, s, Some e)
          | (s, queued, None) => let '(k, err) := flush k queued in (k, s, err)
          end
      end
  end.

(** [Duration.String] of a duration of at least one second. *)
Fixpoint trim_zeros (digits : bytes) : bytes :=
  match digits with 48 :: r => trim_zeros r | r => r end.

Definition frac_digits (nanos : Z) : bytes :=
  if nanos =? 0 then []
  else let d := Itoa nanos in
       let padded := replicate (9 - length d) 48 ++ d in
       46 :: reverse (trim_zeros (reverse padded)).

Definition Duration_String (d : duration) : bytes :=
  let secs := d / Second in
  let s := Itoa (secs mod 60) ++ frac_digits (d mod Second) ++ str "s" in
  let mins := secs / 60 in
  if mins =? 0 then s else
  let m := Itoa (mins mod 60) ++ str "m" ++ s in
  let hours := mins / 60 in
  if hours =? 0 then m else Itoa hours ++ str "h" ++ m.

(** The batch [Heartbeat] feeds to nft. *)
Definition heartbeats : list (string * string) :=
  [("core_state", "jump active"); ("output_state", "jump output_active");
   ("output_guard_state", "accept")]%string.

Definition heartbeat_lines (table : bytes) (ttl : duration) (h : string * string) : bytes :=
  str "flush map inet " ++ table ++ str " " ++ str h.1 ++ [10] ++
  str "add element inet " ++ table ++ str " " ++ str h.1 ++ str " { 0x00000001 timeout "
  ++ Duration_String (clampTTL ttl) ++ str " : " ++ str h.2 ++ str " }" ++ [10].

Definition heartbeat_batch (table : bytes) (ttl : duration) : bytes :=
  mjoin (heartbeat_lines table ttl <$> heartbeats).

Definition Heartbeat (ctx_err : option error) (run_nft : bytes → option error) (table : bytes)
    (ttl : duration) : option error :=
  match ctx_err with
  | Some e => Some e
  | None => EWrap "nft heartbeat" <$> run_nft (heartbeat_batch table ttl)
  end.

Example duration_string_samples :
  Duration_String (90 * Second) = str "1m30s" ∧
  Duration_String (1 * Hour + 5 * Second) = str "1h0m5s" ∧
  Duration_String (1500 * Millisecond) = str "1.5s".
Proof. vm_compute. repeat split. Qed.

(** ** The learner's updates *)

(** The state an address should be in at a time, from the observations. *)
Definition wanted_state (m : gmap observationKey time) (now : time) (ip : Addr) (s : SetState) : Prop :=
  let seen a := ∃ domain e, m !! mkKey domain a ip = Some e ∧ now < e in
  (s = SetInspect ↔ seen Direct ∧ seen Proxy) ∧ (s = SetDirect ↔ seen Direct ∧ ¬ seen Proxy).

Lemma Lookup_state t ip now :
  learning_ok t → wanted_state (lt_entries t) now ip (state_of (Lookup t ip now).2).
Proof.
  intros Ht. destruct (expireLocked_spec t now Ht) as [Ht' _ Hent _ _].
  destruct (lookupLocked_spec _ ip Ht') as (H1 & H2 & H3 & _). rewrite Hent in H1, H2.
  assert (Hs : ∀ a, (∃ dom, is_Some (live now (lt_entries t) !! mkKey dom a ip)) ↔
    ∃ domain e, lt_entries t !! mkKey domain a ip = Some e ∧ now < e).
  { intros a. unfold live. split.
    - intros (dom & e & [? ?]%map_lookup_filter_Some). eauto.
    - intros (dom & e & ? & ?). exists dom, e. by apply map_lookup_filter_Some. }
  rewrite Hs in H1, H2. unfold wanted_state. rewrite <- H1, <- H2.
  change (lookupLocked (learning_expireLocked t now).1 ip) with (Lookup t ip now).2 in *.
  destruct (Lookup t ip now) as [t' [a d p i]]. simpl in *. subst i. unfold state_of. simpl.
  destruct d, p; simpl; intuition congruence.
Qed.

Lemma wanted_state_live m earlier now ip s :
  earlier ≤ now → wanted_state (live earlier m) now ip s ↔ wanted_state m now ip s.
Proof.
  intros Hle. unfold wanted_state.
  assert (H : ∀ a, (∃ domain e, live earlier m !! mkKey domain a ip = Some e ∧ now < e) ↔
                   ∃ domain e, m !! mkKey domain a ip = Some e ∧ now < e).
  { intros a. unfold live. split.
    - intros (d & e & [? _]%map_lookup_filter_Some & ?). eauto.
    - intros (d & e & ? & ?). exists d, e. split; [|done].
      apply map_lookup_filter_Some. split; [done|simpl; lia]. }
  by rewrite !H.
Qed.

(** Clock readings that do not go back. *)
Fixpoint clock_from (start : time) (clock : list time) : Prop :=
  match clock with [] => True | now :: clock' => start ≤ now ∧ clock_from now clock' end.

Lemma reconcile_updates_spec t ips clock start :
  learning_ok t → length clock = length ips → clock_from start clock →
  learning_ok (reconcile_updates t ips clock).1 ∧
  Forall3 (λ ip now u, su_ip u = ip ∧ su_ttl u = Hour ∧
                       wanted_state (lt_entries t) now ip (su_state u))
          ips clock (reconcile_updates t ips clock).2.
Proof.
  revert t clock start. induction ips as [|ip ips IH]; intros t [|now clock] start Ht Hlen Hc;
    try done; simpl in Hlen.
  { split; [done|constructor]. }
  destruct Hc as [_ Hc]. cbn [reconcile_updates].
  pose proof (Lookup_state t ip now Ht) as Hd. pose proof (expireLocked_spec t now Ht) as [Ht1 _ He1 _ _].
  change (learning_expireLocked t now).1 with (Lookup t ip now).1 in *.
  destruct (Lookup t ip now) as [t1 d]. simpl in *.
  destruct (IH t1 clock now Ht1 ltac:(lia) Hc) as [IH1 IH2].
  destruct (reconcile_updates t1 ips clock) as [t2 us]. simpl in *. split; [done|].
  constructor; [done|]. rewrite He1 in IH2. revert Hc IH2. clear.
  intros Hc. generalize dependent now. intros now Hc H.
  assert (Hge : Forall (λ x, now ≤ x) clock).
  { clear H. revert now Hc. induction clock as [|x clock IH]; intros now Hc; [done|].
    destruct Hc as [Hx Hc]. constructor; [done|]. apply IH in Hc.
    eapply list.Forall_impl; [exact Hc|]. simpl. intros; lia. }
  clear Hc. induction H as [|ip' now' u ips' clock' us' (? & ? & Hw) _ IH]; [constructor|].
  apply list.Forall_cons in Hge as [? Hge]. constructor; [|by apply IH].
  split; [done|]. split; [done|]. by apply wanted_state_live in Hw.
Qed.

(** Every set update the learner sends is the one the observations call for:
    one per observed address, in order, with the TTL of one hour; inspection when
    domains with both actions are live at the reading of the clock, direct when
    only direct ones are, and no set otherwise. *)
Theorem reconcile_sends_wanted_states (t : LearningTable) (ips : list Addr) (clock : list time)
    (start : time) :
  learning_ok t → length clock = length ips → clock_from start clock →
  Forall3 (λ ip now u, su_ip u = ip ∧ su_ttl u = Hour ∧
                       wanted_state (lt_entries t) now ip (su_state u))
          ips clock (reconcile_updates t ips clock).2.
Proof. intros. by eapply reconcile_updates_spec. Qed.

(** An address seen only with proxied domains is sent to no set. *)
Example proxy_only_is_not_inspected :
  let o := mkObservation (str "a.example") Proxy [Addr4 1 1 1 1] 100 in
  su_state <$> (reconcile_updates (default (NewLearningTable 4) (fst <$> Observe (NewLearningTable 4) o))
                  [Addr4 1 1 1 1] [0]).2 = [SetNone].
Proof. vm_compute. reflexivity. Qed.

(** ** The kernel's sets *)

(** The kernel side of an nftables batch: whether an element is present, and the
    effect of one operation of a transaction ([None]: the transaction fails). *)
Class NftKernel (K : Type) := {
  nft_elem : K → nftSet → Addr → bool;
  nft_exec : K → nftOp → option K }.

(** Documented behaviour of set elements: adding makes an element present,
    deleting makes it absent, other elements stay, and deleting an element that
    does not exist is an error. *)
Class NftLaws (K : Type) `{!NftKernel K} := {
  exec_add k k' s a ttl : nft_exec k (SetAddElements s a ttl) = Some k' →
    ∀ s' a', nft_elem k' s' a' = bool_decide (s' = s ∧ a' = a) || nft_elem k s' a';
  exec_delete k k' s a : nft_exec k (SetDeleteElements s a) = Some k' →
    ∀ s' a', nft_elem k' s' a' = negb (bool_decide (s' = s ∧ a' = a)) && nft_elem k s' a';
  exec_delete_missing k s a : nft_elem k s a = false → nft_exec k (SetDeleteElements s a) = None }.

Lemma replace_loop_extends add_err s us queued s' queued' e :
  replace_loop add_err s us queued = (s', queued', e) → ∃ more, queued' = queued ++ more.
Proof.
  revert s queued. induction us as [|u us IH]; intros s queued H; cbn [replace_loop] in H.
  { injection H as _ <- _. exists []. by rewrite app_nil_r. }
  destruct (su_state u), (add_err u);
    solve [injection H as _ <- _; by eexists
          |apply IH in H as (more & ->); rewrite <- !app_assoc; by eexists].
Qed.

Lemma replace_loop_no_error s us queued s' queued' e :
  replace_loop (λ _, None) s us queued = (s', queued', e) → e = None.
Proof.
  revert s queued. induction us as [|u us IH]; intros s queued H; cbn [replace_loop] in H; [congruence|].
  destruct (su_state u); eauto.
Qed.

Section kernel.
Context {K : Type} `{!NftKernel K, !NftLaws K}.
Implicit Types (k : K) (s : states).

Fixpoint exec_batch k (ops : list nftOp) : option K :=
  match ops with
  | [] => Some k
  | op :: ops' => k' ← nft_exec k op; exec_batch k' ops'
  end.

(** [Flush]: a transaction is applied whole or refused. *)
Definition kernel_flush k (ops : list nftOp) : K * option error :=
  match exec_batch k ops with Some k' => (k', None) | None => (k, Some (ESys 2)) end.

Definition set_of (st : SetState) : option nftSet :=
  match st with SetDirect => Some direct4 | SetInspect => Some inspect4 | SetNone => None end.

(** The recorded states are the kernel's: an address is in the set of its state
    and in no other. *)
Definition synced s k : Prop :=
  ∀ ip set, nft_elem k set ip = bool_decide (set_of (state_at s ip) = Some set).

(** The state the updates leave an address in: that of the last one for it. *)
Definition updated_state s (us : list SetUpdate) (ip : Addr) : SetState :=
  match list.last (filter (λ u, su_ip u = ip) us) with Some u => su_state u | None => state_at s ip end.

(** A kernel that refuses nothing but the deletion of a missing element. *)
Definition accepting : Prop :=
  ∀ k op, is_Some (nft_exec k op) ∨ ∃ set a, op = SetDeleteElements set a ∧ nft_elem k set a = false.

Lemma exec_batch_app k ops1 ops2 :
  exec_batch k (ops1 ++ ops2) = exec_batch k ops1 ≫= λ k', exec_batch k' ops2.
Proof.
  revert k. induction ops1 as [|op ops1 IH]; intros k; [done|]. cbn [app exec_batch].
  destruct (nft_exec k op) as [k'|]; [|done]. cbn [mbind option_bind]. apply IH.
Qed.

Lemma delete_step s k ip k1 :
  synced s k → exec_batch k (delete_ops (state_at s ip) ip) = Some k1 →
  ∀ a set, nft_elem k1 set a =
    negb (bool_decide (a = ip)) && bool_decide (set_of (state_at s a) = Some set).
Proof.
  intros Hs H a set. pose proof (Hs a set) as Ha.
  destruct (state_at s ip) eqn:E; cbn [delete_ops exec_batch] in H.
  - injection H as <-. rewrite Ha. destruct (decide (a = ip)) as [->|].
    + rewrite E. by rewrite (bool_decide_true (ip = ip)).
    + by rewrite (bool_decide_false (a = ip)).
  - destruct (nft_exec k _) as [k2|] eqn:Hx; [|done]. injection H as <-.
    rewrite (exec_delete _ _ _ _ Hx), Ha.
    repeat case_bool_decide; simpl; try done; destruct_and?; subst; rewrite ?E in *;
      simpl in *; simplify_eq/=; try done; try tauto.
  - destruct (nft_exec k _) as [k2|] eqn:Hx; [|done]. injection H as <-.
    rewrite (exec_delete _ _ _ _ Hx), Ha.
    repeat case_bool_decide; simpl; try done; destruct_and?; subst; rewrite ?E in *;
      simpl in *; simplify_eq/=; try done; try tauto.
Qed.

Lemma update_synced s k u k1 k2 :
  synced s k → exec_batch k (delete_ops (state_at s (su_ip u)) (su_ip u)) = Some k1 →
  exec_batch k1 (add_ops u) = Some k2 → synced (<[su_ip u := su_state u]> s) k2.
Proof.
  intros Hs H1 H2 a set. pose proof (delete_step s k _ k1 Hs H1) as Hd. unfold state_at.
  assert (Hk2 : nft_elem k2 set a =
    bool_decide (set_of (su_state u) = Some set ∧ a = su_ip u) || nft_elem k1 set a).
  { unfold add_ops in H2. destruct (su_state u); cbn [exec_batch] in H2.
    - injection H2 as <-. by rewrite bool_decide_false by (by intros [? _]).
    - destruct (nft_exec k1 _) as [k3|] eqn:Hx; [|done]. injection H2 as <-.
      rewrite (exec_add _ _ _ _ _ Hx). f_equal. apply bool_decide_ext. simpl. intuition congruence.
    - destruct (nft_exec k1 _) as [k3|] eqn:Hx; [|done]. injection H2 as <-.
      rewrite (exec_add _ _ _ _ _ Hx). f_equal. apply bool_decide_ext. simpl. intuition congruence. }
  rewrite Hk2, Hd. destruct (decide (a = su_ip u)) as [->|Hne].
  - rewrite lookup_insert_eq. simpl. rewrite (bool_decide_true (su_ip u = su_ip u)) by done.
    rewrite orb_false_r. apply bool_decide_ext. tauto.
  - rewrite lookup_insert_ne by done. rewrite (bool_decide_false (a = su_ip u)) by done.
    by rewrite bool_decide_false by tauto.
Qed.

(** The loop of [Replace], as far as what it has queued is accepted. *)
Lemma replace_loop_synced add_err s us queued k0 k s' queued' k' :
  exec_batch k0 queued = Some k → synced s k →
  replace_loop add_err s us queued = (s', queued', None) → exec_batch k0 queued' = Some k' →
  synced s' k'.
Proof.
  revert s queued k. induction us as [|u us IH]; intros s queued k Hq Hs H Hx; cbn [replace_loop] in H.
  { injection H as <- <-. congruence. }
  assert (Hrun : replace_loop add_err (<[su_ip u := su_state u]> s) us
    ((queued ++ delete_ops (state_at s (su_ip u)) (su_ip u)) ++ add_ops u) = (s', queued', None)).
  { destruct (su_state u), (add_err u); congruence. }
  destruct (replace_loop_extends _ _ _ _ _ _ _ Hrun) as (more & ->).
  rewrite !exec_batch_app, Hq in Hx. cbn [mbind option_bind] in Hx.
  destruct (exec_batch k (delete_ops _ _)) as [k1|] eqn:H1; [|done]. cbn [mbind option_bind] in Hx.
  destruct (exec_batch k1 (add_ops u)) as [k2|] eqn:H2; [|done].
  eapply (IH _ _ k2); [|by eapply update_synced|exact Hrun|].
  - by rewrite !exec_batch_app, Hq; cbn [mbind option_bind]; rewrite H1; cbn [mbind option_bind].
  - by rewrite !exec_batch_app, Hq; cbn [mbind option_bind]; rewrite H1; cbn [mbind option_bind]; rewrite H2.
Qed.

Lemma replace_loop_state add_err s us queued s' queued' :
  replace_loop add_err s us queued = (s', queued', None) →
  ∀ ip, state_at s' ip = updated_state s us ip.
Proof.
  revert s queued. induction us as [|u us IH]; intros s queued H ip; cbn [replace_loop] in H.
  { by injection H as <- <-. }
  assert (Hrun : replace_loop add_err (<[su_ip u := su_state u]> s) us
    ((queued ++ delete_ops (state_at s (su_ip u)) (su_ip u)) ++ add_ops u) = (s', queued', None)).
  { destruct (su_state u), (add_err u); congruence. }
  rewrite (IH _ _ Hrun ip). unfold updated_state. rewrite filter_cons.
  destruct (decide (su_ip u = ip)) as [<-|Hne].
  - rewrite list.last_cons. destruct (list.last (filter _ us)); [done|]. unfold state_at. by rewrite lookup_insert_eq.
  - destruct (list.last (filter _ us)); [done|]. unfold state_at. by rewrite lookup_insert_ne.
Qed.

(** Operations for an update of a recorded address are accepted. *)
Lemma update_accepted s k u :
  accepting → synced s k →
  ∃ k1 k2, exec_batch k (delete_ops (state_at s (su_ip u)) (su_ip u)) = Some k1 ∧
           exec_batch k1 (add_ops u) = Some k2.
Proof.
  intros Hacc Hs.
  assert (∃ k1, exec_batch k (delete_ops (state_at s (su_ip u)) (su_ip u)) = Some k1) as [k1 H1].
  { assert (Hdel : ∀ set, set_of (state_at s (su_ip u)) = Some set →
      ∃ k1, exec_batch k [SetDeleteElements set (su_ip u)] = Some k1).
    { intros set Hset. cbn [exec_batch].
      destruct (Hacc k (SetDeleteElements set (su_ip u))) as [[k1 ->]|(s0 & a0 & [= <- <-] & Hel)]; [by eexists|].
      rewrite Hs, bool_decide_true in Hel by done. done. }
    destruct (state_at s (su_ip u)); [by eexists|by apply Hdel|by apply Hdel]. }
  exists k1. assert (Hadd : ∀ set ttl, ∃ k2, exec_batch k1 [SetAddElements set (su_ip u) ttl] = Some k2).
  { intros set ttl. cbn [exec_batch].
    destruct (Hacc k1 (SetAddElements set (su_ip u) ttl)) as [[k2 ->]|(? & ? & [=] & _)]. by eexists. }
  unfold add_ops. destruct (su_state u); [by eexists|..];
    [destruct (Hadd direct4 (clampTTL (su_ttl u))) as [k2 H2]
    |destruct (Hadd inspect4 (clampTTL (su_ttl u))) as [k2 H2]]; by exists k2.
Qed.

Lemma replace_loop_accepted s us queued k0 k :
  accepting → exec_batch k0 queued = Some k → synced s k →
  ∃ s' queued' k', replace_loop (λ _, None) s us queued = (s', queued', None) ∧
                   exec_batch k0 queued' = Some k'.
Proof.
  intros Hacc. revert s queued k. induction us as [|u us IH]; intros s queued k Hq Hs; [by eauto|].
  destruct (update_accepted s k u Hacc Hs) as (k1 & k2 & H1 & H2).
  destruct (IH (<[su_ip u := su_state u]> s)
    ((queued ++ delete_ops (state_at s (su_ip u)) (su_ip u)) ++ add_ops u) k2) as (s' & q' & k' & Hr & Hx).
  - by rewrite !exec_batch_app, Hq; cbn [mbind option_bind]; rewrite H1; cbn [mbind option_bind].
  - by eapply update_synced.
  - exists s', q', k'. split; [|done]. cbn [replace_loop]. by destruct (su_state u).
Qed.

Lemma Replace_synced ctx_err conn_err add_err s k us k' s' :
  synced s k → Replace ctx_err conn_err add_err kernel_flush k s us = (k', s', None) →
  synced s' k' ∧ ∀ ip, state_at s' ip = updated_state s us ip.
Proof.
  intros Hs. unfold Replace. destruct ctx_err; [done|]. destruct conn_err; [done|].
  destruct (replace_loop add_err s us []) as [[s1 queued] [e|]] eqn:Hl; [done|].
  unfold kernel_flush. destruct (exec_batch k queued) as [k1|] eqn:Hx; [|done].
  intros [= -> ->]. split; [|by eapply replace_loop_state].
  eapply (replace_loop_synced add_err s us [] k k); done.
Qed.

(** C20: while the recorded states agree with the kernel's sets, a [Replace] that
    returns no error leaves them in agreement: what it sent has put every address
    into exactly the set of its last update, never into both, and untouched
    addresses keep their set.  Such a [Replace] does return no error when nothing
    fails on the way to a kernel that refuses only deletions of missing elements. *)
Theorem Replace_keeps_sets_synced (ctx_err conn_err : option error) (add_err : SetUpdate → option error)
    (s : states) (k : K) (updates : list SetUpdate) :
  synced s k →
  (∀ k' s', Replace ctx_err conn_err add_err kernel_flush k s updates = (k', s', None) →
     synced s' k' ∧
     ∀ ip set, nft_elem k' set ip = bool_decide (set_of (updated_state s updates ip) = Some set)) ∧
  (accepting → ∃ k' s', Replace None None (λ _, None) kernel_flush k s updates = (k', s', None)).
Proof.
  intros Hs. split.
  - intros k' s' H. destruct (Replace_synced _ _ _ _ _ _ _ _ Hs H) as [Hs' Hst]. split; [done|].
    intros ip set. by rewrite Hs', Hst.
  - intros Hacc. destruct (replace_loop_accepted s updates [] k k Hacc eq_refl Hs) as (s' & q' & k' & Hl & Hx).
    exists k', s'. unfold Replace, kernel_flush. by rewrite Hl, Hx.
Qed.

(** An address whose element timed out in the kernel blocks every later batch
    that updates it: the client still records it, queues its deletion, and the
    transaction is refused as a whole, while the recorded state stays. *)
Lemma expired_element_refuses_batch s k ip us :
  state_at s ip = SetDirect → nft_elem k direct4 ip = false →
  ∃ s', Replace None None (λ _, None) kernel_flush k s (mkUpdate ip SetDirect Hour :: us) =
    (k, s', Some (ESys 2)) ∧ ∀ a, state_at s' a = updated_state s (mkUpdate ip SetDirect Hour :: us) a.
Proof.
  intros Hst Hel. unfold Replace.
  destruct (replace_loop _ s _ []) as [[s1 queued] e] eqn:Hl.
  assert (e = None) as -> by (by eapply replace_loop_no_error).
  exists s1. split; [|by eapply replace_loop_state].
  cbn [replace_loop su_ip su_state app] in Hl. rewrite Hst in Hl. cbn [delete_ops app] in Hl.
  destruct (replace_loop_extends _ _ _ _ _ _ _ Hl) as (more & ->).
  unfold kernel_flush. cbn [app exec_batch]. rewrite exec_delete_missing by done.
  done.
Qed.
End kernel.

(** ** Witnesses: a kernel as the list of its elements *)

Definition list_kernel := list (nftSet * Addr).

#[export] Instance list_nft : NftKernel list_kernel := {
  nft_elem k s a := bool_decide ((s, a) ∈ k);
  nft_exec k op :=
    match op with
    | SetAddElements s a _ => Some ((s, a) :: k)
    | SetDeleteElements s a =>
        if bool_decide ((s, a) ∈ k) then Some (remove_key k (s, a)) else None
    end }.

#[export] Instance list_nft_laws : NftLaws list_kernel.
Proof.
  split.
  - intros k k' s a ttl [= <-] s' a'. simpl. rewrite <- bool_decide_or. apply bool_decide_ext.
    rewrite elem_of_cons, pair_eq. tauto.
  - intros k k' s a H s' a'. simpl in *. case_bool_decide; [|done]. injection H as <-.
    rewrite <- bool_decide_not, <- bool_decide_and. apply bool_decide_ext.
    rewrite elem_of_remove_key, pair_eq. tauto.
  - intros k s a H. simpl in *. by rewrite H.
Qed.

Lemma empty_synced : synced (K := list_kernel) ∅ [].
Proof.
  intros ip set. unfold state_at. rewrite lookup_empty. simpl.
  done.
Qed.

Lemma list_accepting : accepting (K := list_kernel).
Proof.
  intros k [set a|set a ttl]; simpl; [|left; by eexists].
  case_bool_decide; [left; by eexists|right]. exists set, a. by rewrite bool_decide_false.
Qed.

Lemma Replace_keeps_sets_synced_witness :
  ∃ k' s', Replace None None (λ _, None) kernel_flush ([] : list_kernel) ∅
    [mkUpdate (Addr4 1 1 1 1) SetDirect Hour; mkUpdate (Addr4 1 1 1 1) SetInspect Hour] = (k', s', None) ∧
    synced s' k' ∧ nft_elem k' inspect4 (Addr4 1 1 1 1) = true ∧ nft_elem k' direct4 (Addr4 1 1 1 1) = false.
Proof.
  destruct (Replace_keeps_sets_synced None None (λ _, None) ∅ ([] : list_kernel)
    [mkUpdate (Addr4 1 1 1 1) SetDirect Hour; mkUpdate (Addr4 1 1 1 1) SetInspect Hour] empty_synced)
    as [H1 H2].
  destruct (H2 list_accepting) as (k' & s' & Hr). exists k', s'. split; [exact Hr|].
  destruct (H1 k' s' Hr) as [Hs Hel]. split; [exact Hs|]. rewrite !Hel. split; vm_compute; reflexivity.
Defined.

Lemma reconcile_sends_wanted_states_witness :
  Forall3 (λ ip now u, su_ip u = ip ∧ su_ttl u = Hour ∧
                       wanted_state (lt_entries sample_table) now ip (su_state u))
    [Addr4 9 9 9 9; Addr4 1 2 3 4] [99; 99]
    [mkUpdate (Addr4 9 9 9 9) SetDirect Hour; mkUpdate (Addr4 1 2 3 4) SetNone Hour].
Proof.
  apply (reconcile_sends_wanted_states sample_table [Addr4 9 9 9 9; Addr4 1 2 3 4] [99; 99] 0
    sample_table_ok eq_refl). simpl. lia.
Defined.
