(* ===== verification/DnsCache.v ===== *)
(** * The DNS cache: [internal/dnsproxy/cache.go]

    A bounded map from (lower-cased name, type) to a response and its expiry.
    Responses are copied in and out, so they are values here; [M] is the type of
    DNS messages. *)

From S2P Require Import Prelude GoStrings Lru.

Record cacheKey := mkCacheKey { ck_name : bytes; ck_qtype : Z }.

#[export] Instance cacheKey_eq_dec : EqDecision cacheKey.
Proof. solve_decision. Defined.
#[export] Instance cacheKey_countable : Countable cacheKey.
Proof.
  refine (inj_countable' (λ k, (ck_name k, ck_qtype k)) (λ '(n, q), mkCacheKey n q) _).
  by intros [].
Defined.

Section cache.
Context {M : Type}.

Record cacheEntry := mkCacheEntry { ce_response : M; ce_expires : time }.

Record Cache := mkCache {
  cache_capacity : Z;
  cache_entries : gmap cacheKey cacheEntry;
  cache_lru : list cacheKey }.

Definition NewCache (capacity : Z) : Cache :=
  mkCache (if capacity <? 1 then 1 else capacity) ∅ [].

Definition cache_removeLocked (cache : Cache) (key : cacheKey) : Cache :=
  match cache_entries cache !! key with
  | None => cache
  | Some _ => mkCache (cache_capacity cache) (delete key (cache_entries cache))
                (remove_key (cache_lru cache) key)
  end.

#[export] Instance cache_lru_table : LruTable Cache cacheKey := {
  lru_list := cache_lru;
  lru_count c := size (cache_entries c);
  lru_remove := cache_removeLocked }.

Definition cache_key (name : bytes) (qtype : Z) : cacheKey := mkCacheKey (ToLower name) qtype.

Definition Get (cache : Cache) (name : bytes) (qtype : Z) (now : time) : Cache * option M :=
  let key := cache_key name qtype in
  match cache_entries cache !! key with
  | None => (cache, None)
  | Some entry =>
      if negb (now <? ce_expires entry) then (cache_removeLocked cache key, None)
      else (mkCache (cache_capacity cache) (cache_entries cache)
              (move_to_back (cache_lru cache) key), Some (ce_response entry))
  end.

(** [response] is [None] for the nil message; [None] as a result is a panic. *)
Definition Put (cache : Cache) (name : bytes) (qtype : Z) (response : option M) (expires : time)
  : option Cache :=
  match response with
  | None => Some cache
  | Some response =>
      if negb (0 <? expires) then Some cache else
      let key := cache_key name qtype in
      match cache_entries cache !! key with
      | Some _ =>
          Some (mkCache (cache_capacity cache)
                  (<[key := mkCacheEntry response expires]> (cache_entries cache))
                  (move_to_back (cache_lru cache) key))
      | None =>
          cache ← evict (size (cache_entries cache)) (cache_capacity cache) cache;
          Some (mkCache (cache_capacity cache)
                  (<[key := mkCacheEntry response expires]> (cache_entries cache))
                  (cache_lru cache ++ [key]))
      end
  end.

(** ** The invariant *)

Record cache_ok (c : Cache) : Prop := {
  cao_capacity : 1 ≤ cache_capacity c;
  cao_bound : Z.of_nat (size (cache_entries c)) ≤ cache_capacity c;
  cao_lru : indexed (cache_entries c) (cache_lru c) }.

Lemma new_cache_ok capacity : cache_ok (NewCache capacity).
Proof.
  unfold NewCache. constructor; simpl; try apply indexed_empty;
    destruct (capacity <? 1) eqn:E; bools; rewrite ?map_size_empty; lia.
Qed.

Lemma cache_remove_entries c k : cache_entries (cache_removeLocked c k) = delete k (cache_entries c).
Proof.
  unfold cache_removeLocked. destruct (cache_entries c !! k) eqn:E; [done|]. by rewrite delete_id.
Qed.
Lemma cache_remove_capacity c k : cache_capacity (cache_removeLocked c k) = cache_capacity c.
Proof. unfold cache_removeLocked. by destruct (cache_entries c !! k). Qed.

Lemma cache_remove_ok c k : cache_ok c → cache_ok (cache_removeLocked c k).
Proof.
  intros Hc. destruct (cache_entries c !! k) as [e|] eqn:He;
    [|unfold cache_removeLocked; by rewrite He].
  destruct Hc as [H1 H2 H3]. unfold cache_removeLocked. rewrite He. constructor; simpl; [done| |].
  - rewrite map_size_delete_Some by eauto. lia.
  - by apply indexed_delete.
Qed.

#[export] Instance cache_lru_laws : LruLaws Cache cacheKey cache_ok.
Proof.
  split.
  - intros c [_ _ H]. by apply indexed_size.
  - intros c k l Hc Hl. split; [by apply cache_remove_ok|].
    destruct Hc as [_ _ [Hn Hk]]. simpl in *. rewrite Hl in Hn, Hk.
    destruct (proj1 (Hk k)) as [e He]; [set_solver|].
    unfold cache_removeLocked. rewrite He. simpl. rewrite Hl. by apply remove_key_head.
Qed.

Lemma cache_fold_remove c ks :
  cache_capacity (foldl lru_remove c ks) = cache_capacity c ∧
  cache_entries (foldl lru_remove c ks) ⊆ cache_entries c.
Proof.
  revert c. induction ks as [|k ks IH]; intros c; [done|]. simpl.
  destruct (IH (cache_removeLocked c k)) as [H1 H2]. rewrite cache_remove_capacity in H1.
  rewrite cache_remove_entries in H2. split; [done|]. etrans; [done|]. apply delete_subseteq.
Qed.

Lemma Get_ok c name qtype now : cache_ok c → cache_ok (Get c name qtype now).1.
Proof.
  intros Hc. unfold Get. destruct (cache_entries c !! _) as [e|] eqn:He; [|done].
  destruct (negb _); [by apply cache_remove_ok|]. destruct Hc as [H1 H2 H3].
  constructor; simpl; [done..|]. destruct H3 as [Hn Hk]. split; [by apply NoDup_move_to_back|].
  intros k. rewrite elem_of_move_to_back, Hk. split; [|tauto]. intros [?| ->]; [done|eauto].
Qed.

(** The effect of storing a response: the bounded recency list, and the entries
    of the keys it keeps. *)
Lemma Put_effect c name qtype m expires :
  cache_ok c → 0 < expires →
  let key := cache_key name qtype in
  ∃ c', Put c name qtype (Some m) expires = Some c' ∧ cache_ok c' ∧
    cache_capacity c' = cache_capacity c ∧
    cache_lru c' = touch (Z.to_nat (cache_capacity c)) (cache_lru c) key ∧
    ∀ k, cache_entries c' !! k =
      if decide (k = key) then Some (mkCacheEntry m expires)
      else if decide (k ∈ cache_lru c') then cache_entries c !! k else None.
Proof.
  intros Hc Hx key. pose proof (cao_lru _ Hc) as [Hn Hin]. pose proof (cao_capacity _ Hc) as Hcap.
  pose proof (indexed_size _ _ (cao_lru _ Hc)) as Hsz. pose proof (cao_bound _ Hc) as Hb.
  unfold Put. rewrite (proj2 (Z.ltb_lt 0 expires)) by done. cbn [negb]. fold key.
  destruct (cache_entries c !! key) as [e|] eqn:He.
  - assert (key ∈ cache_lru c) by (apply Hin; eauto).
    eexists; split; [done|]. cbn [cache_capacity cache_lru cache_entries].
    split; [|split; [done|split; [by rewrite touch_present by (done || lia)|]]].
    + constructor; simpl; [done| |apply indexed_update; [apply Hc|eauto]].
      rewrite map_size_insert, He. simpl. lia.
    + intros k. destruct (decide (k = key)) as [->|Hne]; [by rewrite lookup_insert_eq|].
      rewrite lookup_insert_ne by done. case_decide as Hd; [done|].
      rewrite elem_of_move_to_back, Hin in Hd. destruct (cache_entries c !! k); [|done].
      destruct Hd. eauto.
  - destruct (evict_spec cache_ok (size (cache_entries c)) (cache_capacity c) c Hc Hcap)
      as (-> & Hc1 & Hl1); [change (lru_list c) with (cache_lru c); lia|].
    cbn [mbind option_bind]. set (c1 := foldl _ c _) in *.
    destruct (cache_fold_remove c (take (surplus (cache_capacity c) c) (lru_list c))) as [Hcap1 Hsub].
    fold c1 in Hcap1, Hsub. change (lru_list c1) with (cache_lru c1) in Hl1.
    change (lru_list c) with (cache_lru c) in Hl1.
    assert (Hk1 : cache_entries c1 !! key = None).
    { destruct (cache_entries c1 !! key) eqn:E; [|done]. eapply lookup_weaken in E; [|done]. congruence. }
    assert (Hkl : key ∉ cache_lru c) by (rewrite Hin, He; by intros [? ?]).
    pose proof (indexed_size _ _ (cao_lru _ Hc1)) as Hsz1.
    assert (Hle : Z.of_nat (size (cache_entries c1)) < cache_capacity c).
    { rewrite Hsz1, Hl1, length_drop. unfold surplus. change (lru_list c) with (cache_lru c). lia. }
    eexists; split; [done|]. cbn [cache_capacity cache_lru cache_entries].
    split; [|split; [done|split]].
    + constructor; simpl; [lia| |apply indexed_insert_new; [apply Hc1|done]].
      rewrite map_size_insert, Hk1. simpl. lia.
    + rewrite touch_absent, Hl1 by (done || lia). f_equal. f_equal. unfold surplus.
      change (lru_list c) with (cache_lru c). lia.
    + intros k. destruct (decide (k = key)) as [->|Hne]; [by rewrite lookup_insert_eq|].
      rewrite lookup_insert_ne by done. destruct (cao_lru _ Hc1) as [_ Hin1].
      case_decide as Hd; rewrite elem_of_app, list_elem_of_singleton, Hin1 in Hd.
      * destruct Hd as [[x Hx1]|?]; [|done]. rewrite Hx1. symmetry. by eapply lookup_weaken.
      * destruct (cache_entries c1 !! k); [|done]. destruct Hd. eauto.
Qed.

(** ** Sequences of operations *)

Inductive cache_op :=
| OpGet (name : bytes) (qtype : Z) (now : time)
| OpPut (name : bytes) (qtype : Z) (response : option M) (expires : time).

Definition cache_run (c : Cache) (op : cache_op) : option Cache :=
  match op with
  | OpGet name qtype now => Some (Get c name qtype now).1
  | OpPut name qtype m expires => Put c name qtype m expires
  end.

Inductive cache_reachable (capacity : Z) : Cache → Prop :=
| cache_new : cache_reachable capacity (NewCache capacity)
| cache_next c op c' : cache_reachable capacity c → cache_run c op = Some c' →
    cache_reachable capacity c'.

Lemma cache_run_ok c op : cache_ok c →
  ∃ c', cache_run c op = Some c' ∧ cache_ok c' ∧ cache_capacity c' = cache_capacity c.
Proof.
  intros Hc. destruct op as [name qtype now|name qtype [m|] expires]; cbn [cache_run].
  - eexists. split; [done|]. split; [by apply Get_ok|]. unfold Get.
    destruct (_ !! _); [|done]. destruct (negb _); [|done]. apply cache_remove_capacity.
  - destruct (0 <? expires) eqn:E.
    + bools. destruct (Put_effect c name qtype m expires Hc E) as (c' & ? & ? & ? & _). eauto.
    + exists c. unfold Put. by rewrite E.
  - by exists c.
Qed.

Lemma cache_reachable_ok capacity c : cache_reachable capacity c →
  cache_ok c ∧ cache_capacity c = Z.max 1 capacity.
Proof.
  induction 1 as [|c op c' _ [IH1 IH2] Hrun].
  - split; [apply new_cache_ok|]. simpl. destruct (capacity <? 1) eqn:E; bools; lia.
  - destruct (cache_run_ok c op IH1) as (c1 & Hrun' & H1 & H2). simplify_eq. by rewrite H2.
Qed.

(** In every reachable state the cache holds at most its capacity, its list
    and its map agree, and no operation panics. *)
Theorem cache_safe (capacity : Z) (c : Cache) :
  cache_reachable capacity c →
  Z.of_nat (size (cache_entries c)) ≤ Z.max 1 capacity ∧
  indexed (cache_entries c) (cache_lru c) ∧
  ∀ op, ∃ c', cache_run c op = Some c'.
Proof.
  intros H. apply cache_reachable_ok in H as [Hc <-]. split; [apply Hc|]. split; [apply Hc|].
  intros op. destruct (cache_run_ok c op Hc) as (c' & ? & _). eauto.
Qed.

(** A stored response is found again, whatever the case of the name, until it
    expires and unless it is evicted; storing it touches no other key but those
    the bounded recency list drops; and a lookup never returns an expired entry. *)
Theorem Put_then_Get (c : Cache) (name : bytes) (qtype : Z) (m : M) (expires : time) :
  cache_ok c → 0 < expires →
  let key := cache_key name qtype in
  ∃ c', Put c name qtype (Some m) expires = Some c' ∧
    cache_lru c' = touch (Z.to_nat (cache_capacity c)) (cache_lru c) key ∧
    (∀ name' now, ToLower name' = ToLower name →
       (Get c' name' qtype now).2 = if now <? expires then Some m else None) ∧
    (∀ name' qtype' now, cache_key name' qtype' ≠ key →
       (Get c' name' qtype' now).2 =
       if decide (cache_key name' qtype' ∈ cache_lru c') then (Get c name' qtype' now).2 else None).
Proof.
  intros Hc Hx key. destruct (Put_effect c name qtype m expires Hc Hx) as (c' & Hp & _ & _ & Hl & He).
  exists c'. split; [done|]. split; [done|]. split.
  - intros name' now Hn. unfold Get, cache_key. rewrite Hn. fold (cache_key name qtype).
    rewrite He, decide_True by done. simpl. by destruct (now <? expires).
  - intros name' qtype' now Hne. unfold Get. rewrite He, decide_False by done.
    case_decide; [|done]. by destruct (cache_entries c !! _) as [e|]; [destruct (negb _)|].
Qed.
End cache.

Arguments Cache M : clear implicits.
Arguments cacheEntry M : clear implicits.

(** ** Witnesses *)

Lemma Put_then_Get_witness :
  ∃ c', Put (NewCache 1) (str "Example.COM.") 1 (Some 7) 100 = Some c' ∧
        (Get c' (str "example.com.") 1 99).2 = Some 7.
Proof.
  destruct (Put_then_Get (NewCache (M := Z) 1) (str "Example.COM.") 1 7 100 (new_cache_ok 1))
    as (c' & H1 & _ & H2 & _); [lia|].
  exists c'. split; [exact H1|]. apply H2. vm_compute. reflexivity.
Defined.

Lemma cache_safe_witness :
  Z.of_nat (size (cache_entries (default (NewCache 1) (Put (NewCache 1) (str "a") 1 (Some 7) 100)))) ≤ 1.
Proof.
  apply (cache_safe (M := Z) 1).
  apply (cache_next 1 (NewCache 1) (OpPut (str "a") 1 (Some 7) 100)); [apply cache_new|].
  vm_compute. reflexivity.
Defined.
