(* ===== verification/SessionTable.v ===== *)
(** * The UDP session table: [internal/dataplane/session_table.go]

    Sessions by (source, target), bounded in number and idle time.  A session is
    an identity (a pointer); closing one is recorded in a log, so that the proofs
    can say that no session is lost open and none is closed twice. *)

From S2P Require Import Prelude GoStrings GoNet Lru.

Record sessionKey := mkSessionKey { sk_source : AddrPort; sk_target : AddrPort }.

#[export] Instance sessionKey_eq_dec : EqDecision sessionKey.
Proof. solve_decision. Defined.
#[export] Instance sessionKey_countable : Countable sessionKey.
Proof.
  refine (inj_countable' (λ k, (sk_source k, sk_target k)) (λ '(s, t), mkSessionKey s t) _).
  by intros [].
Defined.

(** A [sessionCloser]: the identity of the object, [None] for nil. *)
Abbreviation closer := (option nat).

Record sessionEntry := mkEntry { se_session : closer; se_last : time }.

Record sessionTable := mkSessions {
  st_capacity : Z;
  st_idle : duration;
  st_entries : gmap sessionKey sessionEntry;
  st_lru : list sessionKey;
  st_closed : list nat }.

Definition newSessionTable (capacity : Z) (idle : duration) : sessionTable :=
  mkSessions (if capacity <? 1 then 1 else capacity) (if idle <=? 0 then Minute else idle) ∅ [] [].

(** [_ = entry.session.Close()] unless the session is nil. *)
Definition close_log (s : closer) : list nat := match s with Some id => [id] | None => [] end.

Definition session_removeLocked (t : sessionTable) (key : sessionKey) : sessionTable :=
  match st_entries t !! key with
  | None => t
  | Some e => mkSessions (st_capacity t) (st_idle t) (delete key (st_entries t))
                (remove_key (st_lru t) key) (st_closed t ++ close_log (se_session e))
  end.

#[export] Instance session_lru : LruTable sessionTable sessionKey := {
  lru_list := st_lru;
  lru_count t := size (st_entries t);
  lru_remove := session_removeLocked }.

(** One visit of the loop of [expireLocked]. *)
Definition idle_out (t : sessionTable) (now : time) (key : sessionKey) : bool :=
  match st_entries t !! key with
  | Some e => negb (now <? se_last e + st_idle t)
  | None => false
  end.

Definition session_expireLocked (t : sessionTable) (now : time) : sessionTable :=
  foldl (λ t key, if idle_out t now key then session_removeLocked t key else t) t (st_lru t).

(** [get] reads the clock twice: to expire, and to mark the use. *)
Definition session_get (t : sessionTable) (key : sessionKey) (now now' : time)
  : sessionTable * closer :=
  let t := session_expireLocked t now in
  match st_entries t !! key with
  | None => (t, None)
  | Some e =>
      (mkSessions (st_capacity t) (st_idle t)
         (<[key := mkEntry (se_session e) now']> (st_entries t))
         (move_to_back (st_lru t) key) (st_closed t), se_session e)
  end.

Definition session_add (t : sessionTable) (key : sessionKey) (session : closer) (now : time)
  : option sessionTable :=
  let t := session_expireLocked t now in
  let t := match st_entries t !! key with
           | Some _ => session_removeLocked t key
           | None => t
           end in
  t ← evict (size (st_entries t)) (st_capacity t) t;
  Some (mkSessions (st_capacity t) (st_idle t) (<[key := mkEntry session now]> (st_entries t))
          (st_lru t ++ [key]) (st_closed t)).

Definition session_expire (t : sessionTable) (now : time) : sessionTable :=
  session_expireLocked t now.

Definition session_len (t : sessionTable) : nat := size (st_entries t).

Definition session_remove (t : sessionTable) (key : sessionKey) (expected : closer) : sessionTable :=
  match st_entries t !! key with
  | Some e => if bool_decide (se_session e = expected) then session_removeLocked t key else t
  | None => t
  end.

(** ** The invariant *)

Record sessions_ok (t : sessionTable) : Prop := {
  sok_capacity : 1 ≤ st_capacity t;
  sok_bound : Z.of_nat (size (st_entries t)) ≤ st_capacity t;
  sok_lru : indexed (st_entries t) (st_lru t) }.

(** The sessions in the table. *)
Definition live_sessions (t : sessionTable) : list nat :=
  (map_to_list (st_entries t)).*2 ≫= λ e, close_log (se_session e).

(** Sessions handed in are either live or closed, each exactly once. *)
Definition accounted (added : list nat) (t : sessionTable) : Prop :=
  added ≡ₚ st_closed t ++ live_sessions t.

Lemma new_sessions_ok capacity idle : sessions_ok (newSessionTable capacity idle).
Proof.
  unfold newSessionTable. constructor; simpl; try apply indexed_empty;
    destruct (capacity <? 1) eqn:E; bools; rewrite ?map_size_empty; lia.
Qed.

Lemma session_remove_entries t k : st_entries (session_removeLocked t k) = delete k (st_entries t).
Proof.
  unfold session_removeLocked. destruct (st_entries t !! k) eqn:E; [done|]. by rewrite delete_id.
Qed.
Lemma remove_params t k :
  st_capacity (session_removeLocked t k) = st_capacity t ∧
  st_idle (session_removeLocked t k) = st_idle t.
Proof. unfold session_removeLocked. by destruct (st_entries t !! k). Qed.

Lemma remove_sessions_ok t k : sessions_ok t → sessions_ok (session_removeLocked t k).
Proof.
  intros Ht. destruct (st_entries t !! k) as [e|] eqn:He;
    [|unfold session_removeLocked; by rewrite He].
  destruct Ht as [H1 H2 H3]. unfold session_removeLocked. rewrite He. constructor; simpl; [done| |].
  - rewrite map_size_delete_Some by eauto. lia.
  - by apply indexed_delete.
Qed.

#[export] Instance session_lru_laws : LruLaws sessionTable sessionKey sessions_ok.
Proof.
  split.
  - intros t [_ _ H]. by apply indexed_size.
  - intros t k l Ht Hl. split; [by apply remove_sessions_ok|].
    destruct Ht as [_ _ [Hn Hk]]. simpl in *. rewrite Hl in Hn, Hk.
    destruct (proj1 (Hk k)) as [e He]; [set_solver|].
    unfold session_removeLocked. rewrite He. simpl. rewrite Hl. by apply remove_key_head.
Qed.

(** ** Accounting *)

Lemma live_delete_perm t k e :
  st_entries t !! k = Some e →
  live_sessions t ≡ₚ close_log (se_session e) ++
    ((map_to_list (delete k (st_entries t))).*2 ≫= λ e, close_log (se_session e)).
Proof.
  intros He. unfold live_sessions. rewrite <- (map_to_list_delete _ _ _ He). done.
Qed.

Lemma remove_accounted added t k :
  accounted added t → accounted added (session_removeLocked t k).
Proof.
  unfold accounted, session_removeLocked. intros H. destruct (st_entries t !! k) as [e|] eqn:He; [|done].
  rewrite H, (live_delete_perm _ _ _ He). simpl. unfold live_sessions. simpl. by rewrite app_assoc.
Qed.

Lemma fold_remove_accounted added t ks :
  accounted added t → accounted added (foldl lru_remove t ks).
Proof.
  revert t. induction ks as [|k ks IH]; intros t H; [done|]. simpl. by apply IH, remove_accounted.
Qed.

Lemma fold_remove_params t ks :
  st_capacity (foldl lru_remove t ks) = st_capacity t ∧
  st_idle (foldl lru_remove t ks) = st_idle t ∧
  st_entries (foldl lru_remove t ks) ⊆ st_entries t.
Proof.
  revert t. induction ks as [|k ks IH]; intros t; [done|]. simpl.
  destruct (IH (session_removeLocked t k)) as (H1 & H2 & H3).
  destruct (remove_params t k) as [G1 G2]. rewrite G1 in H1. rewrite G2 in H2.
  rewrite session_remove_entries in H3. split; [done|]. split; [done|].
  etrans; [done|]. apply delete_subseteq.
Qed.

(** ** Expiry *)

(** The sessions still in use at a time. *)
Definition in_use (idle now : Z) (m : gmap sessionKey sessionEntry) : gmap sessionKey sessionEntry :=
  filter (λ p, now < se_last p.2 + idle) m.

Definition expire_visit (now : time) (t : sessionTable) (key : sessionKey) : sessionTable :=
  if idle_out t now key then session_removeLocked t key else t.

Lemma expire_visits_spec now t ks added :
  sessions_ok t → accounted added t → NoDup ks →
  let t' := foldl (expire_visit now) t ks in
  sessions_ok t' ∧ accounted added t' ∧ st_capacity t' = st_capacity t ∧ st_idle t' = st_idle t ∧
  ∀ k, st_entries t' !! k =
    if decide (k ∈ ks) then in_use (st_idle t) now (st_entries t) !! k else st_entries t !! k.
Proof.
  revert t. induction ks as [|k0 ks IH]; intros t Ht Ha Hnd t'; simpl in t'.
  { split; [done|]. split; [done|]. split; [done|]. split; [done|].
    intros k. by rewrite decide_False by apply not_elem_of_nil. }
  apply list.NoDup_cons in Hnd as [Hk0 Hnd].
  set (t1 := expire_visit now t k0) in *.
  assert (H1 : sessions_ok t1 ∧ accounted added t1 ∧ st_capacity t1 = st_capacity t ∧
               st_idle t1 = st_idle t ∧
               ∀ k, st_entries t1 !! k = if decide (k = k0) then in_use (st_idle t) now (st_entries t) !! k
                                         else st_entries t !! k).
  { unfold t1, expire_visit, idle_out, in_use. destruct (remove_params t k0) as [G1 G2].
    destruct (st_entries t !! k0) as [e|] eqn:He; [destruct (now <? se_last e + st_idle t) eqn:E|]; bools; simpl.
    - split; [done|]. split; [done|]. split; [done|]. split; [done|]. intros k.
      case_decide; [subst|done]. rewrite He. symmetry. by apply map_lookup_filter_Some.
    - split; [by apply remove_sessions_ok|]. split; [by apply remove_accounted|].
      split; [done|]. split; [done|]. intros k. rewrite session_remove_entries.
      case_decide; [subst|by rewrite lookup_delete_ne]. rewrite lookup_delete_eq. symmetry.
      apply map_lookup_filter_None. right. intros e' He'. simplify_eq. simpl. lia.
    - split; [done|]. split; [done|]. split; [done|]. split; [done|]. intros k.
      case_decide; [subst|done]. rewrite He. symmetry. apply map_lookup_filter_None. by left. }
  destruct H1 as (A1 & A2 & A3 & A4 & A5).
  destruct (IH t1 A1 A2 Hnd) as (B1 & B2 & B3 & B4 & B5).
  split; [done|]. split; [done|]. split; [by rewrite <- A3|]. split; [by rewrite <- A4|].
  intros k. unfold t'. rewrite B5, A4. destruct (decide (k ∈ ks)) as [Hin|Hin].
  - rewrite (decide_True (P := k ∈ k0 :: ks)) by (by apply list_elem_of_further).
    unfold in_use. apply option_eq. intros e. rewrite !map_lookup_filter_Some, A5.
    rewrite decide_False by (intros ->; done). done.
  - rewrite A5. destruct (decide (k = k0)) as [->|Hne].
    + by rewrite decide_True by apply list_elem_of_here.
    + by rewrite decide_False by (rewrite elem_of_cons; tauto).
Qed.

Lemma session_expireLocked_spec t now added :
  sessions_ok t → accounted added t →
  let t' := session_expireLocked t now in
  sessions_ok t' ∧ accounted added t' ∧ st_capacity t' = st_capacity t ∧ st_idle t' = st_idle t ∧
  st_entries t' = in_use (st_idle t) now (st_entries t).
Proof.
  intros Ht Ha t'. destruct (sok_lru _ Ht) as [Hn Hin].
  destruct (expire_visits_spec now t (st_lru t) added Ht Ha Hn) as (H1 & H2 & H3 & H4 & H5).
  split; [done|]. split; [done|]. split; [done|]. split; [done|]. apply map_eq. intros k. unfold t', session_expireLocked.
  fold (expire_visit now). rewrite H5. case_decide as Hd; [done|]. rewrite Hin in Hd.
  destruct (st_entries t !! k) eqn:E; [destruct Hd; eauto|]. symmetry.
  apply map_lookup_filter_None. by left.
Qed.

(** ** Use, addition, removal *)

Lemma live_insert_perm c i (m : gmap sessionKey sessionEntry) lru cl k e :
  live_sessions (mkSessions c i (<[k := e]> m) lru cl) ≡ₚ
  close_log (se_session e) ++ live_sessions (mkSessions c i (delete k m) lru cl).
Proof.
  unfold live_sessions. simpl. rewrite <- (insert_delete_eq m k e).
  rewrite (map_to_list_insert (delete k m) k e) by apply lookup_delete_eq. done.
Qed.

Lemma session_get_ok t key now now' added :
  sessions_ok t → accounted added t →
  sessions_ok (session_get t key now now').1 ∧ accounted added (session_get t key now now').1.
Proof.
  intros Ht Ha. destruct (session_expireLocked_spec t now added Ht Ha) as (H1 & H2 & _).
  unfold session_get. set (t1 := session_expireLocked t now) in *.
  destruct (st_entries t1 !! key) as [e|] eqn:He; [|done]. simpl. split.
  - destruct H1 as [G1 G2 G3]. constructor; simpl; [done| |apply indexed_update; eauto].
    rewrite map_size_insert, He. simpl. lia.
  - unfold accounted in *. rewrite H2. simpl. rewrite (live_delete_perm t1 key e He).
    unfold live_sessions at 1. simpl. f_equiv. symmetry.
    apply (live_insert_perm 0 0 (st_entries t1) [] [] key (mkEntry (se_session e) now')).
Qed.

(** What a step of [add] leaves behind, from a table without the key. *)
Lemma add_absent t key session now added :
  sessions_ok t → accounted added t → st_entries t !! key = None →
  ∃ t1, evict (size (st_entries t)) (st_capacity t) t = Some t1 ∧
    let t' := mkSessions (st_capacity t1) (st_idle t1) (<[key := mkEntry session now]> (st_entries t1))
                (st_lru t1 ++ [key]) (st_closed t1) in
    sessions_ok t' ∧ accounted (added ++ close_log session) t' ∧ st_capacity t' = st_capacity t ∧
    st_idle t' = st_idle t ∧ delete key (st_entries t') ⊆ st_entries t ∧
    st_lru t' = touch (Z.to_nat (st_capacity t)) (st_lru t) key.
Proof.
  intros Ht Ha Hk. pose proof (sok_lru _ Ht) as [Hn Hin]. pose proof (sok_capacity _ Ht) as Hcap.
  pose proof (indexed_size _ _ (sok_lru _ Ht)) as Hsz.
  destruct (evict_spec sessions_ok (size (st_entries t)) (st_capacity t) t Ht Hcap)
    as (Hev & Ht1 & Hl1); [change (lru_list t) with (st_lru t); lia|].
  set (ks := take _ _) in *. pose proof (fold_remove_accounted added t ks Ha) as Ha1.
  destruct (fold_remove_params t ks) as (Hc1 & Hi1 & Hsub). set (t1 := foldl lru_remove t ks) in *.
  change (lru_list t1) with (st_lru t1) in Hl1. change (lru_list t) with (st_lru t) in Hl1.
  exists t1. split; [done|].
  assert (Hk1 : st_entries t1 !! key = None).
  { destruct (st_entries t1 !! key) eqn:E; [|done]. eapply lookup_weaken in E; [|done]. congruence. }
  assert (Hkl : key ∉ st_lru t) by (rewrite Hin, Hk; by intros [? ?]).
  pose proof (indexed_size _ _ (sok_lru _ Ht1)) as Hsz1.
  assert (Hlt : Z.of_nat (size (st_entries t1)) < st_capacity t).
  { rewrite Hsz1, Hl1, length_drop. unfold surplus. change (lru_list t) with (st_lru t). lia. }
  simpl. split; [|split; [|split; [done|split; [done|split]]]].
  - constructor; simpl; [lia| |apply indexed_insert_new; [apply Ht1|done]].
    rewrite map_size_insert, Hk1. simpl. lia.
  - unfold accounted in *. rewrite Ha1, live_insert_perm. simpl. rewrite delete_id by done.
    unfold live_sessions. simpl. rewrite <- app_assoc. f_equiv. apply Permutation_app_comm.
  - by rewrite delete_insert_id.
  - rewrite touch_absent, Hl1 by (done || lia). f_equal. f_equal. unfold surplus.
    change (lru_list t) with (st_lru t). lia.
Qed.

Lemma touch_removed t key :
  sessions_ok t → is_Some (st_entries t !! key) →
  touch (Z.to_nat (st_capacity t)) (remove_key (st_lru t) key) key =
  touch (Z.to_nat (st_capacity t)) (st_lru t) key.
Proof.
  intros [H1 H2 H3] Hk. pose proof (indexed_size _ _ H3) as Hsz. destruct H3 as [Hn Hin].
  assert (Hkl : key ∈ st_lru t) by (by apply Hin).
  pose proof (length_remove_key _ _ Hn Hkl). rewrite (touch_present _ (st_lru t)) by (done || lia).
  rewrite touch_absent; [|rewrite elem_of_remove_key; tauto|lia].
  replace (_ - _)%nat with 0%nat by lia. done.
Qed.

Lemma session_add_ok t key session now added :
  sessions_ok t → accounted added t →
  let t0 := session_expireLocked t now in
  ∃ t', session_add t key session now = Some t' ∧ sessions_ok t' ∧
    accounted (added ++ close_log session) t' ∧ st_capacity t' = st_capacity t ∧
    st_idle t' = st_idle t ∧ st_entries t' !! key = Some (mkEntry session now) ∧
    delete key (st_entries t') ⊆ st_entries t0 ∧
    st_lru t' = touch (Z.to_nat (st_capacity t)) (st_lru t0) key.
Proof.
  intros Ht Ha t0. destruct (session_expireLocked_spec t now added Ht Ha) as (H1 & H2 & H3 & H4 & _).
  fold t0 in H1, H2, H3, H4. unfold session_add. fold t0.
  destruct (st_entries t0 !! key) as [e|] eqn:He.
  - destruct (remove_params t0 key) as [P1 P2].
    destruct (add_absent (session_removeLocked t0 key) key session now added)
      as (t1 & -> & G1 & G2 & G3 & G4 & G5 & G6).
    { by apply remove_sessions_ok. }
    { by apply remove_accounted. }
    { by rewrite session_remove_entries, lookup_delete_eq. }
    eexists. split; [done|]. split; [done|]. split; [done|]. split; [congruence|].
    split; [congruence|]. split; [apply lookup_insert_eq|]. split.
    + etrans; [exact G5|]. rewrite session_remove_entries. apply delete_subseteq.
    + rewrite G6, P1, <- H3. unfold session_removeLocked. rewrite He. simpl.
      apply touch_removed; eauto.
  - destruct (add_absent t0 key session now added H1 H2 He) as (t1 & -> & G1 & G2 & G3 & G4 & G5 & G6).
    eexists. split; [done|]. split; [done|]. split; [done|]. split; [congruence|].
    split; [congruence|]. split; [apply lookup_insert_eq|]. split; [done|]. by rewrite G6, H3.
Qed.

(** ** Sequences of operations *)

Inductive session_op :=
| SGet (key : sessionKey) (now now' : time)
| SAdd (key : sessionKey) (session : closer) (now : time)
| SExpire (now : time)
| SRemove (key : sessionKey) (expected : closer).

Definition session_run (t : sessionTable) (op : session_op) : option sessionTable :=
  match op with
  | SGet key now now' => Some (session_get t key now now').1
  | SAdd key s now => session_add t key s now
  | SExpire now => Some (session_expire t now)
  | SRemove key s => Some (session_remove t key s)
  end.

(** The sessions an operation hands to the table. *)
Definition handed_in (op : session_op) : list nat :=
  match op with SAdd _ s _ => close_log s | _ => [] end.

(** The table after a sequence of operations, with the sessions handed in. *)
Inductive session_reachable (capacity idle : Z) : list nat → sessionTable → Prop :=
| sessions_new : session_reachable capacity idle [] (newSessionTable capacity idle)
| sessions_next added t op t' : session_reachable capacity idle added t →
    session_run t op = Some t' → session_reachable capacity idle (added ++ handed_in op) t'.

Lemma session_run_ok t op added :
  sessions_ok t → accounted added t →
  ∃ t', session_run t op = Some t' ∧ sessions_ok t' ∧ accounted (added ++ handed_in op) t' ∧
        st_capacity t' = st_capacity t.
Proof.
  intros Ht Ha. destruct op as [key now now'|key s now|now|key s]; cbn [session_run handed_in];
    rewrite ?app_nil_r.
  - destruct (session_get_ok t key now now' added Ht Ha). eexists. split; [done|].
    split; [done|]. split; [done|]. destruct (session_expireLocked_spec t now added Ht Ha) as (_ & _ & Hcap & _).
    unfold session_get. by destruct (_ !! key).
  - destruct (session_add_ok t key s now added Ht Ha) as (t' & ? & ? & ? & ? & _). eauto.
  - destruct (session_expireLocked_spec t now added Ht Ha) as (H1 & H2 & H3 & _). eauto.
  - eexists. split; [done|]. unfold session_remove.
    destruct (st_entries t !! key); [|done]. case_bool_decide; [|done].
    split; [by apply remove_sessions_ok|]. split; [by apply remove_accounted|]. apply remove_params.
Qed.

Lemma session_reachable_ok capacity idle added t :
  session_reachable capacity idle added t →
  sessions_ok t ∧ accounted added t ∧ st_capacity t = Z.max 1 capacity.
Proof.
  induction 1 as [|added t op t' _ (IH1 & IH2 & IH3) Hrun].
  - split; [apply new_sessions_ok|]. split.
    + unfold accounted, live_sessions. simpl. by rewrite map_to_list_empty.
    + simpl. destruct (capacity <? 1) eqn:E; bools; lia.
  - destruct (session_run_ok t op added IH1 IH2) as (t1 & Hr & H1 & H2 & H3). simplify_eq.
    by rewrite H3.
Qed.

(** C9: no UDP session is lost or closed twice: after any sequence of
    operations, the sessions ever handed to the table are exactly the closed ones
    and the live ones together, counted with multiplicity; at most the capacity
    are live, and the next operation does not panic. *)
Theorem sessions_closed_exactly_once (capacity idle : Z) (added : list nat) (t : sessionTable) :
  session_reachable capacity idle added t →
  added ≡ₚ st_closed t ++ live_sessions t ∧
  Z.of_nat (session_len t) ≤ Z.max 1 capacity ∧
  ∀ op, ∃ t', session_run t op = Some t'.
Proof.
  intros H. apply session_reachable_ok in H as (H1 & H2 & H3). split; [done|]. split.
  - rewrite <- H3. apply H1.
  - intros op. destruct (session_run_ok t op added H1 H2) as (t' & ? & _). eauto.
Qed.

Lemma get_lookup t key now now' :
  sessions_ok t →
  (session_get t key now now').2 =
  match st_entries t !! key with
  | Some e => if now <? se_last e + st_idle t then se_session e else None
  | None => None
  end.
Proof.
  intros Ht. destruct (session_expireLocked_spec t now (st_closed t ++ live_sessions t) Ht)
    as (_ & _ & _ & _ & He); [by unfold accounted|].
  unfold session_get. rewrite He. unfold in_use. destruct (st_entries t !! key) as [e|] eqn:Hk.
  - destruct (now <? se_last e + st_idle t) eqn:E; bools.
    + by rewrite (proj2 (map_lookup_filter_Some _ _ _ _) (conj Hk E)).
    + rewrite (proj2 (map_lookup_filter_None _ _ _)); [done|]. right. intros e' ?. simplify_eq. simpl. lia.
  - by rewrite (proj2 (map_lookup_filter_None _ _ _)); [|left].
Qed.

Lemma get_active t key now now' e :
  sessions_ok t → st_entries t !! key = Some e →
  (session_get t key now now').2 = if now <? se_last e + st_idle t then se_session e else None.
Proof.
  intros Ht Hk. pose proof (get_lookup t key now now' Ht) as H. by rewrite Hk in H.
Qed.

(** [get] finds exactly the sessions that are not idle: it returns the
    session stored under the key when its last use is less than the idle time
    ago, and nil otherwise. *)
Theorem get_returns_active_session (t : sessionTable) (key : sessionKey) (now now' : time) :
  sessions_ok t →
  (session_get t key now now').2 =
  match st_entries t !! key with
  | Some e => if now <? se_last e + st_idle t then se_session e else None
  | None => None
  end.
Proof. apply get_lookup. Qed.

(** A receiver that fails removes only its own generation of a session: if
    the key has been given to another session since, [remove] changes nothing;
    otherwise it removes the entry and closes that session, and no other entry is
    touched either way. *)
Theorem remove_only_expected_generation (t : sessionTable) (key : sessionKey) (expected : closer) :
  let t' := session_remove t key expected in
  (∀ e, st_entries t !! key = Some e → se_session e ≠ expected → t' = t) ∧
  (∀ e, st_entries t !! key = Some e → se_session e = expected →
        st_entries t' = delete key (st_entries t) ∧ st_closed t' = st_closed t ++ close_log expected) ∧
  ∀ k, k ≠ key → st_entries t' !! k = st_entries t !! k.
Proof.
  intros t'. unfold t', session_remove. split; [|split].
  - intros e -> Hne. by rewrite bool_decide_false.
  - intros e He Heq. rewrite He. rewrite bool_decide_true by done. split; [apply session_remove_entries|].
    unfold session_removeLocked. rewrite He. simpl. by rewrite Heq.
  - intros k Hk. destruct (st_entries t !! key) as [e|]; [|done]. case_bool_decide; [|done].
    rewrite session_remove_entries. by rewrite lookup_delete_ne.
Qed.

(** A session added under a key is the one found there, it replaces (and so
    closes) a previous one, and the sessions dropped to make room are the least
    recently used ones. *)
Theorem add_replaces_and_evicts_oldest (t : sessionTable) (key : sessionKey) (session : closer)
    (now : time) :
  sessions_ok t →
  ∃ t', session_add t key session now = Some t' ∧
    st_entries t' !! key = Some (mkEntry session now) ∧
    st_lru t' = touch (Z.to_nat (st_capacity t)) (st_lru (session_expireLocked t now)) key ∧
    delete key (st_entries t') ⊆ in_use (st_idle t) now (st_entries t).
Proof.
  intros Ht. assert (Ha : accounted (st_closed t ++ live_sessions t) t) by (by unfold accounted).
  destruct (session_expireLocked_spec t now _ Ht Ha) as (_ & _ & _ & _ & He).
  destruct (session_add_ok t key session now _ Ht Ha) as (t' & H1 & _ & _ & _ & _ & H2 & H3 & H4).
  exists t'. rewrite He in H3. done.
Qed.

(** ** Witnesses *)

Definition sample_key (n : Z) : sessionKey :=
  mkSessionKey (mkAddrPort (Addr4 10 0 0 n) 5000) (mkAddrPort (Addr4 8 8 8 8) 53).

Definition sample_sessions : sessionTable :=
  default (newSessionTable 2 60) (session_add (newSessionTable 2 60) (sample_key 1) (Some 1%nat) 0).

Lemma sample_sessions_reachable : session_reachable 2 60 [1%nat] sample_sessions.
Proof.
  apply (sessions_next 2 60 [] (newSessionTable 2 60) (SAdd (sample_key 1) (Some 1%nat) 0));
    [apply sessions_new|reflexivity].
Qed.

Lemma sample_sessions_ok : sessions_ok sample_sessions.
Proof. apply (session_reachable_ok 2 60 [1%nat] sample_sessions sample_sessions_reachable). Qed.

Lemma sessions_closed_exactly_once_witness :
  [1%nat] ≡ₚ st_closed sample_sessions ++ live_sessions sample_sessions.
Proof. apply (sessions_closed_exactly_once 2 60 [1%nat] sample_sessions sample_sessions_reachable). Defined.

Lemma get_returns_active_session_witness :
  (session_get sample_sessions (sample_key 1) 59 59).2 = Some 1%nat ∧
  (session_get sample_sessions (sample_key 1) 60 60).2 = None.
Proof.
  rewrite !(get_returns_active_session sample_sessions) by apply sample_sessions_ok.
  vm_compute. split; reflexivity.
Defined.

Lemma add_replaces_and_evicts_oldest_witness :
  ∃ t', session_add sample_sessions (sample_key 1) (Some 2%nat) 5 = Some t' ∧
        st_entries t' !! sample_key 1 = Some (mkEntry (Some 2%nat) 5).
Proof.
  destruct (add_replaces_and_evicts_oldest sample_sessions (sample_key 1) (Some 2%nat) 5
    sample_sessions_ok) as (t' & H1 & H2 & _). exists t'. split; assumption.
Defined.
