(* ===== verification/SniffParse.v ===== *)
(** * Protocol sniffing, the parsers: [internal/sniff/tls.go], [http.go], [sniff.go]

    The server name of a TLS ClientHello and the host of an HTTP request, read
    from the first bytes of a connection.  [None] is a run-time panic; the proofs
    show there is none, that a reported domain is in normal form, and that more
    input never changes a decision. *)

From S2P Require Import Prelude GoStrings GoNet Domains.

Record Result := mkResult { r_domain : bytes; r_protocol : bytes; r_complete : bool; r_ech : bool }.

Definition no_result : Result := mkResult [] [] false false.

Inductive parseState := parseInvalid | parseIncomplete | parseComplete.

#[export] Instance parseState_eq_dec : EqDecision parseState.
Proof. solve_decision. Defined.

Abbreviation parsed := (option (Result * parseState)).
Definition invalid : parsed := Some (no_result, parseInvalid).
Definition incomplete : parsed := Some (no_result, parseIncomplete).

(** ** TLS *)

(** [skipVector]: [Some None] is the failure return. *)
Definition skipVector (raw : bytes) (pos width : nat) : option (option nat) :=
  if negb (width =? 1)%nat && negb (width =? 2)%nat then Some None
  else if (length raw <? pos + width)%nat then Some None else
  length_ ← (if (width =? 2)%nat then s ← slice raw pos (pos + 2); be_u16 s else raw !! pos);
  let pos := (pos + width)%nat in
  if (length raw - pos <? Z.to_nat length_)%nat then Some None
  else Some (Some (pos + Z.to_nat length_)%nat).

(** The loop of [parseServerName]; an entry takes at least three bytes. *)
Fixpoint server_name_loop (fuel : nat) (raw : bytes) (pos : nat) : option bytes :=
  if (length raw <=? pos)%nat then Some [] else
  match fuel with
  | O => None
  | S f =>
      if (length raw <? pos + 3)%nat then Some [] else
      nameType ← raw !! pos;
      s ← slice raw (pos + 1) (pos + 3);
      l ← be_u16 s;
      let length_ := Z.to_nat l in
      let pos := (pos + 3)%nat in
      if (length raw - pos <? length_)%nat then Some [] else
      if nameType =? 0 then
        name ← slice raw pos (pos + length_);
        Some (match NormalizeDomain name with Ok domain => domain | Err _ => [] end)
      else server_name_loop f raw (pos + length_)
  end.

Definition parseServerName (raw : bytes) : option bytes :=
  if (length raw <? 2)%nat then Some [] else
  s ← slice raw 0 2;
  listLength ← be_u16 s;
  if negb (Z.to_nat listLength =? length raw - 2)%nat then Some []
  else server_name_loop (length raw) raw 2.

(** The loop over the extensions; [Some None] is the return of [parseInvalid]. *)
Fixpoint extensions_loop (fuel : nat) (ext : bytes) (pos : nat) (seenSNI : bool) (domain : bytes)
    (ech : bool) : option (option (bytes * bool)) :=
  if (length ext <=? pos)%nat then Some (Some (domain, ech)) else
  match fuel with
  | O => None
  | S f =>
      if (length ext <? pos + 4)%nat then Some None else
      s ← slice ext pos (pos + 2);
      typeID ← be_u16 s;
      s ← slice ext (pos + 2) (pos + 4);
      l ← be_u16 s;
      let length_ := Z.to_nat l in
      let pos := (pos + 4)%nat in
      if (length ext - pos <? length_)%nat then Some None else
      if typeID =? 0 then
        if seenSNI : bool then Some None else
        data ← slice ext pos (pos + length_);
        name ← parseServerName data;
        if bool_decide (name = []) then Some None
        else extensions_loop f ext (pos + length_) true name ech
      else extensions_loop f ext (pos + length_) seenSNI domain (ech || (typeID =? 65037))
  end.

(** The ClientHello after its handshake header. *)
Definition parse_hello (body : bytes) : parsed :=
  p ← skipVector body 34 1;
  match p with
  | None => invalid
  | Some pos =>
      p ← skipVector body pos 2;
      match p with
      | None => invalid
      | Some pos =>
          p ← skipVector body pos 1;
          match p with
          | None => invalid
          | Some pos =>
              if (length body <? pos + 2)%nat then invalid else
              s ← slice body pos (pos + 2);
              el ← be_u16 s;
              let extensionsLength := Z.to_nat el in
              let pos := (pos + 2)%nat in
              if (length body - pos <? extensionsLength)%nat then invalid else
              extensions ← slice body pos (pos + extensionsLength);
              r ← extensions_loop (length extensions) extensions 0 false [] false;
              match r with
              | None => invalid
              | Some (domain, ech) => Some (mkResult domain (str "tls") true ech, parseComplete)
              end
          end
      end
  end.

Definition parse_record (record : bytes) : parsed :=
  b0 ← record !! 0%nat;
  if negb (b0 =? 1) || (length record <? 4)%nat then invalid else
  b1 ← record !! 1%nat; b2 ← record !! 2%nat; b3 ← record !! 3%nat;
  let handshakeLength := Z.to_nat (Z.lor (Z.lor (Z.shiftl b1 16) (Z.shiftl b2 8)) b3) in
  if (length record - 4 <? handshakeLength)%nat then invalid
  else if (handshakeLength <? 34)%nat then invalid else
  body ← slice record 4 (4 + handshakeLength);
  parse_hello body.

Definition parseTLS (raw : bytes) : parsed :=
  if (length raw <? 5)%nat then incomplete else
  b0 ← raw !! 0%nat;
  if negb (b0 =? 22) then invalid else
  s ← slice raw 3 5;
  rl ← be_u16 s;
  let recordLength := Z.to_nat rl in
  if (recordLength <? 4)%nat then invalid
  else if (length raw <? 5 + recordLength)%nat then incomplete else
  record ← slice raw 5 (5 + recordLength);
  parse_record record.

(** ** HTTP *)

Definition isHTTPMethodChar (char : Z) : bool := in_range 65 90 char || in_range 97 122 char.

Definition normalizeHTTPHost (host : bytes) : bytes :=
  let host := TrimSpace host in
  if bool_decide (host = []) || ContainsAny host [32; 9; 13; 10] || Contains host (str "[")
     || Contains host (str "]")
  then []
  else
    let finish (host : bytes) :=
      match NormalizeDomain host with Ok domain => domain | Err _ => [] end in
    match SplitHostPort host with
    | Ok (name, port) =>
        match ParseUint port 16 with
        | None => []
        | Some _ => if bool_decide (name = []) then [] else finish name
        end
    | Err _ => finish host
    end.

(** The loop over the header lines: [None] is the early return without a host. *)
Fixpoint http_lines (lines : list bytes) (host : bytes) : option bytes :=
  match lines with
  | [] => Some host
  | line :: lines' =>
      match IndexByte line 58 with
      | None | Some O => None
      | Some colon =>
          if EqualFold (take colon line) (str "host") then
            if negb (bool_decide (host = [])) then None
            else http_lines lines' (drop (S colon) line)
          else http_lines lines' host
      end
  end.

Definition parseHTTP (raw : bytes) : parsed :=
  match IndexByte raw 32 with
  | None => if forallb isHTTPMethodChar raw then incomplete else invalid
  | Some O => invalid
  | Some space =>
      if negb (forallb isHTTPMethodChar (take space raw)) then invalid else
      match Index raw [13; 10; 13; 10] with
      | None => incomplete
      | Some end_ =>
          match http_lines (tail (SplitCRLF (take end_ raw))) [] with
          | None => Some (mkResult [] (str "http") true false, parseComplete)
          | Some host =>
              Some (mkResult (normalizeHTTPHost host) (str "http") true false, parseComplete)
          end
      end
  end.

(** ** [parse] and [Parse] *)

Definition parse (raw : bytes) : parsed :=
  match raw with
  | [] => incomplete
  | b0 :: _ => if b0 =? 22 then parseTLS raw else parseHTTP raw
  end.

Definition Parse (raw : bytes) : option Result := fst <$> parse raw.

Example parse_http_sample :
  parse (str "GET / HTTP/1.1" ++ [13; 10] ++ str "Host: Example.COM:8080" ++ [13; 10; 13; 10]) =
  Some (mkResult (str "example.com") (str "http") true false, parseComplete).
Proof. vm_compute. reflexivity. Qed.

(** ** No panic *)

#[local] Arguments Nat.add : simpl never.
#[local] Arguments Nat.ltb : simpl never.
#[local] Arguments Nat.leb : simpl never.
#[local] Arguments Nat.sub : simpl never.

Lemma be_u16_slice l a : (a + 2 ≤ length l)%nat → ∃ s v, slice l a (a + 2) = Some s ∧ be_u16 s = Some v.
Proof.
  intros H. destruct (slice_is_Some l a (a + 2)) as [s Hs]; [lia|lia|].
  pose proof (slice_inv _ _ _ _ Hs) as (_ & _ & _ & Hl).
  destruct s as [|x [|y s]]; simpl in Hl; try lia. eauto.
Qed.

Lemma skipVector_total raw pos width :
  ∃ r, skipVector raw pos width = Some r ∧ ∀ p, r = Some p → (p ≤ length raw)%nat.
Proof.
  unfold skipVector. destruct (_ && _) eqn:E1; [eexists; split; [done|naive_solver]|].
  destruct (_ <? _)%nat eqn:E2; [eexists; split; [done|naive_solver]|]. bools.
  assert (Hw : (width = 1 ∨ width = 2)%nat).
  { apply andb_false_iff in E1 as [E|E]; apply negb_false_iff in E; apply Nat.eqb_eq in E; lia. }
  assert (∃ v, (if (width =? 2)%nat then s ← slice raw pos (pos + 2); be_u16 s else raw !! pos) = Some v)
    as [v ->].
  { destruct (width =? 2)%nat eqn:E; bools.
    - subst. destruct (be_u16_slice raw pos) as (s & v & -> & Hv); [lia|]. eauto.
    - apply lookup_lt_is_Some_2. lia. }
  cbn [mbind option_bind]. destruct (_ <? _)%nat eqn:E3; [eexists; split; [done|naive_solver]|]. bools.
  eexists. split; [done|]. intros p [= <-]. lia.
Qed.

Lemma server_name_loop_total fuel raw pos :
  (length raw - pos ≤ fuel)%nat → is_Some (server_name_loop fuel raw pos).
Proof.
  revert pos. induction fuel as [|f IH]; intros pos Hf; cbn [server_name_loop];
    (destruct (length raw <=? pos)%nat eqn:E; [eauto|]); bools; [lia|].
  destruct (_ <? _)%nat eqn:E2; [eauto|]. bools.
  destruct (lookup_lt_is_Some_2 raw pos) as [t ->]; [lia|]. cbn [mbind option_bind].
  replace (pos + 3)%nat with (pos + 1 + 2)%nat by lia.
  destruct (be_u16_slice raw (pos + 1)) as (s & v & -> & Hv); [lia|]. cbn [mbind option_bind].
  rewrite Hv. cbn [mbind option_bind]. destruct (_ <? _)%nat eqn:E3; [eauto|]. bools.
  destruct (t =? 0); [|apply IH; lia].
  match goal with |- context [slice raw ?a ?b] =>
    destruct (slice_is_Some raw a b) as [n ->]; [lia|lia|] end. cbn [mbind option_bind]. eauto.
Qed.

Lemma parseServerName_total raw : is_Some (parseServerName raw).
Proof.
  unfold parseServerName. destruct (_ <? _)%nat eqn:E; [eauto|]. bools.
  destruct (be_u16_slice raw 0) as (s & v & Hs & Hv); [lia|]. change (0 + 2)%nat with 2%nat in Hs.
  rewrite Hs. cbn [mbind option_bind]. rewrite Hv. cbn [mbind option_bind]. destruct (negb _); [eauto|]. apply server_name_loop_total. lia.
Qed.

Lemma extensions_loop_total fuel ext pos seen d ech :
  (length ext - pos ≤ fuel)%nat → is_Some (extensions_loop fuel ext pos seen d ech).
Proof.
  revert pos seen d ech. induction fuel as [|f IH]; intros pos seen d ech Hf; cbn [extensions_loop];
    (destruct (length ext <=? pos)%nat eqn:E; [eauto|]); bools; [lia|].
  destruct (_ <? _)%nat eqn:E2; [eauto|]. bools.
  destruct (be_u16_slice ext pos) as (s & t & -> & Ht); [lia|]. cbn [mbind option_bind].
  rewrite Ht. cbn [mbind option_bind]. replace (pos + 4)%nat with (pos + 2 + 2)%nat by lia.
  destruct (be_u16_slice ext (pos + 2)) as (s2 & v & -> & Hv); [lia|]. cbn [mbind option_bind].
  rewrite Hv. cbn [mbind option_bind]. destruct (_ <? _)%nat eqn:E3; [eauto|]. bools.
  destruct (t =? 0); [|apply IH; lia]. destruct seen; [eauto|].
  match goal with |- context [slice ext ?a ?b] =>
    destruct (slice_is_Some ext a b) as [dt ->]; [lia|lia|] end. cbn [mbind option_bind].
  destruct (parseServerName_total dt) as [n ->]. cbn [mbind option_bind].
  case_bool_decide; [eauto|]. apply IH. lia.
Qed.

Lemma parse_hello_total body : is_Some (parse_hello body).
Proof.
  unfold parse_hello.
  destruct (skipVector_total body 34 1) as ([p1|] & -> & _); cbn [mbind option_bind]; [|eauto].
  destruct (skipVector_total body p1 2) as ([p2|] & -> & _); cbn [mbind option_bind]; [|eauto].
  destruct (skipVector_total body p2 1) as ([p3|] & -> & _); cbn [mbind option_bind]; [|eauto].
  destruct (_ <? _)%nat eqn:E; [eauto|]. bools.
  destruct (be_u16_slice body p3) as (s & v & -> & Hv); [lia|]. cbn [mbind option_bind].
  rewrite Hv. cbn [mbind option_bind]. destruct (_ <? _)%nat eqn:E2; [eauto|]. bools.
  match goal with |- context [slice body ?a ?b] =>
    destruct (slice_is_Some body a b) as [ext ->]; [lia|lia|] end. cbn [mbind option_bind].
  destruct (extensions_loop_total (length ext) ext 0 false [] false) as [[[d e]|] ->]; [lia|..];
    cbn [mbind option_bind]; eauto.
Qed.

Lemma parse_record_total record : (1 ≤ length record)%nat → is_Some (parse_record record).
Proof.
  intros Hl. unfold parse_record. destruct (lookup_lt_is_Some_2 record 0) as [b0 ->]; [lia|].
  cbn [mbind option_bind]. destruct (_ || _) eqn:E; [eauto|]. bools.
  destruct (lookup_lt_is_Some_2 record 1) as [b1 ->]; [lia|].
  destruct (lookup_lt_is_Some_2 record 2) as [b2 ->]; [lia|].
  destruct (lookup_lt_is_Some_2 record 3) as [b3 ->]; [lia|]. cbn [mbind option_bind].
  destruct (_ <? _)%nat eqn:E2; [eauto|]. destruct (_ <? 34)%nat; [eauto|]. bools.
  match goal with |- context [slice record ?a ?b] =>
    destruct (slice_is_Some record a b) as [body ->]; [lia|lia|] end. cbn [mbind option_bind].
  apply parse_hello_total.
Qed.

Lemma parseTLS_total raw : is_Some (parseTLS raw).
Proof.
  unfold parseTLS. destruct (_ <? 5)%nat eqn:E; [eauto|]. bools.
  destruct (lookup_lt_is_Some_2 raw 0) as [b0 ->]; [lia|]. cbn [mbind option_bind].
  destruct (negb _); [eauto|].
  destruct (be_u16_slice raw 3) as (s & v & Hs & Hv); [lia|]. change (3 + 2)%nat with 5%nat in Hs.
  rewrite Hs. cbn [mbind option_bind]. rewrite Hv. cbn [mbind option_bind].
  destruct (Z.to_nat v <? 4)%nat eqn:E2; [eauto|].
  destruct (length raw <? 5 + Z.to_nat v)%nat eqn:E3; [eauto|]. bools.
  match goal with |- context [slice raw ?a ?b] =>
    destruct (slice_is_Some raw a b) as [rc Hr]; [lia|lia|] end. rewrite Hr. cbn [mbind option_bind].
  apply parse_record_total. apply slice_inv in Hr as (_ & _ & _ & ->). lia.
Qed.

Lemma parse_total raw : is_Some (parse raw).
Proof.
  destruct raw as [|b raw]; [eauto|]. unfold parse. destruct (b =? 22); [apply parseTLS_total|].
  unfold parseHTTP. repeat break_match; eauto.
Qed.

(** ** Reported domains are in normal form *)

Definition domain_or_none (d : bytes) : Prop := d = [] ∨ normalized d.

Lemma NormalizeDomain_or_none v :
  domain_or_none (match NormalizeDomain v with Ok d => d | Err _ => [] end).
Proof.
  destruct (NormalizeDomain v) eqn:E; [|by left]. right. by apply NormalizeDomain_Ok in E as [_ ?].
Qed.

Lemma server_name_loop_normal fuel raw pos d :
  server_name_loop fuel raw pos = Some d → domain_or_none d.
Proof.
  revert pos. induction fuel as [|f IH]; intros pos; cbn [server_name_loop];
    (destruct (length raw <=? pos)%nat; [intros [= <-]; by left|]); [done|].
  destruct (_ <? _)%nat; [intros [= <-]; by left|].
  destruct (raw !! pos) as [t|]; [|done]. cbn [mbind option_bind].
  destruct (slice raw _ _) as [s|]; [|done]. cbn [mbind option_bind].
  destruct (be_u16 s) as [v|]; [|done]. cbn [mbind option_bind].
  destruct (_ <? _)%nat; [intros [= <-]; by left|]. destruct (t =? 0); [|apply IH].
  destruct (slice raw _ _) as [n|]; [|done]. cbn [mbind option_bind]. intros [= <-].
  apply NormalizeDomain_or_none.
Qed.

Lemma parseServerName_normal raw d : parseServerName raw = Some d → domain_or_none d.
Proof.
  unfold parseServerName. destruct (_ <? _)%nat; [intros [= <-]; by left|].
  destruct (slice raw _ _) as [s|]; [|done]. cbn [mbind option_bind].
  destruct (be_u16 s) as [v|]; [|done]. cbn [mbind option_bind].
  destruct (negb _); [intros [= <-]; by left|]. apply server_name_loop_normal.
Qed.

Lemma extensions_loop_normal fuel ext pos seen d ech d' ech' :
  extensions_loop fuel ext pos seen d ech = Some (Some (d', ech')) →
  domain_or_none d → domain_or_none d'.
Proof.
  revert pos seen d ech. induction fuel as [|f IH]; intros pos seen d ech H Hd; cbn [extensions_loop] in H;
    (destruct (length ext <=? pos)%nat; [by simplify_eq|]); [done|].
  destruct (_ <? _)%nat; [done|].
  destruct (slice ext pos _) as [s|]; [|done]. cbn [mbind option_bind] in H.
  destruct (be_u16 s) as [t|]; [|done]. cbn [mbind option_bind] in H.
  destruct (slice ext (pos + 2) _) as [s2|]; [|done]. cbn [mbind option_bind] in H.
  destruct (be_u16 s2) as [v|]; [|done]. cbn [mbind option_bind] in H.
  destruct (_ <? _)%nat; [done|]. destruct (t =? 0); [|by eapply IH]. destruct seen; [done|].
  destruct (slice ext _ _) as [dt|]; [|done]. cbn [mbind option_bind] in H.
  destruct (parseServerName dt) as [n|] eqn:Hn; [|done]. cbn [mbind option_bind] in H.
  case_bool_decide; [done|]. eapply IH; [done|]. by eapply parseServerName_normal.
Qed.

Lemma parse_hello_normal body r st : parse_hello body = Some (r, st) → domain_or_none (r_domain r).
Proof.
  unfold parse_hello, invalid. intros H.
  repeat match type of H with
  | (x ← ?e; _) = _ => destruct e as [?|] eqn:?; [cbn [mbind option_bind] in H|done]
  | (match ?p with Some _ => _ | None => _ end) = _ => destruct p as [?|] eqn:?
  | (if ?b then _ else _) = _ => destruct b
  | (let '(_, _) := ?p in _) = _ => destruct p
  end; simplify_eq; try by left.
  simpl. by eapply extensions_loop_normal; [|left].
Qed.

Lemma parse_normal raw r st : parse raw = Some (r, st) → domain_or_none (r_domain r).
Proof.
  destruct raw as [|b raw]; [intros [= <- _]; by left|]. unfold parse.
  destruct (b =? 22).
  - unfold parseTLS, parse_record, invalid, incomplete. intros H.
    repeat match type of H with
    | (x ← ?e; _) = _ => destruct e as [?|] eqn:?; [cbn [mbind option_bind] in H|done]
    | (if ?b then _ else _) = _ => destruct b
    end; simplify_eq; try by left. by eapply parse_hello_normal.
  - unfold parseHTTP, invalid, incomplete. intros H.
    destruct (IndexByte (b :: raw) 32) as [[|sp]|]; [by simplify_eq; left| |by destruct (forallb _ _); simplify_eq; left].
    destruct (negb _); [by simplify_eq; left|].
    destruct (Index _ _); [|by simplify_eq; left].
    destruct (http_lines _ _) as [host|]; simplify_eq; [|by left]. simpl. unfold normalizeHTTPHost.
    destruct (_ || _); [by left|].
    destruct (SplitHostPort _) as [[name port]|]; [|apply NormalizeDomain_or_none].
    destruct (ParseUint port 16); [|by left]. case_bool_decide; [by left|apply NormalizeDomain_or_none].
Qed.

(** ** More input does not change a decision *)

Lemma slice_app_l (l m : bytes) a b : (b ≤ length l)%nat → slice (l ++ m) a b = slice l a b.
Proof.
  intros Hb. unfold slice. rewrite length_app. case_decide as H1; case_decide as H2; [|lia|lia|done].
  f_equal. rewrite drop_app_le by lia. rewrite take_app_le; [done|]. rewrite length_drop. lia.
Qed.

Lemma parseTLS_stable raw more r st :
  parseTLS raw = Some (r, st) → st ≠ parseIncomplete → parseTLS (raw ++ more) = Some (r, st).
Proof.
  unfold parseTLS. intros H Hst. rewrite length_app.
  destruct (length raw <? 5)%nat eqn:E; [unfold incomplete in H; congruence|]. bools.
  rewrite (proj2 (Nat.ltb_ge _ 5)) by lia. rewrite lookup_app_l, slice_app_l by lia.
  destruct (raw !! 0%nat) as [b0|]; [|done]. cbn [mbind option_bind] in *.
  destruct (negb _); [done|]. destruct (slice raw 3 5) as [s|]; [|done]. cbn [mbind option_bind] in *.
  destruct (be_u16 s) as [v|]; [|done]. cbn [mbind option_bind] in *.
  destruct (Z.to_nat v <? 4)%nat; [done|].
  destruct (length raw <? 5 + Z.to_nat v)%nat eqn:E3; [unfold incomplete in H; congruence|]. bools.
  rewrite (proj2 (Nat.ltb_ge (length raw + length more) _)) by lia. by rewrite slice_app_l by lia.
Qed.

Lemma IndexByte_app l m c :
  IndexByte (l ++ m) c =
  match IndexByte l c with Some i => Some i | None => Nat.add (length l) <$> IndexByte m c end.
Proof.
  induction l as [|x l IH]; [change ([] ++ m) with m; by destruct (IndexByte m c)|]. cbn [app IndexByte length].
  destruct (x =? c); [done|]. rewrite IH.
  destruct (IndexByte l c); [done|]. by destruct (IndexByte m c).
Qed.

Lemma IndexByte_lt l c i : IndexByte l c = Some i → (i < length l)%nat.
Proof.
  revert i. induction l as [|x l IH]; intros i; [done|]. cbn [IndexByte length].
  destruct (x =? c); [intros [= <-]; lia|]. destruct (IndexByte l c); [|done].
  intros [= <-]. specialize (IH _ eq_refl). lia.
Qed.

Lemma Index_cons x l p :
  Index (x :: l) p = if HasPrefix (x :: l) p then Some 0%nat else S <$> Index l p.
Proof. done. Qed.

Lemma HasPrefix_length l p : HasPrefix l p = true → (length p ≤ length l)%nat.
Proof.
  revert p. induction l as [|x l IH]; intros [|y p]; simpl; try done; [lia|].
  intros H. bools. apply IH in H0. lia.
Qed.

Lemma HasPrefix_app_inv l m p :
  (length p ≤ length l)%nat → HasPrefix (l ++ m) p = true → HasPrefix l p = true.
Proof.
  revert p. induction l as [|x l IH]; intros [|y p]; simpl; try done; [lia|].
  intros Hl H. bools. subst. rewrite Z.eqb_refl. apply IH; [lia|done].
Qed.

Lemma Index_bound l p i : Index l p = Some i → (i + length p ≤ length l)%nat.
Proof.
  revert i. induction l as [|x l IH]; intros i.
  - simpl. destruct p; [|done]. intros [= <-]. simpl. lia.
  - rewrite Index_cons. destruct (HasPrefix (x :: l) p) eqn:E.
    + intros [= <-]. by apply HasPrefix_length in E.
    + destruct (Index l p); [|done]. intros [= <-]. specialize (IH _ eq_refl). simpl. lia.
Qed.

Lemma Index_app l m p i : Index l p = Some i → Index (l ++ m) p = Some i.
Proof.
  revert i. induction l as [|x l IH]; intros i.
  - simpl. destruct p; [|done]. by destruct m.
  - cbn [app]. rewrite !Index_cons. change (x :: l ++ m) with ((x :: l) ++ m).
    destruct (HasPrefix (x :: l) p) eqn:E; [by rewrite (HasPrefix_app _ m _ E)|].
    destruct (Index l p) as [j|] eqn:Hj; [|done]. intros [= <-]. rewrite (IH j eq_refl).
    destruct (HasPrefix ((x :: l) ++ m) p) eqn:E2; [|done].
    apply Index_bound in Hj. apply HasPrefix_app_inv in E2; [congruence|simpl; lia].
Qed.

Lemma parseHTTP_stable raw more r st :
  parseHTTP raw = Some (r, st) → st ≠ parseIncomplete → parseHTTP (raw ++ more) = Some (r, st).
Proof.
  unfold parseHTTP, invalid, incomplete. intros H Hst. rewrite IndexByte_app.
  destruct (IndexByte raw 32) as [[|sp]|] eqn:Hi; [done| |].
  - apply IndexByte_lt in Hi. rewrite take_app_le by lia. destruct (negb _); [done|].
    destruct (Index raw _) as [e|] eqn:He; [|simplify_eq].
    rewrite (Index_app _ _ _ _ He). apply Index_bound in He. by rewrite take_app_le by lia.
  - destruct (forallb isHTTPMethodChar raw) eqn:Hf; [simplify_eq|]. simplify_eq.
    destruct (IndexByte more 32) as [j|]; simpl.
    + destruct raw as [|x raw]; [done|]. simpl length. cbn [Nat.add].
      rewrite (take_app_ge (x :: raw)) by (simpl; lia). rewrite forallb_app, Hf. done.
    + rewrite forallb_app, Hf. done.
Qed.

Lemma parse_stable raw more r st :
  parse raw = Some (r, st) → st ≠ parseIncomplete → parse (raw ++ more) = Some (r, st).
Proof.
  destruct raw as [|b raw]; [intros [= <- <-]; done|]. cbn [parse app].
  destruct (b =? 22).
  - intros H Hst. by apply (parseTLS_stable (b :: raw) more) in H.
  - intros H Hst. by apply (parseHTTP_stable (b :: raw) more) in H.
Qed.

(** C23: sniffing untrusted bytes is safe and stable: for every byte sequence the
    parser returns without a panic; a domain it reports is a DNS name in normal
    form; and once it has decided (complete or invalid), no further bytes change
    the decision. *)
Theorem parse_safe_and_stable (raw : bytes) :
  ∃ r st, parse raw = Some (r, st) ∧
    (r_domain r = [] ∨ normalized (r_domain r)) ∧
    ∀ more, st ≠ parseIncomplete → parse (raw ++ more) = Some (r, st).
Proof.
  destruct (parse_total raw) as [[r st] H]. exists r, st. split; [done|].
  split; [by eapply parse_normal|]. intros more Hst. by apply parse_stable.
Qed.
