(* ===== verification/SniffPeek.v ===== *)
(** * Protocol sniffing on a connection: [Peek] and [ParseFromReader] of [internal/sniff/sniff.go]

    A buffered reader over a connection that delivers its bytes in arbitrary
    segments.  [Peek] looks at ever longer prefixes; the proofs show that it
    consumes nothing, that how the bytes are split into segments does not matter,
    and that its answer is the parse of the first [limits.Bytes] bytes. *)

From S2P Require Import Prelude GoStrings GoNet Domains SniffParse.

Record Limits := mkLim { lim_bytes : Z; lim_timeout : duration }.

(** A [bufio.Reader]: its buffer, the buffer's size, and the segments the
    connection still delivers before the read deadline or the end of the stream;
    after the last one a read fails. *)
Record Reader := mkReader { rd_buf : bytes; rd_size : nat; rd_conn : list bytes }.

(** [NewReaderSize]: the buffer holds at least 16 bytes. *)
Definition NewReaderSize (conn : list bytes) (size : Z) : Reader :=
  mkReader [] (Nat.max 16 (Z.to_nat size)) conn.

(** One read into the free part of the buffer; [None] is a read error. *)
Definition fill (r : Reader) : option Reader :=
  match rd_conn r with
  | [] => None
  | seg :: rest =>
      let free := (rd_size r - length (rd_buf r))%nat in
      if (length seg <=? free)%nat then Some (mkReader (rd_buf r ++ seg) (rd_size r) rest)
      else Some (mkReader (rd_buf r ++ take free seg) (rd_size r) (drop free seg :: rest))
  end.

(** [Reader.Peek(n)]: fills until [n] bytes are buffered, the buffer is full or a
    read fails; returns the prefix and whether it is shorter than [n].  Every
    read but the last takes a whole segment, so [S (length (rd_conn r))] rounds
    suffice. *)
Fixpoint peek_fill (fuel : nat) (r : Reader) (n : nat) : Reader :=
  match fuel with
  | O => r
  | S f =>
      if (length (rd_buf r) <? n)%nat && (length (rd_buf r) <? rd_size r)%nat then
        match fill r with
        | Some r' => peek_fill f r' n
        | None => r
        end
      else r
  end.

Definition reader_Peek (r : Reader) (n : nat) : Reader * bytes * bool :=
  let r := peek_fill (S (length (rd_conn r))) r n in
  (r, take n (rd_buf r), (length (rd_buf r) <? n)%nat).

Definition ParseFromReader (r : option Reader) : option Result :=
  match r with
  | None => Some no_result
  | Some r =>
      if (length (rd_buf r) =? 0)%nat then Some no_result
      else match reader_Peek r (length (rd_buf r)) with
           | (_, raw, false) => Parse raw
           | (_, _, true) => Some no_result
           end
  end.

(** The loop of [Peek] from a value of [wanted]; [ctx_err i] is [ctx.Err()] in
    the [i]-th round.  The outer option is a panic. *)
Fixpoint peek_loop (fuel : nat) (limit : Z) (ctx_err : nat → option error) (r : Reader) (wanted : nat)
  : option (Reader * result Result) :=
  match fuel with
  | O => None
  | S f =>
      match ctx_err wanted with
      | Some e => Some (r, Err e)
      | None =>
          if limit <? Z.of_nat wanted then
            res ← ParseFromReader (Some r); Some (r, Ok res)
          else
            let '(r, raw, short) := reader_Peek r wanted in
            p ← parse raw;
            let '(res, state) := p in
            if negb (bool_decide (state = parseIncomplete)) || (limit <=? Z.of_nat (length raw))
            then Some (r, Ok res)
            else if short : bool then Some (r, Ok res)
            else peek_loop f limit ctx_err r (S wanted)
      end
  end.

(** [Peek]: [conn] is [None] for the nil connection, [deadline_err] the error of
    [SetReadDeadline].  The limit bounds the rounds. *)
Definition Peek (limits : Limits) (ctx_err : nat → option error) (deadline_err : option error)
    (conn : option (list bytes)) : option (option Reader * result Result) :=
  match conn with
  | None => Some (None, errorf "sniff connection is required")
  | Some conn =>
      if lim_bytes limits <? 1 then Some (None, errorf "sniff byte limit must be positive")
      else if lim_timeout limits <=? 0 then Some (None, errorf "sniff timeout must be positive")
      else
        let reader := NewReaderSize conn (lim_bytes limits) in
        match deadline_err with
        | Some e => Some (Some reader, Err e)
        | None =>
            r ← peek_loop (S (S (Z.to_nat (lim_bytes limits)))) (lim_bytes limits) ctx_err reader 1;
            Some (Some r.1, r.2)
        end
  end.

(** ** The stream behind a reader *)

Definition stream (r : Reader) : bytes := rd_buf r ++ mjoin (rd_conn r).

Lemma fill_stream r r' : fill r = Some r' → stream r' = stream r ∧ rd_size r' = rd_size r.
Proof.
  unfold fill, stream. destruct (rd_conn r) as [|seg rest] eqn:E; [done|].
  destruct (_ <=? _)%nat; intros [= <-]; simpl; rewrite <- app_assoc; [done|].
  split; [|done]. f_equal. by rewrite app_assoc, take_drop.
Qed.

Lemma fill_bounded r r' :
  fill r = Some r' → (length (rd_buf r) ≤ rd_size r)%nat → (length (rd_buf r') ≤ rd_size r')%nat.
Proof.
  unfold fill. destruct (rd_conn r) as [|seg rest]; [done|].
  destruct (_ <=? _)%nat eqn:E; bools; intros [= <-] Hb; simpl; rewrite length_app, ?length_take; lia.
Qed.

(** Filling ends with enough bytes, or with all there are. *)
Lemma peek_fill_spec fuel r n :
  (length (rd_conn r) < fuel)%nat → (n ≤ rd_size r)%nat → (length (rd_buf r) ≤ rd_size r)%nat →
  let r' := peek_fill fuel r n in
  stream r' = stream r ∧ rd_size r' = rd_size r ∧ (length (rd_buf r') ≤ rd_size r')%nat ∧
  ((n ≤ length (rd_buf r'))%nat ∨ rd_buf r' = stream r).
Proof.
  revert r. induction fuel as [|f IH]; intros r Hf Hn Hb; [lia|]. cbn [peek_fill].
  destruct (length (rd_buf r) <? n)%nat eqn:E1; bools; cbn [andb].
  2:{ repeat split; [done|]. by left. }
  rewrite (proj2 (Nat.ltb_lt (length (rd_buf r)) (rd_size r))) by lia.
  destruct (fill r) as [r1|] eqn:Hfill.
  - pose proof (fill_stream _ _ Hfill) as [Hs Hz]. pose proof (fill_bounded _ _ Hfill Hb) as Hb1.
    destruct (decide (length (rd_conn r1) < f)%nat) as [Hlt|Hge].
    + destruct (IH r1 Hlt) as (G1 & G2 & G3 & G4); [by rewrite Hz|done|].
      rewrite <- Hs. split; [done|]. split; [congruence|]. done.
    + (* the segment did not fit: the buffer is full *)
      assert (Hfull : length (rd_buf r1) = rd_size r1).
      { unfold fill in Hfill. destruct (rd_conn r) as [|seg rest] eqn:Ec; [done|].
        destruct (_ <=? _)%nat eqn:E2; bools; simplify_eq; simpl in *; [lia|].
        rewrite length_app, length_take. lia. }
      assert (Hstop : peek_fill f r1 n = r1).
      { destruct f; [done|]. cbn [peek_fill]. rewrite (proj2 (Nat.ltb_ge (length (rd_buf r1)) n)) by lia. done. }
      simpl. rewrite Hstop. split; [done|]. split; [done|]. split; [done|]. left. lia.
  - repeat split; [done|]. right. unfold fill in Hfill. unfold stream. destruct (rd_conn r); [|by destruct (_ <=? _)%nat]. simpl. by rewrite app_nil_r.
Qed.

Lemma reader_Peek_spec r n :
  (n ≤ rd_size r)%nat → (length (rd_buf r) ≤ rd_size r)%nat →
  let '(r', raw, short) := reader_Peek r n in
  stream r' = stream r ∧ rd_size r' = rd_size r ∧ (length (rd_buf r') ≤ rd_size r')%nat ∧
  raw = take n (stream r) ∧ short = (length (stream r) <? n)%nat.
Proof.
  intros Hn Hb. unfold reader_Peek.
  destruct (peek_fill_spec (S (length (rd_conn r))) r n) as (H1 & H2 & H3 & H4); [lia|done|done|].
  set (r' := peek_fill _ r n) in *. split; [done|]. split; [done|]. split; [done|].
  rewrite <- H1 in H4 |- *. unfold stream in *. destruct H4 as [H4|H4].
  - rewrite take_app_le by done. split; [done|].
    rewrite (proj2 (Nat.ltb_ge (length (rd_buf r')) n)) by done.
    rewrite (proj2 (Nat.ltb_ge _ n)); [done|]. rewrite length_app. lia.
  - by rewrite <- H4.
Qed.

(** ** The answer of the loop *)

Definition limit_ok (limit : Z) (r : Reader) : Prop :=
  1 ≤ limit ∧ (Z.to_nat limit ≤ rd_size r)%nat ∧ (length (rd_buf r) ≤ rd_size r)%nat.

Lemma peek_loop_spec fuel limit r wanted res st :
  limit_ok limit r → (1 ≤ wanted)%nat → Z.of_nat wanted ≤ limit →
  (Z.to_nat limit < fuel + wanted)%nat →
  parse (take (Z.to_nat limit) (stream r)) = Some (res, st) →
  ∃ r', peek_loop fuel limit (λ _, None) r wanted = Some (r', Ok res) ∧ stream r' = stream r.
Proof.
  revert r wanted. induction fuel as [|f IH]; intros r wanted (Hl & Hz & Hb) Hw Hwl Hf Hp; [lia|].
  cbn [peek_loop]. rewrite (proj2 (Z.ltb_ge limit _)) by lia.
  pose proof (reader_Peek_spec r wanted ltac:(lia) Hb) as Hpeek.
  destruct (reader_Peek r wanted) as [[r1 raw] short]. destruct Hpeek as (H1 & H2 & H3 & -> & ->).
  destruct (parse_total (take wanted (stream r))) as [[res1 st1] Hp1]. rewrite Hp1.
  cbn [mbind option_bind].
  assert (Hsplit : take (Z.to_nat limit) (stream r) =
    take wanted (stream r) ++ take (Z.to_nat limit - wanted) (drop wanted (stream r))).
  { by apply take_split; [lia|]. }
  destruct (bool_decide (st1 = parseIncomplete)) eqn:Est; bools; cbn [negb orb].
  2:{ rewrite Hsplit, (parse_stable _ _ _ _ Hp1 Est) in Hp. simplify_eq. eauto. }
  destruct (limit <=? _) eqn:El; bools.
  { rewrite length_take in El. assert (Z.to_nat limit = wanted) as Heq by lia.
    rewrite Heq, Hp1 in Hp. simplify_eq. eauto. }
  destruct (length (stream r) <? wanted)%nat eqn:Es; bools.
  { rewrite take_ge in Hp, Hp1 by lia. simplify_eq. eauto. }
  rewrite length_take in El. destruct (IH r1 (S wanted)) as (r' & Hr & Hs).
  - split; [done|]. split; [by rewrite H2|done].
  - lia.
  - lia.
  - lia.
  - by rewrite H1.
  - exists r'. split; [done|]. by rewrite Hs.
Qed.

(** [Peek] answers with the parse of the first [limits.Bytes] bytes of the
    connection, or of all it delivers before the deadline if there are fewer,
    however the bytes are split into segments; it ends, and the reader it returns
    still yields the whole stream, so nothing the client sent is lost. *)
Theorem Peek_parses_prefix (limits : Limits) (conn : list bytes) :
  1 ≤ lim_bytes limits → 0 < lim_timeout limits →
  ∃ r res st,
    Peek limits (λ _, None) None (Some conn) = Some (Some r, Ok res) ∧
    parse (take (Z.to_nat (lim_bytes limits)) (mjoin conn)) = Some (res, st) ∧
    stream r = mjoin conn.
Proof.
  intros Hl Ht. unfold Peek. rewrite (proj2 (Z.ltb_ge _ 1)), (proj2 (Z.leb_gt _ 0)) by lia.
  destruct (parse_total (take (Z.to_nat (lim_bytes limits)) (mjoin conn))) as [[res st] Hp].
  destruct (peek_loop_spec (S (S (Z.to_nat (lim_bytes limits)))) (lim_bytes limits)
    (NewReaderSize conn (lim_bytes limits)) 1 res st) as (r & Hr & Hs); try lia.
  - split; [done|]. simpl. lia.
  - done.
  - rewrite Hr. cbn [mbind option_bind]. exists r, res, st. done.
Qed.

Lemma Peek_parses_prefix_witness :
  ∃ r res, Peek (mkLim 64 Second) (λ _, None) None
             (Some [str "GET / HT"; str "TP/1.1" ++ [13]; [10] ++ str "Host: a.cn" ++ [13; 10; 13; 10]]) =
           Some (Some r, Ok res) ∧ r_domain res = str "a.cn".
Proof.
  destruct (Peek_parses_prefix (mkLim 64 Second)
    [str "GET / HT"; str "TP/1.1" ++ [13]; [10] ++ str "Host: a.cn" ++ [13; 10; 13; 10]])
    as (r & res & st & H1 & H2 & _); [simpl; lia|reflexivity|].
  exists r, res. split; [exact H1|]. vm_compute in H2. injection H2 as <- _. reflexivity.
Defined.
