(* ===== verification/SniffHello.v ===== *)
(** * TLS ClientHello messages

    An encoder of ClientHello records (RFC 8446, section 4.1.2, with the server
    name extension of RFC 6066) as a reference for [parseTLS]: what a client
    encodes, the sniffer reads back. *)

From S2P Require Import Prelude GoStrings GoNet Domains SniffParse.

Record ClientHello := mkHello {
  ch_head : bytes;                      (* legacy version and random, 34 bytes *)
  ch_session : bytes;
  ch_ciphers : bytes;
  ch_compression : bytes;
  ch_extensions : list (Z * bytes) }.   (* type and data *)

Definition vec1 (d : bytes) : bytes := Z.of_nat (length d) :: d.
Definition vec2 (d : bytes) : bytes := put_u16 (Z.of_nat (length d)) ++ d.

Definition enc_extension (e : Z * bytes) : bytes := put_u16 e.1 ++ vec2 e.2.

(** The data of a server name extension with one host name. *)
Definition enc_server_name (name : bytes) : bytes := vec2 ([0] ++ vec2 name).

Definition enc_body (h : ClientHello) : bytes :=
  ch_head h ++ vec1 (ch_session h) ++ vec2 (ch_ciphers h) ++ vec1 (ch_compression h)
  ++ vec2 (mjoin (enc_extension <$> ch_extensions h)).

Definition put_u24 (v : Z) : bytes := [u8 (Z.shiftr v 16); u8 (Z.shiftr v 8); u8 v].

Definition enc_handshake (h : ClientHello) : bytes :=
  [1] ++ put_u24 (Z.of_nat (length (enc_body h))) ++ enc_body h.

Definition enc_record (major minor : Z) (h : ClientHello) : bytes :=
  [22; major; minor] ++ vec2 (enc_handshake h).

Record hello_ok (h : ClientHello) : Prop := {
  ho_head : length (ch_head h) = 34%nat;
  ho_session : (length (ch_session h) < 256)%nat;
  ho_ciphers : Z.of_nat (length (ch_ciphers h)) < 2 ^ 16;
  ho_compression : (length (ch_compression h) < 256)%nat;
  ho_extensions : Forall (λ e, 0 ≤ e.1 < 2 ^ 16 ∧ Z.of_nat (length e.2) < 2 ^ 16) (ch_extensions h);
  ho_total : Z.of_nat (length (mjoin (enc_extension <$> ch_extensions h))) < 2 ^ 16;
  ho_record : Z.of_nat (length (enc_handshake h)) < 2 ^ 16 }.

(** The reading of a decoded extension list. *)
Fixpoint read_extensions (exts : list (Z * bytes)) (seen : bool) (domain : bytes) (ech : bool)
  : option (option (bytes * bool)) :=
  match exts with
  | [] => Some (Some (domain, ech))
  | (t, data) :: exts' =>
      if t =? 0 then
        if seen then Some None else
        name ← parseServerName data;
        if bool_decide (name = []) then Some None else read_extensions exts' true name ech
      else read_extensions exts' seen domain (ech || (t =? 65037))
  end.

#[local] Arguments Nat.add : simpl never.
#[local] Arguments Nat.ltb : simpl never.
#[local] Arguments Nat.leb : simpl never.
#[local] Arguments Nat.sub : simpl never.

Lemma be_put_u16' v : 0 ≤ v < 2 ^ 16 → be_u16 (put_u16 v) = Some v.
Proof. intros H. pose proof (be_put_u16 v [] H) as Hb. by rewrite app_nil_r in Hb. Qed.

Lemma length_vec1 d : length (vec1 d) = S (length d).
Proof. done. Qed.
Lemma length_vec2 d : length (vec2 d) = (2 + length d)%nat.
Proof. unfold vec2. rewrite length_app. done. Qed.

(** Reading the two-byte length of a vector, and its content. *)
Lemma read_vec2 p d q :
  Z.of_nat (length d) < 2 ^ 16 →
  slice (p ++ vec2 d ++ q) (length p) (length p + 2) = Some (put_u16 (Z.of_nat (length d))) ∧
  slice (p ++ vec2 d ++ q) (length p + 2) (length p + 2 + length d) = Some d.
Proof.
  intros Hd. unfold vec2. split.
  - rewrite <- app_assoc. apply slice_app; [done|]. by rewrite length_put_u16.
  - replace (p ++ (put_u16 (Z.of_nat (length d)) ++ d) ++ q)
      with ((p ++ put_u16 (Z.of_nat (length d))) ++ d ++ q) by (by rewrite <- !app_assoc).
    apply slice_app; rewrite length_app, length_put_u16; lia.
Qed.

Lemma skip_vec1 p d q : (length d < 256)%nat →
  skipVector (p ++ vec1 d ++ q) (length p) 1 = Some (Some (length p + length (vec1 d))%nat).
Proof.
  intros Hd. unfold skipVector. cbn [Nat.eqb negb andb].
  rewrite !length_app, length_vec1, (proj2 (Nat.ltb_ge _ _)) by lia.
  change (vec1 d ++ q) with (Z.of_nat (length d) :: d ++ q).
  rewrite lookup_app_mid by done. cbn [mbind option_bind]. rewrite Nat2Z.id.
  rewrite (proj2 (Nat.ltb_ge _ _)) by lia. do 2 f_equal. lia.
Qed.

Lemma skip_vec2 p d q : Z.of_nat (length d) < 2 ^ 16 →
  skipVector (p ++ vec2 d ++ q) (length p) 2 = Some (Some (length p + length (vec2 d))%nat).
Proof.
  intros Hd. unfold skipVector. cbn [Nat.eqb negb andb].
  rewrite !length_app, length_vec2, (proj2 (Nat.ltb_ge _ _)) by lia.
  destruct (read_vec2 p d q Hd) as [-> _]. cbn [mbind option_bind].
  rewrite be_put_u16' by lia. cbn [mbind option_bind]. rewrite Nat2Z.id.
  rewrite (proj2 (Nat.ltb_ge _ _)) by lia. do 2 f_equal. lia.
Qed.

Lemma length_enc_extension e : length (enc_extension e) = (4 + length e.2)%nat.
Proof. unfold enc_extension. rewrite length_app, length_vec2, length_put_u16. lia. Qed.

(** The extension loop on encoded extensions. *)
Lemma extensions_loop_enc ext p exts fuel seen d ech :
  ext = p ++ mjoin (enc_extension <$> exts) → (length ext - length p ≤ fuel)%nat →
  Forall (λ e, 0 ≤ e.1 < 2 ^ 16 ∧ Z.of_nat (length e.2) < 2 ^ 16) exts →
  extensions_loop fuel ext (length p) seen d ech = read_extensions exts seen d ech.
Proof.
  intros Hext Hf Hexts. revert p fuel seen d ech Hext Hf.
  induction Hexts as [|[t data] exts [Ht Hd] _ IH]; intros p fuel seen d ech Hext Hf;
    cbn [fst snd read_extensions] in *.
  { simpl in Hext. rewrite app_nil_r in Hext. subst.
    destruct fuel; cbn [extensions_loop]; by rewrite Nat.leb_refl. }
  rewrite fmap_cons, mjoin_cons in Hext. set (rest := mjoin (enc_extension <$> exts)) in *.
  assert (Hlen : length ext = (length p + (4 + length data) + length rest)%nat).
  { rewrite Hext, !length_app, length_enc_extension. simpl. lia. }
  destruct fuel as [|f]; [lia|]. cbn [extensions_loop].
  rewrite (proj2 (Nat.leb_gt _ _)), (proj2 (Nat.ltb_ge _ _)) by lia.
  assert (Hs1 : slice ext (length p) (length p + 2) = Some (put_u16 t)).
  { rewrite Hext. unfold enc_extension. cbn [fst snd]. rewrite <- app_assoc.
    apply slice_app; [done|]. by rewrite length_put_u16. }
  assert (Hext2 : ext = (p ++ put_u16 t) ++ vec2 data ++ rest).
  { rewrite Hext. unfold enc_extension. cbn [fst snd]. by rewrite <- !app_assoc. }
  destruct (read_vec2 (p ++ put_u16 t) data rest Hd) as [Hs2 Hs3]. rewrite <- Hext2 in Hs2, Hs3.
  rewrite length_app, length_put_u16 in Hs2, Hs3.
  replace (length p + 2 + 2)%nat with (length p + 4)%nat in * by lia.
  rewrite Hs1. cbn [mbind option_bind]. rewrite be_put_u16' by done. cbn [mbind option_bind].
  rewrite Hs2. cbn [mbind option_bind]. rewrite be_put_u16' by lia. cbn [mbind option_bind].
  rewrite Nat2Z.id, (proj2 (Nat.ltb_ge _ (length data))) by lia.
  replace (length p + 4 + length data)%nat with (length (p ++ enc_extension (t, data)))
    in * by (rewrite length_app, length_enc_extension; simpl; lia).
  assert (Hrec : ∀ seen d ech, extensions_loop f ext (length (p ++ enc_extension (t, data))) seen d ech =
                               read_extensions exts seen d ech).
  { intros. apply IH; [by rewrite Hext, <- app_assoc|].
    rewrite length_app, length_enc_extension. simpl. lia. }
  destruct (t =? 0); [|apply Hrec]. destruct seen; [done|].
  rewrite Hs3. cbn [mbind option_bind]. destruct (parseServerName data) as [n|]; [|done].
  cbn [mbind option_bind]. case_bool_decide; [done|apply Hrec].
Qed.

(** A server name extension is read back. *)
Lemma parseServerName_enc name d :
  Z.of_nat (length name) + 3 < 2 ^ 16 → NormalizeDomain name = Ok d →
  parseServerName (enc_server_name name) = Some d.
Proof.
  intros Hl Hd. unfold parseServerName, enc_server_name.
  set (body := [0] ++ vec2 name).
  assert (Hb : length body = (3 + length name)%nat) by (unfold body; rewrite length_app, length_vec2; simpl; lia).
  rewrite length_vec2, Hb, (proj2 (Nat.ltb_ge _ 2)) by lia.
  destruct (read_vec2 [] body []) as [Hs _]; [lia|]. rewrite app_nil_r in Hs.
  change (slice (vec2 body) 0 2 = Some (put_u16 (Z.of_nat (length body)))) in Hs. rewrite Hs.
  cbn [mbind option_bind]. rewrite be_put_u16' by lia. cbn [mbind option_bind].
  rewrite Nat2Z.id, Hb, (proj2 (Nat.eqb_eq _ _)) by lia. cbn [negb].
  assert (Hraw : vec2 body = (put_u16 (Z.of_nat (length body)) ++ [0]) ++ vec2 name ++ []).
  { rewrite app_nil_r. unfold vec2 at 1, body at 2. by rewrite <- app_assoc. }
  destruct (read_vec2 (put_u16 (Z.of_nat (length body)) ++ [0]) name []) as [Hs1 Hs2]; [lia|].
  rewrite <- Hraw in Hs1, Hs2. rewrite length_app, length_put_u16 in Hs1, Hs2.
  change (2 + length [0%Z])%nat with 3%nat in *. change (3 + 2)%nat with 5%nat in *.
  assert (H0 : vec2 body !! 2%nat = Some 0) by (unfold vec2, body; done).
  destruct (2 + (3 + length name))%nat as [|f] eqn:Ef; [lia|]. cbn [server_name_loop].
  rewrite length_vec2, Hb, (proj2 (Nat.leb_gt _ 2)), (proj2 (Nat.ltb_ge _ _)) by lia.
  rewrite H0. cbn [mbind option_bind]. change (2 + 1)%nat with 3%nat. change (2 + 3)%nat with 5%nat.
  rewrite Hs1. cbn [mbind option_bind]. rewrite be_put_u16' by lia. cbn [mbind option_bind].
  rewrite Nat2Z.id, (proj2 (Nat.ltb_ge _ (length name))) by lia. cbn [Z.eqb].
  rewrite Hs2. cbn [mbind option_bind]. by rewrite Hd.
Qed.

Lemma u24_read v : 0 ≤ v < 2 ^ 16 →
  Z.lor (Z.lor (Z.shiftl (u8 (Z.shiftr v 16)) 16) (Z.shiftl (u8 (Z.shiftr v 8)) 8)) (u8 v) = v.
Proof.
  intros Hv. replace (Z.shiftr v 16) with 0 by (rewrite Z.shiftr_div_pow2, Z.div_small; lia).
  change (Z.shiftl (u8 0) 16) with 0. rewrite Z.lor_0_l, Z.lor_comm.
  pose proof (be_put_u16' v Hv) as H. unfold put_u16, be_u16 in H. by injection H.
Qed.

Lemma parse_hello_enc h :
  hello_ok h →
  parse_hello (enc_body h) =
  match read_extensions (ch_extensions h) false [] false with
  | Some (Some (d, ech)) => Some (mkResult d (str "tls") true ech, parseComplete)
  | Some None => invalid
  | None => None
  end.
Proof.
  intros [Hh Hs Hc Hz He Ht _]. unfold parse_hello, enc_body.
  set (E := mjoin (enc_extension <$> ch_extensions h)) in *.
  set (p1 := ch_head h). set (p2 := p1 ++ vec1 (ch_session h)). set (p3 := p2 ++ vec2 (ch_ciphers h)).
  set (p4 := p3 ++ vec1 (ch_compression h)).
  set (body := p1 ++ vec1 (ch_session h) ++ vec2 (ch_ciphers h) ++ vec1 (ch_compression h) ++ vec2 E).
  assert (B2 : body = p2 ++ vec2 (ch_ciphers h) ++ vec1 (ch_compression h) ++ vec2 E)
    by (unfold body, p2; by rewrite <- !app_assoc).
  assert (B3 : body = p3 ++ vec1 (ch_compression h) ++ vec2 E)
    by (rewrite B2; unfold p3; by rewrite <- !app_assoc).
  assert (B4 : body = p4 ++ vec2 E ++ []) by (rewrite B3, app_nil_r; unfold p4; by rewrite <- !app_assoc).
  assert (K1 : skipVector body 34 1 = Some (Some (length p2))).
  { replace 34%nat with (length p1) by done. unfold body. rewrite skip_vec1 by done.
    unfold p2. by rewrite length_app. }
  assert (K2 : skipVector body (length p2) 2 = Some (Some (length p3))).
  { rewrite B2, skip_vec2 by done. unfold p3. by rewrite length_app. }
  assert (K3 : skipVector body (length p3) 1 = Some (Some (length p4))).
  { rewrite B3, skip_vec1 by done. unfold p4. by rewrite length_app. }
  rewrite K1. cbn [mbind option_bind]. rewrite K2. cbn [mbind option_bind].
  rewrite K3. cbn [mbind option_bind].
  assert (Hlen : length body = (length p4 + (2 + length E))%nat).
  { rewrite B4, app_nil_r, length_app, length_vec2. done. }
  destruct (read_vec2 p4 E [] Ht) as [S1 S2]. rewrite <- B4 in S1, S2.
  rewrite Hlen, (proj2 (Nat.ltb_ge _ _)) by lia. rewrite S1. cbn [mbind option_bind].
  rewrite be_put_u16' by lia. cbn [mbind option_bind].
  rewrite Nat2Z.id, (proj2 (Nat.ltb_ge _ (length E))), S2 by lia. cbn [mbind option_bind].
  rewrite (extensions_loop_enc E [] (ch_extensions h) (length E)) by (done || simpl; lia).
  by destruct (read_extensions _ _ _ _) as [[[d e]|]|].
Qed.

Lemma parse_handshake_enc h : hello_ok h → parse_record (enc_handshake h) = parse_hello (enc_body h).
Proof.
  intros [Hh _ _ _ _ _ Hr].
  assert (Hb : (34 ≤ length (enc_body h))%nat) by (unfold enc_body; rewrite length_app; lia).
  set (n := Z.of_nat (length (enc_body h))).
  assert (Hl : length (enc_handshake h) = (4 + length (enc_body h))%nat).
  { unfold enc_handshake. rewrite !length_app. simpl. lia. }
  assert (Hs : slice (enc_handshake h) 4 (4 + length (enc_body h)) = Some (enc_body h)).
  { replace (enc_handshake h) with (([1] ++ put_u24 n) ++ enc_body h ++ [])
      by (by rewrite app_nil_r, <- app_assoc). by apply slice_app. }
  assert (L : enc_handshake h !! 0%nat = Some 1 ∧ enc_handshake h !! 1%nat = Some (u8 (Z.shiftr n 16)) ∧
    enc_handshake h !! 2%nat = Some (u8 (Z.shiftr n 8)) ∧ enc_handshake h !! 3%nat = Some (u8 n)) by done.
  destruct L as (L0 & L1 & L2 & L3). unfold parse_record.
  rewrite L0, L1, L2, L3, Hl. cbn [mbind option_bind]. rewrite Z.eqb_refl. cbn [negb orb].
  rewrite (proj2 (Nat.ltb_ge _ 4)), u24_read by lia. unfold n at 1 2 3. rewrite !Nat2Z.id.
  rewrite (proj2 (Nat.ltb_ge _ (length (enc_body h)))), (proj2 (Nat.ltb_ge _ 34)), Hs by lia. done.
Qed.

Lemma parse_record_enc major minor h :
  hello_ok h → parse (enc_record major minor h) = parse_hello (enc_body h).
Proof.
  intros Ho. rewrite <- parse_handshake_enc by done. pose proof (ho_record _ Ho) as Hr.
  assert (Hl : (4 ≤ length (enc_handshake h))%nat).
  { unfold enc_handshake. rewrite !length_app. simpl. lia. }
  change (parse (enc_record major minor h)) with (parseTLS ([22; major; minor] ++ vec2 (enc_handshake h))).
  destruct (read_vec2 [22; major; minor] (enc_handshake h) [] Hr) as [S1 S2].
  rewrite app_nil_r in S1, S2. change (length [22; major; minor]) with 3%nat in S1, S2.
  change (3 + 2)%nat with 5%nat in S1, S2.
  unfold parseTLS. rewrite S1, length_app, length_vec2.
  change (length [22; major; minor]) with 3%nat. rewrite (proj2 (Nat.ltb_ge _ 5)) by lia.
  change (([22; major; minor] ++ vec2 (enc_handshake h)) !! 0%nat) with (Some 22).
  cbn [mbind option_bind]. rewrite be_put_u16' by lia. cbn [mbind option_bind]. rewrite Nat2Z.id.
  change (negb (22 =? 22)) with false. cbv iota.
  rewrite (proj2 (Nat.ltb_ge _ 4)), (proj2 (Nat.ltb_ge _ _)), S2 by lia. done.
Qed.

Lemma read_extensions_other exts seen d ech :
  Forall (λ e, e.1 ≠ 0) exts →
  read_extensions exts seen d ech =
  Some (Some (d, ech || existsb (λ e, e.1 =? 65037) exts)).
Proof.
  intros H. revert seen d ech. induction H as [|[t data] exts Ht _ IH]; intros seen d ech; simpl.
  - by rewrite orb_false_r.
  - simpl in Ht. rewrite (proj2 (Z.eqb_neq t 0)) by done. by rewrite IH, orb_assoc.
Qed.

Lemma read_extensions_app xs ys seen d ech :
  Forall (λ e, e.1 ≠ 0) xs →
  read_extensions (xs ++ ys) seen d ech =
  read_extensions ys seen d (ech || existsb (λ e, e.1 =? 65037) xs).
Proof.
  intros H. revert seen d ech. induction H as [|[t data] exts Ht _ IH]; intros seen d ech; simpl.
  - by rewrite orb_false_r.
  - simpl in Ht. rewrite (proj2 (Z.eqb_neq t 0)) by done. by rewrite IH, orb_assoc.
Qed.

(** C24: what a TLS client announces is what the sniffer reports: for every
    well-formed ClientHello record whose extensions contain one server name with
    a valid host name, among any other extensions in any order, the parser
    returns that name in normal form, marks the result complete, and sets the ECH
    flag exactly when an encrypted_client_hello extension is present. *)
Theorem sniffed_name_is_announced_name (major minor : Z) (h : ClientHello)
    (before after : list (Z * bytes)) (name domain : bytes) :
  hello_ok h → ch_extensions h = before ++ [(0, enc_server_name name)] ++ after →
  Forall (λ e, e.1 ≠ 0) (before ++ after) →
  Z.of_nat (length name) + 3 < 2 ^ 16 → NormalizeDomain name = Ok domain →
  parse (enc_record major minor h) =
  Some (mkResult domain (str "tls") true (existsb (λ e, e.1 =? 65037) (before ++ after)), parseComplete).
Proof.
  intros Ho Hx Hne Hl Hd. apply Forall_app in Hne as [Hb Ha].
  assert (Hdne : domain ≠ []).
  { apply NormalizeDomain_Ok in Hd as [_ [Hlen _]]. intros ->. simpl in Hlen. lia. }
  rewrite parse_record_enc, parse_hello_enc, Hx by done. rewrite read_extensions_app by done.
  cbn [app read_extensions]. rewrite Z.eqb_refl. rewrite (parseServerName_enc name domain) by done.
  cbn [mbind option_bind]. rewrite bool_decide_false by done.
  rewrite read_extensions_other by done. by rewrite existsb_app.
Qed.

Definition sample_hello : ClientHello :=
  mkHello (replicate 34 7) [1; 2; 3] [19; 1; 19; 2] [0]
    [(43, [2; 3; 4]); (0, enc_server_name (str "WWW.Example.com")); (65037, [0])].

Lemma sniffed_name_is_announced_name_witness :
  parse (enc_record 3 1 sample_hello) =
  Some (mkResult (str "www.example.com") (str "tls") true true, parseComplete).
Proof.
  apply (sniffed_name_is_announced_name 3 1 sample_hello [(43, [2; 3; 4])] [(65037, [0])]
           (str "WWW.Example.com")).
  - constructor; vm_compute; try reflexivity; try (repeat constructor; discriminate).
  - reflexivity.
  - repeat constructor; discriminate.
  - vm_compute. reflexivity.
  - vm_compute. reflexivity.
Defined.
