(* ===== verification/DnsMsg.v ===== *)
(** * DNS messages

    The parts of a [dns.Msg] of the miekg/dns library that the program reads and
    writes, and the interface to the library functions it calls: their documented
    behaviour is stated as laws, and an instance shows that the laws can hold. *)

From S2P Require Import Prelude GoStrings GoNet.

Definition TypeA : Z := 1.
Definition TypeAAAA : Z := 28.
Definition ClassINET : Z := 1.
Definition RcodeSuccess : Z := 0.
Definition RcodeFormatError : Z := 1.
Definition RcodeServerFailure : Z := 2.
Definition RcodeNotImplemented : Z := 4.

Record Question := mkQuestion { q_name : bytes; q_type : Z; q_class : Z }.

(** A resource record: an A record with its TTL and address bytes, or another
    record, kept as an identity. *)
Inductive RR := ARecord (ttl : Z) (a : bytes) | OtherRR (id : Z).

(** [msg_rest] stands for the header bits and sections the program only copies. *)
Record Msg := mkMsg {
  msg_id : Z; msg_rcode : Z; msg_question : list Question; msg_answer : list RR; msg_rest : Z }.

#[export] Instance Question_eq_dec : EqDecision Question.
Proof. solve_decision. Defined.
#[export] Instance RR_eq_dec : EqDecision RR.
Proof. solve_decision. Defined.
#[export] Instance Msg_eq_dec : EqDecision Msg.
Proof. solve_decision. Defined.

#[export] Instance Question_countable : Countable Question.
Proof.
  refine (inj_countable' (λ q, (q_name q, q_type q, q_class q)) (λ '(n, t, c), mkQuestion n t c) _).
  by intros [].
Defined.
#[export] Instance RR_countable : Countable RR.
Proof.
  refine (inj_countable' (λ r, match r with ARecord t a => inl (t, a) | OtherRR i => inr i end)
            (λ x, match x with inl (t, a) => ARecord t a | inr i => OtherRR i end) _).
  by intros [].
Defined.
#[export] Instance Msg_countable : Countable Msg.
Proof.
  refine (inj_countable' (λ m, (msg_id m, msg_rcode m, msg_question m, msg_answer m, msg_rest m))
            (λ '(i, r, q, a, x), mkMsg i r q a x) _).
  by intros [].
Defined.

Definition new_Msg : Msg := mkMsg 0 0 [] [] 0.

Definition set_id (m : Msg) (id : Z) : Msg :=
  mkMsg id (msg_rcode m) (msg_question m) (msg_answer m) (msg_rest m).
Definition set_rcode (m : Msg) (rcode : Z) : Msg :=
  mkMsg (msg_id m) rcode (msg_question m) (msg_answer m) (msg_rest m).
Definition set_question (m : Msg) (q : list Question) : Msg :=
  mkMsg (msg_id m) (msg_rcode m) q (msg_answer m) (msg_rest m).

(** The library functions the program calls. *)
Class DnsLib := {
  SetReply : Msg → Msg;            (* new(dns.Msg).SetReply(request) *)
  Pack : Msg → result bytes;
  Unpack : bytes → result Msg }.

(** Documented behaviour: a reply to a message carries its id and first question
    and no answer; unpacking the wire form of a message gives the message. *)
Class DnsLaws `{!DnsLib} := {
  SetReply_id m : msg_id (SetReply m) = msg_id m;
  SetReply_question m : msg_question (SetReply m) = take 1 (msg_question m);
  SetReply_answer m : msg_answer (SetReply m) = [];
  Unpack_Pack m raw : Pack m = Ok raw → Unpack raw = Ok m }.

(** An instance, with a one-symbol wire form. *)
Definition sample_lib : DnsLib := {|
  SetReply m := mkMsg (msg_id m) RcodeSuccess (take 1 (msg_question m)) [] 0;
  Pack m := Ok [Zpos (encode m)];
  Unpack raw := match raw with
                | [Zpos p] => match decode p with Some m => Ok m | None => errorf "unpack" end
                | _ => errorf "unpack"
                end |}.

Lemma sample_lib_laws : @DnsLaws sample_lib.
Proof.
  split; try done. intros m raw [= <-]. simpl. by rewrite decode_encode.
Qed.
