(* ===== verification/Resolver.v ===== *)
(** * The DNS resolver: [internal/dnsproxy/resolver.go], [server.go], [upstream.go]

    A query is answered from the cache, by the domestic or the trusted upstream
    according to the classifier, or, for a name no rule covers, by comparing both
    answers.  The resolver's state is its cache and what its learner has learned;
    every upstream query is recorded, so that the proofs can say who was asked. *)

From S2P Require Import Prelude GoStrings GoNet Domains IPv4Tree Sha256 Dataset GoCodec.
From S2P Require Import Config Classifier GoHeap Lru Learning DnsCache DnsMsg.

Inductive upstream := Domestic | Trusted.

#[export] Instance upstream_eq_dec : EqDecision upstream.
Proof. solve_decision. Defined.

(** An [Exchanger]'s answer to a request: a response ([None] is nil) or an error. *)
Abbreviation exchanger := (Msg → result (option Msg)).

Definition clampDuration (value minimum maximum : duration) : duration :=
  if value <? minimum then minimum else if maximum <? value then maximum else value.

(** The loop of [responseARecords]. *)
Fixpoint a_records (answers : list RR) (addresses : list Addr) (minimum : Z) : list Addr * Z :=
  match answers with
  | [] => (addresses, minimum)
  | OtherRR _ :: answers' => a_records answers' addresses minimum
  | ARecord ttl a :: answers' =>
      match AddrFromSlice a with
      | Some addr =>
          if negb (Is4 addr) then a_records answers' addresses minimum
          else a_records answers' (addresses ++ [addr])
                 (if (minimum =? 0) || (ttl <? minimum) then ttl else minimum)
      | None => a_records answers' addresses minimum
      end
  end.

Definition responseARecords (response : option Msg) : list Addr * duration :=
  match response with
  | None => ([], 0)
  | Some m => let '(addresses, minimum) := a_records (msg_answer m) [] 0 in
              (addresses, minimum * Second)
  end.

Definition domesticAnswerIsChina (classifier : Classifier) (response : option Msg) : bool :=
  let '(addresses, _) := responseARecords response in
  if bool_decide (addresses = []) then false
  else forallb (λ a, bool_decide (dec_source (classify_IP classifier a) = SourceChinaIP)) addresses.

(** What an upstream makes of a copy of the request. *)
Definition upstream_reply (up : exchanger) (request : Msg) : result Msg :=
  match up request with
  | Err e => Err e
  | Ok None => errorf "DNS upstream returned no response"
  | Ok (Some m) => Ok m
  end.

(** [exchange] with one of the two upstreams of the resolver, recorded as asked. *)
Definition exchange (domestic trusted : exchanger) (who : upstream) (request : Msg)
  : list upstream * result Msg :=
  ([who], upstream_reply (match who with Domestic => domestic | Trusted => trusted end) request).

Section resolver.
Context {lib : DnsLib}.
Context {L : Type} (observe : L → Observation → L).

(** [resolver.learner] is [None] when there is none; so are the classifier and
    the upstreams of a resolver that is not configured. *)
Record Resolver := mkResolver {
  res_classifier : option Classifier;
  res_domestic : option exchanger;
  res_trusted : option exchanger;
  res_learner : option L;
  res_cache : Cache Msg;
  res_timeout : duration }.

Definition NewResolver (classifier : option Classifier) (domestic trusted : option exchanger)
    (learner : option L) (cacheEntries : Z) (timeout : duration) : Resolver :=
  let timeout := if timeout <=? 0 then Second else timeout in
  mkResolver classifier domestic trusted learner (NewCache cacheEntries) timeout.

Definition with_state (r : Resolver) (l : option L) (c : Cache Msg) : Resolver :=
  mkResolver (res_classifier r) (res_domestic r) (res_trusted r) l c (res_timeout r).

Definition errorReply (request : option Msg) (rcode : Z) : Msg :=
  set_rcode (match request with Some m => SetReply m | None => new_Msg end) rcode.

(** [resolveUnknown]: both upstreams are asked and both answers awaited. *)
Definition resolveUnknown (classifier : Classifier) (domestic trusted : exchanger) (request : Msg)
  : list upstream * result (Msg * Action) :=
  let '(asked_d, d) := exchange domestic trusted Domestic request in
  let '(asked_t, t) := exchange domestic trusted Trusted request in
  (asked_d ++ asked_t,
   match d with
   | Ok m => if domesticAnswerIsChina classifier (Some m) then Ok (m, Direct)
             else match t with Ok m' => Ok (m', Proxy) | Err e => Err e end
   | Err _ => match t with Ok m' => Ok (m', Proxy) | Err e => Err e end
   end).

Definition learn (learner : option L) (domain : bytes) (action : Action) (response : Msg)
    (now : time) : option L :=
  match learner with
  | None => None
  | Some l =>
      let '(addresses, ttl) := responseARecords (Some response) in
      if bool_decide (addresses = []) || bool_decide (action = Unknown) then Some l
      else Some (observe l (mkObservation domain action addresses
                   (now + clampDuration ttl (30 * Second) (24 * Hour))))
  end.

Definition cache_ttl (response : Msg) : duration :=
  let '(_, ttl) := responseARecords (Some response) in
  if ttl <=? 0 then 60 * Second else clampDuration ttl (30 * Second) (24 * Hour).

Definition cacheResponse (cache : Cache Msg) (question : Question) (response : Msg) (now : time)
  : option (Cache Msg) :=
  Put cache (q_name question) (q_type question) (Some response) (now + cache_ttl response).

(** The upstreams asked about the classified question and the answer, with the
    action to learn. *)
Definition upstream_answer (classifier : Classifier) (domestic trusted : exchanger) (d : Decision)
    (request : Msg) : list upstream * result (Msg * Action) :=
  match dec_source d with
  | SourceDefault => resolveUnknown classifier domestic trusted request
  | SourceExplicitDomain | SourceChinaDomain =>
      let '(asked, answer) :=
        if bool_decide (dec_action d = Direct)
        then exchange domestic trusted Domestic request
        else exchange domestic trusted Trusted request in
      (asked, let? m := answer in Ok (m, dec_action d))
  | _ => ([], errorf "unsupported DNS decision")
  end.

(** [Resolve] with the three readings of the clock; the result has the resolver
    afterwards, the answer and the upstreams asked.  [None] is a panic. *)
Definition Resolve (r : Resolver) (request : option Msg) (now_get now_learn now_put : time)
  : option (Resolver * result Msg * list upstream) :=
  match request with
  | None => Some (r, Ok (errorReply None RcodeFormatError), [])
  | Some req =>
      match msg_question req with
      | [question] =>
          if negb (q_class question =? ClassINET)
          then Some (r, Ok (errorReply request RcodeFormatError), [])
          else if negb (q_type question =? TypeA) && negb (q_type question =? TypeAAAA)
          then Some (r, Ok (errorReply request RcodeNotImplemented), [])
          else if q_type question =? TypeAAAA
          then Some (r, Ok (errorReply request RcodeSuccess), [])
          else
          match Get (res_cache r) (q_name question) (q_type question) now_get with
          | (cache, Some response) =>
              Some (with_state r (res_learner r) cache,
                    Ok (set_question (set_id response (msg_id req)) (msg_question req)), [])
          | (cache, None) =>
              let r := with_state r (res_learner r) cache in
              match res_classifier r, res_domestic r, res_trusted r with
              | Some classifier, Some domestic, Some trusted =>
                  let decision := classify_Domain classifier (q_name question) in
                  match upstream_answer classifier domestic trusted decision req with
                  | (asked, Err e) => Some (r, Err e, asked)
                  | (asked, Ok (response, action)) =>
                      let response := set_question (set_id response (msg_id req)) (msg_question req) in
                      let learner := learn (res_learner r) (dec_domain decision) action response now_learn in
                      cache ← cacheResponse (res_cache r) question response now_put;
                      Some (with_state r learner cache, Ok response, asked)
                  end
              | _, _, _ => Some (r, errorf "DNS resolver is not configured", [])
              end
          end
      | _ => Some (r, Ok (errorReply request RcodeFormatError), [])
      end
  end.

(** ** The server around it *)

Definition isServerClosed (err : option error) : bool :=
  match err with
  | None => true
  | Some e => errors_Is (λ e, bool_decide (e = ENetClosed)) e
  end.

(** [serveDNS]: the message written for a request. *)
Definition serveDNS (r : Resolver) (request : option Msg) (now_get now_learn now_put : time)
  : option (Resolver * Msg) :=
  o ← Resolve r request now_get now_learn now_put;
  let '(r, response, _) := o in
  Some (r, match response with Ok m => m | Err _ => errorReply request RcodeServerFailure end).

(** How a run of the server ends: cancelled, with the errors of the two servers
    after their shutdown, or by the first error of one of them. *)
Inductive serverEnd :=
| Cancelled (first second : option error)
| Failed (err : option error).

Definition server_end (ending : serverEnd) : option error :=
  match ending with
  | Cancelled first second =>
      if isServerClosed first && isServerClosed second then None
      else if negb (isServerClosed first) then first
      else second
  | Failed err => if isServerClosed err then None else err
  end.

(** [NetworkExchanger.Exchange] around the library's exchange. *)
Definition network_Exchange (exchange_context : Msg → result (option Msg)) : exchanger := λ request,
  match exchange_context request with
  | Err e => Err (EWrap "DNS exchange" e)
  | Ok response => Ok response
  end.
End resolver.

Arguments Resolver L : clear implicits.

(** ** Records of a response *)

(** The IPv4 addresses of the A records, in order. *)
Definition rr_ipv4 (r : RR) : option Addr :=
  match r with
  | ARecord _ a => addr ← AddrFromSlice a; if Is4 addr then Some addr else None
  | OtherRR _ => None
  end.
Definition answer_ipv4 (m : Msg) : list Addr := omap rr_ipv4 (msg_answer m).

Lemma a_records_addresses answers acc minimum :
  (a_records answers acc minimum).1 = acc ++ omap rr_ipv4 answers.
Proof.
  revert acc minimum. induction answers as [|[ttl a|id] answers IH]; intros acc minimum; simpl.
  - by rewrite app_nil_r.
  - destruct (AddrFromSlice a) as [addr|]; simpl; [|apply IH].
    destruct (Is4 addr); simpl; [|apply IH]. by rewrite IH, <- app_assoc.
  - apply IH.
Qed.

Lemma responseARecords_addresses m : (responseARecords (Some m)).1 = answer_ipv4 m.
Proof.
  unfold responseARecords. pose proof (a_records_addresses (msg_answer m) [] 0) as H.
  destruct (a_records _ _ _). simpl in *. done.
Qed.

(** The minimum depends on the order of the records when one has a TTL of zero. *)
Example zero_ttl_order :
  (responseARecords (Some (mkMsg 0 0 [] [ARecord 0 [1; 1; 1; 1]; ARecord 300 [1; 1; 1; 2]] 0))).2
    = 300 * Second ∧
  (responseARecords (Some (mkMsg 0 0 [] [ARecord 300 [1; 1; 1; 2]; ARecord 0 [1; 1; 1; 1]] 0))).2 = 0.
Proof. vm_compute. split; reflexivity. Qed.

Lemma domesticAnswerIsChina_spec cl m :
  domesticAnswerIsChina cl (Some m) = true ↔
  answer_ipv4 m ≠ [] ∧ Forall (λ a, dec_source (classify_IP cl a) = SourceChinaIP) (answer_ipv4 m).
Proof.
  unfold domesticAnswerIsChina. pose proof (responseARecords_addresses m) as H.
  destruct (responseARecords (Some m)) as [as_ ttl]. simpl in H. subst.
  case_bool_decide as E; [split; [done|tauto]|]. rewrite forallb_Forall.
  split; [intros Hf; split; [done|]|intros [_ Hf]]; (eapply list.Forall_impl; [exact Hf|]);
    intros a; rewrite bool_decide_eq_true; done.
Qed.

Lemma clampDuration_bounds v lo hi : lo ≤ hi → lo ≤ clampDuration v lo hi ≤ hi.
Proof. intros. unfold clampDuration. destruct (v <? lo) eqn:E1, (hi <? v) eqn:E2; bools; lia. Qed.

Lemma cache_ttl_bounds m : 30 * Second ≤ cache_ttl m ≤ 24 * Hour.
Proof.
  unfold cache_ttl. destruct (responseARecords (Some m)) as [as_ ttl].
  destruct (ttl <=? 0); [vm_compute; split; discriminate|]. apply clampDuration_bounds. done.
Qed.

Section resolver_proofs.
Context {lib : DnsLib} {laws : @DnsLaws lib}.
Context {L : Type} (observe : L → Observation → L).
Implicit Types (r : Resolver L) (req m : Msg).

(** A question the resolver looks up: one IN question of type A. *)
Definition a_question req (q : Question) : Prop :=
  msg_question req = [q] ∧ q_class q = ClassINET ∧ q_type q = TypeA.

(** What [Resolve] does after a cache miss. *)
Lemma Resolve_miss r req q cl d t t1 t2 t3 :
  a_question req q → cache_ok (res_cache r) → 0 < t3 →
  (Get (res_cache r) (q_name q) (q_type q) t1).2 = None →
  res_classifier r = Some cl → res_domestic r = Some d → res_trusted r = Some t →
  let decision := classify_Domain cl (q_name q) in
  match upstream_answer cl d t decision req with
  | (asked, Err e) => ∃ r', Resolve observe r (Some req) t1 t2 t3 = Some (r', Err e, asked) ∧
                   cache_ok (res_cache r') ∧ res_learner r' = res_learner r
  | (asked, Ok (m, action)) =>
      let reply := set_question (set_id m (msg_id req)) (msg_question req) in
      ∃ r', Resolve observe r (Some req) t1 t2 t3 = Some (r', Ok reply, asked) ∧
            cache_ok (res_cache r') ∧
            res_learner r' = learn observe (res_learner r) (dec_domain decision) action reply t2 ∧
            ∀ name now, ToLower name = ToLower (q_name q) →
              (Get (res_cache r') name TypeA now).2 =
              if now <? t3 + cache_ttl reply then Some reply else None
  end.
Proof.
  intros (Hq & Hc & Ht) Hok Ht3 Hmiss Hcl Hd Htr decision. unfold Resolve. rewrite Hq.
  rewrite Hc, Ht, !Z.eqb_refl. cbn [negb andb]. change (TypeA =? TypeAAAA) with false. cbv iota.
  rewrite Ht in Hmiss. pose proof (Get_ok (res_cache r) (q_name q) TypeA t1 Hok) as Hgok.
  destruct (Get (res_cache r) (q_name q) TypeA t1) as [c o]. simpl in Hmiss, Hgok. subst o.
  cbn [with_state res_classifier res_domestic res_trusted res_learner res_cache]. rewrite Hcl, Hd, Htr.
  fold decision. destruct (upstream_answer _ _ _ _ _) as [asked [[m action]|e]].
  - set (reply := set_question _ _).
    assert (Hexp : 0 < t3 + cache_ttl reply).
    { pose proof (cache_ttl_bounds reply). unfold Second, Millisecond in *. lia. }
    unfold cacheResponse. rewrite Ht.
    destruct (Put_effect c (q_name q) TypeA reply _ Hgok Hexp) as (c' & Hput & Hok' & _ & _ & Hent).
    rewrite Hput. cbn [mbind option_bind]. eexists. split; [done|]. split; [done|]. split; [done|].
    intros name now Hn. cbn [with_state res_cache]. unfold Get, cache_key in *. rewrite Hn, Hent.
    rewrite decide_True by done. simpl. by destruct (now <? _).
  - eexists. split; [done|]. by split.
Qed.

(** The upstreams the policy chooses for a name. *)
Definition chosen (cl : Classifier) (name : bytes) : list upstream :=
  let decision := classify_Domain cl name in
  match dec_source decision with
  | SourceDefault => [Domestic; Trusted]
  | SourceExplicitDomain | SourceChinaDomain =>
      if bool_decide (dec_action decision = Direct) then [Domestic] else [Trusted]
  | _ => []
  end.

Lemma upstream_asked cl d t name req :
  (upstream_answer cl d t (classify_Domain cl name) req).1 = chosen cl name.
Proof.
  unfold chosen, upstream_answer. by destruct (dec_source (classify_Domain cl name)); try destruct (bool_decide _).
Qed.

Lemma chosen_by_rules data rules cl name n :
  New data rules = Ok cl → NormalizeDomain name = Ok n →
  (some_rule (explicit_domain_rules rules) Proxy n → chosen cl name = [Trusted]) ∧
  (¬ some_rule (explicit_domain_rules rules) Proxy n →
   some_rule (explicit_domain_rules rules) Direct n ∨ some_rule (china_domain_rules data) Direct n →
   chosen cl name = [Domestic]).
Proof.
  intros Hnew Hn. unfold chosen. rewrite (classify_Domain_spec data rules cl name Hnew).
  unfold domain_spec. rewrite Hn.
  pose proof (rules_action_Proxy (explicit_domain_rules rules) n) as HP.
  pose proof (rules_action_Direct (explicit_domain_rules rules) n) as HD.
  pose proof (rules_action_Direct (china_domain_rules data) n) as CD.
  pose proof (china_only_direct data n) as CP. rewrite rules_action_Proxy in CP. split.
  - intros Hp. apply HP in Hp. by rewrite Hp.
  - intros Hnp Hdir. destruct (rules_action (explicit_domain_rules rules) n) eqn:E; [|done|].
    + destruct (rules_action (china_domain_rules data) n) eqn:E2; [|done|].
      * exfalso. destruct Hdir as [Hx|Hx].
        -- assert (Unknown = Direct); [|done]. by apply HD.
        -- assert (Unknown = Direct); [|done]. apply CD. split; [|done]. exact CP.
      * exfalso. apply CP. by apply rules_action_Proxy.
    + exfalso. apply Hnp. by apply HP.
Qed.

(** The upstreams a query is put to: none for a cached answer, and otherwise those
    the policy chooses. *)
Lemma Resolve_asks_chosen (r : Resolver L) (req : Msg) (q : Question) (cl : Classifier) (d t : exchanger)
    (t1 t2 t3 : time) :
  a_question req q → res_classifier r = Some cl → res_domestic r = Some d → res_trusted r = Some t →
  cache_ok (res_cache r) → 0 < t3 →
  ∃ r' ans, Resolve observe r (Some req) t1 t2 t3 =
    Some (r', ans, match (Get (res_cache r) (q_name q) (q_type q) t1).2 with
                   | Some _ => [] | None => chosen cl (q_name q) end).
Proof.
  intros Hq Hcl Hd Ht Hok Ht3.
  destruct ((Get (res_cache r) (q_name q) (q_type q) t1).2) as [m|] eqn:Hget.
  { destruct Hq as (Hqq & Hqc & Hqt). unfold Resolve. rewrite Hqq, Hqc, Hqt, !Z.eqb_refl in *.
    cbn [negb andb]. change (TypeA =? TypeAAAA) with false. cbv iota.
    destruct (Get _ _ _ _) as [c o]. simpl in Hget. subst o. by do 2 eexists. }
  pose proof (Resolve_miss r req q cl d t t1 t2 t3 Hq Hok Ht3 Hget Hcl Hd Ht) as H. cbv zeta in H.
  rewrite <- (upstream_asked cl d t (q_name q) req).
  destruct (upstream_answer _ _ _ _ _) as [who [[m a]|e]]; destruct H as (r' & -> & _); eauto.
Qed.

(** For a name no rule and no list covers, the domestic answer is used
    exactly when that upstream answered with at least one IPv4 address and every
    one of them is on the China list (an explicit IP rule disqualifies it);
    otherwise the trusted upstream's answer, or its error, is the result.  The
    learned action is direct in the first case and proxy in the second. *)
Theorem resolveUnknown_prefers_china_answers (cl : Classifier) (d t : exchanger) (req : Msg) :
  (∀ m, upstream_reply d req = Ok m → answer_ipv4 m ≠ [] →
        Forall (λ a, dec_source (classify_IP cl a) = SourceChinaIP) (answer_ipv4 m) →
        (resolveUnknown cl d t req).2 = Ok (m, Direct)) ∧
  ((∀ m, upstream_reply d req = Ok m → answer_ipv4 m = [] ∨
         Exists (λ a, dec_source (classify_IP cl a) ≠ SourceChinaIP) (answer_ipv4 m)) →
   (resolveUnknown cl d t req).2 =
   match upstream_reply t req with Ok m => Ok (m, Proxy) | Err e => Err e end).
Proof.
  unfold resolveUnknown, exchange. cbn [snd]. split.
  - intros m -> Hne Hall. by rewrite (proj2 (domesticAnswerIsChina_spec cl m)).
  - intros H. destruct (upstream_reply d req) as [m|e]; [|by destruct (upstream_reply t req)].
    destruct (domesticAnswerIsChina cl (Some m)) eqn:E; [|by destruct (upstream_reply t req)].
    apply domesticAnswerIsChina_spec in E as [Hne Hall]. destruct (H m eq_refl) as [?|Hx]; [done|].
    apply list.Exists_exists in Hx as (a & Ha & Hs). rewrite list.Forall_forall in Hall.
    by destruct (Hs (Hall a Ha)).
Qed.

Lemma errorReply_matches req rcode :
  msg_id (errorReply (Some req) rcode) = msg_id req ∧
  msg_question (errorReply (Some req) rcode) = take 1 (msg_question req) ∧
  msg_rcode (errorReply (Some req) rcode) = rcode ∧ msg_answer (errorReply (Some req) rcode) = [].
Proof.
  unfold errorReply, set_rcode. simpl. by rewrite SetReply_id, SetReply_question, SetReply_answer.
Qed.

(** The code of a question that is refused, or answered with nothing, without a
    lookup. *)
Definition refusal (req : Msg) : option Z :=
  match msg_question req with
  | [q] => if negb (q_class q =? ClassINET) then Some RcodeFormatError
           else if negb (q_type q =? TypeA) && negb (q_type q =? TypeAAAA) then Some RcodeNotImplemented
           else if q_type q =? TypeAAAA then Some RcodeSuccess else None
  | _ => Some RcodeFormatError
  end.

Lemma Resolve_refusal r req rcode t1 t2 t3 :
  refusal req = Some rcode →
  Resolve observe r (Some req) t1 t2 t3 = Some (r, Ok (errorReply (Some req) rcode), []).
Proof.
  unfold refusal, Resolve. destruct (msg_question req) as [|q [|]]; try by intros [= <-].
  destruct (negb (q_class q =? ClassINET)); [by intros [= <-]|].
  destruct (_ && _); [by intros [= <-]|]. by destruct (q_type q =? TypeAAAA); intros [= <-].
Qed.

Lemma refusal_None req :
  refusal req = None → ∃ q, a_question req q.
Proof.
  unfold refusal, a_question. destruct (msg_question req) as [|q [|]]; try done.
  destruct (q_class q =? ClassINET) eqn:E1; [|done]. destruct (q_type q =? TypeA) eqn:E2.
  - intros _. exists q. bools. done.
  - by destruct (q_type q =? TypeAAAA).
Qed.

(** A question that is looked up keeps the cache in order, and a reply carries its
    id and question. *)
Lemma Resolve_lookup r req q t1 t2 t3 :
  a_question req q → cache_ok (res_cache r) → 0 < t3 →
  ∃ r' ans who, Resolve observe r (Some req) t1 t2 t3 = Some (r', ans, who) ∧ cache_ok (res_cache r') ∧
    ∀ m, ans = Ok m → msg_id m = msg_id req ∧ msg_question m = [q].
Proof.
  intros Hq Hok Ht3. pose proof (Get_ok (res_cache r) (q_name q) TypeA t1 Hok) as G.
  destruct (Get (res_cache r) (q_name q) TypeA t1) as [c o] eqn:Hget.
  destruct (res_classifier r) as [cl|] eqn:Hcl, (res_domestic r) as [d|] eqn:Hd,
    (res_trusted r) as [t|] eqn:Ht, o as [m|].
  2: { pose proof (Resolve_miss r req q cl d t t1 t2 t3 Hq Hok Ht3) as H. destruct (Hq) as (Hqq & _ & Ha).
       rewrite Ha, Hget in H. specialize (H eq_refl Hcl Hd Ht). cbv zeta in H.
       destruct (upstream_answer _ _ _ _ _) as [who [[m a]|e]]; destruct H as (r' & -> & Hok' & _);
         eexists _, _, _; (split; [done|]); (split; [done|]); [|done]. intros ? [= <-]. by rewrite Hqq. }
  all: destruct Hq as (Hqq & Hc & Ha); unfold Resolve; rewrite Hqq, Hc, Ha, Hget;
    cbn -[Z.eqb set_question]; rewrite ?Hcl, ?Hd, ?Ht; eexists _, _, _; (split; [done|]);
    (split; [exact G|]); intros ? [=]; by subst.
Qed.

(** Whatever is asked and whatever the upstreams do, the server answers
    without a panic, and the reply carries the request's id and question; a
    question that is not alone, not IN, or neither A nor AAAA is refused with the
    matching code, and AAAA gets an empty success, without asking anybody and
    without a change to the resolver. *)
Theorem serveDNS_reply_matches_request (r : Resolver L) (req : Msg) (t1 t2 t3 : time) :
  cache_ok (res_cache r) → 0 < t3 →
  ∃ r' m, serveDNS observe r (Some req) t1 t2 t3 = Some (r', m) ∧ cache_ok (res_cache r') ∧
    msg_id m = msg_id req ∧ msg_question m = take 1 (msg_question req) ∧
    ∀ rcode, refusal req = Some rcode →
      r' = r ∧ msg_rcode m = rcode ∧ msg_answer m = [] ∧
      Resolve observe r (Some req) t1 t2 t3 = Some (r, Ok m, []).
Proof.
  intros Hok Ht3. unfold serveDNS. destruct (refusal req) as [rcode|] eqn:Href.
  - rewrite (Resolve_refusal _ _ _ _ _ _ Href). cbn [mbind option_bind].
    destruct (errorReply_matches req rcode) as (? & ? & ? & ?). eexists _, _. split; [done|].
    do 3 (split; [done|]). by intros ? [= <-].
  - apply refusal_None in Href as [q Hq].
    destruct (Resolve_lookup r req q t1 t2 t3 Hq Hok Ht3) as (r' & ans & who & -> & Hok' & Hans).
    cbn [mbind option_bind]. destruct Hq as [Hqq _]. eexists _, _. split; [done|]. split; [done|].
    destruct ans as [m|e].
    + destruct (Hans m eq_refl) as [H1 H2]. rewrite Hqq. done.
    + destruct (errorReply_matches req RcodeServerFailure) as (? & ? & _). done.
Qed.

(** C12: an answer is learned and reused consistently: when an upstream answers a
    question, the addresses of the answer are reported to the learner with the
    action of the upstream that gave it and an expiry 30 seconds to 24 hours
    ahead, and until the cache time of the answer, also 30 seconds to 24 hours, is
    over, the same question in any spelling is answered with the same records
    under its own id, asking nobody. *)
Theorem Resolve_learns_and_caches (r : Resolver L) (req req' : Msg) (q q' : Question) (cl : Classifier)
    (d t : exchanger) (l : L) (m : Msg) (action : Action) (asked : list upstream) (t1 t2 t3 t1' t2' t3' : time) :
  a_question req q → a_question req' q' → ToLower (q_name q') = ToLower (q_name q) →
  cache_ok (res_cache r) → 0 < t3 → (Get (res_cache r) (q_name q) (q_type q) t1).2 = None →
  res_classifier r = Some cl → res_domestic r = Some d → res_trusted r = Some t →
  res_learner r = Some l → action ≠ Unknown → answer_ipv4 m ≠ [] →
  upstream_answer cl d t (classify_Domain cl (q_name q)) req = (asked, Ok (m, action)) →
  ∃ r' expires ttl, 
    Resolve observe r (Some req) t1 t2 t3 =
      Some (r', Ok (set_question (set_id m (msg_id req)) [q]), asked) ∧
    res_learner r' = Some (observe l (mkObservation (dec_domain (classify_Domain cl (q_name q)))
                                        action (answer_ipv4 m) expires)) ∧
    t2 + 30 * Second ≤ expires ≤ t2 + 24 * Hour ∧ 30 * Second ≤ ttl ≤ 24 * Hour ∧
    (t1' < t3 + ttl →
     ∃ r'', Resolve observe r' (Some req') t1' t2' t3' =
              Some (r'', Ok (set_question (set_id m (msg_id req')) [q']), [])).
Proof.
  intros Hq Hq' Hname Hok Ht3 Hmiss Hcl Hd Ht Hl Hact Hans Hup.
  pose proof (Resolve_miss r req q cl d t t1 t2 t3 Hq Hok Ht3 Hmiss Hcl Hd Ht) as H.
  cbv zeta in H. rewrite Hup in H. destruct H as (r' & Hres & _ & Hlearn & Hget).
  destruct Hq as (Hqq & Hqc & Hqt). rewrite Hqq in *.
  set (reply := set_question (set_id m (msg_id req)) [q]) in *.
  assert (Hans' : answer_ipv4 reply = answer_ipv4 m) by done.
  rewrite Hl in Hlearn. unfold learn in Hlearn.
  pose proof (responseARecords_addresses reply) as Haddr.
  destruct (responseARecords (Some reply)) as [as_ ttl] eqn:Hrec. simpl in Haddr. subst as_.
  rewrite Hans', !bool_decide_false in Hlearn by done. simpl in Hlearn.
  exists r', (t2 + clampDuration ttl (30 * Second) (24 * Hour)), (cache_ttl reply).
  split; [done|]. split; [done|].
  pose proof (clampDuration_bounds ttl (30 * Second) (24 * Hour) ltac:(done)).
  split; [lia|]. split; [apply cache_ttl_bounds|]. intros Hfresh.
  destruct Hq' as (Hqq' & Hqc' & Hqt'). unfold Resolve. rewrite Hqq', Hqc', Hqt', !Z.eqb_refl.
  cbn [negb andb]. change (TypeA =? TypeAAAA) with false. cbv iota.
  specialize (Hget (q_name q') t1' Hname). rewrite (proj2 (Z.ltb_lt _ _)) in Hget by done.
  destruct (Get (res_cache r') (q_name q') TypeA t1') as [c o]. cbn [snd] in Hget. rewrite Hget.
  eexists. reflexivity.
Qed.
End resolver_proofs.

(** ** Witnesses *)

Definition sample_resolver : Resolver (list Observation) :=
  NewResolver (Some sample_classifier)
    (Some (λ m, Ok (Some (set_rcode m 0))))
    (Some (λ m, Ok (Some (mkMsg (msg_id m) 0 (msg_question m) [ARecord 300 [9; 9; 9; 9]] 0))))
    (Some []) 8 (3 * Second).

Definition sample_request (id : Z) (name : string) : Msg :=
  mkMsg id 0 [mkQuestion (str name) TypeA ClassINET] [] 0.

Definition log_observation (l : list Observation) (o : Observation) : list Observation := o :: l.

Lemma serveDNS_reply_matches_request_witness :
  ∃ r' m, @serveDNS sample_lib _ log_observation sample_resolver (Some (sample_request 77 "a.b")) 5 5 5
          = Some (r', m) ∧ msg_id m = 77.
Proof.
  destruct (@serveDNS_reply_matches_request sample_lib sample_lib_laws _ log_observation sample_resolver
    (sample_request 77 "a.b") 5 5 5 (new_cache_ok 8)) as (r' & m & H1 & _ & H2 & _); [lia|].
  exists r', m. split; [exact H1|exact H2].
Defined.

Lemma Resolve_learns_and_caches_witness :
  ∃ r' r'',
    @Resolve sample_lib _ log_observation sample_resolver (Some (sample_request 1 "video.example.cn.")) 5 5 5
    = Some (r', Ok (mkMsg 1 0 (msg_question (sample_request 1 "video.example.cn."))
                      [ARecord 300 [9; 9; 9; 9]] 0), [Trusted]) ∧
    @Resolve sample_lib _ log_observation r' (Some (sample_request 2 "Video.Example.CN.")) 6 6 6
    = Some (r'', Ok (mkMsg 2 0 (msg_question (sample_request 2 "Video.Example.CN."))
                      [ARecord 300 [9; 9; 9; 9]] 0), []).
Proof.
  destruct (@Resolve_learns_and_caches sample_lib _ log_observation sample_resolver
    (sample_request 1 "video.example.cn.") (sample_request 2 "Video.Example.CN.")
    (mkQuestion (str "video.example.cn.") TypeA ClassINET)
    (mkQuestion (str "Video.Example.CN.") TypeA ClassINET) sample_classifier
    (λ m, Ok (Some (set_rcode m 0)))
    (λ m, Ok (Some (mkMsg (msg_id m) 0 (msg_question m) [ARecord 300 [9; 9; 9; 9]] 0))) []
    (mkMsg 1 0 (msg_question (sample_request 1 "video.example.cn.")) [ARecord 300 [9; 9; 9; 9]] 0)
    Proxy [Trusted] 5 5 5 6 6 6) as (r' & e & ttl & H1 & _ & _ & H2 & H3).
  - repeat split.
  - repeat split.
  - vm_compute. reflexivity.
  - apply new_cache_ok.
  - lia.
  - vm_compute. reflexivity.
  - reflexivity.
  - reflexivity.
  - reflexivity.
  - reflexivity.
  - discriminate.
  - discriminate.
  - vm_compute. reflexivity.
  - destruct H3 as [r'' H3]; [unfold Second, Millisecond in *; lia|].
    exists r', r''. split; [rewrite H1; vm_compute; reflexivity|rewrite H3; reflexivity].
Defined.
