(* ===== verification/DnsTransport.v ===== *)
(** * DNS over a stream and DNS fallback: [internal/transport/dnstcp.go], [dnsfallback.go]

    The two-byte length framing of DNS over TCP, with the size limits of the code,
    and the exchanger that asks a second upstream when the first has no answer. *)

From S2P Require Import Prelude GoStrings GoNet DnsMsg.

(** A dialled connection as [Exchange] sees it: the errors of the two writes and
    the bytes the peer sends before a read fails. *)
Record streamConn := mkStream {
  sc_write_len : option error; sc_write_raw : option error; sc_incoming : bytes }.

Section stream.
Context {lib : DnsLib}.

(** [binary.Read] of an unsigned 16-bit number and [io.ReadFull]: the value and
    the rest of the stream, or the read error. *)
Definition read_u16 (s : bytes) : result (Z * bytes) :=
  match s with
  | b0 :: b1 :: rest => Ok (Z.lor b1 (Z.shiftl b0 8), rest)
  | [] => Err EEOF
  | _ => errorf "unexpected EOF"
  end.

Definition read_full (s : bytes) (n : nat) : result bytes :=
  if (length s <? n)%nat then errorf "unexpected EOF" else Ok (take n s).

(** [Exchange]: what was written, and the answer. *)
Definition stream_Exchange (dial : result streamConn) (q : Msg) : bytes * result Msg :=
  match Pack q with
  | Err _ => ([], errorf "DNS query too large")
  | Ok raw =>
      if (4096 <? length raw)%nat then ([], errorf "DNS query too large") else
      match dial with
      | Err e => ([], Err e)
      | Ok c =>
          let header := put_u16 (u16 (Z.of_nat (length raw))) in
          match sc_write_len c with
          | Some e => ([], Err e)
          | None =>
              match sc_write_raw c with
              | Some e => (header, Err e)
              | None =>
                  (header ++ raw,
                   let? (n, rest) := read_u16 (sc_incoming c) in
                   if 4096 <? n then errorf "DNS reply too large" else
                   let? out := read_full rest (Z.to_nat n) in
                   let? r := Unpack out in
                   Ok (set_id r (msg_id q)))
              end
          end
      end
  end.

(** [dnsFallback.Exchange]; an exchanger that is [None] is not configured. *)
Definition fallback_Exchange (primary fallback : option (Msg → result (option Msg))) (request : Msg)
  : result (option Msg) :=
  match primary, fallback with
  | Some p, Some f =>
      match p request with
      | Ok (Some m) => Ok (Some m)
      | _ => f request
      end
  | _, _ => errorf "DNS fallback exchanger is not configured"
  end.

(** The frame of a message on the stream. *)
Definition frame (raw : bytes) : bytes := put_u16 (Z.of_nat (length raw)) ++ raw.

Lemma read_u16_put v rest : 0 ≤ v < 2 ^ 16 → read_u16 (put_u16 v ++ rest) = Ok (v, rest).
Proof.
  intros Hv. pose proof (be_put_u16 v rest Hv) as H. unfold put_u16, be_u16 in *. simpl in *.
  by injection H as ->.
Qed.
End stream.

(** A DNS exchange over a stream sends exactly one frame of the query and
    reads exactly one frame of the answer: when the peer replies with the frame
    of a message of at most 4096 bytes, whatever follows it, the result is that
    message with the id of the query; a frame that announces more is refused, and
    a query over 4096 bytes is never sent. *)
Theorem stream_Exchange_framing {lib : DnsLib} {laws : @DnsLaws lib} (q answer : Msg)
    (raw reply rest : bytes) :
  Pack q = Ok raw → Pack answer = Ok reply →
  ((length raw ≤ 4096)%nat → (length reply ≤ 4096)%nat →
   stream_Exchange (Ok (mkStream None None (frame reply ++ rest))) q =
     (frame raw, Ok (set_id answer (msg_id q)))) ∧
  ((length raw ≤ 4096)%nat → 4096 < Z.of_nat (length reply) < 2 ^ 16 →
   stream_Exchange (Ok (mkStream None None (frame reply ++ rest))) q =
     (frame raw, errorf "DNS reply too large")) ∧
  ((4096 < length raw)%nat → ∀ dial, stream_Exchange dial q = ([], errorf "DNS query too large")).
Proof.
  intros Hq Ha. unfold stream_Exchange. rewrite Hq. split; [|split].
  - intros Hl Hr. rewrite (proj2 (Nat.ltb_ge 4096 _)) by done. cbn [sc_write_len sc_write_raw sc_incoming].
    unfold u16. rewrite Z.mod_small by lia. unfold frame.
    rewrite <- app_assoc, read_u16_put by lia.
    rewrite (proj2 (Z.ltb_ge 4096 _)) by lia. unfold read_full. rewrite Nat2Z.id.
    rewrite length_app, (proj2 (Nat.ltb_ge _ _)), take_app_length by lia.
    by rewrite (Unpack_Pack answer reply Ha).
  - intros Hl Hr. rewrite (proj2 (Nat.ltb_ge 4096 _)) by done. cbn [sc_write_len sc_write_raw sc_incoming].
    unfold u16. rewrite Z.mod_small by lia. unfold frame.
    rewrite <- app_assoc, read_u16_put by lia. by rewrite (proj2 (Z.ltb_lt 4096 _)) by lia.
  - intros Hl dial. by rewrite (proj2 (Nat.ltb_lt 4096 _)).
Qed.

Lemma stream_Exchange_framing_witness :
  stream_Exchange (lib := sample_lib) (Ok (mkStream None None (frame [Zpos (encode new_Msg)] ++ [1; 2])))
    (mkMsg 9 0 [] [] 0) = (frame [Zpos (encode (mkMsg 9 0 [] [] 0))], Ok (set_id new_Msg 9)).
Proof.
  apply (stream_Exchange_framing (lib := sample_lib) (laws := sample_lib_laws)
    (mkMsg 9 0 [] [] 0) new_Msg [Zpos (encode (mkMsg 9 0 [] [] 0))] [Zpos (encode new_Msg)] [1; 2]);
    simpl; reflexivity || lia.
Defined.
