(* ===== verification/AddrText.v ===== *)
(** * Printing and parsing of addresses and endpoints

    Round trips of the text forms the components exchange: dotted IPv4
    addresses, decimal ports and host:port pairs. *)

From S2P Require Import Prelude GoStrings GoNet Domains IPv4Tree.

(** ** Decimal numbers *)

Lemma itoa_fuel_app fuel n acc : itoa_fuel fuel n acc = itoa_fuel fuel n [] ++ acc.
Proof.
  revert n acc. induction fuel as [|f IH]; intros n acc; [done|]. simpl.
  destruct (n <? 10); [done|]. rewrite IH, (IH _ [_]), <- app_assoc. done.
Qed.

Lemma itoa_fuel_digits fuel n : 0 ≤ n → Forall (λ c, is_digit c = true) (itoa_fuel fuel n []).
Proof.
  revert n. induction fuel as [|f IH]; intros n Hn; [constructor|]. simpl.
  destruct (n <? 10) eqn:E; bools.
  - repeat constructor. unfold is_digit, in_range. lia.
  - rewrite itoa_fuel_app. apply Forall_app. split; [apply IH; apply Z.div_pos; lia|].
    repeat constructor. unfold is_digit, in_range. pose proof (Z.mod_pos_bound n 10). lia.
Qed.

Lemma digits_val_app a s t :
  digits_val a (s ++ t) = digits_val a s ≫= λ v, digits_val v t.
Proof.
  revert a. induction s as [|c s IH]; intros a; [done|]. simpl. destruct (is_digit c); [apply IH|done].
Qed.

Lemma itoa_fuel_val fuel n : 0 ≤ n < 10 ^ Z.of_nat fuel → digits_val 0 (itoa_fuel fuel n []) = Some n.
Proof.
  revert n. induction fuel as [|f IH]; intros n Hn; [simpl in *; assert (n = 0) by lia; by subst|].
  cbn [itoa_fuel]. destruct (n <? 10) eqn:E; bools.
  - cbn [digits_val]. assert (is_digit (48 + n) = true) as -> by (unfold is_digit, in_range; lia).
    f_equal. lia.
  - rewrite itoa_fuel_app, digits_val_app, IH.
    + cbn [mbind option_bind digits_val].
      assert (is_digit (48 + n mod 10) = true) as ->.
      { unfold is_digit, in_range. pose proof (Z.mod_pos_bound n 10). lia. }
      f_equal. pose proof (Z.div_mod n 10). lia.
    + split; [apply Z.div_pos; lia|]. apply Z.div_lt_upper_bound; [lia|].
      rewrite <- Z.pow_succ_r by lia. replace (Z.succ (Z.of_nat f)) with (Z.of_nat (S f)) by lia. lia.
Qed.

Lemma Itoa_digits n : 0 ≤ n → Forall (λ c, is_digit c = true) (Itoa n).
Proof. apply itoa_fuel_digits. Qed.

Lemma itoa_fuel_nonempty f n acc : itoa_fuel (S f) n acc ≠ [].
Proof.
  revert n acc. induction f as [|f IH]; intros n acc.
  - simpl. by destruct (n <? 10).
  - change (itoa_fuel (S (S f)) n acc) with
      (if n <? 10 then (48 + n) :: acc else itoa_fuel (S f) (n / 10) ((48 + n mod 10) :: acc)).
    destruct (n <? 10); [done|apply IH].
Qed.
Lemma Itoa_nonempty n : Itoa n ≠ [].
Proof. apply itoa_fuel_nonempty. Qed.

Lemma digits_val_Itoa n : 0 ≤ n < 10 ^ 20 → digits_val 0 (Itoa n) = Some n.
Proof. intros. by apply itoa_fuel_val. Qed.

Lemma Itoa_head n : 0 ≤ n → ∃ c s, Itoa n = c :: s ∧ 48 ≤ c ≤ 57.
Proof.
  intros Hn. pose proof (Itoa_digits n Hn) as Hd. pose proof (Itoa_nonempty n).
  destruct (Itoa n) as [|c s]; [done|]. exists c, s. split; [done|].
  apply list.Forall_cons in Hd as [Hc _]. unfold is_digit, in_range in Hc. lia.
Qed.

Lemma Atoi_Itoa n : 0 ≤ n < 2 ^ 63 → Atoi (Itoa n) = Some n.
Proof.
  intros Hn. pose proof (digits_val_Itoa n ltac:(lia)) as Hv.
  destruct (Itoa_head n ltac:(lia)) as (c & s & E & Hc). rewrite E in *. unfold Atoi.
  assert (Hs : ∀ v, digits_val 0 (c :: s) = Some v → 0 ≤ v < 2 ^ 63 →
    (let '(neg, d) := (false, c :: s) in
     match d with
     | [] => None
     | _ => match digits_val 0 d with
            | Some v => let v' := if neg : bool then - v else v in
                        if (- 2 ^ 63 <=? v') && (v' <? 2 ^ 63) then Some v' else None
            | None => None
            end
     end) = Some v).
  { intros v Hd Hr. rewrite Hd. cbn zeta. by rewrite (proj2 (Z.leb_le _ _)), (proj2 (Z.ltb_lt _ _)) by lia. }
  specialize (Hs n Hv Hn).
  assert (c = 48 ∨ c = 49 ∨ c = 50 ∨ c = 51 ∨ c = 52 ∨ c = 53 ∨ c = 54 ∨ c = 55 ∨ c = 56 ∨ c = 57)
    as Hcs by lia.
  destruct_or! Hcs; subst c; exact Hs.
Qed.

(** ** Bytes a text does not contain *)

Definition avoids (c : Z) (s : bytes) : Prop := Forall (λ b, b ≠ c) s.

Lemma avoids_IndexByte c s : avoids c s → IndexByte s c = None.
Proof.
  induction 1 as [|b s Hb _ IH]; [done|]. simpl. by rewrite (proj2 (Z.eqb_neq b c)), IH.
Qed.
Lemma avoids_ContainsByte c s : avoids c s → ContainsByte s c = false.
Proof. intros H. unfold ContainsByte. by rewrite avoids_IndexByte. Qed.

Lemma avoids_LastIndexByte c s : avoids c s → LastIndexByte s c = None.
Proof.
  induction 1 as [|b s Hb _ IH]; [done|]. simpl. by rewrite IH, (proj2 (Z.eqb_neq b c)).
Qed.

Lemma LastIndexByte_mid h c p : avoids c p → LastIndexByte (h ++ c :: p) c = Some (length h).
Proof.
  intros Hp. induction h as [|b h IH]; simpl.
  - by rewrite avoids_LastIndexByte, Z.eqb_refl.
  - by rewrite IH.
Qed.

Lemma digits_avoid c s : ¬ 48 ≤ c ≤ 57 → Forall (λ b, is_digit b = true) s → avoids c s.
Proof.
  intros Hc H. eapply list.Forall_impl; [exact H|]. intros b Hb ->.
  unfold is_digit, in_range in Hb. lia.
Qed.

(** ** host:port *)

Lemma SplitHostPort_join host port :
  avoids 58 host → avoids 91 host → avoids 93 host →
  avoids 58 port → avoids 91 port → avoids 93 port →
  SplitHostPort (host ++ [58] ++ port) = Ok (host, port).
Proof.
  intros H1 H2 H3 P1 P2 P3. unfold SplitHostPort. cbn [app]. rewrite LastIndexByte_mid by done.
  assert (A91 : avoids 91 (host ++ 58 :: port)) by (apply Forall_app; split; [done|by constructor]).
  assert (A93 : avoids 93 (host ++ 58 :: port)) by (apply Forall_app; split; [done|by constructor]).
  assert (Hdrop : drop (S (length host)) (host ++ 58 :: port) = port).
  { change (58 :: port) with ([58] ++ port). rewrite app_assoc.
    replace (S (length host)) with (length (host ++ [58])) by (rewrite length_app; simpl; lia).
    apply drop_app_length. }
  rewrite Hdrop, drop_0, take_app_length, !avoids_ContainsByte by done.
  destruct (host ++ 58 :: port) as [|c s] eqn:E; [done|].
  apply list.Forall_cons in A91 as [Hc _].
  destruct c as [|p|p]; try done. do 7 (destruct p as [p|p|]; try done).
Qed.

Lemma JoinHostPort_plain host port : avoids 58 host → JoinHostPort host port = host ++ [58] ++ port.
Proof. intros H. unfold JoinHostPort. by rewrite avoids_ContainsByte. Qed.

(** ** Dotted addresses *)

Lemma string4_app a b c d :
  string4 a b c d = Itoa a ++ [46] ++ Itoa b ++ [46] ++ Itoa c ++ [46] ++ Itoa d.
Proof. unfold string4. simpl. by rewrite <- ?app_assoc. Qed.

Lemma string4_avoids x a b c d : ¬ 48 ≤ x ≤ 57 → x ≠ 46 →
  0 ≤ a → 0 ≤ b → 0 ≤ c → 0 ≤ d → avoids x (string4 a b c d).
Proof.
  intros Hx H46 Ha Hb Hc Hd. rewrite string4_app. unfold avoids.
  rewrite !Forall_app. repeat split; try (apply digits_avoid; [done|by apply Itoa_digits]);
    repeat constructor; lia.
Qed.

(** The value of an octet is read back from its digits. *)
Lemma parse4_octet_check :
  Forall (λ v, ∀ s first prev fields,
    parse4 (Itoa v ++ s) first prev 0 0 fields = parse4 s false false v (length (Itoa v)) fields)
    (seqZ 0 256).
Proof. repeat (constructor; [intros; reflexivity|]). constructor. Qed.

Lemma parse4_octet v s first prev fields : 0 ≤ v < 256 →
  parse4 (Itoa v ++ s) first prev 0 0 fields = parse4 s false false v (length (Itoa v)) fields.
Proof.
  intros Hv. pose proof parse4_octet_check as H. rewrite list.Forall_forall in H.
  apply H. apply elem_of_seqZ. lia.
Qed.

Lemma parse4_dot v dl fields s : s ≠ [] → (length fields < 3)%nat →
  parse4 ([46] ++ s) false false v dl fields = parse4 s false true 0 0 (v :: fields).
Proof.
  intros Hs Hf. cbn [app parse4]. change (is_digit 46) with false. cbv iota.
  change (46 =? 46) with true. rewrite bool_decide_false by done. simpl.
  by rewrite (proj2 (Nat.eqb_neq (length fields) 3)) by lia.
Qed.

Lemma app_not_nil {A} (l m : list A) : l ≠ [] → l ++ m ≠ [].
Proof. by destruct l. Qed.

Lemma parseIPv4Fields_string4 a b c d : byte4 (Addr4 a b c d) →
  parseIPv4Fields (string4 a b c d) = Some [a; b; c; d].
Proof.
  intros (Ha & Hb & Hc & Hd). rewrite string4_app. unfold parseIPv4Fields.
  rewrite parse4_octet by done. rewrite parse4_dot by (simpl; lia || apply app_not_nil, Itoa_nonempty).
  rewrite parse4_octet by done. rewrite parse4_dot by (simpl; lia || apply app_not_nil, Itoa_nonempty).
  rewrite parse4_octet by done. rewrite parse4_dot by (simpl; lia || apply Itoa_nonempty).
  rewrite <- (app_nil_r (Itoa d)), parse4_octet by done. done.
Qed.

Lemma parse_addr_scan_dot s h r : Forall (λ c, is_digit c = true) h →
  parse_addr_scan (h ++ [46] ++ r) s =
  match parseIPv4Fields s with Some [a; b; c; d] => Some (Addr4 a b c d) | _ => None end.
Proof.
  induction 1 as [|x h Hx _ IH]; [done|]. cbn [app parse_addr_scan].
  unfold is_digit, in_range in Hx. bools.
  rewrite !(proj2 (Z.eqb_neq x _)) by lia. apply IH.
Qed.

Lemma ParseAddr_string4 a b c d : byte4 (Addr4 a b c d) →
  ParseAddr (string4 a b c d) = Some (Addr4 a b c d).
Proof.
  intros H. unfold ParseAddr. rewrite (string4_app a b c d) at 1.
  rewrite parse_addr_scan_dot by (apply Itoa_digits, H). by rewrite parseIPv4Fields_string4.
Qed.

(** An IPv4 endpoint in text. *)
Lemma SplitHostPort_endpoint a b c d port :
  byte4 (Addr4 a b c d) → 0 ≤ port →
  SplitHostPort (addrport_String (mkAddrPort (Addr4 a b c d) port)) = Ok (string4 a b c d, Itoa port).
Proof.
  intros (Ha & Hb & Hc & Hd) Hp. unfold addrport_String. cbn [ap_addr ap_port].
  apply SplitHostPort_join; try (apply string4_avoids; lia);
    (apply digits_avoid; [lia|by apply Itoa_digits]).
Qed.

(** Canonical names contain no separator of addresses. *)
Lemma normalized_avoids c d : dns_char c = false → c ≠ 46 → normalized d → avoids c d.
Proof.
  intros Hc H46 [_ Hn]. rewrite <- (Join_Split d 46). apply Join_Forall; [|by repeat constructor].
  eapply list.Forall_impl; [exact Hn|]. intros l (_ & _ & _ & Hl).
  eapply list.Forall_impl; [exact Hl|]. simpl. intros x Hx ->. congruence.
Qed.

Lemma SplitHostPort_name d port :
  normalized d → 0 ≤ port → SplitHostPort (d ++ [58] ++ Itoa port) = Ok (d, Itoa port).
Proof.
  intros Hd Hp. apply SplitHostPort_join; try (by apply normalized_avoids);
    (apply digits_avoid; [lia|by apply Itoa_digits]).
Qed.

(** Ports are read back by the resolver of service names. *)
Lemma port_digits_app n s v : digits_val n s = Some v → 0 ≤ n → 0 ≤ v < 65536 → port_digits s n = Some v.
Proof.
  revert n. induction s as [|c s IH]; intros n H Hn Hv; simpl in *; [done|].
  destruct (is_digit c) eqn:Hc; [|done]. unfold is_digit, in_range in Hc. bools.
  assert (Hmono : ∀ s a w, digits_val a s = Some w → 0 ≤ a → a ≤ w).
  { clear. induction s as [|x s IH]; intros a w Hw Ha; simpl in Hw; [simplify_eq; lia|].
    destruct (is_digit x) eqn:Hx; [|done]. unfold is_digit, in_range in Hx. bools.
    apply IH in Hw; lia. }
  assert (n * 10 + (c - 48) ≤ v) by (eapply Hmono; [done|lia]).
  unfold port_cutoff, u32. rewrite (proj2 (Z.leb_gt (2 ^ 30) n)) by lia.
  rewrite !(Z.mod_small (n * 10)) by lia. rewrite Z.mod_small by lia.
  rewrite (proj2 (Z.ltb_ge _ _)) by lia. apply IH; [done|lia|done].
Qed.

Lemma LookupPort_Itoa services network port :
  0 ≤ port < 65536 → LookupPort services network (Itoa port) = Ok port.
Proof.
  intros Hp. unfold LookupPort, parsePort.
  pose proof (digits_val_Itoa port ltac:(lia)) as Hv.
  destruct (Itoa_head port ltac:(lia)) as (c & s & E & Hc). rewrite E in *.
  rewrite !(proj2 (Z.eqb_neq c _)) by lia.
  rewrite (port_digits_app 0 (c :: s) port Hv) by lia. cbn [negb andb].
  unfold port_cutoff. rewrite (proj2 (Z.leb_gt (2 ^ 30) port)) by lia.
  rewrite (proj2 (Z.ltb_ge port 0)), (proj2 (Z.ltb_ge 65535 port)) by lia. done.
Qed.
