(* ===== verification/GoDuration.v ===== *)
(** * [time.ParseDuration]

    Durations in the configuration are texts such as [30s] or [1.5h].  The parser
    of the standard library, with its overflow checks on [uint64] and its
    [float64] arithmetic for fractions (the executable IEEE 754 arithmetic of the
    standard library's [SpecFloat]).  [None] is an exhausted fuel. *)

From Stdlib Require Import SpecFloat.
From S2P Require Import Prelude GoStrings AddrText.

(** ** [float64] *)

Definition float64 : Type := spec_float.
Definition float64_of (v : Z) : float64 := binary_normalize 53 1024 v 0 false.
Definition float64_mul : float64 → float64 → float64 := SFmul 53 1024.
Definition float64_div : float64 → float64 → float64 := SFdiv 53 1024.

(** [uint64(x)]: the fraction is dropped (the values here are finite and positive). *)
Definition uint64_of (x : float64) : Z :=
  match x with
  | S754_finite false m e => u64 (if 0 <=? e then Z.pos m * 2 ^ e else Z.pos m / 2 ^ (- e))
  | _ => 0
  end.

(** ** The parser *)

(** [leadingInt]: the value and the rest, [None] on overflow. *)
Fixpoint leadingInt (x : Z) (s : bytes) : option (Z * bytes) :=
  match s with
  | c :: s' =>
      if is_digit c then
        if 2 ^ 63 / 10 <? x then None
        else let x := u64 (u64 (x * 10) + c - 48) in
             if 2 ^ 63 <? x then None else leadingInt x s'
      else Some (x, s)
  | [] => Some (x, [])
  end.

(** [leadingFraction]: digits that no longer fit are skipped. *)
Fixpoint leadingFraction (x : Z) (scale : Z) (overflow : bool) (s : bytes) : Z * Z * bytes :=
  match s with
  | c :: s' =>
      if is_digit c then
        if overflow then leadingFraction x scale true s'
        else if (2 ^ 63 - 1) / 10 <? x then leadingFraction x scale true s'
        else let y := u64 (u64 (x * 10) + c - 48) in
             if 2 ^ 63 <? y then leadingFraction x scale true s'
             else leadingFraction y (scale * 10) false s'
      else (x, scale, s)
  | [] => (x, scale, [])
  end.

(** [unitMap]; the two spellings of the micro sign are in UTF-8. *)
Definition duration_unit (u : bytes) : option Z :=
  if bool_decide (u = str "ns") then Some 1
  else if bool_decide (u = str "us" ∨ u = [194; 181; 115] ∨ u = [206; 188; 115]) then Some 1000
  else if bool_decide (u = str "ms") then Some Millisecond
  else if bool_decide (u = str "s") then Some Second
  else if bool_decide (u = str "m") then Some Minute
  else if bool_decide (u = str "h") then Some Hour
  else None.

(** The unit: everything up to the next digit or period. *)
Fixpoint unit_text (s : bytes) : bytes * bytes :=
  match s with
  | c :: s' => if (c =? 46) || is_digit c then ([], s)
               else let '(u, r) := unit_text s' in (c :: u, r)
  | [] => ([], [])
  end.

Definition bad_duration {A} : result A := errorf "time: invalid duration".

(** One number with its unit: its value in nanoseconds and the rest. *)
Definition duration_term (s : bytes) : result (Z * bytes) :=
  match s with
  | c :: _ =>
      if negb ((c =? 46) || is_digit c) then bad_duration else
      match leadingInt 0 s with
      | None => bad_duration
      | Some (v, s1) =>
          let pre := negb (length s =? length s1)%nat in
          let '(f, scale, s2, post) :=
            match s1 with
            | b :: s' =>
                if b =? 46
                then let '(f, scale, r) := leadingFraction 0 1 false s' in
                     (f, scale, r, negb (length s' =? length r)%nat)
                else (0, 1, s1, false)
            | [] => (0, 1, s1, false)
            end in
          if negb pre && negb post then bad_duration else
          match unit_text s2 with
          | ([], _) => errorf "time: missing unit in duration"
          | (u, rest) =>
              match duration_unit u with
              | None => errorf "time: unknown unit in duration"
              | Some unit =>
                  if 2 ^ 63 / unit <? v then bad_duration else
                  let v := u64 (v * unit) in
                  let v := if 0 <? f
                           then u64 (v + uint64_of (float64_mul (float64_of f)
                                                     (float64_div (float64_of unit) (float64_of scale))))
                           else v in
                  if (0 <? f) && (2 ^ 63 <? v) then bad_duration else Ok (v, rest)
              end
          end
      end
  | [] => bad_duration
  end.

Fixpoint duration_loop (fuel : nat) (d : Z) (s : bytes) : option (result Z) :=
  match s with
  | [] => Some (Ok d)
  | _ =>
      match fuel with
      | O => None
      | S f =>
          match duration_term s with
          | Err e => Some (Err e)
          | Ok (v, rest) =>
              let d := u64 (d + v) in
              if 2 ^ 63 <? d then Some bad_duration else duration_loop f d rest
          end
      end
  end.

Definition ParseDuration (s : bytes) : option (result Z) :=
  let '(neg, s) := match s with
                   | c :: s' => if (c =? 45) || (c =? 43) then (c =? 45, s') else (false, s)
                   | [] => (false, s)
                   end in
  if bool_decide (s = str "0") then Some (Ok 0)
  else if bool_decide (s = []) then Some bad_duration
  else
    r ← duration_loop (length s) 0 s;
    Some (let? d := r in
          if neg : bool then Ok (- d)
          else if 2 ^ 63 - 1 <? d then bad_duration else Ok d).

Example durations :
  (ParseDuration <$> [str "30s"; str "1h15m30.918s"; str "-1.5h"; str ".5us"; str "0"; str "250ms"]) =
  [Some (Ok (30 * Second)); Some (Ok 4530918000000); Some (Ok (-5400000000000)); Some (Ok 500);
   Some (Ok 0); Some (Ok (250 * Millisecond))] ∧
  ParseDuration (str "1") = Some (errorf "time: missing unit in duration") ∧
  ParseDuration (str "9223372036854775807ns") = Some (Ok (2 ^ 63 - 1)) ∧
  ParseDuration (str "9223372036854775808ns") = Some bad_duration.
Proof. vm_compute. done. Qed.

(** ** Every text is decided, and within [int64] *)

Lemma leadingInt_rest x s v r : leadingInt x s = Some (v, r) → 0 ≤ x ≤ 2 ^ 63 → 
  0 ≤ v ≤ 2 ^ 63 ∧ (length r ≤ length s)%nat.
Proof.
  revert x. induction s as [|c s IH]; simpl; intros x H Hx; [simplify_eq; simpl; lia|].
  destruct (is_digit c); [|simplify_eq; simpl; lia].
  destruct (2 ^ 63 / 10 <? x); [done|]. destruct (2 ^ 63 <? _) eqn:E; [done|]. bools.
  apply IH in H; [lia|]. split; [apply Z.mod_pos_bound; lia|done].
Qed.

Lemma leadingFraction_rest x scale o s f scale' r :
  leadingFraction x scale o s = (f, scale', r) → (length r ≤ length s)%nat.
Proof.
  revert x scale o. induction s as [|c s IH]; simpl; intros x scale o H; [by simplify_eq|].
  destruct (is_digit c); [|simplify_eq; simpl; lia].
  enough (length r ≤ length s)%nat by lia. destruct o; [by eapply IH|].
  destruct (_ <? x); [by eapply IH|]. destruct (2 ^ 63 <? _); by eapply IH.
Qed.

Lemma unit_text_rest s u r : unit_text s = (u, r) → (length u + length r = length s)%nat.
Proof.
  revert u r. induction s as [|c s IH]; simpl; intros u r H; [by simplify_eq|].
  destruct (_ || _); [by simplify_eq|]. destruct (unit_text s) as [u' r'].
  simplify_eq. specialize (IH _ _ eq_refl). simpl. lia.
Qed.

Lemma duration_term_rest s v r : duration_term s = Ok (v, r) → (length r < length s)%nat.
Proof.
  unfold duration_term. destruct s as [|c s']; [done|]. set (s := c :: s').
  destruct (negb _); [done|]. destruct (leadingInt 0 s) as [[w s1]|] eqn:E1; [|done].
  apply leadingInt_rest in E1 as [_ E1]; [|lia].
  set (p := match s1 with b :: s' => _ | [] => _ end).
  assert (Hp : (length p.1.2 ≤ length s1)%nat).
  { subst p. destruct s1 as [|b s1]; [done|]. destruct (b =? 46); [|done].
    destruct (leadingFraction 0 1 false s1) as [[f sc] r1] eqn:E. apply leadingFraction_rest in E. simpl. lia. }
  destruct p as [[[f scale] s2] post]. simpl in Hp. destruct (_ && _); [done|].
  destruct (unit_text s2) as [u rest] eqn:Eu. apply unit_text_rest in Eu. destruct u as [|a u]; [done|].
  destruct (duration_unit _); [|done]. destruct (_ <? w); [done|].
  destruct (_ && _); [done|]. intros [= _ <-]. simpl in Eu. lia.
Qed.

Lemma duration_loop_spec fuel d s :
  (length s ≤ fuel)%nat → 0 ≤ d ≤ 2 ^ 63 →
  ∃ r, duration_loop fuel d s = Some r ∧ ∀ d', r = Ok d' → 0 ≤ d' ≤ 2 ^ 63.
Proof.
  revert d s. induction fuel as [|fuel IH]; intros d [|c s] Hf Hd; simpl in Hf; try lia;
    try (eexists; split; [done|]; by intros ? [= <-]).
  cbn [duration_loop]. destruct (duration_term (c :: s)) as [[v rest]|e] eqn:E; [|by eexists].
  apply duration_term_rest in E. simpl in E. destruct (2 ^ 63 <? _) eqn:Eo; [by eexists|]. bools.
  apply IH; [lia|]. split; [apply Z.mod_pos_bound; lia|done].
Qed.

(** The parser decides every text, and what it accepts is an [int64]. *)
Lemma ParseDuration_total s :
  ∃ r, ParseDuration s = Some r ∧ ∀ d, r = Ok d → - 2 ^ 63 ≤ d < 2 ^ 63.
Proof.
  unfold ParseDuration. set (p := match s with c :: s' => _ | [] => _ end). destruct p as [neg t].
  case_bool_decide; [eexists; split; [done|]; by intros ? [= <-]|].
  case_bool_decide; [by eexists|].
  destruct (duration_loop_spec (length t) 0 t) as (r & -> & Hr); [done|lia|]. simpl.
  eexists. split; [done|]. intros d. destruct r as [d'|]; [|done]. specialize (Hr d' eq_refl). simpl.
  destruct neg; [intros [= <-]; lia|]. destruct (_ <? d') eqn:E; [done|]. intros [= <-]. bools. lia.
Qed.

(** ** Reading back a printed duration *)

(** A text that a number can be followed by. *)
Definition no_digit_first (s : bytes) : Prop := match s with c :: _ => is_digit c = false | [] => True end.

Lemma digits_val_mono ds x v : 0 ≤ x → digits_val x ds = Some v → x ≤ v.
Proof.
  revert x. induction ds as [|c ds IH]; simpl; intros x Hx H; [by simplify_eq|].
  destruct (is_digit c) eqn:Ec; [|done]. unfold is_digit in Ec. apply in_range_spec in Ec.
  apply IH in H; lia.
Qed.

Lemma leadingInt_digits ds x v rest :
  0 ≤ x → digits_val x ds = Some v → v ≤ 2 ^ 63 → no_digit_first rest →
  leadingInt x (ds ++ rest) = Some (v, rest).
Proof.
  revert x. induction ds as [|c ds IH]; simpl; intros x Hx H Hv Hr.
  - simplify_eq. destruct rest as [|c rest]; [done|]. simpl in *. by rewrite Hr.
  - destruct (is_digit c) eqn:Ec; [|done]. pose proof Ec as Hc. unfold is_digit in Hc. apply in_range_spec in Hc.
    pose proof (digits_val_mono ds (x * 10 + (c - 48)) v ltac:(lia) H) as Hm.
    change (2 ^ 63) with 9223372036854775808 in *.
    rewrite (proj2 (Z.ltb_ge _ _)); [|change (9223372036854775808 / 10) with 922337203685477580; lia].
    assert (Hu : u64 (u64 (x * 10) + c - 48) = x * 10 + (c - 48)).
    { unfold u64. rewrite (Z.mod_small (x * 10)) by lia. rewrite Z.mod_small; lia. }
    rewrite Hu, (proj2 (Z.ltb_ge _ _)) by lia. apply IH; try done. lia.
Qed.

(** A whole number of nanoseconds is read back exactly. *)
Lemma ParseDuration_ns n :
  0 ≤ n < 2 ^ 63 → ParseDuration (Itoa n ++ str "ns") = Some (Ok n).
Proof.
  intros Hn. destruct (Itoa_head n) as (c & ds & E & Hc); [lia|].
  pose proof (digits_val_Itoa n ltac:(lia)) as Hv.
  assert (Hl : leadingInt 0 (Itoa n ++ str "ns") = Some (n, str "ns")) by (apply leadingInt_digits; try done; lia).
  assert (Hlen : length (Itoa n ++ str "ns") ≠ length (str "ns")) by (rewrite E; simpl; rewrite length_app; simpl; lia).
  assert (Ht : duration_term (Itoa n ++ str "ns") = Ok (n, [])).
  { unfold duration_term. rewrite Hl, (proj2 (Nat.eqb_neq _ _) Hlen), E. cbn [app].
    assert (Hd : is_digit c = true) by (unfold is_digit, in_range; lia). rewrite Hd, orb_true_r.
    change (str "ns") with [110; 115]. cbn [negb andb orb]. change (110 =? 46) with false. cbv iota.
    change (unit_text [110; 115]) with (([110; 115], []) : bytes * bytes). cbv iota.
    change (duration_unit [110; 115]) with (Some 1). cbv iota. change (0 <? 0) with false. cbn [andb].
    rewrite (proj2 (Z.ltb_ge _ _)) by (rewrite Z.div_1_r; lia). rewrite Z.mul_1_r. do 2 f_equal.
    unfold u64. rewrite Z.mod_small; lia. }
  unfold ParseDuration. rewrite E. cbn [app].
  rewrite !(proj2 (Z.eqb_neq c _)) by lia. cbn [orb].
  rewrite E in Ht. cbn [app] in Ht. rewrite bool_decide_false; [|by destruct ds].
  rewrite bool_decide_false by done. cbn [length duration_loop]. rewrite Ht.
  assert (Hu : u64 (0 + n) = n) by (unfold u64; rewrite Z.mod_small; lia).
  rewrite Hu, (proj2 (Z.ltb_ge _ _)) by lia. assert (Hloop : ∀ k, duration_loop k n [] = Some (Ok n)) by (by intros []).
  rewrite Hloop. cbn [mbind option_bind]. rewrite (proj2 (Z.ltb_ge _ _)); [done|]. lia.
Qed.
