(* ===== verification/GoJson.v ===== *)
(** * [encoding/json]

    The parts of the package the program uses: the encoder's strings, the scanner
    (a value at the front of the input, with the nesting limit), and the decoder
    that stores a value into a Go variable.  [None] is an exhausted fuel. *)

From S2P Require Import Prelude GoStrings GoNet GoCodec AddrText.

(** ** Encoding *)

(** A rune inside a JSON string: the short escapes, [\u00XX] for the other control
    characters and for the characters special in HTML, the line separators, and
    the replacement character for bytes that are not UTF-8. *)
Definition json_rune (c : Z * bytes) : bytes :=
  let r := c.1 in
  if (r =? 34) || (r =? 92) then [92; r]
  else if r =? 8 then str "\b" else if r =? 12 then str "\f"
  else if r =? 10 then str "\n" else if r =? 13 then str "\r" else if r =? 9 then str "\t"
  else if (r <? 32) || (r =? 60) || (r =? 62) || (r =? 38)
  then str "\u00" ++ [hex_digit (Z.shiftr r 4); hex_digit (Z.land r 15)]
  else if r =? 8232 then str "\u2028" else if r =? 8233 then str "\u2029"
  else if (r =? RuneError) && (length c.2 =? 1)%nat then str "\ufffd"
  else c.2.

Definition json_string (s : bytes) : bytes := [34] ++ mjoin (json_rune <$> chunks s) ++ [34].
Definition json_bool (b : bool) : bytes := if b then str "true" else str "false".

(** ** Values *)

(** A number is kept as it is written; strings and keys are unquoted. *)
Inductive json :=
| JNull
| JBool (b : bool)
| JNumber (raw : bytes)
| JString (s : bytes)
| JArray (elements : list json)
| JObject (members : list (bytes * json)).

(** ** Scanning *)

Definition unexpected_EOF {A} : result A := errorf "unexpected EOF".
Definition invalid_json {A} : result A := errorf "invalid character".

Definition json_space (c : Z) : bool := (c =? 32) || (c =? 9) || (c =? 13) || (c =? 10).

Fixpoint skip_space (s : bytes) : bytes :=
  match s with
  | c :: s' => if json_space c then skip_space s' else s
  | [] => []
  end.

(** Four hexadecimal digits after [\u]. *)
Definition hex4 (s : bytes) : option (Z * bytes) :=
  match s with
  | a :: b :: c :: d :: s' =>
      a ← hex_val a; b ← hex_val b; c ← hex_val c; d ← hex_val d;
      Some (((a * 16 + b) * 16 + c) * 16 + d, s')
  | _ => None
  end.

Definition surrogate (r : Z) : bool := in_range 55296 57343 r.

(** The second half of a surrogate pair: the rune of the pair. *)
Definition low_surrogate (high : Z) (s : bytes) : option (Z * bytes) :=
  match s with
  | a :: b :: s' =>
      if negb ((a =? 92) && (b =? 117)) then None else
      '(low, s'') ← hex4 s';
      if in_range 55296 56319 high && in_range 56320 57343 low
      then Some ((high - 55296) * 1024 + (low - 56320) + 65536, s'') else None
  | _ => None
  end.

(** What follows a backslash: the bytes it stands for and the rest. *)
Definition escape (s : bytes) : result (bytes * bytes) :=
  match s with
  | [] => unexpected_EOF
  | c :: s' =>
      if (c =? 34) || (c =? 92) || (c =? 47) then Ok ([c], s')
      else if c =? 98 then Ok ([8], s') else if c =? 102 then Ok ([12], s')
      else if c =? 110 then Ok ([10], s') else if c =? 114 then Ok ([13], s')
      else if c =? 116 then Ok ([9], s')
      else if c =? 117 then
        match hex4 s' with
        | None => if (length s' <? 4)%nat then unexpected_EOF else invalid_json
        | Some (r, s'') =>
            if surrogate r then
              match low_surrogate r s'' with
              | Some (r', s3) => Ok (encode_rune r', s3)
              | None => Ok (encode_rune RuneError, s'')
              end
            else Ok (encode_rune r, s'')
        end
      else invalid_json
  end.

(** A string after its opening quote: unquoted, with bytes that are not UTF-8
    replaced, and the rest after the closing quote. *)
Fixpoint string_body (fuel : nat) (s : bytes) : option (result (bytes * bytes)) :=
  match fuel with
  | O => None
  | S f =>
      match s with
      | [] => Some unexpected_EOF
      | c :: s' =>
          if c =? 34 then Some (Ok ([], s'))
          else
            match (if c =? 92 then escape s'
                   else if c <? 32 then invalid_json
                   else let '(r, n) := decode_rune s in Ok (encode_rune r, drop n s)) with
            | Err e => Some (Err e)
            | Ok (b, rest) =>
                o ← string_body f rest;
                Some (let? (t, rest) := o in Ok (b ++ t, rest))
            end
      end
  end.

Fixpoint span_digits (s : bytes) : bytes * bytes :=
  match s with
  | c :: s' => if is_digit c then let '(d, r) := span_digits s' in (c :: d, r) else ([], s)
  | [] => ([], [])
  end.

Definition missing {A} (s : bytes) : result A :=
  match s with [] => unexpected_EOF | _ => invalid_json end.

(** The digits that must follow a period or an exponent. *)
Definition some_digits (s : bytes) : result (bytes * bytes) :=
  match span_digits s with
  | ([], r) => missing r
  | (d, r) => Ok (d, r)
  end.

Definition number_int (s : bytes) : result (bytes * bytes) :=
  match s with
  | c :: s' => if c =? 48 then Ok ([48], s') else some_digits s
  | [] => unexpected_EOF
  end.

Definition number_frac (s : bytes) : result (bytes * bytes) :=
  match s with
  | c :: s' => if c =? 46 then let? (d, r) := some_digits s' in Ok (46 :: d, r) else Ok ([], s)
  | [] => Ok ([], [])
  end.

Definition number_exp (s : bytes) : result (bytes * bytes) :=
  match s with
  | c :: s' =>
      if (c =? 101) || (c =? 69) then
        let '(sign, s'') := match s' with
                            | d :: r => if (d =? 43) || (d =? 45) then ([d], r) else ([], s')
                            | [] => ([], s')
                            end in
        let? (d, r) := some_digits s'' in Ok (c :: sign ++ d, r)
      else Ok ([], s)
  | [] => Ok ([], [])
  end.

Definition scan_number (s : bytes) : result (bytes * bytes) :=
  let '(sign, s) := match s with
                    | c :: s' => if c =? 45 then ([45], s') else ([], s)
                    | [] => ([], s)
                    end in
  let? (i, s) := number_int s in
  let? (f, s) := number_frac s in
  let? (e, s) := number_exp s in
  Ok (sign ++ i ++ f ++ e, s).

(** A literal name, letter by letter. *)
Fixpoint literal (name : bytes) (v : json) (s : bytes) : result (json * bytes) :=
  match name, s with
  | [], _ => Ok (v, s)
  | _ :: _, [] => unexpected_EOF
  | c :: name', d :: s' => if c =? d then literal name' v s' else invalid_json
  end.

(** The value at the front of the input and the rest.  [depth] is how many more
    objects and arrays may be opened. *)
Fixpoint json_value (fuel depth : nat) (s : bytes) : option (result (json * bytes)) :=
  match fuel with
  | O => None
  | S f =>
      match skip_space s with
      | [] => Some unexpected_EOF
      | c :: s' =>
          if c =? 123 then
            match depth with
            | O => Some (errorf "exceeded max depth")
            | S d =>
                match skip_space s' with
                | [] => Some unexpected_EOF
                | c :: r =>
                    if c =? 125 then Some (Ok (JObject [], r))
                    else o ← json_members f d (c :: r); Some (let? (l, r) := o in Ok (JObject l, r))
                end
            end
          else if c =? 91 then
            match depth with
            | O => Some (errorf "exceeded max depth")
            | S d =>
                match skip_space s' with
                | [] => Some unexpected_EOF
                | c :: r =>
                    if c =? 93 then Some (Ok (JArray [], r))
                    else o ← json_elements f d (c :: r); Some (let? (l, r) := o in Ok (JArray l, r))
                end
            end
          else if c =? 34 then
            o ← string_body (S (length s')) s'; Some (let? (t, r) := o in Ok (JString t, r))
          else if c =? 116 then Some (literal (str "true") (JBool true) (c :: s'))
          else if c =? 102 then Some (literal (str "false") (JBool false) (c :: s'))
          else if c =? 110 then Some (literal (str "null") JNull (c :: s'))
          else if (c =? 45) || is_digit c then
            Some (let? (n, r) := scan_number (c :: s') in Ok (JNumber n, r))
          else Some invalid_json
      end
  end
with json_members (fuel depth : nat) (s : bytes) : option (result (list (bytes * json) * bytes)) :=
  match fuel with
  | O => None
  | S f =>
      match s with
      | [] => Some unexpected_EOF
      | c :: s' =>
          if negb (c =? 34) then Some invalid_json else
          k ← string_body (S (length s')) s';
          match k with
          | Err e => Some (Err e)
          | Ok (key, r) =>
              match skip_space r with
              | [] => Some unexpected_EOF
              | c :: r =>
                  if negb (c =? 58) then Some invalid_json else
                  o ← json_value f depth r;
                  match o with
                  | Err e => Some (Err e)
                  | Ok (v, r) =>
                      match skip_space r with
                      | [] => Some unexpected_EOF
                      | c :: r =>
                          if c =? 125 then Some (Ok ([(key, v)], r))
                          else if c =? 44 then
                            o ← json_members f depth (skip_space r);
                            Some (let? (l, r) := o in Ok ((key, v) :: l, r))
                          else Some invalid_json
                      end
                  end
              end
          end
      end
  end
with json_elements (fuel depth : nat) (s : bytes) : option (result (list json * bytes)) :=
  match fuel with
  | O => None
  | S f =>
      o ← json_value f depth s;
      match o with
      | Err e => Some (Err e)
      | Ok (v, r) =>
          match skip_space r with
          | [] => Some unexpected_EOF
          | c :: r =>
              if c =? 93 then Some (Ok ([v], r))
              else if c =? 44 then
                o ← json_elements f depth r;
                Some (let? (l, r) := o in Ok (v :: l, r))
              else Some invalid_json
          end
      end
  end.

Definition maxNestingDepth : nat := Z.to_nat 10000.

(** [Decoder.readValue]: [EOF] when nothing but white space is left. *)
Definition read_value (s : bytes) : option (result (json * bytes)) :=
  match skip_space s with
  | [] => Some (Err EEOF)
  | s' => json_value (S (2 * length s')) maxNestingDepth s'
  end.

(** A JSON text with its quotes written as apostrophes. *)
Definition json_sample (s : string) : bytes := (λ c, if c =? 39 then 34 else c) <$> str s.

Example read_value_sample :
  read_value (json_sample " { 'a\u0041' : [ 1.5e3 , true,null ] , 'b':{}} x") =
  Some (Ok (JObject [(str "aA", JArray [JNumber (str "1.5e3"); JBool true; JNull]); (str "b", JObject [])],
            str " x")).
Proof. vm_compute. reflexivity. Qed.

(** ** Scanning ends *)

Lemma skip_space_length s : (length (skip_space s) ≤ length s)%nat.
Proof. induction s as [|c s IH]; simpl; [done|]. destruct (json_space c); simpl; lia. Qed.

Lemma hex4_rest s r s' : hex4 s = Some (r, s') → (length s' < length s)%nat.
Proof.
  unfold hex4. destruct s as [|a [|b [|c [|d s]]]]; try done.
  destruct (hex_val a), (hex_val b), (hex_val c), (hex_val d); try done.
  intros [= _ <-]. simpl. lia.
Qed.

Lemma escape_rest s b r : escape s = Ok (b, r) → (length r < length s)%nat.
Proof.
  unfold escape. destruct s as [|c s]; [done|]. simpl.
  repeat (destruct (_ || _) || destruct (c =? _); [intros [= _ <-]; lia|]).
  destruct (c =? 117); [|done]. destruct (hex4 s) as [[u s1]|] eqn:E; [|by destruct (_ <? _)%nat].
  apply hex4_rest in E. destruct (surrogate u); [|intros [= _ <-]; lia].
  unfold low_surrogate. destruct s1 as [|x [|y s1]]; try (intros [= _ <-]; simpl in *; lia).
  destruct (negb _); [intros [= _ <-]; lia|]. destruct (hex4 s1) as [[w s2]|] eqn:E2; simpl;
    [|intros [= _ <-]; lia].
  apply hex4_rest in E2. simpl in E. destruct (_ && _); intros [= _ <-]; simpl; lia.
Qed.

Lemma span_digits_rest s d r : span_digits s = (d, r) → (length d + length r = length s)%nat.
Proof.
  revert d r. induction s as [|c s IH]; simpl; intros d r H; [by simplify_eq|].
  destruct (is_digit c); [|by simplify_eq]. destruct (span_digits s) as [d' r'].
  simplify_eq. specialize (IH _ _ eq_refl). simpl. lia.
Qed.

Lemma some_digits_rest s d r : some_digits s = Ok (d, r) → (length r < length s)%nat.
Proof.
  unfold some_digits. destruct (span_digits s) as [[|x d'] r'] eqn:E; [by destruct r'|].
  apply span_digits_rest in E. intros [= _ <-]. simpl in E. lia.
Qed.

Lemma scan_number_rest s n r : scan_number s = Ok (n, r) → (length r < length s)%nat.
Proof.
  unfold scan_number. set (p := match s with c :: s' => _ | [] => _ end).
  assert (Hp : (length p.2 ≤ length s)%nat).
  { subst p. destruct s as [|c s']; [done|]. destruct (c =? 45); simpl; lia. }
  destruct p as [sign s0]. simpl in Hp.
  destruct (number_int s0) as [[i s1]|] eqn:E1; [|done].
  assert (H1 : (length s1 < length s0)%nat).
  { unfold number_int in E1. destruct s0 as [|c s0]; [done|]. destruct (c =? 48); [|by eapply some_digits_rest].
    simplify_eq. simpl. lia. }
  destruct (number_frac s1) as [[f s2]|] eqn:E2; [|done].
  assert (H2 : (length s2 ≤ length s1)%nat).
  { unfold number_frac in E2. destruct s1 as [|c s1]; [by simplify_eq|]. destruct (c =? 46); [|by simplify_eq].
    destruct (some_digits s1) as [[d r']|] eqn:E; [|done]. apply some_digits_rest in E. simplify_eq. simpl. lia. }
  destruct (number_exp s2) as [[e s3]|] eqn:E3; [|done]. intros [= _ <-].
  assert (H3 : (length s3 ≤ length s2)%nat); [|lia].
  unfold number_exp in E3. destruct s2 as [|c s2]; [by simplify_eq|].
  destruct (_ || _); [|by simplify_eq].
  set (q := match s2 with d :: r => _ | [] => _ end) in E3.
  assert (Hq : (length q.2 ≤ length s2)%nat).
  { subst q. destruct s2 as [|d s2]; [done|]. destruct (_ || _); simpl; lia. }
  destruct q as [sg s4]. simpl in Hq. destruct (some_digits s4) as [[d r']|] eqn:E; [|done].
  apply some_digits_rest in E. simplify_eq. simpl. lia.
Qed.

Lemma literal_rest name v s v' r : literal name v s = Ok (v', r) → (length r + length name = length s)%nat.
Proof.
  revert s. induction name as [|c name IH]; intros s; simpl; [intros [= _ <-]; lia|].
  destruct s as [|d s]; [done|]. destruct (c =? d); [|done]. intros H%IH. simpl. lia.
Qed.

(** The errors of the scanner are messages, never the end of the input. *)
Definition message {A} (r : result A) : Prop := ∀ e, r = Err e → ∃ m, e = EMsg m.

Lemma message_Ok {A} (a : A) : message (Ok a).
Proof. done. Qed.
Lemma message_errorf {A} m : message (errorf m : result A).
Proof. intros e [= <-]. eauto. Qed.
Lemma message_missing {A} s : message (missing s : result A).
Proof. destruct s; apply message_errorf. Qed.
Lemma message_bind {A B} (r : result A) (k : A → result B) :
  message r → (∀ a, message (k a)) → message (let? a := r in k a).
Proof. intros Hr Hk. destruct r as [a|e]; [apply Hk|]. intros e' [= <-]. by apply Hr. Qed.

Create HintDb message.
#[export] Hint Resolve message_Ok message_errorf message_missing : message.

Lemma escape_message s : message (escape s).
Proof.
  unfold escape. destruct s as [|c s]; [apply message_errorf|].
  repeat (destruct (_ || _) || destruct (c =? _); [first [by apply message_Ok | idtac]|]); try apply message_errorf.
  destruct (hex4 s) as [[u s1]|]; [|destruct (_ <? _)%nat; apply message_errorf].
  destruct (surrogate u); [|done]. by destruct (low_surrogate u s1) as [[? ?]|].
Qed.

Lemma some_digits_message s : message (some_digits s).
Proof. unfold some_digits. destruct (span_digits s) as [[|x d] r]; auto with message. Qed.

Lemma scan_number_message s : message (scan_number s).
Proof.
  unfold scan_number. set (p := match s with c :: s' => _ | [] => _ end). destruct p as [sign s0].
  apply (message_bind (number_int s0) (λ '(i, s), _)).
  { unfold number_int. destruct s0 as [|c s0]; [apply message_errorf|].
    destruct (c =? 48); [done|apply some_digits_message]. }
  intros [i s1]. apply (message_bind (number_frac s1) (λ '(f, s), _)).
  { unfold number_frac. destruct s1 as [|c s1]; [done|]. destruct (c =? 46); [|done].
    apply (message_bind (some_digits s1) (λ '(d, r), _)); [apply some_digits_message|by intros [? ?]]. }
  intros [f s2]. apply (message_bind (number_exp s2) (λ '(e, s), _)); [|by intros [? ?]].
  unfold number_exp. destruct s2 as [|c s2]; [done|]. destruct (_ || _); [|done].
  set (q := match s2 with d :: r => _ | [] => _ end). destruct q as [sg s4].
  apply (message_bind (some_digits s4) (λ '(d, r), _)); [apply some_digits_message|by intros [? ?]].
Qed.

Lemma literal_message name v s : message (literal name v s).
Proof.
  revert s. induction name as [|c name IH]; intros s; simpl; [done|].
  destruct s as [|d s]; [apply message_errorf|]. destruct (c =? d); [apply IH|apply message_errorf].
Qed.

(** [ends f s]: with enough fuel the scanner decides, and consumes something. *)
Definition ends {A} (o : option (result (A * bytes))) (s : bytes) : Prop :=
  ∃ r, o = Some r ∧ message r ∧ ∀ a rest, r = Ok (a, rest) → (length rest < length s)%nat.

Lemma ends_errorf {A} m s : ends (A:=A) (Some (errorf m)) s.
Proof. eexists. split; [done|]. split; [apply message_errorf|done]. Qed.

Lemma ends_Ok {A} (a : A) r s : (length r < length s)%nat → ends (Some (Ok (a, r))) s.
Proof. intros H. eexists. split; [done|]. split; [done|]. by intros ? ? [= _ <-]. Qed.

(** The continuation of a scanner after a part of the input. *)
Lemma ends_then {A B} (o : option (result (A * bytes))) (k : A → bytes → option (result (B * bytes))) s s' :
  ends o s' → (length s' ≤ length s)%nat →
  (∀ a rest, (length rest < length s')%nat → ends (k a rest) s) →
  ends (r ← o; match r with Err e => Some (Err e) | Ok (a, rest) => k a rest end) s.
Proof.
  intros (r & -> & Hm & H) Hle Hk. simpl. destruct r as [[a rest]|e].
  - apply Hk. by apply (H a rest).
  - destruct (Hm e eq_refl) as [m ->]. apply ends_errorf.
Qed.

Lemma ends_bind {A B} (o : option (result (A * bytes))) (f : A → B) s s' :
  ends o s' → (length s' ≤ length s)%nat →
  ends (r ← o; Some (let? (a, rest) := r in Ok (f a, rest))) s.
Proof.
  intros (r & -> & Hm & H) Hle. simpl. destruct r as [[a rest]|e].
  - apply ends_Ok. specialize (H a rest eq_refl). lia.
  - destruct (Hm e eq_refl) as [m ->]. apply ends_errorf.
Qed.

Lemma string_body_ends fuel s : (length s < fuel)%nat → ends (string_body fuel s) s.
Proof.
  revert s. induction fuel as [|f IH]; intros s Hf; [lia|]. cbn [string_body].
  destruct s as [|c s']; [apply ends_errorf|]. destruct (c =? 34); [apply ends_Ok; simpl; lia|].
  set (step := if c =? 92 then _ else _).
  assert (Hs : message step ∧ ∀ b rest, step = Ok (b, rest) → (length rest < length (c :: s'))%nat).
  { subst step. destruct (c =? 92).
    - split; [apply escape_message|]. intros b rest H%escape_rest. simpl. lia.
    - destruct (c <? 32); [split; [apply message_errorf|done]|]. pose proof (decode_rune_width c s') as Hw.
      destruct (decode_rune (c :: s')) as [r n]. split; [done|].
      simpl in Hw. intros b rest [= _ <-]. rewrite length_drop. simpl. lia. }
  destruct Hs as [Hm Hs]. destruct step as [[b rest]|e]; [|destruct (Hm e eq_refl) as [m ->]; apply ends_errorf].
  specialize (Hs b rest eq_refl).
  apply (ends_bind _ (λ t, b ++ t) _ rest); [|lia]. apply IH. lia.
Qed.

Lemma json_scan_ends fuel :
  (∀ depth s, (2 * length s < fuel)%nat → ends (json_value fuel depth s) s) ∧
  (∀ depth s, (2 * length s < fuel)%nat → ends (json_members fuel depth s) s) ∧
  (∀ depth s, (2 * length s + 1 < fuel)%nat → ends (json_elements fuel depth s) s).
Proof.
  induction fuel as [|f (IHv & IHm & IHe)]; [split; [|split]; intros; lia|].
  split; [|split]; intros depth s Hf.
  - cbn [json_value]. pose proof (skip_space_length s) as Hs.
    destruct (skip_space s) as [|c s']; [apply ends_errorf|]. simpl in Hs.
    pose proof (skip_space_length s') as Hs'.
    destruct (c =? 123).
    { destruct depth as [|d]; [apply ends_errorf|].
      destruct (skip_space s') as [|c' r]; [apply ends_errorf|]. simpl in Hs'.
      destruct (c' =? 125); [apply ends_Ok; lia|].
      apply (ends_bind _ JObject _ (c' :: r)); [apply IHm|]; simpl; lia. }
    destruct (c =? 91).
    { destruct depth as [|d]; [apply ends_errorf|].
      destruct (skip_space s') as [|c' r]; [apply ends_errorf|]. simpl in Hs'.
      destruct (c' =? 93); [apply ends_Ok; lia|].
      apply (ends_bind _ JArray _ (c' :: r)); [apply IHe|]; simpl; lia. }
    destruct (c =? 34).
    { apply (ends_bind _ JString _ s'); [apply string_body_ends|]; lia. }
    assert (Hl : ∀ name v, name ≠ [] → ends (Some (literal name v (c :: s'))) s).
    { intros name v Hn. eexists. split; [done|]. split; [apply literal_message|]. intros a rest E%literal_rest. simpl in E.
      destruct name; [done|]. simpl in E. lia. }
    destruct (c =? 116); [by apply Hl|]. destruct (c =? 102); [by apply Hl|].
    destruct (c =? 110); [by apply Hl|]. destruct (_ || _); [|apply ends_errorf].
    pose proof (scan_number_message (c :: s')) as Hm.
    destruct (scan_number (c :: s')) as [[n r]|e] eqn:E;
      [|destruct (Hm e eq_refl) as [m ->]; apply ends_errorf].
    apply scan_number_rest in E. simpl in E. apply ends_Ok. lia.
  - cbn [json_members]. destruct s as [|c s']; [apply ends_errorf|]. simpl in Hf.
    destruct (negb _); [apply ends_errorf|].
    apply ends_then with (s' := s'); [apply string_body_ends; lia|simpl; lia|]. intros key r Hr.
    pose proof (skip_space_length r) as Hs. destruct (skip_space r) as [|c1 r1]; [apply ends_errorf|].
    simpl in Hs. destruct (negb _); [apply ends_errorf|].
    apply ends_then with (s' := r1); [apply IHv; lia|simpl; lia|]. intros v r2 Hr2.
    pose proof (skip_space_length r2) as Hs2. destruct (skip_space r2) as [|c3 r3]; [apply ends_errorf|].
    simpl in Hs2. destruct (c3 =? 125); [apply ends_Ok; simpl; lia|]. destruct (c3 =? 44); [|apply ends_errorf].
    pose proof (skip_space_length r3).
    apply (ends_bind _ (λ l, (key, v) :: l) _ (skip_space r3)); [apply IHm|simpl]; lia.
  - cbn [json_elements]. apply ends_then with (s' := s); [apply IHv; lia|lia|]. intros v r Hr.
    pose proof (skip_space_length r) as Hs. destruct (skip_space r) as [|c1 r1]; [apply ends_errorf|].
    simpl in Hs. destruct (c1 =? 93); [apply ends_Ok; lia|]. destruct (c1 =? 44); [|apply ends_errorf].
    apply (ends_bind _ (λ l, v :: l) _ r1); [apply IHe|]; lia.
Qed.

(** Every input is decided: a value, an error, or the end of the input, which only
    an input of white space reaches. *)
Lemma read_value_total s :
  ∃ r, read_value s = Some r ∧ (∀ v rest, r = Ok (v, rest) → (length rest < length s)%nat) ∧
       (skip_space s = [] ∧ r = Err EEOF ∨ skip_space s ≠ [] ∧ message r).
Proof.
  unfold read_value. pose proof (skip_space_length s) as Hs. destruct (skip_space s) as [|c s'] eqn:E.
  - eexists. split; [done|]. split; [done|]. by left.
  - destruct (proj1 (json_scan_ends (S (2 * length (c :: s')))) maxNestingDepth (c :: s')) as (r & Hr & Hm & Hl);
      [lia|]. exists r. split; [done|]. split; [|by right]. intros v rest Ho. specialize (Hl v rest Ho). lia.
Qed.

(** ** Strings are read back *)

(** Well-formed UTF-8: every rune is the encoding of itself. *)
Definition utf8_ok (s : bytes) : Prop := Forall (λ c, encode_rune c.1 = c.2) (chunks s).

#[export] Instance utf8_ok_dec s : Decision (utf8_ok s).
Proof. unfold utf8_ok. apply _. Defined.

Lemma utf8_ok_ascii s : Forall (λ c, 0 ≤ c < 128) s → utf8_ok s.
Proof.
  intros H. unfold utf8_ok. induction H as [|c s Hc _ IH]; [constructor|].
  rewrite chunks_cons_ascii by lia. constructor; [|done]. by apply encode_rune_ascii.
Qed.

Lemma utf8_name s : forallb (in_range 0 127) (str s) = true → utf8_ok (str s).
Proof.
  intros H. apply utf8_ok_ascii, list.Forall_forall. intros c Hc.
  rewrite forallb_forall in H. apply list_elem_of_In in Hc. apply H, in_range_spec in Hc. lia.
Qed.

(** A rune is decoded from its own bytes, whatever follows them. *)
Lemma decode_rune_app l r n x :
  decode_rune l = (r, n) → encode_rune r = take n l → l ≠ [] → decode_rune (take n l ++ x) = (r, n).
Proof.
  destruct l as [|b0 t]; [done|]. intros H He _. revert H He. unfold decode_rune.
  destruct (b0 <? 128) eqn:E0.
  { intros [= <- <-] _. simpl. by rewrite E0. }
  assert (Herr : ∀ r n, (RuneError, 1%nat) = (r, n) → encode_rune r = take n (b0 :: t) → False)
    by (intros ? ? [= <- <-]; by vm_compute).
  destruct (utf8_first b0) as [[[k lo] hi]|] eqn:Ef; [|intros H He; by destruct (Herr _ _ H He)].
  destruct k as [|[|[|[|[|k]]]]]; try (intros H He; by destruct (Herr _ _ H He)).
  - destruct t as [|b1 t]; [intros H He; by destruct (Herr _ _ H He)|].
    destruct (in_range lo hi b1) eqn:E1; [|intros H He; by destruct (Herr _ _ H He)].
    intros [= <- <-] _. simpl. by rewrite E0, Ef, E1.
  - destruct t as [|b1 [|b2 t]]; try (intros H He; by destruct (Herr _ _ H He)).
    destruct (in_range lo hi b1 && in_range 128 191 b2) eqn:E1; [|intros H He; by destruct (Herr _ _ H He)].
    intros [= <- <-] _. simpl. by rewrite E0, Ef, E1.
  - destruct t as [|b1 [|b2 [|b3 t]]]; try (intros H He; by destruct (Herr _ _ H He)).
    destruct (in_range lo hi b1 && in_range 128 191 b2 && in_range 128 191 b3) eqn:E1;
      [|intros H He; by destruct (Herr _ _ H He)].
    intros [= <- <-] _. simpl. by rewrite E0, Ef, E1.
Qed.

(** What follows a byte of a string that is neither its end nor refused. *)
Definition string_step (f : nat) (b rest : bytes) : option (result (bytes * bytes)) :=
  o ← string_body f rest; Some (let? (t, rest) := o in Ok (b ++ t, rest)).

Lemma string_body_escape f s b rest :
  escape s = Ok (b, rest) → string_body (S f) (92 :: s) = string_step f b rest.
Proof. intros H. cbn [string_body]. change (92 =? 34) with false. cbv iota. by rewrite Z.eqb_refl, H. Qed.

(** The escapes the encoder writes, one by one. *)
Lemma escape_control r x : 0 ≤ r < 64 →
  escape (117 :: 48 :: 48 :: hex_digit (Z.shiftr r 4) :: hex_digit (Z.land r 15) :: x) = Ok ([r], x).
Proof.
  intros Hr. assert (Hf : Forall (λ r, hex_val (hex_digit (Z.shiftr r 4)) = Some (r / 16) ∧
    hex_val (hex_digit (Z.land r 15)) = Some (r mod 16)) (seqZ 0 64)).
  { apply (bool_decide_unpack _). vm_compute. done. }
  rewrite list.Forall_forall in Hf. destruct (Hf r) as [H1 H2]; [apply elem_of_seqZ; lia|].
  unfold escape. cbn -[hex4 Z.shiftr Z.land hex_digit]. unfold hex4.
  change (hex_val 48) with (Some 0). rewrite H1, H2. cbn [mbind option_bind].
  replace (_ + r mod 16) with r by (rewrite (Z.div_mod r 16) at 1; lia).
  rewrite encode_rune_ascii by lia. unfold surrogate, in_range.
  by rewrite (proj2 (Z.leb_gt 55296 r)) by lia.
Qed.

(** A rune the encoder leaves as it is. *)
Lemma string_body_verbatim f r c b0 t x :
  c = b0 :: t → 32 ≤ r → r ≠ 34 → r ≠ 92 → decode_rune (c ++ x) = (r, length c) → encode_rune r = c →
  string_body (S f) (c ++ x) = string_step f c x.
Proof.
  intros -> Hr H1 H2 Hd He. cbn [app string_body].
  assert (Hb : 32 ≤ b0 ∧ b0 ≠ 34 ∧ b0 ≠ 92).
  { destruct (decide (b0 < 128)) as [Hlt|]; [|lia].
    cbn [app] in Hd. rewrite decode_rune_ascii in Hd by done. by simplify_eq. }
  rewrite !(proj2 (Z.eqb_neq b0 _)), (proj2 (Z.ltb_ge b0 32)) by lia.
  cbn [app] in Hd. rewrite Hd, He. change (b0 :: t ++ x) with ((b0 :: t) ++ x). by rewrite drop_app_length.
Qed.

(** A rune as the encoder writes it is read back in one step. *)
Lemma string_body_rune f r c b0 t x :
  c = b0 :: t → encode_rune r = c → decode_rune (c ++ x) = (r, length c) →
  string_body (S f) (json_rune (r, c) ++ x) = string_step f c x.
Proof.
  intros Hc He Hd. assert (H0 : 0 ≤ r).
  { destruct (decide (0 ≤ r)); [done|]. subst c. unfold encode_rune in He.
    rewrite (proj2 (Z.ltb_lt r 0)) in He by lia. simpl in He. injection He as <- <-.
    vm_compute in Hd. by simplify_eq. }
  assert (Hshort : ∀ c', r < 128 → c' = r → c = [c']) by (intros c' ? ->; rewrite <-He; apply encode_rune_ascii; lia).
  unfold json_rune. cbn [fst snd].
  destruct ((r =? 34) || (r =? 92)) eqn:E1.
  { cbn [app]. apply string_body_escape. rewrite (Hshort r) by lia. unfold escape.
    destruct (decide (r = 34)) as [->|]; [done|]. by replace r with 92 by lia. }
  destruct (r =? 8) eqn:E2; [rewrite (Hshort 8) by lia; by apply string_body_escape|].
  destruct (r =? 12) eqn:E3; [rewrite (Hshort 12) by lia; by apply string_body_escape|].
  destruct (r =? 10) eqn:E4; [rewrite (Hshort 10) by lia; by apply string_body_escape|].
  destruct (r =? 13) eqn:E5; [rewrite (Hshort 13) by lia; by apply string_body_escape|].
  destruct (r =? 9) eqn:E6; [rewrite (Hshort 9) by lia; by apply string_body_escape|].
  destruct ((r <? 32) || _ || _ || _) eqn:E7.
  { rewrite (Hshort r) by lia. apply string_body_escape, escape_control. lia. }
  destruct (r =? 8232) eqn:E8.
  { apply Z.eqb_eq in E8 as ->. subst c. rewrite <-He. by apply string_body_escape. }
  destruct (r =? 8233) eqn:E9.
  { apply Z.eqb_eq in E9 as ->. subst c. rewrite <-He. by apply string_body_escape. }
  destruct ((r =? RuneError) && _) eqn:E10; bools.
  { subst r. subst c. rewrite <-He in *. done. }
  apply (string_body_verbatim f r c b0 t x); try done; lia.
Qed.

(** A string is read back as it was, whatever follows its closing quote. *)
Lemma string_body_chunks fuel s rest :
  utf8_ok s → (length (chunks s) < fuel)%nat →
  string_body fuel (mjoin (json_rune <$> chunks s) ++ 34 :: rest) = Some (Ok (s, rest)).
Proof.
  revert s. induction fuel as [|f IH]; intros s Hs Hf; [lia|].
  destruct s as [|b t]; [done|]. unfold utf8_ok in Hs. rewrite chunks_cons in *.
  pose proof (decode_rune_width b t) as Hw. destruct (decode_rune (b :: t)) as [r n] eqn:Hd.
  cbn [fst snd] in *. simpl in Hw, Hf. rewrite list.Forall_cons in Hs. destruct Hs as [He Hs]. cbn [fst snd] in He.
  rewrite fmap_cons, mjoin_cons, <-app_assoc.
  destruct n as [|n]; [lia|].
  rewrite (string_body_rune f r _ b (take n t)); [|done|done|].
  - unfold string_step. rewrite IH by (done || lia). cbn [mbind option_bind].
    do 3 f_equal. apply (take_drop (S n) (b :: t)).
  - rewrite (decode_rune_app _ _ _ _ Hd He) by done. f_equal. rewrite length_take. simpl. lia.
Qed.

Lemma length_json_rune r c : c ≠ [] → (1 ≤ length (json_rune (r, c)))%nat.
Proof.
  intros Hc. destruct c as [|b c]; [done|]. unfold json_rune.
  repeat (destruct (_ : bool) || case_match; [simpl; lia|]). simpl. lia.
Qed.

Lemma length_json_runes s : (length (chunks s) ≤ length (mjoin (json_rune <$> chunks s)))%nat.
Proof.
  remember (length s) as k eqn:Hk. revert s Hk. induction k as [k IH] using lt_wf_ind. intros [|b t] Hk; [done|].
  rewrite chunks_cons. rewrite fmap_cons, mjoin_cons, length_app. cbn [length].
  pose proof (decode_rune_width b t) as Hw. destruct (decode_rune (b :: t)) as [r n]. cbn [fst snd] in *. simpl in Hw.
  pose proof (length_json_rune r (take n (b :: t))) as H1.
  assert (H2 : take n (b :: t) ≠ []) by (destruct n; [lia|done]). specialize (H1 H2).
  specialize (IH (length (drop n (b :: t)))). rewrite length_drop in IH at 1.
  specialize (IH ltac:(subst k; simpl; lia) _ eq_refl). lia.
Qed.

(** ** Numbers are read back *)

(** What may follow a number without continuing it. *)
Definition follow (s : bytes) : Prop :=
  match s with
  | c :: _ => is_digit c = false ∧ c ≠ 46 ∧ c ≠ 101 ∧ c ≠ 69
  | [] => True
  end.

Lemma span_digits_app ds rest :
  Forall (λ c, is_digit c = true) ds → follow rest → span_digits (ds ++ rest) = (ds, rest).
Proof.
  intros Hd Hr. induction Hd as [|c ds Hc _ IH]; simpl.
  - destruct rest as [|c rest]; [done|]. simpl. by destruct Hr as [-> _].
  - by rewrite Hc, IH.
Qed.

(** No leading zero. *)
Lemma itoa_fuel_leading f n acc :
  0 < n < 10 ^ Z.of_nat f → ∃ c t, itoa_fuel f n acc = c :: t ∧ 49 ≤ c ≤ 57.
Proof.
  revert n acc. induction f as [|f IH]; intros n acc Hn; [simpl in Hn; lia|]. cbn [itoa_fuel].
  destruct (n <? 10) eqn:E; [eexists _, _; split; [done|lia]|]. apply IH.
  rewrite Nat2Z.inj_succ, Z.pow_succ_r in Hn by lia. Z.div_mod_to_equations. lia.
Qed.

Lemma Itoa_leading n : 0 ≤ n < 10 ^ 20 →
  (n = 0 ∧ Itoa n = [48]) ∨ ∃ c t, Itoa n = c :: t ∧ 49 ≤ c ≤ 57.
Proof.
  intros Hn. destruct (decide (n = 0)) as [->|]; [by left|]. right. apply (itoa_fuel_leading 20). simpl. lia.
Qed.

Lemma scan_number_Itoa n rest :
  0 ≤ n < 10 ^ 20 → follow rest → scan_number (Itoa n ++ rest) = Ok (Itoa n, rest).
Proof.
  intros Hn Hr. unfold scan_number.
  assert (Hi : number_int (Itoa n ++ rest) = Ok (Itoa n, rest)).
  { pose proof (span_digits_app (Itoa n) rest (Itoa_digits n ltac:(lia)) Hr) as Hs.
    unfold number_int, some_digits. destruct (Itoa_leading n Hn) as [[-> ->]|(c & t & E & Hc)]; [done|].
    rewrite Hs, E. simpl. by rewrite (proj2 (Z.eqb_neq c 48)) by lia. }
  destruct (Itoa_head n) as (c & t & E & Hc); [lia|]. rewrite E in *. cbn [app].
  rewrite (proj2 (Z.eqb_neq c 45)) by lia. cbn [app] in Hi. rewrite Hi.
  destruct rest as [|x rest]; [cbn; by rewrite app_nil_r|]. simpl in Hr. destruct Hr as (_ & H1 & H2 & H3).
  unfold number_frac, number_exp. rewrite !(proj2 (Z.eqb_neq x _)) by done. cbn. by rewrite app_nil_r.
Qed.

(** ** Values are read back *)

(** A value as a text, with the white space [sp] wherever white space is allowed;
    with none it is what the encoder writes. *)
Fixpoint print_json (sp : bytes) (j : json) : bytes :=
  match j with
  | JNull => str "null"
  | JBool b => json_bool b
  | JNumber raw => raw
  | JString s => json_string s
  | JArray l => [91] ++ sp ++ Join (List.map (print_json sp) l) (sp ++ [44] ++ sp) ++ sp ++ [93]
  | JObject l =>
      [123] ++ sp ++
      Join (List.map (λ m, json_string m.1 ++ sp ++ [58] ++ sp ++ print_json sp m.2) l) (sp ++ [44] ++ sp)
      ++ sp ++ [125]
  end.

(** Values of at most [d] levels whose strings are UTF-8 and whose numbers are
    natural numbers. *)
Inductive printable : nat → json → Prop :=
| printable_null d : printable d JNull
| printable_bool d b : printable d (JBool b)
| printable_number d n : 0 ≤ n < 10 ^ 20 → printable d (JNumber (Itoa n))
| printable_string d s : utf8_ok s → printable d (JString s)
| printable_array d l : Forall (printable d) l → printable (S d) (JArray l)
| printable_object d l : Forall (λ m, utf8_ok m.1 ∧ printable d m.2) l → printable (S d) (JObject l).

Definition spaces (sp : bytes) : Prop := Forall (λ c, json_space c = true) sp.

Lemma skip_spaces sp c s : spaces sp → json_space c = false → skip_space (sp ++ c :: s) = c :: s.
Proof.
  intros Hs Hc. induction Hs as [|x sp Hx _ IH]; simpl; [by rewrite Hc|by rewrite Hx].
Qed.

Lemma skip_spaces_head sp c s :
  spaces sp → head s = Some c → json_space c = false → skip_space (sp ++ s) = s.
Proof. intros Hsp Hs Hc. destruct s as [|c' s]; [done|]. simplify_eq/=. by apply skip_spaces. Qed.

Lemma skip_only_spaces sp : spaces sp → skip_space sp = [].
Proof. induction 1 as [|x sp Hx _ IH]; simpl; [done|by rewrite Hx]. Qed.

Lemma follow_spaces sp c s : spaces sp → follow (c :: s) → follow (sp ++ c :: s).
Proof.
  intros Hs Hf. destruct Hs as [|x sp Hx _]; [done|]. simpl. unfold json_space in Hx. unfold is_digit, in_range.
  split; [|lia]. lia.
Qed.

(** The first character of a value. *)
Lemma print_json_head sp d j : printable d j →
  ∃ c t, print_json sp j = c :: t ∧ json_space c = false ∧ c ≠ 93 ∧ c ≠ 125.
Proof.
  destruct 1 as [d|d b|d n Hn|d s Hs|d l Hl|d l Hl]; cbn [print_json].
  - by eexists _, _.
  - destruct b; by eexists _, _.
  - destruct (Itoa_head n) as (c & t & -> & Hc); [lia|]. eexists _, _. split; [done|]. unfold json_space. lia.
  - by eexists _, _.
  - by eexists _, _.
  - by eexists _, _.
Qed.

Lemma string_body_json s rest :
  utf8_ok s → string_body (S (length (mjoin (json_rune <$> chunks s) ++ 34 :: rest)))
                (mjoin (json_rune <$> chunks s) ++ 34 :: rest) = Some (Ok (s, rest)).
Proof.
  intros Hs. apply string_body_chunks; [done|]. pose proof (length_json_runes s). rewrite length_app. lia.
Qed.

Section read_back.
Context (sp : bytes) (Hsp : spaces sp).

(** With enough fuel, a value of [d] levels is read back. *)
Definition reads (d : nat) (j : json) : Prop := ∀ fuel rest,
  (2 * length (print_json sp j ++ rest) < fuel)%nat → follow rest →
  json_value fuel d (print_json sp j ++ rest) = Some (Ok (j, rest)).

Lemma reads_string d s : utf8_ok s → reads d (JString s).
Proof.
  intros Hs [|f] rest Hf _; [lia|]. cbn [print_json]. unfold json_string. rewrite <-!app_assoc. cbn [app].
  cbn [json_value skip_space]. change (json_space 34) with false. cbv iota.
  change (34 =? 123) with false. change (34 =? 91) with false. change (34 =? 34) with true. cbv iota.
  by rewrite string_body_json.
Qed.

Lemma reads_number d n : 0 ≤ n < 10 ^ 20 → reads d (JNumber (Itoa n)).
Proof.
  intros Hn [|f] rest Hf Hr; [lia|]. cbn [print_json]. pose proof (scan_number_Itoa n rest Hn Hr) as Hs.
  destruct (Itoa_head n) as (c & t & E & Hc); [lia|]. rewrite E in *. cbn [app] in *.
  cbn [json_value skip_space]. assert (Hsp' : json_space c = false) by (unfold json_space; lia).
  rewrite Hsp', !(proj2 (Z.eqb_neq c _)) by lia. cbn [orb].
  assert (Hd : is_digit c = true) by (unfold is_digit, in_range; lia). by rewrite Hd, Hs.
Qed.

Lemma reads_literal d j : (j = JNull ∨ ∃ b, j = JBool b) → reads d j.
Proof. intros [->|[[] ->]] [|f] rest Hf _; try lia; done. Qed.

(** White space before the next value is skipped. *)
Lemma value_spaces fuel d j s :
  printable d j → json_value fuel d (sp ++ print_json sp j ++ s) = json_value fuel d (print_json sp j ++ s).
Proof.
  intros Hj. destruct (print_json_head sp d j Hj) as (c & t & E & Hc & _). rewrite E. destruct fuel as [|f]; [done|].
  cbn [json_value app]. rewrite skip_spaces by done.
  change (skip_space (c :: t ++ s)) with (skip_space ([] ++ c :: t ++ s)).
  by rewrite (skip_spaces []) by (constructor || done).
Qed.

Lemma elements_spaces fuel d c s :
  head s = Some c → json_space c = false → json_elements fuel d (sp ++ s) = json_elements fuel d s.
Proof.
  intros Hs Hc. destruct s as [|c' s]; [done|]. simplify_eq/=. destruct fuel as [|[|f]]; try done.
  cbn [json_elements json_value]. rewrite (skip_spaces sp c s) by done.
  change (skip_space (c :: s)) with (skip_space ([] ++ c :: s)). by rewrite (skip_spaces []) by (constructor || done).
Qed.

Lemma Join_head x l sep c t s : x = c :: t → head (Join (x :: l) sep ++ s) = Some c.
Proof. intros ->. by destruct l. Qed.

(** Elements and members up to the closing bracket. *)
Lemma elements_read d l x fuel rest :
  Forall (reads d) (x :: l) → Forall (printable d) (x :: l) →
  let s := Join (List.map (print_json sp) (x :: l)) (sp ++ [44] ++ sp) ++ sp ++ 93 :: rest in
  (2 * length s + 1 < fuel)%nat → json_elements fuel d s = Some (Ok (x :: l, rest)).
Proof.
  revert x fuel. induction l as [|y l IH]; intros x fuel Hr Hp s Hf; destruct fuel as [|f]; try lia;
    apply list.Forall_cons in Hr as [Hx Hr]; apply list.Forall_cons in Hp as [Px Hp]; subst s; cbn [json_elements].
  - cbn [List.map Join] in *. rewrite Hx; [|lia|by apply follow_spaces].
    cbn [mbind option_bind]. by rewrite skip_spaces.
  - cbn [List.map] in *. rewrite Join_cons_cons in *. rewrite <-!app_assoc in *. cbn [app] in *.
    rewrite Hx; [|lia|by apply follow_spaces].
    cbn [mbind option_bind]. rewrite skip_spaces by done. change (44 =? 93) with false.
    change (44 =? 44) with true. cbv iota.
    destruct (print_json_head sp d y) as (c & t & E & Hc & _); [by apply list.Forall_cons in Hp as [Py _]|].
    rewrite elements_spaces with (c := c) by (done || by apply (Join_head _ _ _ c t)).
    rewrite IH; [done..|]. rewrite !length_app in Hf |- *. cbn [length] in Hf. rewrite !length_app in Hf. cbn [length] in *. lia.
Qed.

Definition print_member (m : bytes * json) : bytes :=
  json_string m.1 ++ sp ++ [58] ++ sp ++ print_json sp m.2.

(** A member, and what its follower decides. *)
Lemma member_read d x f rest :
  utf8_ok x.1 → reads d x.2 → printable d x.2 → follow rest →
  (2 * length (print_member x ++ rest) < S f)%nat →
  json_members (S f) d (print_member x ++ rest) =
  match skip_space rest with
  | [] => Some unexpected_EOF
  | c :: r =>
      if c =? 125 then Some (Ok ([x], r))
      else if c =? 44 then
        o ← json_members f d (skip_space r); Some (let? (l, r) := o in Ok (x :: l, r))
      else Some invalid_json
  end.
Proof.
  destruct x as [key v]. unfold print_member, json_string. cbn [fst snd]. intros Hk Hx Hp Hr Hf.
  rewrite <-!app_assoc in *. cbn [app] in *. cbn [json_members]. change (34 =? 34) with true. cbn [negb].
  rewrite string_body_json by done. cbn [mbind option_bind]. rewrite skip_spaces by done.
  change (58 =? 58) with true. cbn [negb]. rewrite value_spaces by eauto.
  cbn [length] in Hf. rewrite length_app in Hf. cbn [length] in Hf. rewrite length_app in Hf. cbn [length] in Hf.
  rewrite length_app in Hf. rewrite Hx by (done || lia). done.
Qed.

Lemma members_read d l x fuel rest :
  Forall (λ m, utf8_ok m.1 ∧ reads d m.2) (x :: l) → Forall (λ m, printable d m.2) (x :: l) →
  let s := Join (List.map print_member (x :: l)) (sp ++ [44] ++ sp) ++ sp ++ 125 :: rest in
  (2 * length s < fuel)%nat → json_members fuel d s = Some (Ok (x :: l, rest)).
Proof.
  revert x fuel. induction l as [|y l IH]; intros x fuel Hr Hp s Hf; destruct fuel as [|f]; try lia;
    apply list.Forall_cons in Hr as [[Hk Hx] Hr]; apply list.Forall_cons in Hp as [Px Hp]; subst s.
  - cbn [List.map Join] in *. rewrite member_read by (done || by apply follow_spaces). cbn [mbind option_bind]. by rewrite skip_spaces.
  - cbn [List.map] in *. rewrite Join_cons_cons in *. rewrite <-!app_assoc in *. cbn [app] in *.
    rewrite member_read by (done || by apply follow_spaces). cbn [mbind option_bind]. rewrite skip_spaces by done.
    change (44 =? 125) with false. change (44 =? 44) with true. cbv iota.
    rewrite (skip_spaces_head sp 34) by (done || by eapply Join_head).
    rewrite IH; [done..|]. rewrite !length_app in Hf |- *. cbn [length] in Hf. rewrite !length_app in Hf. cbn [length] in *. lia.
Qed.
Lemma spaces_twice : spaces (sp ++ sp).
Proof. by apply Forall_app. Qed.

Lemma reads_array d l : Forall (reads d) l → Forall (printable d) l → reads (S d) (JArray l).
Proof.
  intros Hr Hp [|f] rest Hf _; [lia|]. cbn [print_json] in *. rewrite <-!app_assoc in *. cbn [app] in *.
  assert (Heq : ∀ s, json_value (S f) (S d) (91 :: s) =
    match skip_space s with
    | [] => Some unexpected_EOF
    | c :: r => if c =? 93 then Some (Ok (JArray [], r))
                else o ← json_elements f d (c :: r); Some (let? (l, r) := o in Ok (JArray l, r))
    end) by done.
  rewrite Heq. destruct l as [|x l].
  { cbn [List.map Join app]. by rewrite app_assoc, (skip_spaces _ _ _ spaces_twice). }
  destruct (print_json_head sp d x) as (c & t & Ex & Hc & H93 & _); [by inversion Hp|].
  rewrite (skip_spaces_head sp c) by (done || by eapply Join_head).
  pose proof (elements_read d l x f rest Hr Hp) as He. cbn [List.map] in *. cbn [length app] in *. rewrite length_app in Hf.
  set (s := Join _ _ ++ _) in *. assert (Hs : head s = Some c) by (by eapply Join_head). clearbody s.
  destruct s as [|c' s]; [done|]. simplify_eq/=.
  rewrite (proj2 (Z.eqb_neq c 93)) by done. rewrite He; [done|]. lia.
Qed.

Lemma reads_object d l :
  Forall (λ m, utf8_ok m.1 ∧ reads d m.2) l → Forall (λ m, printable d m.2) l → reads (S d) (JObject l).
Proof.
  intros Hr Hp [|f] rest Hf _; [lia|]. cbn [print_json] in *. rewrite <-!app_assoc in *. cbn [app] in *.
  assert (Heq : ∀ s, json_value (S f) (S d) (123 :: s) =
    match skip_space s with
    | [] => Some unexpected_EOF
    | c :: r => if c =? 125 then Some (Ok (JObject [], r))
                else o ← json_members f d (c :: r); Some (let? (l, r) := o in Ok (JObject l, r))
    end) by done.
  rewrite Heq. destruct l as [|x l].
  { cbn [List.map Join app]. by rewrite app_assoc, (skip_spaces _ _ _ spaces_twice). }
  rewrite (skip_spaces_head sp 34) by (done || by eapply Join_head).
  pose proof (members_read d l x f rest Hr Hp) as He. cbn [List.map] in *. cbn [length app] in *. rewrite length_app in Hf.
  unfold print_member at 1 2 in He. unfold print_member in He. cbn [app] in He.
  set (s := Join _ _ ++ _) in *. assert (Hs : head s = Some 34) by (by eapply Join_head). clearbody s.
  destruct s as [|c' s]; [done|]. simplify_eq/=. rewrite He; [done|]. lia.
Qed.
End read_back.

(** Every printable value is read back, whatever white space is around its parts. *)
Lemma printable_reads sp d j : spaces sp → printable d j → reads sp d j.
Proof.
  intros Hsp. revert j. induction d as [|d IH]; intros j Hj; inversion Hj as [| | | |d' l Hl E|d' l Hl E]; subst;
    eauto using reads_number, reads_string; try (apply reads_literal; by eauto).
  - apply reads_array; [done|apply (list.Forall_impl _ _ _ Hl); auto|done].
  - apply reads_object; [done| |]; apply (list.Forall_impl _ _ _ Hl); naive_solver.
Qed.

Lemma printable_mono d d' j : printable d j → (d ≤ d')%nat → printable d' j.
Proof.
  revert d' j. induction d as [|d IH]; intros d' j Hj Hd; inversion Hj as [| | | |? l Hl E|? l Hl E]; subst;
    try (by constructor); destruct d' as [|d']; try lia; constructor;
    apply (list.Forall_impl _ _ _ Hl); [|intros m [? ?]; split; [done|]]; intros; apply IH; (done || lia).
Qed.

(** The first value of an input is read back with what follows it. *)
Lemma read_value_print sp d j rest :
  spaces sp → printable d j → (d ≤ maxNestingDepth)%nat → follow rest →
  read_value (sp ++ print_json sp j ++ rest) = Some (Ok (j, rest)).
Proof.
  intros Hsp Hj Hd Hr. destruct (print_json_head sp d j Hj) as (c & t & E & Hc & _).
  unfold read_value. rewrite (skip_spaces_head sp c) by (done || by rewrite E).
  pose proof (printable_reads sp maxNestingDepth j Hsp (printable_mono _ _ _ Hj Hd)) as H.
  unfold reads in H. specialize (H (S (2 * length (print_json sp j ++ rest))) rest).
  destruct (print_json sp j ++ rest) as [|x y] eqn:Ex; [by rewrite E in Ex|].
  apply H; [lia|done].
Qed.

Lemma read_value_end sp : spaces sp → read_value sp = Some (Err EEOF).
Proof. intros H. unfold read_value. by rewrite skip_only_spaces. Qed.
