(* ===== verification/GoUnmarshal.v ===== *)
(** * Storing JSON values into Go variables: [encoding/json]

    The decoder of the package on the values the scanner reads: what each kind of
    variable the program uses takes from each kind of value.  A value of the wrong
    kind or out of range is skipped and the first such error is reported at the
    end; an error of an [UnmarshalJSON] method ends the decoding at once.  A struct
    is filled in place, member by member, so a repeated key stores twice. *)

From S2P Require Import Prelude GoStrings GoNet AddrText GoJson.

(** The variable afterwards and the first saved error; [Err] is the error of a
    method. *)
Definition decoder (T : Type) : Type := json → T → result (T * option error).

(** [saveError] keeps the first. *)
Definition saved_error (a b : option error) : option error := match a with Some e => Some e | None => b end.

Definition mismatch : error := EMsg "json: cannot unmarshal value into Go value".
Definition unknown_field : error := EMsg "json: unknown field".

(** ** Kinds of variables *)

(** [null] leaves strings, booleans, numbers and structs alone. *)
Definition dec_string : decoder bytes := λ v t,
  match v with
  | JString s => Ok (s, None)
  | JNull => Ok (t, None)
  | _ => Ok (t, Some mismatch)
  end.

Definition dec_bool : decoder bool := λ v t,
  match v with
  | JBool b => Ok (b, None)
  | JNull => Ok (t, None)
  | _ => Ok (t, Some mismatch)
  end.

(** A number the conversion refuses leaves the variable alone too. *)
Definition dec_number (parse : bytes → option Z) : decoder Z := λ v t,
  match v with
  | JNumber raw => match parse raw with Some n => Ok (n, None) | None => Ok (t, Some mismatch) end
  | JNull => Ok (t, None)
  | _ => Ok (t, Some mismatch)
  end.

Definition dec_int : decoder Z := dec_number Atoi.
Definition dec_uint (bits : Z) : decoder Z := dec_number (λ raw, ParseUint raw bits).

(** A type with an [UnmarshalJSON] method takes every value, [null] included. *)
Definition dec_method {T} (unmarshal : json → result T) : decoder T := λ v _,
  let? t := unmarshal v in Ok (t, None).

(** A part of a variable. *)
Definition dec_on {S T} (get : S → T) (set : T → S → S) (d : decoder T) : decoder S := λ v s,
  let? (t, e) := d v (get s) in Ok (set t s, e).

(** ** Structs *)

(** Names are compared exactly first and then folded: ASCII letters without their
    case, and the two other letters whose case folding is an ASCII letter (the
    long s and the Kelvin sign).  Every other rune differs from every name, which
    are ASCII. *)
Definition fold_rune_name (r : Z) : Z :=
  if in_range 97 122 r then r - 32 else if r =? 383 then 83 else if r =? 8490 then 75 else r.
Definition foldName (key : bytes) : list Z := fold_rune_name <$> runes key.

Definition fields (T : Type) : Type := list (bytes * decoder T).

Definition find_by {T} (test : bytes → bool) (fs : fields T) : option (decoder T) :=
  snd <$> List.find (λ f, test f.1) fs.

Definition find_field {T} (fs : fields T) (key : bytes) : option (decoder T) :=
  match find_by (λ name, bool_decide (name = key)) fs with
  | Some d => Some d
  | None => find_by (λ name, bool_decide (foldName name = foldName key)) fs
  end.

Section struct.
Context {T : Type} (strict : bool) (fs : fields T).

(** [strict] is [DisallowUnknownFields]. *)
Fixpoint dec_members (ms : list (bytes * json)) (t : T) : result (T * option error) :=
  match ms with
  | [] => Ok (t, None)
  | (key, v) :: ms' =>
      let? (t, e) := match find_field fs key with
                     | Some d => d v t
                     | None => Ok (t, if strict then Some unknown_field else None)
                     end in
      let? (t, e') := dec_members ms' t in
      Ok (t, saved_error e e')
  end.

Definition dec_struct : decoder T := λ v t,
  match v with
  | JObject ms => dec_members ms t
  | JNull => Ok (t, None)
  | _ => Ok (t, Some mismatch)
  end.
End struct.

(** ** Slices *)

(** A slice is its visible part and the backing array: element [i] of an array is
    stored over element [i] of the backing array, which may hold a value from an
    earlier array; a shorter array leaves the rest of it behind.  An empty array
    and [null] start from nothing. *)
Section slice.
Context {E : Type} (zero : E) (d : decoder E).

Fixpoint dec_elements (vs : list json) (old : list E) : result (list E * option error) :=
  match vs with
  | [] => Ok ([], None)
  | v :: vs' =>
      let? (x, e) := d v (default zero (head old)) in
      let? (xs, e') := dec_elements vs' (tail old) in
      Ok (x :: xs, saved_error e e')
  end.

Definition dec_slice : decoder (list E * list E) := λ v t,
  match v with
  | JArray [] => Ok (([], []), None)
  | JArray vs =>
      let? (xs, e) := dec_elements vs t.2 in
      Ok ((xs, xs ++ drop (length xs) t.2), e)
  | JNull => Ok (([], []), None)
  | _ => Ok (t, Some mismatch)
  end.
End slice.

(** ** Reading a value from an input *)

(** [Decoder.Decode]: the variable, its error and the rest of the input. *)
Definition decode_next {T} (d : decoder T) (zero : T) (s : bytes) : option (result (T * bytes)) :=
  o ← read_value s;
  Some (let? (v, rest) := o in
        match d v zero with
        | Err e => Err e
        | Ok (_, Some e) => Err e
        | Ok (t, None) => Ok (t, rest)
        end).

(** ** What decoding keeps *)

Definition keeps {T} (d : decoder T) (P : T → Prop) : Prop :=
  ∀ v t t' e, P t → d v t = Ok (t', e) → P t'.

Lemma keeps_True {T} (d : decoder T) : keeps d (λ _, True).
Proof. by intros v t t' e _ _. Qed.

Lemma keeps_number parse (P : Z → Prop) :
  (∀ raw n, parse raw = Some n → P n) → keeps (dec_number parse) P.
Proof.
  intros HP [] t t' e Ht; simpl; intros H; simplify_eq; try done.
  destruct (parse raw) eqn:E; simplify_eq; eauto.
Qed.

Lemma keeps_method {T} (u : json → result T) (P : T → Prop) :
  (∀ v t, u v = Ok t → P t) → keeps (dec_method u) P.
Proof. intros HP v t t' e _. unfold dec_method. destruct (u v) eqn:E; intros; simplify_eq. eauto. Qed.

Lemma keeps_on {S T} (get : S → T) (set : T → S → S) (d : decoder T) (P : T → Prop) (Q : S → Prop) :
  keeps d P → (∀ s, Q s → P (get s)) → (∀ s t, Q s → P t → Q (set t s)) → keeps (dec_on get set d) Q.
Proof.
  intros Hd HP HQ v s s' e Hs. unfold dec_on. destruct (d v (get s)) as [[t e']|] eqn:E; [|done].
  intros [= <- <-]. eauto.
Qed.

Lemma find_field_in {T} (fs : fields T) key d : find_field fs key = Some d → ∃ name, (name, d) ∈ fs.
Proof.
  unfold find_field, find_by. destruct (List.find _ fs) as [[n d']|] eqn:E; simpl.
  - intros [= <-]. apply List.find_some in E as [E _]. exists n. by apply list_elem_of_In.
  - destruct (List.find (λ f, bool_decide (foldName f.1 = foldName key)) fs) as [[n d']|] eqn:E2; [|done].
    intros [= <-]. apply List.find_some in E2 as [E2 _]. exists n. by apply list_elem_of_In.
Qed.

Lemma keeps_struct {T} strict (fs : fields T) (P : T → Prop) :
  Forall (λ f, keeps f.2 P) fs → keeps (dec_struct strict fs) P.
Proof.
  intros Hf v t t' e Ht. destruct v as [| | | | |ms]; simpl; try (by intros [= <- <-]).
  revert t e Ht. induction ms as [|[key v] ms IH]; simpl; intros t e Ht; [by intros [= <- <-]|].
  destruct (find_field fs key) as [d|] eqn:E.
  - apply find_field_in in E as [name E]. rewrite list.Forall_forall in Hf. specialize (Hf _ E). simpl in Hf.
    destruct (d v t) as [[t1 e1]|] eqn:Ed; [|done].
    destruct (dec_members strict fs ms t1) as [[t2 e2]|] eqn:Em; [|done]. intros [= <- <-].
    eapply IH; [|done]. by eapply Hf.
  - destruct (dec_members strict fs ms t) as [[t2 e2]|] eqn:Em; [|done]. intros [= <- <-]. by eapply IH.
Qed.

(** ** Reading every field back *)

Lemma dec_members_next {T} strict (fs : fields T) key v ms d t t' r :
  find_field fs key = Some d → d v t = Ok (t', None) → dec_members strict fs ms t' = Ok (r, None) →
  dec_members strict fs ((key, v) :: ms) t = Ok (r, None).
Proof. intros Hf Hd Hm. cbn [dec_members]. by rewrite Hf, Hd, Hm. Qed.

Lemma dec_on_ok {S T} (get : S → T) (set : T → S → S) (d : decoder T) v s t :
  d v (get s) = Ok (t, None) → dec_on get set d v s = Ok (set t s, None).
Proof. intros H. unfold dec_on. by rewrite H. Qed.

Lemma dec_int_Itoa n t : 0 ≤ n < 2 ^ 63 → dec_int (JNumber (Itoa n)) t = Ok (n, None).
Proof. intros H. unfold dec_int, dec_number. by rewrite Atoi_Itoa. Qed.

Lemma ParseUint_Itoa n bits : 0 ≤ n < 2 ^ bits → n < 10 ^ 20 → ParseUint (Itoa n) bits = Some n.
Proof.
  intros Hn Hb. unfold ParseUint. pose proof (Itoa_nonempty n). destruct (Itoa n) eqn:E; [done|].
  rewrite <-E, digits_val_Itoa by lia. by rewrite (proj2 (Z.ltb_lt _ _)) by lia.
Qed.

Lemma dec_uint_Itoa bits n t :
  0 ≤ n < 2 ^ bits → n < 10 ^ 20 → dec_uint bits (JNumber (Itoa n)) t = Ok (n, None).
Proof. intros H H2. unfold dec_uint, dec_number. by rewrite ParseUint_Itoa. Qed.

(** An array of elements that are read back from the zero value. *)
Lemma dec_elements_fresh {E} (zero : E) (d : decoder E) (enc : E → json) l :
  Forall (λ x, d (enc x) zero = Ok (x, None)) l → dec_elements zero d (enc <$> l) [] = Ok (l, None).
Proof.
  induction 1 as [|x l Hx _ IH]; [done|]. rewrite fmap_cons. cbn [dec_elements head default tail].
  unfold default. simpl. by rewrite Hx, IH.
Qed.

Lemma dec_slice_fresh {E} (zero : E) (d : decoder E) (enc : E → json) l :
  Forall (λ x, d (enc x) zero = Ok (x, None)) l →
  dec_slice zero d (JArray (enc <$> l)) ([], []) = Ok ((l, l), None).
Proof.
  intros Hl. pose proof (dec_elements_fresh zero d enc l Hl) as H. destruct l as [|x l]; [done|].
  rewrite fmap_cons in *. cbn [dec_slice snd]. rewrite H. cbn [fst snd]. by rewrite drop_nil, app_nil_r.
Qed.

(** A printed value followed by white space is decoded, and nothing follows it. *)
Lemma decode_next_print {T} (d : decoder T) zero sp k j t rest :
  spaces sp → printable k j → (k ≤ maxNestingDepth)%nat → follow rest → d j zero = Ok (t, None) →
  decode_next d zero (sp ++ print_json sp j ++ rest) = Some (Ok (t, rest)).
Proof.
  intros. unfold decode_next. rewrite (read_value_print sp k j rest) by done. simpl. by rewrite H3.
Qed.

(** ** Strict decoding knows every key *)

Lemma dec_members_known {T} (fs : fields T) ms t t' :
  dec_members true fs ms t = Ok (t', None) → Forall (λ m, is_Some (find_field fs m.1)) ms.
Proof.
  revert t. induction ms as [|[key v] ms IH]; intros t; simpl; [constructor|].
  destruct (find_field fs key) as [d|] eqn:E.
  - destruct (d v t) as [[t1 [e1|]]|]; [| |done]; destruct (dec_members true fs ms _) as [[t2 e2]|] eqn:Em; try done.
    simpl. intros [= <- ->]. constructor; [simpl; rewrite E; eauto|by eapply IH].
  - by destruct (dec_members true fs ms t) as [[t2 e2]|].
Qed.

(** ** The values a decoder takes without an error *)

(** The Go types the program decodes into. *)
Inductive shape :=
| TString
| TBool
| TNumber (parse : bytes → option Z)
| TMethod (takes : json → bool)
| TStruct (fs : list (bytes * shape))
| TSlice (s : shape).

Definition same_name (name key : bytes) : bool := bool_decide (foldName name = foldName key).

(** A value of a type: every member of an object is a field of the struct. *)
Fixpoint shaped (s : shape) (v : json) : bool :=
  match s, v with
  | TMethod takes, _ => takes v
  | _, JNull => true
  | TString, JString _ => true
  | TBool, JBool _ => true
  | TNumber parse, JNumber raw => bool_decide (is_Some (parse raw))
  | TStruct fs, JObject ms => forallb (λ m, existsb (λ f, same_name f.1 m.1 && shaped f.2 m.2) fs) ms
  | TSlice s, JArray vs => forallb (shaped s) vs
  | _, _ => false
  end.

(** A decoder takes the values of a type, whatever the variable holds. *)
Definition takes {T} (d : decoder T) (s : shape) : Prop :=
  ∀ v t, (∃ t', d v t = Ok (t', None)) ↔ shaped s v = true.

(** The cases without a choice. *)
Ltac takes_case := split; [intros [? ?]; done|intros ?; (done || by eauto)].

Lemma takes_string : takes dec_string TString.
Proof. intros [] t; simpl; takes_case. Qed.
Lemma takes_bool : takes dec_bool TBool.
Proof. intros [] t; simpl; takes_case. Qed.
Lemma takes_number parse : takes (dec_number parse) (TNumber parse).
Proof.
  intros [] t; simpl; try takes_case. rewrite bool_decide_eq_true.
  destruct (parse raw); naive_solver.
Qed.
Lemma takes_on {S T} (get : S → T) (set : T → S → S) d s : takes d s → takes (dec_on get set d) s.
Proof.
  intros Hd v t. rewrite <-(Hd v (get t)). unfold dec_on. destruct (d v (get t)) as [[t' e]|]; naive_solver.
Qed.
Lemma takes_method {T} (u : json → result T) : takes (dec_method u) (TMethod (λ v, is_ok (u v))).
Proof. intros v t. unfold dec_method. simpl. destruct (u v); naive_solver. Qed.

Create HintDb takes.
#[export] Hint Resolve takes_string takes_bool takes_number takes_on takes_method : takes.

(** With names that differ without their case, a key has at most one field. *)
Lemma find_by_unique {T} (test : bytes → bool) (fs : fields T) name d :
  NoDup (foldName <$> fs.*1) → (name, d) ∈ fs → test name = true →
  (∀ n, test n = true → foldName n = foldName name) → find_by test fs = Some d.
Proof.
  intros Hnd Hin Ht Hu. unfold find_by. induction fs as [|[n d'] fs IH]; [by apply elem_of_nil in Hin|].
  simpl. destruct (test n) eqn:En.
  - simpl. apply elem_of_cons in Hin as [[= -> ->]|Hin]; [done|]. exfalso.
    rewrite !fmap_cons in Hnd. apply list.NoDup_cons in Hnd as [Hnd _]. apply Hnd. simpl.
    rewrite (Hu n En). apply list_elem_of_fmap. exists name. split; [done|].
    apply list_elem_of_fmap. by exists (name, d).
  - apply IH.
    + rewrite !fmap_cons in Hnd. by apply list.NoDup_cons in Hnd as [_ Hnd].
    + apply elem_of_cons in Hin as [[= -> ->]|Hin]; [congruence|done].
Qed.

Lemma find_by_in {T} (test : bytes → bool) (fs : fields T) d :
  find_by test fs = Some d → ∃ name, (name, d) ∈ fs ∧ test name = true.
Proof.
  unfold find_by. destruct (List.find _ fs) as [[n d']|] eqn:E; [|done]. intros [= <-].
  apply List.find_some in E as [E Ht]. exists n. by rewrite list_elem_of_In.
Qed.

Lemma find_field_iff {T} (fs : fields T) key d :
  NoDup (foldName <$> fs.*1) →
  find_field fs key = Some d ↔ ∃ name, (name, d) ∈ fs ∧ foldName name = foldName key.
Proof.
  intros Hnd. unfold find_field. split.
  - destruct (find_by (λ name, bool_decide (name = key)) fs) eqn:E; intros H; simplify_eq.
    + apply find_by_in in E as (n & Hn & ->%bool_decide_eq_true). eauto.
    + apply find_by_in in H as (n & Hn & Hk%bool_decide_eq_true). eauto.
  - intros (name & Hin & Hk). destruct (find_by (λ name, bool_decide (name = key)) fs) as [d'|] eqn:E.
    + apply find_by_in in E as (n & Hn & ->%bool_decide_eq_true).
      pose proof (find_by_unique (λ n, same_name n key) fs key d' Hnd Hn) as H1.
      pose proof (find_by_unique (λ n, same_name n key) fs name d Hnd Hin) as H2. unfold same_name in H1, H2.
      rewrite <-H1, <-H2; rewrite ?bool_decide_eq_true; try done; intros n; rewrite bool_decide_eq_true; congruence.
    + apply (find_by_unique _ fs name); rewrite ?bool_decide_eq_true; try done.
      intros n. rewrite bool_decide_eq_true. congruence.
Qed.

Lemma takes_struct {T} (fs : fields T) (ss : list (bytes * shape)) :
  NoDup (foldName <$> fs.*1) → Forall2 (λ f s, f.1 = s.1 ∧ takes f.2 s.2) fs ss →
  takes (dec_struct true fs) (TStruct ss).
Proof.
  intros Hnd Hfs v t. destruct v as [| | | | |ms]; simpl; try takes_case.
  revert t. induction ms as [|[key v] ms IH]; intros t; cbn [dec_members forallb]; [naive_solver|].
  assert (Hone : existsb (λ f, same_name f.1 key && shaped f.2 v) ss = true ↔
                 ∃ d, find_field fs key = Some d ∧ ∃ t', d v t = Ok (t', None)).
  { rewrite existsb_exists. setoid_rewrite find_field_iff; [|done]. setoid_rewrite <-list_elem_of_In. split.
    - intros ([n s] & Hin & Hs). simpl in Hs. apply andb_true_iff in Hs as [Hn Hs]. unfold same_name in Hn. bools.
      apply list_elem_of_lookup in Hin as [i Hi]. destruct (Forall2_lookup_r _ _ _ _ _ Hfs Hi) as ([n' d] & Hd & Hnd' & Ht).
      simpl in *. subst n'. exists d. split; [exists n; split; [by eapply list_elem_of_lookup_2|done]|]. by apply Ht.
    - intros (d & (n & Hin & Hn) & Hd). apply list_elem_of_lookup in Hin as [i Hi].
      destruct (Forall2_lookup_l _ _ _ _ _ Hfs Hi) as ([n' s] & Hs & Hnd' & Ht). simpl in *. subst n'.
      exists (n, s). split; [by eapply list_elem_of_lookup_2|]. simpl. apply Ht in Hd. rewrite Hd.
      unfold same_name. by rewrite bool_decide_true. }
  cbn [fst snd]. rewrite andb_true_iff, Hone. clear Hone. destruct (find_field fs key) as [d|].
  - destruct (d v t) as [[t1 e1]|] eqn:Ed.
    + rewrite <-(IH t1). destruct (dec_members true fs ms t1) as [[t2 e2]|]; [|split; [by intros []|by intros [_ []]]].
      split.
      * intros [t' H]. destruct e1 as [e1|]; [done|]. simpl in H. simplify_eq. eauto 6.
      * intros [(d' & [= <-] & t' & H) [t'' [= -> ->]]]. rewrite Ed in H. simplify_eq. eauto.
    + split; [by intros []|]. intros [(d' & [= <-] & t' & H) _]. congruence.
  - split; [|by intros [(d' & ? & _) _]]. intros [t' H]. by destruct (dec_members true fs ms t) as [[t2 e2]|].
Qed.

Lemma takes_slice {E} (zero : E) (d : decoder E) s : takes d s → takes (dec_slice zero d) (TSlice s).
Proof.
  intros Hd v t.
  assert (He : ∀ vs old, (∃ xs, dec_elements zero d vs old = Ok (xs, None)) ↔ forallb (shaped s) vs = true).
  { induction vs as [|x vs IH]; intros old; cbn [dec_elements forallb]; [naive_solver|].
    rewrite andb_true_iff, <-(Hd x (default zero (head old))), <-(IH (tail old)).
    destruct (d x _) as [[x' e]|]; [|naive_solver].
    destruct (dec_elements zero d vs (tail old)) as [[xs e']|]; [|naive_solver]. destruct e; naive_solver. }
  destruct v as [| | | |vs|]; simpl; try takes_case. destruct vs as [|x vs]; [takes_case|].
  rewrite <-(He (x :: vs) t.2). destruct (dec_elements zero d (x :: vs) t.2) as [[xs e]|]; [|naive_solver].
  split; [naive_solver|]. intros [xs' [= -> ->]]. eauto.
Qed.
#[export] Hint Resolve takes_slice : takes.
