(* ===== verification/ConfigJson.v ===== *)
(** * Reading the configuration: [internal/config/load.go] and
    [Duration.UnmarshalJSON] of [internal/config/config.go]

    The field tables of the configuration's structs, with the kinds of their
    fields, and [Decode] and [Load] on the bytes of the file. *)

From S2P Require Import Prelude GoStrings GoNet AddrText GoCodec GoDuration GoJson GoUnmarshal Config.

(** ** Durations *)

(** [Duration.UnmarshalJSON]: [json.Unmarshal] into a string leaves it empty on
    [null].  [ParseDuration] decides every text, by [ParseDuration_total]. *)
Definition Duration_UnmarshalJSON (v : json) : result duration :=
  match dec_string v [] with
  | Ok (text, None) =>
      match ParseDuration text with
      | Some (Ok parsed) => Ok parsed
      | _ => errorf "invalid duration"
      end
  | _ => errorf "duration must be a JSON string"
  end.

Definition dec_duration : decoder duration := dec_method Duration_UnmarshalJSON.

(** ** The structs and their JSON names *)

Definition listen_fields : fields ListenConfig :=
  [(str "dns", dec_on listen_dns (λ x '(mkListen _ b c), mkListen x b c) dec_string);
   (str "tcp", dec_on listen_tcp (λ x '(mkListen a _ c), mkListen a x c) dec_string);
   (str "udp", dec_on listen_udp (λ x '(mkListen a b _), mkListen a b x) dec_string)].

Definition hy2_fields : fields HY2Config :=
  [(str "server", dec_on hy2_server
     (λ x '(mkHY2 _ b c d e f g h i j k l), mkHY2 x b c d e f g h i j k l) dec_string);
   (str "auth", dec_on hy2_auth
     (λ x '(mkHY2 a _ c d e f g h i j k l), mkHY2 a x c d e f g h i j k l) dec_string);
   (str "sni", dec_on hy2_sni (λ x '(mkHY2 a b _ d e f g h i j k l), mkHY2 a b x d e f g h i j k l) dec_string);
   (str "insecure", dec_on hy2_insecure
     (λ x '(mkHY2 a b c _ e f g h i j k l), mkHY2 a b c x e f g h i j k l) dec_bool);
   (str "pinned_cert_sha256", dec_on hy2_pin
     (λ x '(mkHY2 a b c d _ f g h i j k l), mkHY2 a b c d x f g h i j k l) dec_string);
   (str "max_idle", dec_on hy2_max_idle
     (λ x '(mkHY2 a b c d e _ g h i j k l), mkHY2 a b c d e x g h i j k l) dec_duration);
   (str "keep_alive", dec_on hy2_keep_alive
     (λ x '(mkHY2 a b c d e f _ h i j k l), mkHY2 a b c d e f x h i j k l) dec_duration);
   (str "initial_stream_window", dec_on hy2_init_stream
     (λ x '(mkHY2 a b c d e f g _ i j k l), mkHY2 a b c d e f g x i j k l) (dec_uint 64));
   (str "max_stream_window", dec_on hy2_max_stream
     (λ x '(mkHY2 a b c d e f g h _ j k l), mkHY2 a b c d e f g h x j k l) (dec_uint 64));
   (str "initial_connection_window", dec_on hy2_init_conn
     (λ x '(mkHY2 a b c d e f g h i _ k l), mkHY2 a b c d e f g h i x k l) (dec_uint 64));
   (str "max_connection_window", dec_on hy2_max_conn
     (λ x '(mkHY2 a b c d e f g h i j _ l), mkHY2 a b c d e f g h i j x l) (dec_uint 64));
   (str "max_concurrent_dials", dec_on hy2_max_dials
     (λ x '(mkHY2 a b c d e f g h i j k _), mkHY2 a b c d e f g h i j k x) dec_int)].

Definition relay_fields : fields TCPRelayConfig :=
  [(str "enabled", dec_on relay_enabled (λ x '(mkRelay _ b c d e f g h), mkRelay x b c d e f g h) dec_bool);
   (str "server", dec_on relay_server (λ x '(mkRelay a _ c d e f g h), mkRelay a x c d e f g h) dec_string);
   (str "uuid", dec_on relay_uuid (λ x '(mkRelay a b _ d e f g h), mkRelay a b x d e f g h) dec_string);
   (str "server_name", dec_on relay_server_name
     (λ x '(mkRelay a b c _ e f g h), mkRelay a b c x e f g h) dec_string);
   (str "public_key", dec_on relay_public_key
     (λ x '(mkRelay a b c d _ f g h), mkRelay a b c d x f g h) dec_string);
   (str "short_id", dec_on relay_short_id (λ x '(mkRelay a b c d e _ g h), mkRelay a b c d e x g h) dec_string);
   (str "fingerprint", dec_on relay_fingerprint
     (λ x '(mkRelay a b c d e f _ h), mkRelay a b c d e f x h) dec_string);
   (str "flow", dec_on relay_flow (λ x '(mkRelay a b c d e f g _), mkRelay a b c d e f g x) dec_string)].

Definition landing_fields : fields LandingConfig :=
  [(str "udp", dec_on landing_udp (λ x '(mkLanding _ b c d e f), mkLanding x b c d e f) dec_bool);
   (str "max_udp_payload", dec_on landing_max_udp_payload
     (λ x '(mkLanding a _ c d e f), mkLanding a x c d e f) dec_int);
   (str "type", dec_on landing_type (λ x '(mkLanding a b _ d e f), mkLanding a b x d e f) dec_string);
   (str "server", dec_on landing_server (λ x '(mkLanding a b c _ e f), mkLanding a b c x e f) dec_string);
   (str "username", dec_on landing_username (λ x '(mkLanding a b c d _ f), mkLanding a b c d x f) dec_string);
   (str "password", dec_on landing_password (λ x '(mkLanding a b c d e _), mkLanding a b c d e x) dec_string)].

Definition limits_fields : fields LimitsConfig :=
  [(str "dns_cache_entries", dec_on lim_dns_cache
     (λ x '(mkLimits _ b c d e f g), mkLimits x b c d e f g) dec_int);
   (str "learned_ip_entries", dec_on lim_learned_ip
     (λ x '(mkLimits a _ c d e f g), mkLimits a x c d e f g) dec_int);
   (str "tcp_sessions", dec_on lim_tcp_sessions
     (λ x '(mkLimits a b _ d e f g), mkLimits a b x d e f g) dec_int);
   (str "udp_sessions", dec_on lim_udp_sessions
     (λ x '(mkLimits a b c _ e f g), mkLimits a b c x e f g) dec_int);
   (str "udp_idle", dec_on lim_udp_idle (λ x '(mkLimits a b c d _ f g), mkLimits a b c d x f g) dec_duration);
   (str "sniff_bytes", dec_on lim_sniff_bytes (λ x '(mkLimits a b c d e _ g), mkLimits a b c d e x g) dec_int);
   (str "sniff_timeout", dec_on lim_sniff_timeout
     (λ x '(mkLimits a b c d e f _), mkLimits a b c d e f x) dec_duration)].

Definition health_fields : fields HealthConfig :=
  [(str "failure_threshold", dec_on health_failures (λ x '(mkHealth _ b c d), mkHealth x b c d) dec_int);
   (str "success_threshold", dec_on health_successes (λ x '(mkHealth a _ c d), mkHealth a x c d) dec_int);
   (str "cooldown", dec_on health_cooldown (λ x '(mkHealth a b _ d), mkHealth a b x d) dec_duration);
   (str "probe_interval", dec_on health_probe_interval
     (λ x '(mkHealth a b c _), mkHealth a b c x) dec_duration)].

Definition firewall_fields : fields FirewallConfig :=
  [(str "table", dec_on fw_table (λ x '(mkFirewall _ b c d e f), mkFirewall x b c d e f) dec_string);
   (str "lan_interface", dec_on fw_lan_interface
     (λ x '(mkFirewall a _ c d e f), mkFirewall a x c d e f) dec_string);
   (str "mark", dec_on fw_mark (λ x '(mkFirewall a b _ d e f), mkFirewall a b x d e f) (dec_uint 32));
   (str "bypass_mark", dec_on fw_bypass_mark
     (λ x '(mkFirewall a b c _ e f), mkFirewall a b c x e f) (dec_uint 32));
   (str "route_table", dec_on fw_route_table
     (λ x '(mkFirewall a b c d _ f), mkFirewall a b c d x f) (dec_uint 32));
   (str "canary_source", dec_on fw_canary_source
     (λ x '(mkFirewall a b c d e _), mkFirewall a b c d e x) dec_string)].

Definition rule_fields : fields RuleConfig :=
  [(str "action", dec_on rule_action (λ x '(mkRule _ b c), mkRule x b c) dec_string);
   (str "type", dec_on rule_type (λ x '(mkRule a _ c), mkRule a x c) dec_string);
   (str "value", dec_on rule_value (λ x '(mkRule a b _), mkRule a b x) dec_string)].

(** [DataConfig] is its one field. *)
Definition data_fields : fields bytes := [(str "routing", dec_string)].


(** Every field of [Config] but the rules. *)
Definition config_plain_fields : fields Config :=
  [(str "listen", dec_on cfg_listen
  (λ x '(mkConfig _ b c d e f g h i j k l m n o p), mkConfig x b c d e f g h i j k l m n o p) (dec_struct true listen_fields));
   (str "domestic_dns", dec_on cfg_domestic_dns
     (λ x '(mkConfig a _ c d e f g h i j k l m n o p), mkConfig a x c d e f g h i j k l m n o p) dec_string);
   (str "trusted_dns", dec_on cfg_trusted_dns
     (λ x '(mkConfig a b _ d e f g h i j k l m n o p), mkConfig a b x d e f g h i j k l m n o p) dec_string);
   (str "hy2", dec_on cfg_hy2
     (λ x '(mkConfig a b c _ e f g h i j k l m n o p), mkConfig a b c x e f g h i j k l m n o p) (dec_struct true hy2_fields));
   (str "tcp_relay", dec_on cfg_relay
     (λ x '(mkConfig a b c d _ f g h i j k l m n o p), mkConfig a b c d x f g h i j k l m n o p) (dec_struct true relay_fields));
   (str "tcp_domain_dial", dec_on cfg_tcp_domain_dial
     (λ x '(mkConfig a b c d e _ g h i j k l m n o p), mkConfig a b c d e x g h i j k l m n o p) dec_bool);
   (str "udp_policy", dec_on cfg_udp_policy
     (λ x '(mkConfig a b c d e f _ h i j k l m n o p), mkConfig a b c d e f x h i j k l m n o p) dec_string);
   (str "landing", dec_on cfg_landing
     (λ x '(mkConfig a b c d e f g _ i j k l m n o p), mkConfig a b c d e f g x i j k l m n o p) (dec_struct true landing_fields));
   (str "limits", dec_on cfg_limits
     (λ x '(mkConfig a b c d e f g h _ j k l m n o p), mkConfig a b c d e f g h x j k l m n o p) (dec_struct true limits_fields));
   (str "health", dec_on cfg_health
     (λ x '(mkConfig a b c d e f g h i _ k l m n o p), mkConfig a b c d e f g h i x k l m n o p) (dec_struct true health_fields));
   (str "firewall", dec_on cfg_firewall
     (λ x '(mkConfig a b c d e f g h i j _ l m n o p), mkConfig a b c d e f g h i j x l m n o p) (dec_struct true firewall_fields));
   (str "data", dec_on cfg_routing
     (λ x '(mkConfig a b c d e f g h i j k l _ n o p), mkConfig a b c d e f g h i j k l x n o p) (dec_struct true data_fields));
   (str "control_socket", dec_on cfg_control_socket
     (λ x '(mkConfig a b c d e f g h i j k l m _ o p), mkConfig a b c d e f g h i j k l m x o p) dec_string);
   (str "log_level", dec_on cfg_log_level
     (λ x '(mkConfig a b c d e f g h i j k l m n _ p), mkConfig a b c d e f g h i j k l m n x p) dec_string);
   (str "fail_open", dec_on cfg_fail_open
     (λ x '(mkConfig a b c d e f g h i j k l m n o _), mkConfig a b c d e f g h i j k l m n o x) dec_bool)].

Definition zero_rule : RuleConfig := mkRule [] [] [].

(** A configuration being filled: the record and the backing array of its rules. *)
Definition target : Type := Config * list RuleConfig.

Definition set_rules (x : list RuleConfig) (c : Config) : Config :=
  let '(mkConfig a b c d e f g h i j k _ m n o p) := c in mkConfig a b c d e f g h i j k x m n o p.

Definition on_config (f : bytes * decoder Config) : bytes * decoder target :=
  (f.1, dec_on fst (λ c t, (c, t.2)) f.2).

Definition dec_rules : decoder target :=
  dec_on (λ t, (cfg_rules t.1, t.2)) (λ r t, (set_rules r.1 t.1, r.2))
    (dec_slice zero_rule (dec_struct true rule_fields)).

Definition config_fields : fields target := (on_config <$> config_plain_fields) ++ [(str "rules", dec_rules)].

(** [var cfg Config] *)
Definition zero_config : Config :=
  mkConfig (mkListen [] [] []) [] [] (mkHY2 [] [] [] false [] 0 0 0 0 0 0 0)
    (mkRelay false [] [] [] [] [] [] []) false [] (mkLanding false 0 [] [] [] []) (mkLimits 0 0 0 0 0 0 0)
    (mkHealth 0 0 0 0) (mkFirewall [] [] 0 0 0 []) [] [] [] [] false.

Definition dec_config : decoder target := dec_struct true config_fields.

(** [struct{}], which takes an object without members. *)
Definition dec_empty : decoder unit := dec_struct true [].

(** ** [Decode] and [Load] *)

Section load.
Context (services : bytes → bytes → option Z) (order : list listenName).

Definition Decode (raw : bytes) : option (result Config) :=
  first ← decode_next dec_config (zero_config, []) raw;
  match first with
  | Err e => Some (Err (EWrap "decode configuration" e))
  | Ok (cfg, _, rest) =>
      second ← decode_next dec_empty () rest;
      Some (match second with
            | Ok _ => errorf "decode configuration: multiple JSON values"
            | Err e =>
                if negb (errors_Is (λ e, bool_decide (e = EEOF)) e)
                then Err (EWrap "decode configuration" e)
                else match Validate services order cfg with
                     | (_, Some e) => Err (EWrap "validate configuration" e)
                     | (cfg, None) => Ok cfg
                     end
            end)
  end.

(** [read] is the outcome of [os.ReadFile]. *)
Definition Load (read : result bytes) : option (result Config) :=
  match read with
  | Err e => Some (Err (EWrap "read configuration" e))
  | Ok raw => Decode raw
  end.
End load.

(** ** The configuration as a JSON value *)

Definition listen_json (x : ListenConfig) : json := JObject
  [(str "dns", JString (listen_dns x));
   (str "tcp", JString (listen_tcp x));
   (str "udp", JString (listen_udp x))].
Definition hy2_json (x : HY2Config) : json := JObject
  [(str "server", JString (hy2_server x));
   (str "auth", JString (hy2_auth x));
   (str "sni", JString (hy2_sni x));
   (str "insecure", JBool (hy2_insecure x));
   (str "pinned_cert_sha256", JString (hy2_pin x));
   (str "max_idle", JString (Itoa (hy2_max_idle x) ++ str "ns"));
   (str "keep_alive", JString (Itoa (hy2_keep_alive x) ++ str "ns"));
   (str "initial_stream_window", JNumber (Itoa (hy2_init_stream x)));
   (str "max_stream_window", JNumber (Itoa (hy2_max_stream x)));
   (str "initial_connection_window", JNumber (Itoa (hy2_init_conn x)));
   (str "max_connection_window", JNumber (Itoa (hy2_max_conn x)));
   (str "max_concurrent_dials", JNumber (Itoa (hy2_max_dials x)))].
Definition relay_json (x : TCPRelayConfig) : json := JObject
  [(str "enabled", JBool (relay_enabled x));
   (str "server", JString (relay_server x));
   (str "uuid", JString (relay_uuid x));
   (str "server_name", JString (relay_server_name x));
   (str "public_key", JString (relay_public_key x));
   (str "short_id", JString (relay_short_id x));
   (str "fingerprint", JString (relay_fingerprint x));
   (str "flow", JString (relay_flow x))].
Definition landing_json (x : LandingConfig) : json := JObject
  [(str "udp", JBool (landing_udp x));
   (str "max_udp_payload", JNumber (Itoa (landing_max_udp_payload x)));
   (str "type", JString (landing_type x));
   (str "server", JString (landing_server x));
   (str "username", JString (landing_username x));
   (str "password", JString (landing_password x))].
Definition limits_json (x : LimitsConfig) : json := JObject
  [(str "dns_cache_entries", JNumber (Itoa (lim_dns_cache x)));
   (str "learned_ip_entries", JNumber (Itoa (lim_learned_ip x)));
   (str "tcp_sessions", JNumber (Itoa (lim_tcp_sessions x)));
   (str "udp_sessions", JNumber (Itoa (lim_udp_sessions x)));
   (str "udp_idle", JString (Itoa (lim_udp_idle x) ++ str "ns"));
   (str "sniff_bytes", JNumber (Itoa (lim_sniff_bytes x)));
   (str "sniff_timeout", JString (Itoa (lim_sniff_timeout x) ++ str "ns"))].
Definition health_json (x : HealthConfig) : json := JObject
  [(str "failure_threshold", JNumber (Itoa (health_failures x)));
   (str "success_threshold", JNumber (Itoa (health_successes x)));
   (str "cooldown", JString (Itoa (health_cooldown x) ++ str "ns"));
   (str "probe_interval", JString (Itoa (health_probe_interval x) ++ str "ns"))].
Definition firewall_json (x : FirewallConfig) : json := JObject
  [(str "table", JString (fw_table x));
   (str "lan_interface", JString (fw_lan_interface x));
   (str "mark", JNumber (Itoa (fw_mark x)));
   (str "bypass_mark", JNumber (Itoa (fw_bypass_mark x)));
   (str "route_table", JNumber (Itoa (fw_route_table x)));
   (str "canary_source", JString (fw_canary_source x))].
Definition rule_json (x : RuleConfig) : json := JObject
  [(str "action", JString (rule_action x));
   (str "type", JString (rule_type x));
   (str "value", JString (rule_value x))].

(** Every field of a configuration. *)
Definition config_json (c : Config) : json := JObject
  [(str "listen", listen_json (cfg_listen c));
   (str "domestic_dns", JString (cfg_domestic_dns c));
   (str "trusted_dns", JString (cfg_trusted_dns c));
   (str "hy2", hy2_json (cfg_hy2 c));
   (str "tcp_relay", relay_json (cfg_relay c));
   (str "tcp_domain_dial", JBool (cfg_tcp_domain_dial c));
   (str "udp_policy", JString (cfg_udp_policy c));
   (str "landing", landing_json (cfg_landing c));
   (str "limits", limits_json (cfg_limits c));
   (str "health", health_json (cfg_health c));
   (str "firewall", firewall_json (cfg_firewall c));
   (str "rules", JArray (rule_json <$> cfg_rules c));
   (str "data", JObject [(str "routing", JString (cfg_routing c))]);
   (str "control_socket", JString (cfg_control_socket c));
   (str "log_level", JString (cfg_log_level c));
   (str "fail_open", JBool (cfg_fail_open c))].

(** ** Every input is decided *)

Lemma decode_next_total {T} (d : decoder T) zero s : ∃ r, decode_next d zero s = Some r.
Proof.
  unfold decode_next. destruct (read_value_total s) as (r & -> & _). simpl. eauto.
Qed.

Lemma Decode_total services order raw : ∃ r, Decode services order raw = Some r.
Proof.
  unfold Decode. destruct (decode_next_total dec_config (zero_config, []) raw) as [[[[cfg back] rest]|e] ->];
    simpl; [|eauto].
  destruct (decode_next_total dec_empty () rest) as [r ->]. simpl. eauto.
Qed.

(** ** Machine ranges *)

Definition int64 (n : Z) : Prop := - 2 ^ 63 <= n < 2 ^ 63.
Definition uint (bits n : Z) : Prop := 0 <= n < 2 ^ bits.

Definition hy2_range (h : HY2Config) : Prop :=
  int64 (hy2_max_idle h) ∧ int64 (hy2_keep_alive h) ∧ uint 64 (hy2_init_stream h) ∧
  uint 64 (hy2_max_stream h) ∧ uint 64 (hy2_init_conn h) ∧ uint 64 (hy2_max_conn h) ∧ int64 (hy2_max_dials h).
Definition landing_range (l : LandingConfig) : Prop := int64 (landing_max_udp_payload l).
Definition limits_range (l : LimitsConfig) : Prop :=
  int64 (lim_dns_cache l) ∧ int64 (lim_learned_ip l) ∧ int64 (lim_tcp_sessions l) ∧
  int64 (lim_udp_sessions l) ∧ int64 (lim_udp_idle l) ∧ int64 (lim_sniff_bytes l) ∧ int64 (lim_sniff_timeout l).
Definition health_range (h : HealthConfig) : Prop :=
  int64 (health_failures h) ∧ int64 (health_successes h) ∧ int64 (health_cooldown h) ∧
  int64 (health_probe_interval h).
Definition firewall_range (f : FirewallConfig) : Prop :=
  uint 32 (fw_mark f) ∧ uint 32 (fw_bypass_mark f) ∧ uint 32 (fw_route_table f).

(** Every number of the configuration is a value of its Go type. *)
Definition config_range (c : Config) : Prop :=
  hy2_range (cfg_hy2 c) ∧ landing_range (cfg_landing c) ∧ limits_range (cfg_limits c) ∧
  health_range (cfg_health c) ∧ firewall_range (cfg_firewall c).

Lemma keeps_int : keeps dec_int int64.
Proof.
  apply keeps_number. intros raw n. unfold Atoi, int64. set (p := match raw with 43 :: _ => _ | _ => _ end).
  destruct p as [neg [|c d]]; [done|]. destruct (digits_val 0 (c :: d)) as [v|]; [|done].
  destruct (_ && _) eqn:E; [|done]. intros [= <-]. bools. lia.
Qed.

Lemma digits_val_nonneg s x v : 0 ≤ x → digits_val x s = Some v → 0 ≤ v.
Proof. intros Hx H. pose proof (digits_val_mono s x v Hx H). lia. Qed.

Lemma keeps_uint bits : keeps (dec_uint bits) (uint bits).
Proof.
  apply keeps_number. intros raw n. unfold ParseUint, uint. destruct raw as [|c d]; [done|].
  destruct (digits_val 0 (c :: d)) as [v|] eqn:E; [|done]. apply digits_val_nonneg in E; [|lia].
  destruct (v <? 2 ^ bits) eqn:E2; [|done]. intros [= <-]. bools. lia.
Qed.

Lemma keeps_duration : keeps dec_duration int64.
Proof.
  apply keeps_method. intros v t. unfold Duration_UnmarshalJSON.
  destruct (dec_string v []) as [[text [e|]]|]; [done| |done].
  destruct (ParseDuration_total text) as (r & -> & Hr). destruct r as [d|]; [|done]. intros [= <-]. by apply Hr.
Qed.

Create HintDb keeps.
#[export] Hint Resolve keeps_int keeps_uint keeps_duration : keeps.

(** A field of a struct whose range predicate splits into one for each field. *)
Ltac keep_field :=
  first [ apply (keeps_on _ _ _ (λ _, True)); [apply keeps_True|by intros []|intros []; simpl; tauto]
        | eapply keeps_on; [solve [eauto with keeps]|intros []; simpl; tauto|intros []; simpl; tauto] ].
Ltac keep_table table := unfold table; repeat (apply list.Forall_cons; split); simpl; try keep_field; try done.

Lemma keeps_hy2 : keeps (dec_struct true hy2_fields) hy2_range.
Proof. apply keeps_struct. unfold hy2_range. keep_table hy2_fields. Qed.
Lemma keeps_landing : keeps (dec_struct true landing_fields) landing_range.
Proof. apply keeps_struct. unfold landing_range. keep_table landing_fields. Qed.
Lemma keeps_limits : keeps (dec_struct true limits_fields) limits_range.
Proof. apply keeps_struct. unfold limits_range. keep_table limits_fields. Qed.
Lemma keeps_health : keeps (dec_struct true health_fields) health_range.
Proof. apply keeps_struct. unfold health_range. keep_table health_fields. Qed.
Lemma keeps_firewall : keeps (dec_struct true firewall_fields) firewall_range.
Proof. apply keeps_struct. unfold firewall_range. keep_table firewall_fields. Qed.
#[export] Hint Resolve keeps_hy2 keeps_landing keeps_limits keeps_health keeps_firewall : keeps.

Lemma keeps_plain : Forall (λ f, keeps f.2 config_range) config_plain_fields.
Proof. unfold config_range. keep_table config_plain_fields. Qed.

Lemma keeps_config : keeps dec_config (λ t, config_range t.1).
Proof.
  apply keeps_struct. unfold config_fields. apply Forall_app. split.
  - apply Forall_fmap. apply (list.Forall_impl _ _ _ keeps_plain). intros f Hf.
    apply (keeps_on _ _ _ config_range); try done. 
  - apply Forall_singleton. apply (keeps_on _ _ _ (λ _, True)); [apply keeps_True|done|].
    intros [[] back] [xs back']. simpl. done.
Qed.

Lemma zero_config_range : config_range zero_config.
Proof.
  unfold config_range, hy2_range, landing_range, limits_range, health_range, firewall_range, int64, uint.
  simpl. lia.
Qed.

Lemma default_Z_range (P : Z → Prop) v d : P v → P d → P (default_Z v d).
Proof. unfold default_Z. by destruct (v =? 0). Qed.

(** The defaults are values of the fields' types too. *)
Lemma fill_defaults_range c : config_range c → config_range (fill_defaults c).
Proof.
  destruct c as [l d t h r td u la li he f ru da cs lo fo]. unfold config_range, fill_defaults. simpl.
  intros (Hh & Hl & Hli & Hhe & Hf). split_and!; try done.
  - unfold hy2_range in *. simpl. destruct_and! Hh.
    split_and!; try done; apply default_Z_range; (done || unfold uint, int64; vm_compute; split; congruence).
  - unfold limits_range in *. simpl. destruct_and! Hli.
    split_and!; try done; apply default_Z_range; (done || unfold uint, int64; vm_compute; split; congruence).
  - unfold health_range in *. simpl. destruct_and! Hhe.
    split_and!; try done; apply default_Z_range; (done || unfold uint, int64; vm_compute; split; congruence).
  - unfold fill_bypass. destruct (_ =? 0); [|done]. unfold firewall_range in *. simpl. destruct_and! Hf.
    split_and!; try done. unfold uint, u32. apply Z.mod_pos_bound. lia.
Qed.

(** ** The type of a configuration file *)

Definition TInt : shape := TNumber Atoi.
Definition TUint (bits : Z) : shape := TNumber (λ raw, ParseUint raw bits).
Definition TDuration : shape := TMethod (λ v, is_ok (Duration_UnmarshalJSON v)).

Definition listen_shape : shape := TStruct
  [(str "dns", TString); (str "tcp", TString); (str "udp", TString)].
Definition hy2_shape : shape := TStruct
  [(str "server", TString); (str "auth", TString); (str "sni", TString); (str "insecure", TBool);
   (str "pinned_cert_sha256", TString); (str "max_idle", TDuration); (str "keep_alive", TDuration);
   (str "initial_stream_window", (TUint 64)); (str "max_stream_window", (TUint 64)); (str
   "initial_connection_window", (TUint 64)); (str "max_connection_window", (TUint 64)); (str
   "max_concurrent_dials", TInt)].
Definition relay_shape : shape := TStruct
  [(str "enabled", TBool); (str "server", TString); (str "uuid", TString); (str "server_name",
   TString); (str "public_key", TString); (str "short_id", TString); (str "fingerprint", TString);
   (str "flow", TString)].
Definition landing_shape : shape := TStruct
  [(str "udp", TBool); (str "max_udp_payload", TInt); (str "type", TString); (str "server",
   TString); (str "username", TString); (str "password", TString)].
Definition limits_shape : shape := TStruct
  [(str "dns_cache_entries", TInt); (str "learned_ip_entries", TInt); (str "tcp_sessions", TInt);
   (str "udp_sessions", TInt); (str "udp_idle", TDuration); (str "sniff_bytes", TInt); (str
   "sniff_timeout", TDuration)].
Definition health_shape : shape := TStruct
  [(str "failure_threshold", TInt); (str "success_threshold", TInt); (str "cooldown", TDuration);
   (str "probe_interval", TDuration)].
Definition firewall_shape : shape := TStruct
  [(str "table", TString); (str "lan_interface", TString); (str "mark", (TUint 32)); (str
   "bypass_mark", (TUint 32)); (str "route_table", (TUint 32)); (str "canary_source", TString)].
Definition rule_shape : shape := TStruct
  [(str "action", TString); (str "type", TString); (str "value", TString)].
Definition config_shape : shape := TStruct
  [(str "listen", listen_shape); (str "domestic_dns", TString); (str "trusted_dns", TString);
   (str "hy2", hy2_shape); (str "tcp_relay", relay_shape); (str "tcp_domain_dial", TBool);
   (str "udp_policy", TString); (str "landing", landing_shape); (str "limits", limits_shape);
   (str "health", health_shape); (str "firewall", firewall_shape);
   (str "data", TStruct [(str "routing", TString)]); (str "control_socket", TString);
   (str "log_level", TString); (str "fail_open", TBool); (str "rules", TSlice rule_shape)].

Ltac take_table := 
  apply takes_struct; [apply (bool_decide_unpack _); vm_compute; exact I|];
  repeat (apply List.Forall2_cons; [split; [reflexivity|cbn [snd]; eauto with takes]|]); apply List.Forall2_nil.

Lemma takes_int : takes dec_int TInt.
Proof. apply takes_number. Qed.
Lemma takes_uint bits : takes (dec_uint bits) (TUint bits).
Proof. apply takes_number. Qed.
Lemma takes_duration : takes dec_duration TDuration.
Proof. apply takes_method. Qed.
#[export] Hint Resolve takes_int takes_uint takes_duration : takes.

Lemma takes_listen : takes (dec_struct true listen_fields) listen_shape.
Proof. take_table. Qed.
Lemma takes_hy2 : takes (dec_struct true hy2_fields) hy2_shape.
Proof. take_table. Qed.
Lemma takes_relay : takes (dec_struct true relay_fields) relay_shape.
Proof. take_table. Qed.
Lemma takes_landing : takes (dec_struct true landing_fields) landing_shape.
Proof. take_table. Qed.
Lemma takes_limits : takes (dec_struct true limits_fields) limits_shape.
Proof. take_table. Qed.
Lemma takes_health : takes (dec_struct true health_fields) health_shape.
Proof. take_table. Qed.
Lemma takes_firewall : takes (dec_struct true firewall_fields) firewall_shape.
Proof. take_table. Qed.
Lemma takes_rule : takes (dec_struct true rule_fields) rule_shape.
Proof. take_table. Qed.
Lemma takes_data : takes (dec_struct true data_fields) (TStruct [(str "routing", TString)]).
Proof. take_table. Qed.
#[export] Hint Resolve takes_listen takes_hy2 takes_relay takes_landing takes_limits takes_health : takes.
#[export] Hint Resolve takes_firewall takes_rule takes_data : takes.

Lemma takes_config : takes dec_config config_shape.
Proof. unfold dec_config, config_fields, config_plain_fields, on_config, dec_rules. simpl. take_table. Qed.

(** ** What [Decode] accepts *)

Lemma decode_next_value {T} (d : decoder T) zero s v rest :
  read_value s = Some (Ok (v, rest)) →
  decode_next d zero s = Some (match d v zero with
                               | Err e => Err e
                               | Ok (_, Some e) => Err e
                               | Ok (t, None) => Ok (t, rest)
                               end).
Proof. intros H. unfold decode_next. by rewrite H. Qed.

Lemma dec_empty_message v e : dec_empty v () = Ok ((), Some e) ∨ dec_empty v () = Err e → ∃ m, e = EMsg m.
Proof.
  unfold dec_empty. destruct v as [| | | | |ms]; simpl; try naive_solver.
  assert (Hm : ∀ ms, dec_members true ([] : fields unit) ms () =
                     Ok ((), match ms with [] => None | _ => Some unknown_field end)).
  { induction ms0 as [|[k v] ms0 IH]; [done|]. cbn [dec_members]. unfold find_field at 1. simpl. by rewrite IH. }
  rewrite Hm. intros [[= H]|H]; [|done]. destruct ms; simplify_eq. by eexists.
Qed.

(** After the first value only white space may follow. *)
Lemma second_value rest :
  ∃ r, decode_next dec_empty () rest = Some r ∧
       match r with
       | Ok _ => skip_space rest ≠ []
       | Err e => errors_Is (λ e, bool_decide (e = EEOF)) e = true ↔ skip_space rest = []
       end.
Proof.
  destruct (read_value_total rest) as (r & Hr & _ & Hcase). unfold decode_next. rewrite Hr. simpl.
  destruct Hcase as [[Hs ->]|[Hs Hm]].
  - eexists. split; [done|]. done.
  - eexists. split; [done|]. destruct r as [[v rest']|e].
    + pose proof (dec_empty_message v) as He. destruct (dec_empty v ()) as [[[] [e|]]|e]; [|done|].
      * destruct (He e) as [m ->]; [by left|]. simpl. split; [done|by intros ?].
      * destruct (He e) as [m ->]; [by right|]. simpl. split; [done|by intros ?].
    + destruct (Hm e eq_refl) as [m ->]. simpl. split; [done|by intros ?].
Qed.

Definition validated_outcome (r : Config * option error) : result Config :=
  match r with
  | (_, Some e) => Err (EWrap "validate configuration" e)
  | (cfg, None) => Ok cfg
  end.

Lemma Decode_value services order raw j rest :
  read_value raw = Some (Ok (j, rest)) →
  if shaped config_shape j && bool_decide (skip_space rest = [])
  then ∃ c back, dec_config j (zero_config, []) = Ok ((c, back), None) ∧
                 Decode services order raw = Some (validated_outcome (Validate services order c))
  else ∃ e, Decode services order raw = Some (Err e).
Proof.
  intros Hr. unfold Decode. rewrite (decode_next_value _ _ _ _ _ Hr).
  pose proof (takes_config j (zero_config, [])) as Ht.
  destruct (dec_config j (zero_config, [])) as [[[c back] [e|]]|e] eqn:Ed.
  - destruct (shaped config_shape j); [by destruct (proj2 Ht eq_refl)|]. simpl. eauto.
  - rewrite (proj1 Ht (ex_intro _ _ eq_refl)). simpl. destruct (second_value rest) as (r & -> & Hs). simpl.
    destruct (bool_decide_reflect (skip_space rest = [])) as [E|E].
    + destruct r as [?|e]; [done|]. rewrite (proj2 Hs E). simpl. eauto.
    + destruct r as [?|e]; [by eexists|]. destruct (errors_Is _ e); [by destruct E; apply Hs|]. by eexists.
  - destruct (shaped config_shape j); [by destruct (proj2 Ht eq_refl)|]. simpl. eauto.
Qed.

(** C28: a configuration file is accepted exactly when it is one JSON value of the
    configuration's type (every member a field of its struct, every number in the
    range of its Go type, every duration a text that parses) with nothing but
    white space after it, and the record read from it passes validation: every
    input is decided, a syntax error is reported as such, a value of another type
    or a second value is refused, and otherwise the outcome is that of
    [Validate]. *)
Theorem Decode_accepts_exactly (services : bytes → bytes → option Z) (order : list listenName) (raw : bytes) :
  match read_value raw with
  | None => False
  | Some (Err e) => Decode services order raw = Some (Err (EWrap "decode configuration" e))
  | Some (Ok (j, rest)) =>
      if shaped config_shape j && bool_decide (skip_space rest = [])
      then ∃ c back, dec_config j (zero_config, []) = Ok ((c, back), None) ∧
                     Decode services order raw = Some (validated_outcome (Validate services order c))
      else ∃ e, Decode services order raw = Some (Err e)
  end.
Proof.
  destruct (read_value_total raw) as (r & Hr & _). rewrite Hr. destruct r as [[j rest]|e].
  - by apply Decode_value.
  - unfold Decode, decode_next. by rewrite Hr.
Qed.

Lemma Decode_Ok services order raw cfg :
  Decode services order raw = Some (Ok cfg) →
  ∃ j rest c, read_value raw = Some (Ok (j, rest)) ∧ shaped config_shape j = true ∧ skip_space rest = [] ∧
    config_range c ∧ Validate services order c = (cfg, None).
Proof.
  intros H. destruct (read_value_total raw) as (r & Hr & _). destruct r as [[j rest]|e].
  - pose proof (Decode_value services order raw j rest Hr) as Hv.
    destruct (shaped config_shape j) eqn:Hj; simpl in Hv; [|destruct Hv as [e He]; congruence].
    destruct (bool_decide_reflect (skip_space rest = [])) as [E|E]; [|destruct Hv as [e He]; congruence].
    destruct Hv as (c & back & Hd & Hv). exists j, rest, c. split_and!; try done.
    + exact (keeps_config j (zero_config, []) (c, back) None zero_config_range Hd).
    + rewrite Hv in H. destruct (Validate services order c) as [c' [e|]]; simpl in H; congruence.
  - unfold Decode, decode_next in H. by rewrite Hr in H.
Qed.

(** C27: whatever the bytes of the file, a configuration that [Decode] returns is
    valid and its numbers are values of their Go types: it satisfies every range,
    pattern and consistency condition the program relies on (session limits,
    windows, thresholds, marks, endpoints), differs from what the file says only
    in fields the file leaves empty or zero, and validating it again succeeds and
    changes nothing. *)
Theorem Decode_establishes_config_ok (services : bytes → bytes → option Z) (order : list listenName)
    (raw : bytes) (cfg : Config) :
  Decode services order raw = Some (Ok cfg) →
  config_ok services order cfg ∧ config_range cfg ∧ Validate services order cfg = (cfg, None) ∧
  ∃ j rest c back, read_value raw = Some (Ok (j, rest)) ∧
    dec_config j (zero_config, []) = Ok ((c, back), None) ∧ cfg = fill_defaults c.
Proof.
  intros H. pose proof H as H0. apply Decode_Ok in H as (j & rest & c & Hr & Hs & Hrest & Hc & Hv).
  assert (Hok : config_ok services order cfg).
  { eapply Validate_config_ok; [|exact Hv]. destruct Hc as (_ & _ & _ & _ & [Hm _]). exact Hm. }
  pose proof (Validate_fills services order c cfg Hv) as Hf.
  split; [done|]. split; [rewrite Hf; by apply fill_defaults_range|]. split; [by apply config_ok_accepted|].
  pose proof (Decode_value services order raw j rest Hr) as Hd. rewrite Hs, bool_decide_true in Hd by done.
  destruct Hd as (c' & back & Hd & Hv'). exists j, rest, c', back. split_and!; try done.
  rewrite Hv' in H0. destruct (Validate services order c') as [c'' [e|]] eqn:Ev; simpl in H0; [congruence|].
  injection H0 as <-. by apply (Validate_fills services order).
Qed.

(** ** A written configuration is read back *)

(** The texts of a configuration, which must be UTF-8, and its numbers, which the
    text below writes without a sign. *)
Definition rule_texts (r : RuleConfig) : list bytes := [rule_action r; rule_type r; rule_value r].
Definition config_texts (c : Config) : list bytes :=
  let l := cfg_listen c in let h := cfg_hy2 c in let r := cfg_relay c in
  let a := cfg_landing c in let f := cfg_firewall c in
  [listen_dns l; listen_tcp l; listen_udp l; cfg_domestic_dns c; cfg_trusted_dns c;
   hy2_server h; hy2_auth h; hy2_sni h; hy2_pin h;
   relay_server r; relay_uuid r; relay_server_name r; relay_public_key r; relay_short_id r;
   relay_fingerprint r; relay_flow r; cfg_udp_policy c;
   landing_type a; landing_server a; landing_username a; landing_password a;
   fw_table f; fw_lan_interface f; fw_canary_source f; cfg_routing c; cfg_control_socket c; cfg_log_level c]
  ++ mjoin (rule_texts <$> cfg_rules c).
Definition config_numbers (c : Config) : list Z :=
  let h := cfg_hy2 c in let m := cfg_limits c in let e := cfg_health c in
  [hy2_max_idle h; hy2_keep_alive h; hy2_max_dials h; landing_max_udp_payload (cfg_landing c);
   lim_dns_cache m; lim_learned_ip m; lim_tcp_sessions m; lim_udp_sessions m; lim_udp_idle m;
   lim_sniff_bytes m; lim_sniff_timeout m;
   health_failures e; health_successes e; health_cooldown e; health_probe_interval e].

Definition config_printable (c : Config) : Prop :=
  config_range c ∧ Forall utf8_ok (config_texts c) ∧ Forall (λ n, 0 ≤ n) (config_numbers c).

Lemma dec_duration_ns n t : 0 ≤ n < 2 ^ 63 → dec_duration (JString (Itoa n ++ str "ns")) t = Ok (n, None).
Proof. intros H. unfold dec_duration, dec_method, Duration_UnmarshalJSON. simpl. by rewrite ParseDuration_ns. Qed.

(** One member after another: the field is found, and its decoder reads the value. *)
Ltac read_leaf :=
  first [ reflexivity | apply dec_int_Itoa; lia | apply dec_uint_Itoa; lia | apply dec_duration_ns; lia ].
Ltac read_members leaf :=
  repeat (eapply dec_members_next; [reflexivity|apply dec_on_ok; leaf|]).

Lemma read_listen l : dec_struct true listen_fields (listen_json l) (mkListen [] [] []) = Ok (l, None).
Proof. destruct l. unfold listen_json, dec_struct. read_members read_leaf. reflexivity. Qed.

Lemma read_rule r : dec_struct true rule_fields (rule_json r) zero_rule = Ok (r, None).
Proof. destruct r. unfold rule_json, dec_struct. read_members read_leaf. reflexivity. Qed.

Lemma read_relay r : dec_struct true relay_fields (relay_json r) (mkRelay false [] [] [] [] [] [] []) = Ok (r, None).
Proof. destruct r. unfold relay_json, dec_struct. read_members read_leaf. reflexivity. Qed.

Lemma read_hy2 h : hy2_range h → 0 ≤ hy2_max_idle h → 0 ≤ hy2_keep_alive h → 0 ≤ hy2_max_dials h →
  dec_struct true hy2_fields (hy2_json h) (mkHY2 [] [] [] false [] 0 0 0 0 0 0 0) = Ok (h, None).
Proof.
  unfold hy2_range, int64, uint. intros Hr H1 H2 H3. unfold hy2_json, dec_struct.
  read_members read_leaf. by destruct h.
Qed.

Lemma read_landing l : landing_range l → 0 ≤ landing_max_udp_payload l →
  dec_struct true landing_fields (landing_json l) (mkLanding false 0 [] [] [] []) = Ok (l, None).
Proof.
  unfold landing_range, int64. intros Hr H1. unfold landing_json, dec_struct.
  read_members read_leaf. by destruct l.
Qed.

Lemma read_limits l : limits_range l → 0 ≤ lim_dns_cache l → 0 ≤ lim_learned_ip l → 0 ≤ lim_tcp_sessions l →
  0 ≤ lim_udp_sessions l → 0 ≤ lim_udp_idle l → 0 ≤ lim_sniff_bytes l → 0 ≤ lim_sniff_timeout l →
  dec_struct true limits_fields (limits_json l) (mkLimits 0 0 0 0 0 0 0) = Ok (l, None).
Proof.
  unfold limits_range, int64. intros Hr H1 H2 H3 H4 H5 H6 H7. unfold limits_json, dec_struct.
  read_members read_leaf. by destruct l.
Qed.

Lemma read_health h : health_range h → 0 ≤ health_failures h → 0 ≤ health_successes h → 0 ≤ health_cooldown h →
  0 ≤ health_probe_interval h → dec_struct true health_fields (health_json h) (mkHealth 0 0 0 0) = Ok (h, None).
Proof.
  unfold health_range, int64. intros Hr H1 H2 H3 H4. unfold health_json, dec_struct.
  read_members read_leaf. by destruct h.
Qed.

Lemma read_firewall f : firewall_range f →
  dec_struct true firewall_fields (firewall_json f) (mkFirewall [] [] 0 0 0 []) = Ok (f, None).
Proof.
  unfold firewall_range, uint. intros Hr. unfold firewall_json, dec_struct. read_members read_leaf. by destruct f.
Qed.

Lemma read_rules rules c :
  cfg_rules c = [] → dec_rules (JArray (rule_json <$> rules)) (c, []) = Ok ((set_rules rules c, rules), None).
Proof.
  intros Hc. unfold dec_rules, dec_on. cbn [fst snd]. rewrite Hc.
  rewrite dec_slice_fresh; [done|]. apply Forall_forall. intros r _. apply read_rule.
Qed.

Ltac read_section :=
  first [ apply dec_on_ok; solve [auto using read_listen, read_relay, read_hy2, read_landing, read_limits,
            read_health, read_firewall]
        | reflexivity ].

Lemma read_config c : config_printable c → dec_config (config_json c) (zero_config, []) = Ok ((c, cfg_rules c), None).
Proof.
  intros ((Hh & Hla & Hli & Hhe & Hf) & _ & Hn). unfold config_numbers in Hn. rewrite !list.Forall_cons in Hn. destruct_and! Hn.
  unfold config_json, dec_config, dec_struct.
  read_members read_section.
  eapply dec_members_next; [reflexivity|refine (read_rules (cfg_rules c) _ _); reflexivity|].
  read_members read_section. by destruct c.
Qed.

(** Printable parts make a printable value of three levels. *)
Lemma printable_itoa d n : 0 ≤ n < 2 ^ 64 → printable d (JNumber (Itoa n)).
Proof. intros H. constructor. lia. Qed.

Lemma utf8_duration n : 0 ≤ n → utf8_ok (Itoa n ++ str "ns").
Proof.
  intros Hn. apply utf8_ok_ascii, Forall_app. split.
  - apply (list.Forall_impl _ _ _ (Itoa_digits n Hn)). intros c Hc. unfold is_digit in Hc. apply in_range_spec in Hc. lia.
  - repeat constructor; lia.
Qed.

Ltac print_leaf :=
  first [ apply printable_bool
        | apply printable_itoa; lia
        | apply printable_string; (assumption || (apply utf8_duration; lia)) ].
Ltac print_members leaf :=
  apply printable_object; repeat (apply List.Forall_cons; [split; [apply utf8_name; reflexivity|cbn [snd]; leaf]|]);
  apply List.Forall_nil.

Lemma printable_rule r d : Forall utf8_ok (rule_texts r) → printable (S d) (rule_json r).
Proof. unfold rule_texts. rewrite !list.Forall_cons. intros (H1 & H2 & H3 & _). print_members print_leaf. Qed.

Lemma printable_rules rules d :
  Forall utf8_ok (mjoin (rule_texts <$> rules)) → printable (S (S d)) (JArray (rule_json <$> rules)).
Proof.
  intros H. apply printable_array. induction rules as [|r rules IH]; [constructor|].
  rewrite fmap_cons, mjoin_cons, Forall_app in H. destruct H as [H1 H2].
  rewrite fmap_cons. apply List.Forall_cons; [by apply printable_rule|by apply IH].
Qed.

Lemma printable_config c : config_printable c → printable 3 (config_json c).
Proof.
  intros ((Hh & Hla & Hli & Hhe & Hf) & Ht & Hn). unfold config_numbers in Hn. rewrite !list.Forall_cons in Hn.
  unfold config_texts in Ht. rewrite Forall_app in Ht. destruct Ht as [Ht Hru]. rewrite !list.Forall_cons in Ht.
  unfold hy2_range, landing_range, limits_range, health_range, firewall_range, int64, uint in *.
  destruct_and! Ht. destruct_and! Hn. 
  print_members ltac:(first [print_leaf | by apply printable_rules | print_members print_leaf]).
Qed.

(** C29: the round trip of the configuration.  Every configuration, written as JSON
    with any white space between the parts and after it, is read back as it was:
    [Decode] returns what validation makes of it, and so exactly the configuration
    itself when it is valid with its defaults filled in. *)
Theorem Decode_reads_printed_config (services : bytes → bytes → option Z) (order : list listenName)
    (sp rest : bytes) (c : Config) :
  spaces sp → spaces rest → config_printable c →
  Decode services order (sp ++ print_json sp (config_json c) ++ rest) =
    Some (validated_outcome (Validate services order c)) ∧
  (config_ok services order c →
   Decode services order (sp ++ print_json sp (config_json c) ++ rest) = Some (Ok c)).
Proof.
  intros Hsp Hrest Hc.
  assert (H : Decode services order (sp ++ print_json sp (config_json c) ++ rest) =
              Some (validated_outcome (Validate services order c))).
  { assert (Hr : read_value (sp ++ print_json sp (config_json c) ++ rest) = Some (Ok (config_json c, rest))).
    { apply (read_value_print sp 3); [done|by apply printable_config|apply Nat.leb_le; vm_compute; reflexivity|].
      destruct Hrest as [|x r Hx _]; [done|]. simpl. unfold json_space in Hx. unfold is_digit, in_range. split; lia. }
    pose proof (Decode_value services order _ _ _ Hr) as Hd. rewrite (skip_only_spaces rest Hrest) in Hd.
    pose proof (read_config c Hc) as Hread.
    rewrite (proj1 (takes_config (config_json c) (zero_config, [])) (ex_intro _ _ Hread)) in Hd.
    destruct Hd as (c' & back & Hd & ->). rewrite Hread in Hd. by injection Hd as -> _. }
  split; [done|]. intros Hok. rewrite H. by rewrite (config_ok_accepted services order c Hok).
Qed.

(** ** A file *)

(** A configuration file, with its quotes written as apostrophes. *)
Definition sample_file : bytes := json_sample
  "{ 'listen':{'dns':'127.0.0.1:1053','tcp':'127.0.0.1:12345','udp':'127.0.0.1:12346'},
     'domestic_dns':'223.5.5.5:53','trusted_dns':'1.1.1.1:53',
     'hy2':{'server':'hy2.example:443','auth':'test-auth','sni':'hy2.example','max_idle':'30s','keep_alive':'10s'},
     'landing':{'type':'direct'},
     'limits':{'dns_cache_entries':256,'learned_ip_entries':512,'udp_sessions':256,'udp_idle':'60s',
       'sniff_bytes':4096,'sniff_timeout':'250ms'},
     'health':{'failure_threshold':2,'success_threshold':2,'cooldown':'30s'},
     'firewall':{'table':'hy2route','lan_interface':'br-lan','mark':102,'route_table':100},
     'data':{'routing':'/routing.bin'} } ".

Definition outcome (o : option (result Config)) : result Config := default (errorf "out of fuel") o.
Definition decoded (raw : bytes) : result Config := outcome (Decode (λ _ _, None) [LDNS; LTCP; LUDP] raw).

(** A numeric duration, an unknown field, a second value, a number out of the range
    of [uint32], a truncated file. *)
Example refused_files :
  decoded (json_sample "{'hy2':{'max_idle':30}}") =
    Err (EWrap "decode configuration" (EMsg "duration must be a JSON string")) ∧
  decoded (json_sample "{'unknown':true}") = Err (EWrap "decode configuration" unknown_field) ∧
  decoded (sample_file ++ sample_file) = Err (EWrap "decode configuration" unknown_field) ∧
  decoded (sample_file ++ str "{}") = errorf "decode configuration: multiple JSON values" ∧
  decoded (json_sample "{'firewall':{'mark':4294967296}}") = Err (EWrap "decode configuration" mismatch) ∧
  decoded (take 100 sample_file) = Err (EWrap "decode configuration" (EMsg "unexpected EOF")) ∧
  decoded [] = Err (EWrap "decode configuration" EEOF).
Proof. vm_compute. repeat split. Qed.

(** Repeated members store twice, and a second array of rules is stored over the
    first. *)
Example repeated_members :
  match read_value (json_sample "{'rules':[{'action':'proxy','type':'ip','value':'a'},{'value':'b'}],
                                  'RULES':[{'value':'c'}],'fail_open':true,'Fail_Open':null}") with
  | Some (Ok (j, _)) => dec_config j (zero_config, [])
  | _ => errorf "no value"
  end = let c := mkRule (str "proxy") (str "ip") (str "c") in
        Ok ((set_rules [c] (mkConfig (cfg_listen zero_config) [] [] (cfg_hy2 zero_config) (cfg_relay zero_config)
               false [] (cfg_landing zero_config) (cfg_limits zero_config) (cfg_health zero_config)
               (cfg_firewall zero_config) [] [] [] [] true), [c; mkRule [] [] (str "b")]), None).
Proof. vm_compute. reflexivity. Qed.

Definition sample_decoded : Config := match decoded sample_file with Ok cfg => cfg | Err _ => zero_config end.

Lemma Decode_establishes_config_ok_witness :
  config_ok (λ _ _, None) [LDNS; LTCP; LUDP] sample_decoded ∧ fw_bypass_mark (cfg_firewall sample_decoded) = 103.
Proof.
  split; [|vm_compute; reflexivity].
  refine (proj1 (Decode_establishes_config_ok _ _ sample_file sample_decoded _)). vm_compute. reflexivity.
Defined.

Lemma sample_config_printable : config_printable sample_config.
Proof.
  split; [|split; apply (bool_decide_unpack _); vm_compute; exact I].
  unfold config_range, hy2_range, landing_range, limits_range, health_range, firewall_range, int64, uint.
  vm_compute. repeat split; congruence.
Qed.

Lemma Decode_reads_printed_config_witness :
  let text := [32] ++ print_json [32] (config_json sample_config) ++ [10] in
  Decode (λ _ _, None) [LUDP; LDNS; LTCP] text = Some (Ok (fill_defaults sample_config)).
Proof.
  intros text. subst text.
  rewrite (proj1 (Decode_reads_printed_config (λ _ _, None) [LUDP; LDNS; LTCP] [32] [10] sample_config
    ltac:(repeat constructor) ltac:(repeat constructor) sample_config_printable)).
  vm_compute. reflexivity.
Defined.
