(* ===== verification/Control.v ===== *)
(** * The control socket: [internal/control/control.go]

    The server on its socket and the client, byte for byte: the request and the
    reply as [encoding/json] writes them, and what each side's decoder makes of at
    most [maxRequestBytes] of what it receives. *)

From S2P Require Import Prelude GoStrings GoNet AddrText GoJson GoUnmarshal.

Definition maxRequestBytes : nat := 4096.

Record ControlSnapshot := mkSnapshot {
  sn_udpViaLanding : bool; sn_tcpTransport : bytes; sn_udpTransport : bytes; sn_mode : bytes;
  sn_hy2Connected : bool; sn_hy2State : bytes; sn_hy2LastSuccess : bytes; sn_hy2LastError : bytes;
  sn_hy2LastErrorReason : bytes; sn_hy2LastErrorStage : bytes;
  sn_dnsCache : Z; sn_learnedIPs : Z; sn_udpSessions : Z; sn_activeTCP : Z; sn_rssBytes : Z }.

Record response := mkResponse { resp_ok : bool; resp_snapshot : ControlSnapshot; resp_error : bytes }.

Definition zero_snapshot : ControlSnapshot :=
  mkSnapshot false [] [] [] false [] [] [] [] [] 0 0 0 0 0.

(** ** What is written *)

(** A field with [omitempty] is left out when it is the zero value. *)
Definition omitempty (empty : bool) (name : string) (v : json) : list (bytes * json) :=
  if empty then [] else [(str name, v)].
Definition text_field (name : string) (s : bytes) : list (bytes * json) :=
  omitempty (bool_decide (s = [])) name (JString s).

(** The fields of a snapshot, in the order of the struct. *)
Definition snapshot_members (s : ControlSnapshot) : list (bytes * json) :=
  omitempty (negb (sn_udpViaLanding s)) "udp_via_landing" (JBool (sn_udpViaLanding s))
  ++ text_field "tcp_transport" (sn_tcpTransport s)
  ++ text_field "udp_transport" (sn_udpTransport s)
  ++ [(str "mode", JString (sn_mode s)); (str "hy2_connected", JBool (sn_hy2Connected s));
      (str "hy2_state", JString (sn_hy2State s))]
  ++ text_field "hy2_last_success" (sn_hy2LastSuccess s)
  ++ text_field "hy2_last_error" (sn_hy2LastError s)
  ++ text_field "hy2_last_error_reason" (sn_hy2LastErrorReason s)
  ++ text_field "hy2_last_error_stage" (sn_hy2LastErrorStage s)
  ++ [(str "dns_cache", JNumber (Itoa (sn_dnsCache s))); (str "learned_ips", JNumber (Itoa (sn_learnedIPs s)));
      (str "udp_sessions", JNumber (Itoa (sn_udpSessions s)));
      (str "active_tcp", JNumber (Itoa (sn_activeTCP s)));
      (str "rss_bytes", JNumber (Itoa (sn_rssBytes s)))].

(** The embedded snapshot's fields stand between the response's own. *)
Definition response_json (r : response) : json :=
  JObject ([(str "ok", JBool (resp_ok r))] ++ snapshot_members (resp_snapshot r) ++ text_field "error" (resp_error r)).

(** [Encode]: the value and a line end. *)
Definition Encode (v : json) : bytes := print_json [] v ++ [10].
Definition encode_response (r : response) : bytes := Encode (response_json r).

Definition request_json (operation : bytes) : json := JObject [(str "op", JString operation)].

(** ** What is read *)

(** [request] is its one field. *)
Definition request_fields : fields bytes := [(str "op", dec_string)].

Definition snapshot_fields : fields ControlSnapshot :=
  [(str "udp_via_landing", dec_on sn_udpViaLanding
     (λ x '(mkSnapshot _ b c d e f g h i j k l m n o), mkSnapshot x b c d e f g h i j k l m n o) dec_bool);
   (str "tcp_transport", dec_on sn_tcpTransport
     (λ x '(mkSnapshot a _ c d e f g h i j k l m n o), mkSnapshot a x c d e f g h i j k l m n o) dec_string);
   (str "udp_transport", dec_on sn_udpTransport
     (λ x '(mkSnapshot a b _ d e f g h i j k l m n o), mkSnapshot a b x d e f g h i j k l m n o) dec_string);
   (str "mode", dec_on sn_mode
     (λ x '(mkSnapshot a b c _ e f g h i j k l m n o), mkSnapshot a b c x e f g h i j k l m n o) dec_string);
   (str "hy2_connected", dec_on sn_hy2Connected
     (λ x '(mkSnapshot a b c d _ f g h i j k l m n o), mkSnapshot a b c d x f g h i j k l m n o) dec_bool);
   (str "hy2_state", dec_on sn_hy2State
     (λ x '(mkSnapshot a b c d e _ g h i j k l m n o), mkSnapshot a b c d e x g h i j k l m n o) dec_string);
   (str "hy2_last_success", dec_on sn_hy2LastSuccess
     (λ x '(mkSnapshot a b c d e f _ h i j k l m n o), mkSnapshot a b c d e f x h i j k l m n o) dec_string);
   (str "hy2_last_error", dec_on sn_hy2LastError
     (λ x '(mkSnapshot a b c d e f g _ i j k l m n o), mkSnapshot a b c d e f g x i j k l m n o) dec_string);
   (str "hy2_last_error_reason", dec_on sn_hy2LastErrorReason
     (λ x '(mkSnapshot a b c d e f g h _ j k l m n o), mkSnapshot a b c d e f g h x j k l m n o) dec_string);
   (str "hy2_last_error_stage", dec_on sn_hy2LastErrorStage
     (λ x '(mkSnapshot a b c d e f g h i _ k l m n o), mkSnapshot a b c d e f g h i x k l m n o) dec_string);
   (str "dns_cache", dec_on sn_dnsCache
     (λ x '(mkSnapshot a b c d e f g h i j _ l m n o), mkSnapshot a b c d e f g h i j x l m n o) dec_int);
   (str "learned_ips", dec_on sn_learnedIPs
     (λ x '(mkSnapshot a b c d e f g h i j k _ m n o), mkSnapshot a b c d e f g h i j k x m n o) dec_int);
   (str "udp_sessions", dec_on sn_udpSessions
     (λ x '(mkSnapshot a b c d e f g h i j k l _ n o), mkSnapshot a b c d e f g h i j k l x n o) dec_int);
   (str "active_tcp", dec_on sn_activeTCP
     (λ x '(mkSnapshot a b c d e f g h i j k l m _ o), mkSnapshot a b c d e f g h i j k l m x o) dec_int);
   (str "rss_bytes", dec_on sn_rssBytes
     (λ x '(mkSnapshot a b c d e f g h i j k l m n _), mkSnapshot a b c d e f g h i j k l m n x) (dec_uint 64))].

(** The fields of the embedded [Snapshot] are fields of the response. *)
Definition on_snapshot (f : bytes * decoder ControlSnapshot) : bytes * decoder response :=
  (f.1, dec_on resp_snapshot (λ s r, mkResponse (resp_ok r) s (resp_error r)) f.2).

Definition response_fields : fields response :=
  [(str "ok", dec_on resp_ok (λ x r, mkResponse x (resp_snapshot r) (resp_error r)) dec_bool)]
  ++ (on_snapshot <$> snapshot_fields)
  ++ [(str "error", dec_on resp_error (λ x r, mkResponse (resp_ok r) (resp_snapshot r) x) dec_string)].

(** [json.NewDecoder(io.LimitReader(conn, maxRequestBytes)).Decode]. *)
Definition limited_decode {T} (fs : fields T) (zero : T) (received : bytes) : option (result T) :=
  o ← decode_next (dec_struct false fs) zero (take maxRequestBytes received);
  Some (let? (t, _) := o in Ok t).

(** ** The server *)

(** [handle] on what the connection delivers (an input that ends early and one that
    stops coming both leave the decoder without a value): the bytes sent back. *)
Definition control_handle (received : bytes) (snapshot : ControlSnapshot) : option bytes :=
  o ← limited_decode request_fields [] received;
  Some (encode_response
          (match o with
           | Err _ => mkResponse false zero_snapshot (str "invalid request")
           | Ok operation =>
               if negb (bool_decide (operation = str "status"))
               then mkResponse false zero_snapshot (str "unsupported operation")
               else mkResponse true snapshot []
           end)).

(** [accept]: every accepted connection is handled on its own (here with what it
    sends and the snapshot of its moment), until [AcceptUnix] fails, as it does
    once the listener is closed. *)
Fixpoint control_accept (accepts : list (result (bytes * ControlSnapshot))) : list (option bytes) :=
  match accepts with
  | [] | Err _ :: _ => []
  | Ok (received, snapshot) :: accepts' => control_handle received snapshot :: control_accept accepts'
  end.

(** What stands at the socket path before [Listen]: nothing, a socket, another
    kind of file, or an error of [Lstat]. *)
Inductive pathState := PathAbsent | PathSocket | PathOther | PathError (e : error).

(** [Listen]: its result, and what is at the path afterwards ([true] for the new
    socket). *)
Definition control_Listen (path : bytes) (has_snapshot : bool) (found : pathState)
    (remove listen chmod : option error) : option error * pathState :=
  if bool_decide (path = []) then (Some (EMsg "control socket path is required"), found)
  else if negb has_snapshot then (Some (EMsg "control snapshot is required"), found)
  else
    let bind :=
      match listen with
      | Some e => (Some e, PathAbsent)
      | None => match chmod with Some e => (Some e, PathAbsent) | None => (None, PathSocket) end
      end in
    match found with
    | PathSocket => match remove with Some e => (Some e, found) | None => bind end
    | PathOther => (Some (EMsg "control path is not a socket"), found)
    | PathError e => (Some e, found)
    | PathAbsent => bind
    end.

(** [Close]: [listener.Close] removes the socket of a listener it created itself;
    [Remove] then finds nothing, or fails for another reason. *)
Definition control_Close (close : option error) (remove : option error) (is_not_exist : error → bool)
  : option error :=
  match remove with
  | Some e => if negb (is_not_exist e) && bool_decide (close = None) then Some e else close
  | None => close
  end.

(** ** The client *)

(** [errors.New] of a text that was received. *)
Definition errors_New (s : bytes) : error :=
  EMsg (String.string_of_list_ascii ((λ c, Ascii.ascii_of_N (Z.to_N c)) <$> s)).

(** [Request]: [server] is what comes back for what was sent. *)
Definition control_Request (dial write : option error) (server : bytes → option bytes) (operation : bytes)
  : option (result ControlSnapshot) :=
  match dial with
  | Some e => Some (Err e)
  | None =>
      match write with
      | Some e => Some (Err e)
      | None =>
          received ← server (Encode (request_json operation));
          o ← limited_decode response_fields (mkResponse false zero_snapshot []) received;
          Some (let? result := o in
                if negb (resp_ok result) then Err (errors_New (resp_error result)) else Ok (resp_snapshot result))
      end
  end.

Definition plain_status_request (snapshot : ControlSnapshot) : option (result ControlSnapshot) :=
  control_Request None None (λ request, control_handle request snapshot) (str "status").

(** A text of an error of 1024 characters that JSON escapes makes the reply too
    long for the client that asked for it. *)
Example escaped_reason_too_long :
  plain_status_request
    (mkSnapshot false (str "hy2") (str "hy2") (str "proxy") false (str "degraded") [] (str "t")
       (replicate 1024 60) (str "hy2.tcp") 0 0 0 0 0) = Some (errorf "unexpected EOF").
Proof. vm_compute. reflexivity. Qed.

Example other_operations :
  control_Request None None (λ request, control_handle request zero_snapshot) (str "reload") =
    Some (errorf "unsupported operation") ∧
  control_handle (str "status") zero_snapshot = control_handle [] zero_snapshot.
Proof. vm_compute. done. Qed.

(** ** What is written is read back *)

(** The texts of a snapshot. *)
Definition snapshot_texts (s : ControlSnapshot) : list bytes :=
  [sn_tcpTransport s; sn_udpTransport s; sn_mode s; sn_hy2State s; sn_hy2LastSuccess s;
   sn_hy2LastError s; sn_hy2LastErrorReason s; sn_hy2LastErrorStage s].

(** The counts of a snapshot are lengths and sizes. *)
Definition snapshot_range (s : ControlSnapshot) : Prop :=
  Forall (λ n, 0 ≤ n < 2 ^ 63) [sn_dnsCache s; sn_learnedIPs s; sn_udpSessions s; sn_activeTCP s] ∧
  0 ≤ sn_rssBytes s < 2 ^ 64.

(** A field that may have been left out: its zero value is then there already. *)
Lemma dec_members_omitted {T} strict (fs : fields T) empty name v ms d t t' r :
  find_field fs (str name) = Some d → d v t = Ok (t', None) → (empty = true → t' = t) →
  dec_members strict fs ms t' = Ok (r, None) →
  dec_members strict fs (omitempty empty name v ++ ms) t = Ok (r, None).
Proof.
  intros Hf Hd He Hm. destruct empty; simpl; [by rewrite <-He|]. by rewrite Hf, Hd, Hm.
Qed.

Lemma omit_text name s ms {T} strict (fs : fields T) d t t' r :
  find_field fs (str name) = Some d → d (JString s) t = Ok (t', None) → (s = [] → t' = t) →
  dec_members strict fs ms t' = Ok (r, None) →
  dec_members strict fs (text_field name s ++ ms) t = Ok (r, None).
Proof.
  intros Hf Hd He Hm. eapply dec_members_omitted; [exact Hf|exact Hd| |exact Hm].
  intros E%bool_decide_eq_true. auto.
Qed.

Ltac read_count :=
  apply dec_on_ok, dec_on_ok; first [apply dec_int_Itoa; lia | apply dec_uint_Itoa; lia].
(** The variable so far, as a record. *)
Ltac reduce_variable :=
  lazymatch goal with |- dec_members _ _ _ ?t = _ =>
    let t' := eval cbv beta iota delta [resp_ok resp_snapshot resp_error zero_snapshot] in t in change t with t'
  end.
Ltac read_next :=
  cbn [app]; reduce_variable;
  first [ eapply omit_text; [reflexivity|reflexivity|by intros ->|]
        | eapply dec_members_next;
          [reflexivity|lazymatch goal with |- _ (JNumber _) _ = _ => read_count | _ => reflexivity end|] ].

Lemma read_response r : snapshot_range (resp_snapshot r) →
  dec_struct false response_fields (response_json r) (mkResponse false zero_snapshot []) = Ok (r, None).
Proof.
  destruct r as [ok [a b c d e f g h i j k l m n o] err]. unfold snapshot_range. cbn [resp_snapshot].
  rewrite !list.Forall_cons. intros ((H1 & H2 & H3 & H4 & _) & H5). cbn in H1, H2, H3, H4, H5.
  unfold response_json, snapshot_members, dec_struct. rewrite <-!app_assoc. cbn [resp_ok resp_snapshot resp_error].
  cbn [sn_udpViaLanding sn_tcpTransport sn_udpTransport sn_mode sn_hy2Connected sn_hy2State sn_hy2LastSuccess
       sn_hy2LastError sn_hy2LastErrorReason sn_hy2LastErrorStage sn_dnsCache sn_learnedIPs sn_udpSessions
       sn_activeTCP sn_rssBytes].
  eapply dec_members_next; [reflexivity|reflexivity|].
  eapply dec_members_omitted; [reflexivity|reflexivity|by destruct a|].
  do 14 read_next. rewrite <-(app_nil_r (text_field _ _)). read_next. reflexivity.
Qed.

(** *** The texts are printable *)

Definition member_printable (d : nat) (m : bytes * json) : Prop := utf8_ok m.1 ∧ printable d m.2.

Lemma text_field_printable d name s :
  forallb (in_range 0 127) (str name) = true → utf8_ok s → Forall (member_printable d) (text_field name s).
Proof.
  intros Hn Hs. unfold text_field, omitempty. case_bool_decide; [constructor|].
  apply Forall_singleton. split; [by apply utf8_name|by constructor].
Qed.

Lemma response_printable r :
  snapshot_range (resp_snapshot r) → Forall utf8_ok (snapshot_texts (resp_snapshot r)) → utf8_ok (resp_error r) →
  printable 1 (response_json r).
Proof.
  destruct r as [ok [a b c d e f g h i j k l m n o] err]. unfold snapshot_range, snapshot_texts, response_json.
  unfold snapshot_members. rewrite <-!app_assoc.
  cbn [resp_ok resp_snapshot resp_error sn_udpViaLanding sn_tcpTransport sn_udpTransport sn_mode sn_hy2Connected
       sn_hy2State sn_hy2LastSuccess sn_hy2LastError sn_hy2LastErrorReason sn_hy2LastErrorStage sn_dnsCache
       sn_learnedIPs sn_udpSessions sn_activeTCP sn_rssBytes app].
  rewrite !list.Forall_cons. intros ((H1 & H2 & H3 & H4 & _) & H5) (T1 & T2 & T3 & T4 & T5 & T6 & T7 & T8 & _) Te.
  apply printable_object.
  assert (Hnum : ∀ x d, 0 ≤ x < 2 ^ 64 → printable d (JNumber (Itoa x))) by (intros; constructor; lia).
  apply list.Forall_cons; split; [split; [by apply utf8_name|constructor]|].
  apply Forall_app; split; [destruct a; [apply Forall_singleton; split; [by apply utf8_name|constructor]|constructor]|].
  repeat (apply Forall_app; split; [by apply text_field_printable|]).
  repeat (apply list.Forall_cons; split; [split; [by apply utf8_name|by constructor]|]).
  repeat (apply Forall_app; split; [by apply text_field_printable|]).
  repeat (apply list.Forall_cons; split; [split; [by apply utf8_name|apply Hnum; lia]|]).
  by apply text_field_printable.
Qed.

(** A value of which the limit cuts nothing but the line end. *)
Lemma limited_decode_Encode {T} (fs : fields T) zero d j t :
  printable d j → (d ≤ maxNestingDepth)%nat → (length (Encode j) ≤ S maxRequestBytes)%nat →
  dec_struct false fs j zero = Ok (t, None) → limited_decode fs zero (Encode j) = Some (Ok t).
Proof.
  intros Hj Hd Hl Ht. unfold limited_decode, Encode in *. rewrite length_app in Hl. cbn [length] in Hl.
  rewrite take_app, (take_ge (print_json [] j)) by lia. set (tail := take _ [10]).
  assert (Hf : follow tail) by (unfold tail; by destruct (_ - _)%nat).
  pose proof (decode_next_print (dec_struct false fs) zero [] d j t tail ltac:(constructor) Hj Hd Hf Ht) as H.
  cbn [app] in H. by rewrite H.
Qed.

Lemma request_read snapshot op :
  utf8_ok op → (length (Encode (request_json op)) ≤ S maxRequestBytes)%nat →
  control_handle (Encode (request_json op)) snapshot =
  Some (encode_response (if bool_decide (op = str "status") then mkResponse true snapshot []
                         else mkResponse false zero_snapshot (str "unsupported operation"))).
Proof.
  intros Hop Hl. unfold control_handle.
  rewrite (limited_decode_Encode request_fields [] 1 (request_json op) op); try done.
  - cbn [mbind option_bind]. by destruct (bool_decide _).
  - apply printable_object, Forall_singleton. split; [by apply utf8_name|by constructor].
  - apply Nat.leb_le. vm_compute. reflexivity.
Qed.

Lemma status_round_trip s :
  snapshot_range s → Forall utf8_ok (snapshot_texts s) →
  (length (encode_response (mkResponse true s [])) ≤ S maxRequestBytes)%nat →
  (received ← control_handle (Encode (request_json (str "status"))) s;
   o ← limited_decode response_fields (mkResponse false zero_snapshot []) received;
   Some (let? result := o in
         if negb (resp_ok result) then Err (errors_New (resp_error result)) else Ok (resp_snapshot result)))
  = Some (Ok s).
Proof.
  intros Hr Ht Hl. rewrite request_read;
    [|by apply utf8_name|apply Nat.leb_le; vm_compute; reflexivity].
  rewrite bool_decide_true by done. cbn [mbind option_bind]. unfold encode_response.
  rewrite (limited_decode_Encode response_fields _ 1 _ (mkResponse true s [])); try done.
  - by apply response_printable; [| |constructor].
  - apply Nat.leb_le. vm_compute. reflexivity.
  - by apply read_response.
Qed.

(** C39: the status round trip.  The request the client encodes is the one the server
    decodes, and the client that reads the reply gets exactly the snapshot the
    server took, field by field, whatever its texts (UTF-8, escaped or not) and
    counts are, as long as the encoded reply without its line end is within the
    4096 bytes the client reads. *)
Theorem status_reaches_client (s : ControlSnapshot) :
  snapshot_range s → Forall utf8_ok (snapshot_texts s) →
  (length (encode_response (mkResponse true s [])) ≤ S maxRequestBytes)%nat →
  control_Request None None (λ request, control_handle request s) (str "status") = Some (Ok s).
Proof. apply status_round_trip. Qed.

(** ** A reply with plain texts fits *)

(** Texts without characters that JSON escapes. *)
Definition plain_char (c : Z) : bool :=
  (32 <=? c) && (c <? 127) && negb (c =? 34) && negb (c =? 92) && negb (c =? 60) && negb (c =? 62) && negb (c =? 38).
Definition plain (s : bytes) : Prop := Forall (λ c, plain_char c = true) s.

Lemma json_rune_plain c : plain_char c = true → json_rune (c, [c]) = [c].
Proof.
  unfold plain_char. intros H. unfold json_rune. simpl.
  rewrite !(proj2 (Z.eqb_neq c _)) by lia. rewrite (proj2 (Z.ltb_ge c 32)) by lia. simpl.
  by rewrite (proj2 (Z.eqb_neq c RuneError)) by (unfold RuneError; lia).
Qed.

Lemma json_string_plain s : plain s → json_string s = [34] ++ s ++ [34].
Proof.
  intros H. unfold json_string. do 2 f_equal. induction H as [|c s Hc _ IH]; [done|].
  rewrite chunks_cons_ascii by (unfold plain_char in Hc; lia).
  rewrite fmap_cons, mjoin_cons, json_rune_plain, IH by done. done.
Qed.

Lemma plain_utf8 s : plain s → utf8_ok s.
Proof.
  intros H. apply utf8_ok_ascii. apply (list.Forall_impl _ _ _ H). unfold plain_char. intros c Hc. lia.
Qed.

(** The total length of texts, each with one separator. *)
Definition total (l : list bytes) : nat := foldr (λ x n, (length x + 1 + n)%nat) 0%nat l.
Definition total_members (ms : list (bytes * json)) : nat := total (List.map (print_member []) ms).

Lemma total_members_app l m : total_members (l ++ m) = (total_members l + total_members m)%nat.
Proof. unfold total_members. induction l as [|x l IH]; simpl; [done|]. rewrite IH. lia. Qed.

Lemma length_Join l c : (length (Join l [c]) ≤ total l)%nat.
Proof.
  induction l as [|x l IH]; [done|]. destruct l as [|y l]; [simpl; lia|].
  change (Join (x :: y :: l) [c]) with (x ++ [c] ++ Join (y :: l) [c]). rewrite !length_app.
  simpl in *. lia.
Qed.

Lemma length_encode_object ms : (length (Encode (JObject ms)) ≤ total_members ms + 3)%nat.
Proof.
  pose proof (length_Join (List.map (print_member []) ms) 44) as H. unfold Encode, total_members.
  change (print_json [] (JObject ms)) with ([123] ++ Join (List.map (print_member []) ms) [44] ++ [125]).
  rewrite !length_app. simpl. lia.
Qed.

Lemma length_Itoa n : (length (Itoa n) ≤ 20)%nat.
Proof.
  unfold Itoa. assert (H : ∀ f n acc, (length (itoa_fuel f n acc) ≤ f + length acc)%nat).
  { induction f as [|f IH]; intros m acc; simpl; [lia|]. destruct (m <? 10); simpl; [lia|].
    etransitivity; [apply IH|]. simpl. lia. }
  apply (H 20%nat n []).
Qed.

Lemma length_str s : length (str s) = String.length s.
Proof. unfold str. rewrite length_fmap. induction s as [|c s IH]; simpl; [done|]. by rewrite IH. Qed.

(** The members of a reply, each with its separator. *)
Lemma total_member name v n : forallb plain_char (str name) = true → (length (print_json [] v) ≤ n)%nat →
  (total_members [(str name, v)] ≤ String.length name + n + 4)%nat.
Proof.
  intros Hn Hv. unfold total_members, total, print_member. cbn [List.map foldr fst snd].
  rewrite json_string_plain by (by apply forallb_Forall). rewrite !length_app, length_str. simpl. lia.
Qed.

Lemma total_text name s : forallb plain_char (str name) = true → plain s →
  (total_members (text_field name s) ≤ String.length name + length s + 6)%nat.
Proof.
  intros Hn Hs. unfold text_field, omitempty. case_bool_decide; [unfold total_members; simpl; lia|].
  etransitivity; [apply (total_member _ _ (length s + 2)); [done|]|lia].
  cbn [print_json]. rewrite json_string_plain by done. rewrite !length_app. simpl. lia.
Qed.

Lemma total_cons m ms : total_members (m :: ms) = (total_members [m] + total_members ms)%nat.
Proof. apply (total_members_app [m] ms). Qed.

Lemma total_number name n : forallb plain_char (str name) = true →
  (total_members [(str name, JNumber (Itoa n))] ≤ String.length name + 24)%nat.
Proof. intros Hn. pose proof (total_member name (JNumber (Itoa n)) 20 Hn (length_Itoa n)). lia. Qed.

Lemma total_bool name b : forallb plain_char (str name) = true →
  (total_members [(str name, JBool b)] ≤ String.length name + 9)%nat.
Proof.
  intros Hn. assert (Hb : (length (print_json [] (JBool b)) ≤ 5)%nat) by (destruct b; vm_compute; lia).
  pose proof (total_member name (JBool b) 5 Hn Hb). lia.
Qed.

Lemma total_plain name s : forallb plain_char (str name) = true → plain s →
  (total_members [(str name, JString s)] ≤ String.length name + length s + 6)%nat.
Proof.
  intros Hn Hs. etransitivity; [apply (total_member _ _ (length s + 2)); [done|]|lia].
  cbn [print_json]. rewrite json_string_plain by done. rewrite !length_app. simpl. lia.
Qed.

Lemma Forall_8 {A} (P : A → Prop) a b c d e f g h :
  Forall P [a; b; c; d; e; f; g; h] → P a ∧ P b ∧ P c ∧ P d ∧ P e ∧ P f ∧ P g ∧ P h.
Proof. rewrite !list.Forall_cons. tauto. Qed.

Lemma response_total s :
  Forall plain (snapshot_texts s) →
  (length (encode_response (mkResponse true s [])) ≤ total (snapshot_texts s) + 700)%nat.
Proof.
  unfold snapshot_texts. intros (P1 & P2 & P3 & P4 & P5 & P6 & P7 & P8)%Forall_8.
  unfold encode_response, response_json, snapshot_members. rewrite <-!app_assoc. cbn [resp_ok resp_snapshot resp_error].
  etransitivity; [apply length_encode_object|].
  assert (L : (total_members (omitempty (negb (sn_udpViaLanding s)) "udp_via_landing"
    (JBool (sn_udpViaLanding s))) ≤ 30)%nat) by (destruct (sn_udpViaLanding s); vm_compute; lia).
  rewrite !total_members_app, (total_cons (str "mode", _)), (total_cons (str "hy2_connected", _)).
  rewrite (total_cons (str "dns_cache", _)), (total_cons (str "learned_ips", _)),
    (total_cons (str "udp_sessions", _)), (total_cons (str "active_tcp", _)).
  pose proof (total_bool "ok" true eq_refl). pose proof (total_text "tcp_transport" _ eq_refl P1).
  pose proof (total_text "udp_transport" _ eq_refl P2). pose proof (total_plain "mode" _ eq_refl P3).
  pose proof (total_bool "hy2_connected" (sn_hy2Connected s) eq_refl).
  pose proof (total_plain "hy2_state" _ eq_refl P4). pose proof (total_text "hy2_last_success" _ eq_refl P5).
  pose proof (total_text "hy2_last_error" _ eq_refl P6). pose proof (total_text "hy2_last_error_reason" _ eq_refl P7).
  pose proof (total_text "hy2_last_error_stage" _ eq_refl P8).
  pose proof (total_number "dns_cache" (sn_dnsCache s) eq_refl).
  pose proof (total_number "learned_ips" (sn_learnedIPs s) eq_refl).
  pose proof (total_number "udp_sessions" (sn_udpSessions s) eq_refl).
  pose proof (total_number "active_tcp" (sn_activeTCP s) eq_refl).
  pose proof (total_number "rss_bytes" (sn_rssBytes s) eq_refl).
  change (total_members (text_field "error" [])) with 0%nat.
  cbn [String.length] in *. unfold total. cbn [foldr]. lia.
Qed.

(** Plain texts of at most 3000 characters together, as the program's own states,
    times and stages are, always fit. *)
Lemma status_reply_fits s :
  Forall plain (snapshot_texts s) → (total (snapshot_texts s) ≤ 3000)%nat →
  (length (encode_response (mkResponse true s [])) ≤ S maxRequestBytes)%nat.
Proof. intros Hp Ht. pose proof (response_total s Hp). unfold maxRequestBytes. lia. Qed.

(** ** Witnesses *)

(** A degraded transport; the reason needs escapes. *)
Definition sample_snapshot : ControlSnapshot :=
  mkSnapshot true (str "hy2") (str "hy2") (str "fail-open") false (str "degraded") []
    (str "2025-01-02T03:04:05Z") (str "read <tcp>: i/o timeout & reset") (str "hy2.tcp") 0 12 0 3 4096.

Lemma status_reaches_client_witness :
  control_Request None None (λ request, control_handle request sample_snapshot) (str "status") =
  Some (Ok sample_snapshot).
Proof.
  apply (status_reaches_client sample_snapshot).
  - split; [apply (bool_decide_unpack _); vm_compute; exact I|]. simpl. lia.
  - apply (bool_decide_unpack _). vm_compute. exact I.
  - apply Nat.leb_le. vm_compute. reflexivity.
Defined.
