(* ===== verification/Tcp.v ===== *)
(** * The transparent TCP proxy: [internal/dataplane/tcp.go],
    [internal/dataplane/original_destination_linux.go]

    Where a redirected connection wanted to go, which way it leaves and under
    what target, and what a relay makes of the results of its two copies (the copies
    themselves are in [Relay]).  A [net.Addr] is the text of its [String] method. *)

From S2P Require Import Prelude GoStrings GoNet Domains IPv4Tree Sha256 Dataset GoCodec.
From S2P Require Import Config Classifier GoHeap Lru Learning SniffParse SniffPeek AddrText.

(** ** The original destination *)

(** [socketOriginalDestination]: whether the connection exposes a socket, the
    outcome of [SyscallConn], of [Control], and of reading SO_ORIGINAL_DST (the
    bytes of the socket address). *)
Definition socketOriginalDestination (exposes : bool) (syscall_conn control : option error)
    (getsockopt : result bytes) : option (result bytes) :=
  if negb exposes then Some (errorf "connection does not expose a socket") else
  match syscall_conn with
  | Some e => Some (Err e)
  | None =>
      match control with
      | Some e => Some (Err e)
      | None =>
          match getsockopt with
          | Err e => Some (Err e)
          | Ok raw =>
              b2 ← raw !! 2%nat; b3 ← raw !! 3%nat; b4 ← raw !! 4%nat; b5 ← raw !! 5%nat;
              b6 ← raw !! 6%nat; b7 ← raw !! 7%nat;
              let port := Z.lor (Z.shiftl b2 8) b3 in
              let ip := mapped_prefix ++ [b4; b5; b6; b7] in
              if (port =? 0) || IsUnspecified ip
              then Some (errorf "original destination is invalid")
              else Some (Ok (JoinHostPort (IP_String ip) (Itoa port)))
          end
      end
  end.

(** The stub of systems other than Linux. *)
Definition socketOriginalDestination_other : result bytes :=
  errorf "original destination is available only on Linux".

Definition samePort (addr : option bytes) (listenAddr : bytes) : bool :=
  match addr with
  | None => false
  | Some addr =>
      if bool_decide (listenAddr = []) then false else
      match SplitHostPort addr, SplitHostPort listenAddr with
      | Ok (_, localPort), Ok (_, listenPort) => bool_decide (localPort = listenPort)
      | _, _ => false
      end
  end.

(** [originalTarget]: [socket] is the result of [socketOriginalDestination] and
    [local] the connection's local address ([None] is nil). *)
Definition originalTarget (socket : result bytes) (local : option bytes) (listenAddr : bytes)
  : result (bytes * Addr) :=
  let finish (addr : option bytes) : result (bytes * Addr) :=
    match addr with
    | None => errorf "original destination is missing"
    | Some addr =>
        let? (host, _) := SplitHostPort addr in
        match ParseAddr host with
        | Some ip => if negb (Is4 ip) || Is4In6 ip
                     then errorf "original destination must be IPv4" else Ok (addr, ip)
        | None => errorf "original destination must be IPv4"
        end
    end in
  match socket with
  | Ok addr => finish (Some addr)
  | Err e => if samePort local listenAddr
             then Err (EWrap "read redirected original destination" e) else finish local
  end.

(** Without the kernel's answer a connection is proxied only when its local address
    is an IPv4 address on another port than the listener's, as under TPROXY. *)
Lemma other_systems_use_local_address local listenAddr target ip :
  originalTarget socketOriginalDestination_other local listenAddr = Ok (target, ip) →
  local = Some target ∧ samePort local listenAddr = false ∧ Is4 ip = true.
Proof.
  unfold originalTarget, socketOriginalDestination_other, errorf. destruct (samePort local listenAddr); [done|].
  destruct local as [addr|]; [|done]. destruct (SplitHostPort addr) as [[host port]|]; [|done].
  destruct (ParseAddr host) as [x|]; [|done]. destruct (negb (Is4 x)) eqn:E; [done|]. bools.
  destruct (Is4In6 x); [done|]. intros [= <- <-]. done.
Qed.

(** ** Routing *)

Inductive route := RouteDirect | RouteProxy.

#[export] Instance route_eq_dec : EqDecision route.
Proof. solve_decision. Defined.

(** [selectDialer]; [learned] is [None] without a learning table. *)
Definition selectDialer (classifier : Classifier) (learned : option LearningTable) (target : Addr)
    (domain : bytes) (now : time) : option LearningTable * route :=
  if negb (bool_decide (domain = [])) then
    (learned, if bool_decide (dec_action (classify_Domain classifier domain) = Direct)
              then RouteDirect else RouteProxy)
  else
    let ipDecision := classify_IP classifier target in
    let by_action := if bool_decide (dec_action ipDecision = Direct) then RouteDirect else RouteProxy in
    if bool_decide (dec_source ipDecision = SourceExplicitIP) then (learned, by_action)
    else match learned with
         | None => (None, by_action)
         | Some table =>
             let '(table, l) := Lookup table target now in
             (Some table,
              if ld_direct l && negb (ld_proxy l) then RouteDirect
              else if ld_proxy l then RouteProxy
              else by_action)
         end.

Definition dialTarget (classifier : Classifier) (domainDial : bool) (original : bytes) (ip : Addr)
    (result : Result) : bytes :=
  if negb domainDial || negb (bool_decide (r_protocol result = str "tls")) || negb (r_complete result)
     || bool_decide (r_domain result = []) || r_ech result
     || bool_decide (is_Some (ParseIP (r_domain result)))
  then original
  else if bool_decide (dec_source (classify_IP classifier ip) = SourceExplicitIP)
          || negb (bool_decide (dec_action (classify_Domain classifier (r_domain result)) = Proxy))
  then original
  else match SplitHostPort original with
       | Ok (_, port) => JoinHostPort (r_domain result) port
       | Err _ => original
       end.

(** ** The relay *)

Definition relayError (err : option error) : option error :=
  match err with
  | None => None
  | Some e =>
      if errors_Is (λ e, bool_decide (e = EEOF)) e || errors_Is (λ e, bool_decide (e = ENetClosed)) e
      then None else Some e
  end.

(** [closeWrite]: a connection with half-close support keeps its reading side. *)
Definition closeWrite (half_close : bool) : bool := negb half_close.

Record copyResult := mkCopy { copy_first : bool; copy_err : option error; copy_fullyClosed : bool }.

(** [relayFrom] on the two results in the order they are received: the one whose
    copy ended first has won the exchange of [completed]. *)
Definition relayFrom (a b : copyResult) : option error :=
  let pick (first second : copyResult) (r : copyResult) :=
    if copy_first r then (r, second) else (first, r) in
  let zero := mkCopy false None false in
  let '(first, second) := pick zero zero a in
  let '(first, second) := pick first second b in
  match relayError (copy_err first) with
  | Some e => Some e
  | None => if copy_fullyClosed first then None else relayError (copy_err second)
  end.

(** ** One connection *)

Record TCPServer := mkTCPServer {
  tcp_listen : bytes; tcp_classifier : option Classifier; tcp_has_direct : bool;
  tcp_has_proxy : bool; tcp_sniff : Limits; tcp_domain_dial : bool }.

(** How the handling of a connection ends: refused before dialling, a failed
    dial, or a relay; [reader] is what the relay replays to the other side and
    [err] the error [handle] returns.  The inbound connection is closed on every
    path, the outbound one after the relay. *)
Inductive handled :=
| Refused (err : error)
| DialFailed (way : route) (target : bytes) (err : error)
| Relayed (way : route) (target : bytes) (reader : option Reader) (err : option error).

(** [handle].  [dial] is the outcome of dialling a target a way, [copies] the
    results of the two copy loops in the order they are received; the outer
    option is a panic. *)
Definition handle (server : TCPServer) (learned : option LearningTable) (socket : result bytes)
    (local : option bytes) (ctx_err : nat → option error) (deadline_err : option error)
    (inbound : list bytes) (dial : route → bytes → option error) (copies : copyResult * copyResult)
    (now : time) : option (option LearningTable * handled) :=
  match tcp_classifier server with
  | None => Some (learned, Refused (EMsg "TCP server is not configured"))
  | Some classifier =>
      if negb (tcp_has_direct server) || negb (tcp_has_proxy server)
      then Some (learned, Refused (EMsg "TCP server is not configured")) else
      match originalTarget socket local (tcp_listen server) with
      | Err e => Some (learned, Refused e)
      | Ok (target, targetIP) =>
          p ← Peek (tcp_sniff server) ctx_err deadline_err (Some inbound);
          match p with
          | (_, Err e) => Some (learned, Refused e)
          | (reader, Ok result) =>
              let '(learned, way) :=
                selectDialer classifier learned targetIP (r_domain result) now in
              let dial_target :=
                dialTarget classifier (tcp_domain_dial server) target targetIP result in
              match dial way dial_target with
              | Some e => Some (learned, DialFailed way dial_target e)
              | None => Some (learned, Relayed way dial_target reader
                                         (relayFrom (fst copies) (snd copies)))
              end
          end
      end
  end.

(** ** The accept loop: a slot per active connection *)

Definition max_active (configured : Z) : Z := if configured <? 1 then 1024 else configured.

Record acceptState := mkAccept { acc_active : list nat; acc_closed : list nat }.

Inductive acceptEvent := Accepted (conn : nat) | HandlerDone (conn : nat).

Definition accept_step (configured : Z) (s : acceptState) (e : acceptEvent) : acceptState :=
  match e with
  | Accepted conn =>
      if Z.of_nat (length (acc_active s)) <? max_active configured
      then mkAccept (acc_active s ++ [conn]) (acc_closed s)
      else mkAccept (acc_active s) (acc_closed s ++ [conn])
  | HandlerDone conn =>
      (* the handler closes its connection and frees its slot *)
      if bool_decide (conn ∈ acc_active s)
      then mkAccept (remove_key (acc_active s) conn) (acc_closed s ++ [conn])
      else s
  end.

(** ** The destination is recovered exactly *)

Lemma IP_String_mapped a b c d : IP_String (mapped_prefix ++ [a; b; c; d]) = string4 a b c d.
Proof. done. Qed.

Lemma IsUnspecified_mapped a b c d :
  IsUnspecified (mapped_prefix ++ [a; b; c; d]) = bool_decide ([a; b; c; d] = [0; 0; 0; 0]).
Proof. done. Qed.

(** A redirected connection goes where its client wanted: for every IPv4
    destination and non-zero port in the kernel's socket address, the recovered
    target is the text of exactly that endpoint and the address used for routing
    is its address; port zero and 0.0.0.0 are refused. *)
Theorem original_destination_recovered (b0 b1 b2 b3 a b c d : Z) (rest : bytes)
    (local : option bytes) (listenAddr : bytes) :
  is_byte b2 = true → is_byte b3 = true → byte4 (Addr4 a b c d) →
  let port := b2 * 256 + b3 in
  let endpoint := addrport_String (mkAddrPort (Addr4 a b c d) port) in
  ∃ r, socketOriginalDestination true None None (Ok (b0 :: b1 :: b2 :: b3 :: a :: b :: c :: d :: rest))
       = Some r ∧
    (port ≠ 0 → Addr4 a b c d ≠ Addr4 0 0 0 0 →
     r = Ok endpoint ∧ originalTarget r local listenAddr = Ok (endpoint, Addr4 a b c d)) ∧
    (port = 0 ∨ Addr4 a b c d = Addr4 0 0 0 0 → r = errorf "original destination is invalid").
Proof.
  intros Hb2 Hb3 Hb port endpoint. rewrite is_byte_spec in Hb2, Hb3.
  assert (Hport : Z.lor (Z.shiftl b2 8) b3 = port).
  { rewrite Z.lor_comm, lor_shiftl_add by lia. unfold port. lia. }
  unfold socketOriginalDestination. cbn [negb lookup list_lookup mbind option_bind].
  rewrite Hport, IsUnspecified_mapped, IP_String_mapped.
  destruct (_ || _) eqn:E; eexists; (split; [reflexivity|]).
  - split; [|done]. intros Hp Ha. apply orb_prop in E as [E|E]; bools; [done|].
    injection E as -> -> -> ->. done.
  - apply orb_false_elim in E as [Ep Ea]. bools. split.
    + intros _ _. destruct Hb as (Ha0 & Hb0 & Hc0 & Hd0).
      rewrite JoinHostPort_plain by (apply string4_avoids; lia).
      change (string4 a b c d ++ [58] ++ Itoa port) with endpoint. split; [done|].
      unfold originalTarget, endpoint. rewrite SplitHostPort_endpoint by (simpl; lia).
      by rewrite ParseAddr_string4 by (simpl; lia).
    + intros [?|Hx]; [done|]. injection Hx as -> -> -> ->. done.
Qed.

(** ** The way out *)

(** The route the rules, the data and the observations prescribe. *)
Definition route_spec (data : Data) (rules : list RuleConfig) (observations : gmap observationKey time)
    (now : time) (target : Addr) (domain : bytes) (way : route) : Prop :=
  let seen a := ∃ dom e, observations !! mkKey dom a target = Some e ∧ now < e in
  if bool_decide (domain = []) then
    match longest_prefix_action (explicit_ip_rules rules) target with
    | Direct => way = RouteDirect
    | Proxy => way = RouteProxy
    | Unknown =>
        (seen Proxy → way = RouteProxy) ∧
        (seen Direct → ¬ seen Proxy → way = RouteDirect) ∧
        (¬ seen Direct → ¬ seen Proxy →
         way = if bool_decide (longest_prefix_action (china_ip_rules data) target = Direct)
               then RouteDirect else RouteProxy)
    end
  else way = if bool_decide (dec_action (domain_spec data rules domain) = Direct)
             then RouteDirect else RouteProxy.

Lemma china_ip_not_Proxy data a : longest_prefix_action (china_ip_rules data) a ≠ Proxy.
Proof.
  unfold longest_prefix_action. generalize 32%nat. intros n.
  assert (Hlen : ∀ n, action_of_length (china_ip_rules data) a n ≠ Proxy).
  { clear n. intros n. unfold action_of_length, china_ip_rules.
    induction (Prefixes data) as [|p ps IH] using rev_ind; [done|].
    rewrite fmap_app, foldl_app. simpl. destruct (_ && _); [|done].
    rewrite selectAction_Proxy. intros [?|?]; done. }
  induction n as [|n IH]; simpl; [specialize (Hlen 0%nat)|specialize (Hlen (S n))];
    by destruct (action_of_length _ _ _).
Qed.

(** ** The documented order *)

(** The action of the explicit rules for a name. *)
Definition name_rule (rules : list RuleConfig) (x : Action) (name : bytes) : bool :=
  match NormalizeDomain name with
  | Ok n => bool_decide (rules_action (explicit_domain_rules rules) n = x)
  | Err _ => false
  end.

Definition china_name (data : Data) (name : bytes) : bool :=
  match NormalizeDomain name with
  | Ok n => bool_decide (rules_action (china_domain_rules data) n = Direct)
  | Err _ => false
  end.

(** Explicit rules for the name or the address, proxy before direct; then the
    name of the connection; then what DNS has taught about the address, proxy
    before direct; then the China prefixes; then the proxy. *)
Definition documented_way (data : Data) (rules : list RuleConfig) (observations : gmap observationKey time)
    (now : time) (ip : Addr) (name : bytes) (way : route) : Prop :=
  let seen a := ∃ dom e, observations !! mkKey dom a ip = Some e ∧ now < e in
  if name_rule rules Proxy name || ip_covered (explicit_ip_rules rules) Proxy ip then way = RouteProxy
  else if name_rule rules Direct name || ip_covered (explicit_ip_rules rules) Direct ip then way = RouteDirect
  else if negb (bool_decide (name = [])) then way = if china_name data name then RouteDirect else RouteProxy
  else (seen Proxy → way = RouteProxy) ∧
       (seen Direct → ¬ seen Proxy → way = RouteDirect) ∧
       (¬ seen Direct → ¬ seen Proxy →
        way = if ip_covered (china_ip_rules data) Direct ip then RouteDirect else RouteProxy).

(** The explicit rules for the address do not contradict each other or, where a
    name without an explicit proxy rule is visible, the decision for the name. *)
Definition rules_agree (data : Data) (rules : list RuleConfig) (ip : Addr) (name : bytes) : Prop :=
  if bool_decide (name = []) then proxy_as_specific (explicit_ip_rules rules) ip
  else name_rule rules Proxy name = false →
       ∀ r, r ∈ explicit_ip_rules rules → Contains4 (ir_prefix r) ip = true →
            ir_action r = dec_action (domain_spec data rules name).

Lemma domain_spec_documented data rules name :
  dec_action (domain_spec data rules name) =
    if name_rule rules Proxy name then Proxy else if name_rule rules Direct name then Direct
    else if china_name data name then Direct else Proxy.
Proof.
  unfold domain_spec, name_rule, china_name. destruct (NormalizeDomain name) as [n|]; [|done].
  pose proof (china_only_direct data n).
  destruct (rules_action (explicit_domain_rules rules) n); simpl; try done.
  by destruct (rules_action (china_domain_rules data) n).
Qed.

(** Where the rules agree, the way taken is the documented one. *)
Lemma route_spec_documented data rules cl observations now ip name way :
  New data rules = Ok cl → Forall prefix4_ok (Prefixes data) → rules_agree data rules ip name →
  route_spec data rules observations now ip name way →
  documented_way data rules observations now ip name way.
Proof.
  intros Hnew Hd. apply New_spec in Hnew as [_ Hr]. unfold rules_agree, route_spec, documented_way.
  case_bool_decide as Hn; cbn [negb].
  - subst name. change (name_rule rules Proxy []) with false. change (name_rule rules Direct []) with false.
    intros Hs. rewrite longest_prefix_documented, china_longest by done. cbn [orb].
    destruct (ip_covered _ Proxy ip); [done|]. destruct (ip_covered (explicit_ip_rules rules) Direct ip); [done|].
    by destruct (ip_covered (china_ip_rules data) Direct ip).
  - intros Ha ->. rewrite domain_spec_documented in *. destruct (name_rule rules Proxy name); [done|].
    specialize (Ha eq_refl). cbn [orb].
    assert (Hcov : ∀ x, ip_covered (explicit_ip_rules rules) x ip = true →
      x = (if name_rule rules Direct name then Direct else if china_name data name then Direct else Proxy)).
    { intros x (r & H1 & H2 & <-)%ip_covered_true. auto. }
    pose proof (Hcov Proxy) as HP. pose proof (Hcov Direct) as HD.
    destruct (ip_covered _ Proxy ip), (ip_covered (explicit_ip_rules rules) Direct ip),
      (name_rule rules Direct name), (china_name data name); simpl; try done;
      solve [by specialize (HP eq_refl)|by specialize (HD eq_refl)].
Qed.

Lemma selectDialer_spec data rules cl table target domain now :
  New data rules = Ok cl → Forall prefix4_ok (Prefixes data) → byte4 target → learning_ok table →
  let '(table', way) := selectDialer cl (Some table) target domain now in
  route_spec data rules (lt_entries table) now target domain way ∧
  ∃ t, table' = Some t ∧ learning_ok t.
Proof.
  intros Hnew Hp Ht Hok. unfold selectDialer, route_spec.
  rewrite (classify_Domain_spec data rules cl domain Hnew), (classify_IP_spec data rules cl target Hnew Hp Ht).
  case_bool_decide as Hd; cbn [negb]; [|split; [done|]; eauto].
  unfold ip_spec. pose proof (china_ip_not_Proxy data target) as HC.
  destruct (longest_prefix_action (explicit_ip_rules rules) target) eqn:E.
  2,3: by split; [|eauto].
  assert (Hsrc : ∀ d, d = match longest_prefix_action (china_ip_rules data) target with
    | Unknown => mkDecision Proxy SourceDefault []
    | Direct => mkDecision Direct SourceChinaIP [] | Proxy => mkDecision Proxy SourceChinaIP [] end →
    dec_source d ≠ SourceExplicitIP ∧
    (dec_action d = Direct ↔ longest_prefix_action (china_ip_rules data) target = Direct)).
  { intros d ->. by destruct (longest_prefix_action (china_ip_rules data) target). }
  specialize (Hsrc _ eq_refl). 
  match type of Hsrc with dec_source ?x ≠ _ ∧ _ => set (d := x) in * end.
  destruct Hsrc as [Hsrc Hact]. rewrite bool_decide_false by done.
  destruct (expireLocked_spec table now Hok) as [Hok' _ Hent _ _].
  destruct (lookupLocked_spec _ target Hok') as (H1 & H2 & _). rewrite Hent in H1, H2.
  assert (Hs : ∀ a, (∃ dom, is_Some (live now (lt_entries table) !! mkKey dom a target)) ↔
    ∃ dom e, lt_entries table !! mkKey dom a target = Some e ∧ now < e).
  { intros a. unfold live. split.
    - intros (dom & e & [? ?]%map_lookup_filter_Some). eauto.
    - intros (dom & e & ? & ?). exists dom, e. by apply map_lookup_filter_Some. }
  rewrite Hs in H1, H2. unfold Lookup.
  set (l := lookupLocked _ target) in *. split; [|eauto].
  rewrite <- H1, <- H2. destruct (ld_direct l), (ld_proxy l); simpl; repeat split; try done.
  intros _ _. destruct (decide (longest_prefix_action (china_ip_rules data) target = Direct)) as [HD|HD].
  - by rewrite (bool_decide_true (dec_action d = Direct)), bool_decide_true by tauto.
  - by rewrite (bool_decide_false (dec_action d = Direct)), bool_decide_false by tauto.
Qed.

Lemma handle_spec (server : TCPServer) (table : LearningTable) (data : Data)
    (rules : list RuleConfig) (cl : Classifier) (socket : result bytes) (local : option bytes)
    (target : bytes) (ip : Addr) (inbound : list bytes) (dial : route → bytes → option error)
    (copies : copyResult * copyResult) (now : time) :
  tcp_classifier server = Some cl → tcp_has_direct server = true → tcp_has_proxy server = true →
  New data rules = Ok cl → Forall prefix4_ok (Prefixes data) → learning_ok table →
  1 ≤ lim_bytes (tcp_sniff server) → 0 < lim_timeout (tcp_sniff server) →
  originalTarget socket local (tcp_listen server) = Ok (target, ip) →
  ∃ table' way reader result st,
    let to := dialTarget cl (tcp_domain_dial server) target ip result in
    handle server (Some table) socket local (λ _, None) None inbound dial copies now =
      Some (Some table',
            match dial way to with
            | Some e => DialFailed way to e
            | None => Relayed way to (Some reader) (relayFrom (fst copies) (snd copies))
            end) ∧
    parse (take (Z.to_nat (lim_bytes (tcp_sniff server))) (mjoin inbound)) = Some (result, st) ∧
    route_spec data rules (lt_entries table) now ip (r_domain result) way ∧
    stream reader = mjoin inbound ∧ learning_ok table'.
Proof.
  intros Hcl Hd Hp Hnew Hpre Hok Hl1 Hl2 Ho. unfold handle. rewrite Hcl, Hd, Hp, Ho. cbn [negb orb].
  assert (Hb : byte4 ip).
  { unfold originalTarget in Ho. destruct socket as [a|e].
    - destruct (SplitHostPort a) as [[h p]|]; [|done]. destruct (ParseAddr h) as [x|] eqn:E; [|done].
      destruct (negb _ || _) eqn:E2; [done|]. bools. injection Ho as <- <-. by eapply ParseAddr_byte4.
    - destruct (samePort _ _); [done|]. destruct local as [a|]; [|done].
      destruct (SplitHostPort a) as [[h p]|]; [|done]. destruct (ParseAddr h) as [x|] eqn:E; [|done].
      destruct (negb _ || _) eqn:E2; [done|]. bools. injection Ho as <- <-. by eapply ParseAddr_byte4. }
  destruct (parse_total (take (Z.to_nat (lim_bytes (tcp_sniff server))) (mjoin inbound)))
    as [[res st] Hparse].
  assert (HPeek : ∃ r, Peek (tcp_sniff server) (λ _, None) None (Some inbound) = Some (Some r, Ok res) ∧
                       stream r = mjoin inbound).
  { unfold Peek. rewrite (proj2 (Z.ltb_ge _ 1)), (proj2 (Z.leb_gt _ 0)) by lia.
    destruct (peek_loop_spec (S (S (Z.to_nat (lim_bytes (tcp_sniff server))))) (lim_bytes (tcp_sniff server))
      (NewReaderSize inbound (lim_bytes (tcp_sniff server))) 1 res st) as (r & -> & Hs); try done; try lia.
    { split; [done|]. simpl. lia. }
    cbn [mbind option_bind]. eauto. }
  destruct HPeek as (reader & -> & Hstream). cbn [mbind option_bind].
  pose proof (selectDialer_spec data rules cl table ip (r_domain res) now Hnew Hpre Hb Hok) as Hsel.
  destruct (selectDialer cl (Some table) ip (r_domain res) now) as [table' way].
  destruct Hsel as (Hroute & t & -> & Hok'). exists t, way, reader, res, st. split; [|done].
  cbn zeta. by destruct (dial way _).
Qed.

(** A connection whose destination is known is handled without a panic: it is
    dialled the way the policy prescribes for its address and sniffed name, and
    the relay replays every byte the client sent while it was sniffed; the
    learning table stays consistent. *)
Theorem handle_routes_by_policy (server : TCPServer) (table : LearningTable) (data : Data)
    (rules : list RuleConfig) (cl : Classifier) (socket : result bytes) (local : option bytes)
    (target : bytes) (ip : Addr) (inbound : list bytes) (dial : route → bytes → option error)
    (copies : copyResult * copyResult) (now : time) :
  tcp_classifier server = Some cl → tcp_has_direct server = true → tcp_has_proxy server = true →
  New data rules = Ok cl → Forall prefix4_ok (Prefixes data) → learning_ok table →
  1 ≤ lim_bytes (tcp_sniff server) → 0 < lim_timeout (tcp_sniff server) →
  originalTarget socket local (tcp_listen server) = Ok (target, ip) →
  ∃ table' way reader result st,
    let to := dialTarget cl (tcp_domain_dial server) target ip result in
    handle server (Some table) socket local (λ _, None) None inbound dial copies now =
      Some (Some table',
            match dial way to with
            | Some e => DialFailed way to e
            | None => Relayed way to (Some reader) (relayFrom (fst copies) (snd copies))
            end) ∧
    parse (take (Z.to_nat (lim_bytes (tcp_sniff server))) (mjoin inbound)) = Some (result, st) ∧
    route_spec data rules (lt_entries table) now ip (r_domain result) way ∧
    stream reader = mjoin inbound ∧ learning_ok table'.
Proof. apply handle_spec. Qed.

(** The dialled target is the original one, or, with domain dialling, the
    sniffed server name with the original port; the latter only for a complete
    TLS hello without ECH whose name is proxied by the rules, is not an address,
    and whose destination no explicit IP rule covers. *)
Theorem dialTarget_is_original_or_sni (cl : Classifier) (domainDial : bool) (ip : Addr)
    (result : Result) (a b c d port : Z) :
  byte4 (Addr4 a b c d) → 0 ≤ port → (r_domain result = [] ∨ normalized (r_domain result)) →
  let original := addrport_String (mkAddrPort (Addr4 a b c d) port) in
  let dial := dialTarget cl domainDial original ip result in
  dial = original ∨
  dial = r_domain result ++ [58] ++ Itoa port ∧ domainDial = true ∧
  r_protocol result = str "tls" ∧ r_complete result = true ∧ r_ech result = false ∧
  normalized (r_domain result) ∧ ParseIP (r_domain result) = None ∧
  dec_source (classify_IP cl ip) ≠ SourceExplicitIP ∧
  dec_action (classify_Domain cl (r_domain result)) = Proxy.
Proof.
  intros Hb Hp Hdom original dial. unfold dial, dialTarget, original.
  destruct (_ || _ || _ || _ || _ || _) eqn:E; [by left|].
  match goal with |- (if ?b then _ else _) = _ ∨ _ => destruct b eqn:E2; [by left|] end. rewrite SplitHostPort_endpoint by done. right.
  bools. destruct Hdom as [?|Hn]; [done|].
  assert (ParseIP (r_domain result) = None) by (by apply eq_None_not_Some).
  split; [|repeat match goal with |- _ ∧ _ => split end; try done].
  apply JoinHostPort_plain. by apply normalized_avoids.
Qed.

(** ** The relay and the accept loop *)

(** Of two copies exactly one has ended first; the order their results are
    received in does not matter. *)
Lemma relayFrom_order_independent (a b : copyResult) :
  copy_first a = negb (copy_first b) → relayFrom a b = relayFrom b a.
Proof. destruct a as [[] ? ?], b as [[] ? ?]; done. Qed.

(** What a relay reports: the failure of the copy that ended first; after its
    clean end, the failure of the other copy, but only when that copy was not
    stopped by the relay's own closing of a connection without half-close. *)
Lemma relayFrom_reports (a b : copyResult) :
  copy_first a = true → copy_first b = false →
  relayFrom a b = match relayError (copy_err a) with
                  | Some e => Some e
                  | None => if copy_fullyClosed a then None else relayError (copy_err b)
                  end.
Proof. by destruct a as [[] ? ?], b as [[] ? ?]. Qed.

Record accept_ok (configured : Z) (accepted : list nat) (s : acceptState) : Prop := {
  acc_bound : Z.of_nat (length (acc_active s)) ≤ max_active configured;
  acc_nodup : NoDup (acc_active s);
  acc_all : accepted ≡ₚ acc_closed s ++ acc_active s }.

Lemma max_active_pos configured : 1 ≤ max_active configured.
Proof. unfold max_active. destruct (configured <? 1) eqn:E; bools; lia. Qed.

Lemma accept_step_ok configured accepted s e :
  accept_ok configured accepted s →
  (∀ c, e = Accepted c → c ∉ accepted) →
  accept_ok configured (match e with Accepted c => accepted ++ [c] | HandlerDone _ => accepted end)
    (accept_step configured s e).
Proof.
  intros [H1 H2 H3] Hfresh. destruct e as [c|c]; simpl.
  - specialize (Hfresh c eq_refl). rewrite H3 in Hfresh. apply not_elem_of_app in Hfresh as [_ Hc].
    destruct (_ <? _) eqn:E; bools; split; simpl.
    + rewrite length_app. simpl. lia.
    + apply list.NoDup_app. repeat split; [done| |by apply NoDup_singleton].
      intros x Hx ->%list_elem_of_singleton. done.
    + by rewrite H3, <- app_assoc.
    + done.
    + done.
    + rewrite H3, <- !app_assoc. f_equiv. apply Permutation_app_comm.
  - case_bool_decide as Hc; [|by split]. split; simpl.
    + etransitivity; [|exact H1]. apply Nat2Z.inj_le. unfold remove_key. apply length_filter.
    + by apply NoDup_remove_key.
    + rewrite H3, <- app_assoc. f_equiv. by apply remove_key_perm.
Qed.

(** The states the accept loop reaches; every connection is a new one. *)
Inductive accept_reachable (configured : Z) : list nat → acceptState → Prop :=
| accept_start : accept_reachable configured [] (mkAccept [] [])
| accept_next accepted s e :
    accept_reachable configured accepted s → (∀ c, e = Accepted c → c ∉ accepted) →
    accept_reachable configured
      (match e with Accepted c => accepted ++ [c] | HandlerDone _ => accepted end)
      (accept_step configured s e).

(** At no time are more than [MaxActive] connections (1024 when unset)
    handled, and every accepted connection is either being handled or closed,
    never both and never lost. *)
Theorem accept_loop_bounded (configured : Z) (accepted : list nat) (s : acceptState) :
  accept_reachable configured accepted s →
  Z.of_nat (length (acc_active s)) ≤ max_active configured ∧
  accepted ≡ₚ acc_closed s ++ acc_active s.
Proof.
  intros Hr. enough (accept_ok configured accepted s) as [? _ ?] by done.
  induction Hr as [|accepted s e _ IH Hf]; [|by apply accept_step_ok].
  split; simpl; [pose proof (max_active_pos configured); lia|apply NoDup_nil_2|done].
Qed.

(** ** Witnesses *)

Lemma original_destination_recovered_witness :
  ∃ r, socketOriginalDestination true None None (Ok [2; 0; 1; 187; 8; 8; 4; 4]) = Some r ∧
       originalTarget r None (str "127.0.0.1:12345") = Ok (str "8.8.4.4:443", Addr4 8 8 4 4).
Proof.
  destruct (original_destination_recovered 2 0 1 187 8 8 4 4 [] None (str "127.0.0.1:12345"))
    as (r & H1 & H2 & _); [reflexivity|reflexivity|simpl; lia|].
  exists r. split; [exact H1|]. destruct H2 as [_ H2]; [discriminate|discriminate|]. exact H2.
Defined.

Definition sample_server : TCPServer :=
  mkTCPServer (str "127.0.0.1:12345") (Some sample_classifier) true true (mkLim 512 Second) true.

Definition sample_copies : copyResult * copyResult :=
  (mkCopy true (Some EEOF) false, mkCopy false None false).

Lemma handle_routes_by_policy_witness :
  ∃ table' reader,
    handle sample_server (Some sample_table) (Ok (str "9.9.9.9:80")) None (λ _, None) None
      [[0; 1]; [2]] (λ _ _, None) sample_copies 99 =
      Some (Some table', Relayed RouteDirect (str "9.9.9.9:80") (Some reader) None) ∧
    stream reader = [0; 1; 2].
Proof.
  destruct (handle_routes_by_policy sample_server sample_table sample_data sample_rules
    sample_classifier (Ok (str "9.9.9.9:80")) None (str "9.9.9.9:80") (Addr4 9 9 9 9)
    [[0; 1]; [2]] (λ _ _, None) sample_copies 99)
    as (table' & way & reader & res & st & H1 & H2 & H3 & H4 & _); try reflexivity.
  - exact sample_prefixes_ok.
  - exact sample_table_ok.
  - simpl. lia.
  - exists table', reader. split; [|exact H4]. vm_compute in H2. injection H2 as <- <-.
    enough (way = RouteDirect) as -> by exact H1.
    assert (E : longest_prefix_action (explicit_ip_rules sample_rules) (Addr4 9 9 9 9) = Unknown)
      by (vm_compute; reflexivity).
    unfold route_spec in H3. rewrite bool_decide_true, E in H3 by reflexivity.
    apply (proj1 (proj2 H3)); [exists (str "example.cn"), 100; split; [vm_compute; reflexivity|lia]|].
    intros (dom & e & He & _).
    assert (Hn : Forall (λ x, key_action x.1 ≠ Proxy) (map_to_list (lt_entries sample_table)))
      by (vm_compute; repeat constructor; discriminate).
    apply elem_of_map_to_list in He. rewrite list.Forall_forall in Hn. by apply (Hn _ He).
Defined.

Lemma dialTarget_is_original_or_sni_witness :
  dialTarget sample_classifier true (str "9.9.9.9:443") (Addr4 9 9 9 9)
    (mkResult (str "video.example.cn") (str "tls") true false) = str "video.example.cn:443".
Proof.
  destruct (dialTarget_is_original_or_sni sample_classifier true (Addr4 9 9 9 9)
    (mkResult (str "video.example.cn") (str "tls") true false) 9 9 9 9 443) as [H|[H _]].
  - simpl. lia.
  - lia.
  - right. apply (NormalizeDomain_Ok (str "video.example.cn")). vm_compute. reflexivity.
  - exfalso. vm_compute in H. discriminate.
  - etransitivity; [exact H|]. vm_compute. reflexivity.
Defined.

Lemma accept_loop_bounded_witness :
  ∃ s, accept_reachable 1 [7; 8]%nat s ∧ Z.of_nat (length (acc_active s)) ≤ 1.
Proof.
  eexists. assert (Hr : accept_reachable 1 [7; 8]%nat
    (accept_step 1 (accept_step 1 (mkAccept [] []) (Accepted 7%nat)) (Accepted 8%nat))).
  - apply (accept_next 1 [7]%nat _ (Accepted 8%nat)).
    + apply (accept_next 1 [] _ (Accepted 7%nat)); [apply accept_start|].
      intros c _. apply not_elem_of_nil.
    + intros c [= <-] Hc. apply list_elem_of_singleton in Hc. discriminate.
  - split; [exact Hr|]. exact (proj1 (accept_loop_bounded 1 _ _ Hr)).
Defined.

(** A sniffed name decides alone: the address has an explicit proxy rule and the
    connection still leaves directly. *)
Example sniffed_name_overrides_ip_rule :
  classify_IP sample_classifier (Addr4 8 8 8 8) = mkDecision Proxy SourceExplicitIP [] ∧
  snd (selectDialer sample_classifier None (Addr4 8 8 8 8) (str "www.example.cn") 0) = RouteDirect.
Proof. split; vm_compute; reflexivity. Qed.
