(* ===== verification/Relay.v ===== *)
(** * The relay of a connection: [relayFrom] of [internal/dataplane/tcp.go]

    The two copying goroutines of a relay as interleaved steps.  Each reads from
    its source, writes to its destination, wins or loses the exchange of
    [completed], closes the writing side of its destination and sends its result;
    the peers send, end, break and take bytes at any moment.  [io.CopyBuffer] moves
    any positive number of bytes at a time, as its variants ([WriteTo],
    [ReadFrom], the plain loop) do. *)

From stdpp Require Import functions.
From S2P Require Import Prelude GoStrings GoNet Domains IPv4Tree Classifier Learning SniffParse SniffPeek Tcp.

(** ** State *)

(** The two copies, and the two connections. *)
Inductive copy := Up | Down.
Inductive side := Inbound | Outbound.
#[export] Instance copy_eq_dec : EqDecision copy.
Proof. solve_decision. Defined.
#[export] Instance side_eq_dec : EqDecision side.
Proof. solve_decision. Defined.

Definition source (c : copy) : side := match c with Up => Inbound | Down => Outbound end.
Definition dest (c : copy) : side := match c with Up => Outbound | Down => Inbound end.
Definition other (c : copy) : copy := match c with Up => Down | Down => Up end.

(** A connection: what has arrived and is not read, how the peer ended its side
    (a clean end or an error), what was written, the error writing now meets, how
    many more bytes the peer takes, whether the type has [CloseWrite], and what
    was closed here.  [k_sent] is everything the peer ever sent. *)
Record link := mkLink {
  k_in : bytes; k_end : option (option error); k_out : bytes; k_broken : option error; k_room : nat;
  k_half : bool; k_wclosed : bool; k_closed : bool; k_sent : bytes }.

(** A copying goroutine: copying, with bytes read and not yet written; returned from
    [io.CopyBuffer]; past the exchange; result sent. *)
Inductive phase :=
| Copying (pending : bytes)
| Ended (err : option error)
| Marked (first : bool) (err : option error)
| Sent (r : copyResult).

(** [r_replay] is what the buffered reader already holds, [r_results] the channel,
    [r_faults] every error a peer's connection ever showed. *)
Record relayState := mkRelayState {
  r_replay : bytes; r_link : side → link; r_phase : copy → phase; r_completed : bool;
  r_results : list copyResult; r_faults : list error }.

Definition set_link (s : relayState) (x : side) (k : link) : relayState :=
  mkRelayState (r_replay s) (<[x := k]> (r_link s)) (r_phase s) (r_completed s) (r_results s) (r_faults s).
Definition set_phase (s : relayState) (c : copy) (p : phase) : relayState :=
  mkRelayState (r_replay s) (r_link s) (<[c := p]> (r_phase s)) (r_completed s) (r_results s) (r_faults s).
Definition add_fault (s : relayState) (e : option error) : relayState :=
  mkRelayState (r_replay s) (r_link s) (r_phase s) (r_completed s) (r_results s)
    (match e with Some e => e :: r_faults s | None => r_faults s end).

(** ** Steps *)

Inductive relayEvent :=
| PeerSends (x : side) (data : bytes)
| PeerEnds (x : side) (err : option error)
| PeerBreaks (x : side) (err : error)
| PeerTakes (x : side) (n : nat)
| CopyRead (c : copy) (n : nat) (gone : error)
| CopyWrite (c : copy) (n : nat) (gone : error)
| Exchange (c : copy)
| Finish (c : copy).

Definition local (e : relayEvent) : bool :=
  match e with CopyRead _ _ _ | CopyWrite _ _ _ | Exchange _ | Finish _ => true | _ => false end.

(** What a peer does to its connection. *)
Definition peer_send (k : link) (data : bytes) : link :=
  mkLink (k_in k ++ data) (k_end k) (k_out k) (k_broken k) (k_room k) (k_half k) (k_wclosed k) (k_closed k)
    (k_sent k ++ data).
Definition peer_end (k : link) (err : option error) : link :=
  mkLink (k_in k) (Some err) (k_out k) (k_broken k) (k_room k) (k_half k) (k_wclosed k) (k_closed k) (k_sent k).
Definition peer_break (k : link) (err : error) : link :=
  mkLink (k_in k) (k_end k) (k_out k) (Some err) (k_room k) (k_half k) (k_wclosed k) (k_closed k) (k_sent k).
Definition peer_take (k : link) (n : nat) : link :=
  mkLink (k_in k) (k_end k) (k_out k) (k_broken k) (k_room k + n) (k_half k) (k_wclosed k) (k_closed k) (k_sent k).

Definition consume (k : link) (n : nat) : link :=
  mkLink (drop n (k_in k)) (k_end k) (k_out k) (k_broken k) (k_room k) (k_half k) (k_wclosed k) (k_closed k) (k_sent k).
Definition produce (k : link) (data : bytes) : link :=
  mkLink (k_in k) (k_end k) (k_out k ++ data) (k_broken k) (k_room k - length data) (k_half k) (k_wclosed k)
    (k_closed k) (k_sent k).

(** One read of at most [n] bytes: the buffered reader's own bytes first (for the
    copy that replays), then the connection's; [None] is a read that waits.  A
    connection that was closed here fails with an error of its own, [gone]. *)
Definition copy_read (s : relayState) (c : copy) (n : nat) (gone : error) : option relayState :=
  let k := r_link s (source c) in
  if bool_decide (c = Up ∧ r_replay s ≠ []) then
    Some (mkRelayState (drop n (r_replay s)) (r_link s) (<[Up := Copying (take n (r_replay s))]> (r_phase s))
            (r_completed s) (r_results s) (r_faults s))
  else if k_closed k then Some (set_phase s c (Ended (Some gone)))
  else if bool_decide (k_in k ≠ []) then
    Some (set_phase (set_link s (source c) (consume k n)) c (Copying (take n (k_in k))))
  else match k_end k with
       | None => None
       | Some err => Some (set_phase s c (Ended err))
       end.

(** One write of at most [n] of the pending bytes; [None] is a write that waits. *)
Definition copy_write (s : relayState) (c : copy) (pending : bytes) (n : nat) (gone : error)
  : option relayState :=
  let k := r_link s (dest c) in
  if k_closed k || k_wclosed k then Some (set_phase s c (Ended (Some gone)))
  else match k_broken k with
       | Some e => Some (set_phase s c (Ended (Some e)))
       | None =>
           if (n <=? k_room k)%nat
           then Some (set_phase (set_link s (dest c) (produce k (take n pending))) c (Copying (drop n pending)))
           else None
       end.

(** [closeWrite] on the destination. *)
Definition close_link (k : link) : link :=
  if closeWrite (k_half k)
  then mkLink (k_in k) (k_end k) (k_out k) (k_broken k) (k_room k) (k_half k) (k_wclosed k) true (k_sent k)
  else mkLink (k_in k) (k_end k) (k_out k) (k_broken k) (k_room k) (k_half k) true (k_closed k) (k_sent k).

Definition relay_step (s : relayState) (e : relayEvent) : option relayState :=
  match e with
  | PeerSends x data =>
      let k := r_link s x in
      match k_end k with Some _ => None | None => Some (set_link s x (peer_send k data)) end
  | PeerEnds x err =>
      let k := r_link s x in
      match k_end k with Some _ => None | None => Some (add_fault (set_link s x (peer_end k err)) err) end
  | PeerBreaks x err => Some (add_fault (set_link s x (peer_break (r_link s x) err)) (Some err))
  | PeerTakes x n => Some (set_link s x (peer_take (r_link s x) n))
  | CopyRead c n gone =>
      match r_phase s c with
      | Copying [] => if (n =? 0)%nat then None else copy_read s c n gone
      | _ => None
      end
  | CopyWrite c n gone =>
      match r_phase s c with
      | Copying (b :: p) => if (n =? 0)%nat then None else copy_write s c (b :: p) n gone
      | _ => None
      end
  | Exchange c =>
      match r_phase s c with
      | Ended err =>
          Some (mkRelayState (r_replay s) (r_link s) (<[c := Marked (negb (r_completed s)) err]> (r_phase s)) true
                  (r_results s) (r_faults s))
      | _ => None
      end
  | Finish c =>
      match r_phase s c with
      | Marked first err =>
          let k := r_link s (dest c) in
          let r := mkCopy first err (closeWrite (k_half k)) in
          Some (mkRelayState (r_replay s) (<[dest c := close_link k]> (r_link s)) (<[c := Sent r]> (r_phase s))
                  (r_completed s) (r_results s ++ [r]) (r_faults s))
      | _ => None
      end
  end.

(** [relayFrom] returns once it has received both results. *)
Definition relay_outcome (s : relayState) : option (option error) :=
  match r_results s with
  | [a; b] => Some (relayFrom a b)
  | _ => None
  end.

(** A relay starts with two open connections and what the sniffing reader holds;
    [relay] starts with an empty reader. *)
Definition open_link (arrived : bytes) (half : bool) (room : nat) : link :=
  mkLink arrived None [] None room half false false arrived.
Definition relay_start (replay : bytes) (inbound outbound : link) : relayState :=
  mkRelayState replay (λ x, match x with Inbound => inbound | Outbound => outbound end)
    (λ _, Copying []) false [] [].
Definition relay (inbound outbound : link) : relayState := relay_start [] inbound outbound.

(** Runs and reachable states. *)
Fixpoint run_relay (s : relayState) (es : list relayEvent) : option relayState :=
  match es with
  | [] => Some s
  | e :: es => s ← relay_step s e; run_relay s es
  end.

Inductive relay_reachable (s0 : relayState) : relayState → Prop :=
| relay_begin : relay_reachable s0 s0
| relay_next s e s' : relay_reachable s0 s → relay_step s e = Some s' → relay_reachable s0 s'.

(** ** Invariant *)

(** What the copy is to deliver, and what of it is still to be read. *)
Definition to_deliver (replay : bytes) (s : relayState) (c : copy) : bytes :=
  (match c with Up => replay | Down => [] end) ++ k_sent (r_link s (source c)).
Definition unread (s : relayState) (c : copy) : bytes :=
  (match c with Up => r_replay s | Down => [] end) ++ k_in (r_link s (source c)).
Definition delivered (s : relayState) (c : copy) : bytes := k_out (r_link s (dest c)).

(** The error a copy ended with; whether it won the exchange. *)
Definition ended (p : phase) : option (option error) :=
  match p with
  | Copying _ => None
  | Ended err | Marked _ err => Some err
  | Sent r => Some (copy_err r)
  end.
Definition winner (p : phase) : option bool :=
  match p with
  | Copying _ | Ended _ => None
  | Marked first _ => Some first
  | Sent r => Some (copy_first r)
  end.
Definition sent (p : phase) : list copyResult := match p with Sent r => [r] | _ => [] end.

Record copy_ok (replay : bytes) (s : relayState) (c : copy) : Prop := {
  copy_prefix : ∃ rest, to_deliver replay s c = delivered s c ++ rest ++ unread s c ∧
    match r_phase s c with Copying p => rest = p | _ => True end;
  copy_clean : ended (r_phase s c) = Some None →
    delivered s c = to_deliver replay s c ∧ k_end (r_link s (source c)) = Some None;
  copy_fault : ∀ e, ended (r_phase s c) = Some (Some e) → e ∈ r_faults s ∨
    k_closed (r_link s (source c)) = true ∧ winner (r_phase s c) ≠ Some true;
  copy_closed : k_closed (r_link s (dest c)) = true ↔ ∃ r, r_phase s c = Sent r ∧ copy_fullyClosed r = true;
  copy_wclosed : k_wclosed (r_link s (dest c)) = true → ∃ r, r_phase s c = Sent r;
  copy_link : (∀ e, k_end (r_link s (dest c)) = Some (Some e) → e ∈ r_faults s) ∧
              (∀ e, k_broken (r_link s (dest c)) = Some e → e ∈ r_faults s) }.

Record copies_ok (replay : bytes) (s : relayState) : Prop := {
  ok_copy : ∀ c, copy_ok replay s c;
  ok_completed : r_completed s = false ↔ ∀ c, winner (r_phase s c) = None;
  ok_winner : ∀ c, winner (r_phase s c) = Some true → winner (r_phase s (other c)) ≠ Some true;
  ok_loser : ∀ c, winner (r_phase s c) = Some false → winner (r_phase s (other c)) = Some true;
  ok_results : r_results s ≡ₚ sent (r_phase s Up) ++ sent (r_phase s Down) }.

Lemma other_source c : source (other c) = dest c.
Proof. by destruct c. Qed.
Lemma other_dest c : dest (other c) = source c.
Proof. by destruct c. Qed.
Lemma source_ne_dest c : source c ≠ dest c.
Proof. by destruct c. Qed.
Lemma copy_cases (c c' : copy) : c' = c ∨ c' = other c.
Proof. destruct c, c'; auto. Qed.
Lemma other_ne c : c ≠ other c.
Proof. by destruct c. Qed.
Lemma other_other c : other (other c) = c.
Proof. by destruct c. Qed.

Create HintDb relay.
#[local] Hint Resolve source_ne_dest other_ne : relay.

Lemma relay_start_ok replay inbound outbound inroom outroom inhalf outhalf :
  copies_ok replay (relay_start replay (open_link inbound inhalf inroom) (open_link outbound outhalf outroom)).
Proof.
  split; try done. intros c. split; try done.
  - exists []. destruct c; by split.
  - destruct c; (split; [done|by intros (r & ? & ?)]).
  - by destruct c.
  - by destruct c.
Qed.

(** *** Peers *)

Lemma link_step_ok replay s x k' faults' :
  copies_ok replay s → k_out k' = k_out (r_link s x) → k_closed k' = k_closed (r_link s x) →
  k_wclosed k' = k_wclosed (r_link s x) →
  (∃ data, k_sent k' = k_sent (r_link s x) ++ data ∧ k_in k' = k_in (r_link s x) ++ data ∧
           (k_end (r_link s x) ≠ None → data = [] ∧ k_end k' = k_end (r_link s x))) →
  r_faults s ⊆ faults' → (∀ e, k_end k' = Some (Some e) → e ∈ faults') → (∀ e, k_broken k' = Some e → e ∈ faults') →
  copies_ok replay (mkRelayState (r_replay s) (<[x := k']> (r_link s)) (r_phase s) (r_completed s) (r_results s) faults').
Proof.
  intros [Hc H1 H2 H3 H4] Ho Hcl Hwcl (data & Hs & Hi & Hd) Hf He Hb. split; try done. intros c.
  destruct (Hc c) as [(rest & Hp & Hm) Hclean Hfault Hclosed Hwc [Hend Hbroken]].
  unfold to_deliver, unread, delivered in *. split; unfold to_deliver, unread, delivered; simpl.
  - destruct (decide (x = source c)) as [->|Hsrc].
    + rewrite fn_lookup_insert, fn_lookup_insert_ne by auto with relay.
      exists rest. split; [|done]. rewrite Hs, Hi, app_assoc, Hp. by rewrite <-!app_assoc.
    + rewrite (fn_lookup_insert_ne _ x (source c)) by done. exists rest. split; [|done].
      destruct (decide (x = dest c)) as [->|]; [by rewrite fn_lookup_insert, Ho|by rewrite fn_lookup_insert_ne].
  - intros E. destruct (Hclean E) as [Hout Hend0].
    destruct (decide (x = source c)) as [->|Hsrc].
    + rewrite fn_lookup_insert, fn_lookup_insert_ne by auto with relay.
      destruct Hd as [-> Hke]; [by rewrite Hend0|]. rewrite Hs, app_nil_r, Hke. by split.
    + rewrite (fn_lookup_insert_ne _ x (source c)) by done. split; [|done].
      destruct (decide (x = dest c)) as [->|]; [by rewrite fn_lookup_insert, Ho|by rewrite fn_lookup_insert_ne].
  - intros e E. destruct (Hfault e E) as [|[Hx ?]]; [auto|]. right. split; [|done].
    destruct (decide (x = source c)) as [->|]; [by rewrite fn_lookup_insert, Hcl|by rewrite fn_lookup_insert_ne].
  - destruct (decide (x = dest c)) as [->|]; [by rewrite fn_lookup_insert, Hcl|by rewrite fn_lookup_insert_ne].
  - destruct (decide (x = dest c)) as [->|]; [by rewrite fn_lookup_insert, Hwcl|by rewrite fn_lookup_insert_ne].
  - destruct (decide (x = dest c)) as [->|].
    + rewrite fn_lookup_insert. by split.
    + rewrite fn_lookup_insert_ne by done. split; intros e E; auto.
Qed.

(** *** Copies *)

(** A copy whose own parts a step leaves alone. *)
Lemma copy_frame replay s s' c :
  copy_ok replay s c → r_phase s' c = r_phase s c → r_faults s' = r_faults s → unread s' c = unread s c →
  k_sent (r_link s' (source c)) = k_sent (r_link s (source c)) →
  k_end (r_link s' (source c)) = k_end (r_link s (source c)) →
  (k_closed (r_link s (source c)) = true → k_closed (r_link s' (source c)) = true) →
  k_out (r_link s' (dest c)) = k_out (r_link s (dest c)) →
  k_closed (r_link s' (dest c)) = k_closed (r_link s (dest c)) →
  k_wclosed (r_link s' (dest c)) = k_wclosed (r_link s (dest c)) →
  k_end (r_link s' (dest c)) = k_end (r_link s (dest c)) →
  k_broken (r_link s' (dest c)) = k_broken (r_link s (dest c)) →
  copy_ok replay s' c.
Proof.
  intros [H1 H2 H3 H4 H5 H6] Ep Ef Eu Es Ee Esc Eo Ec Ew Ee2 Eb.
  split; unfold to_deliver, delivered in *; rewrite ?Ep, ?Ef, ?Eu, ?Es, ?Ee, ?Eo, ?Ec, ?Ew, ?Ee2, ?Eb; try done.
  intros e E. destruct (H3 e E) as [|[? ?]]; auto.
Qed.

(** A step of one copy that neither takes part in the exchange nor sends. *)
Lemma relay_ok_copy replay s s' c :
  copies_ok replay s → r_phase s' (other c) = r_phase s (other c) →
  winner (r_phase s' c) = winner (r_phase s c) → sent (r_phase s' c) = sent (r_phase s c) →
  r_completed s' = r_completed s → r_results s' = r_results s →
  copy_ok replay s' c → copy_ok replay s' (other c) → copies_ok replay s'.
Proof.
  intros [Hc H1 H2 H3 H4] Ep Ew Es Ecm Er H5 H6.
  assert (Hw : ∀ x, winner (r_phase s' x) = winner (r_phase s x))
    by (intros x; destruct (copy_cases c x) as [->| ->]; [done|by rewrite Ep]).
  assert (Hs : ∀ x, sent (r_phase s' x) = sent (r_phase s x))
    by (intros x; destruct (copy_cases c x) as [->| ->]; [done|by rewrite Ep]).
  split.
  - intros x. by destruct (copy_cases c x) as [->| ->].
  - rewrite Ecm, H1. by setoid_rewrite Hw.
  - intros x. rewrite !Hw. apply H2.
  - intros x. rewrite !Hw. apply H3.
  - by rewrite Er, !Hs.
Qed.

Lemma end_copy_ok replay s c p err :
  copies_ok replay s → r_phase s c = Copying p →
  (err = None → p = [] ∧ unread s c = [] ∧ k_end (r_link s (source c)) = Some None) →
  (∀ e, err = Some e → e ∈ r_faults s ∨ k_closed (r_link s (source c)) = true) →
  copies_ok replay (set_phase s c (Ended err)).
Proof.
  intros Hok Hp Hnone Hsome. pose proof (ok_copy _ _ Hok c) as [(rest & Hd & Hr) Hclean Hfault Hclosed Hwc Hlink].
  rewrite Hp in *. subst rest. apply (relay_ok_copy replay s _ c); try done; simpl;
    rewrite ?fn_lookup_insert, ?fn_lookup_insert_ne by auto with relay; try done; [by rewrite Hp..| |].
  - split; simpl; rewrite ?fn_lookup_insert; try done.
    + exists p. split; [exact Hd|done].
    + intros [= ->]. destruct (Hnone eq_refl) as (-> & Hu & He). split; [|done].
      rewrite Hu in Hd. change (unread (set_phase s c (Ended None)) c) with (unread s c) in *.
      simpl in Hd. rewrite app_nil_r in Hd. symmetry. exact Hd.
    + intros e [= ->]. destruct (Hsome e eq_refl); auto.
    + rewrite Hclosed. split; by intros (r & ? & ?).
    + intros Hx. by destruct (Hwc Hx).
  - apply (copy_frame replay s); try done; [apply (ok_copy _ _ Hok)|]. simpl. by rewrite fn_lookup_insert_ne by auto with relay.
Qed.

Lemma read_copy_ok replay s s' c n gone :
  copies_ok replay s → r_phase s c = Copying [] → copy_read s c n gone = Some s' → copies_ok replay s'.
Proof.
  intros Hok Hp. pose proof (ok_copy _ _ Hok c) as [(rest & Hd & Hr) Hclean Hfault Hclosed Hwc Hlink].
  pose proof (ok_copy _ _ Hok (other c)) as Hother.
  rewrite Hp in *. subst rest. unfold copy_read. cbv zeta. case_bool_decide as Hrep.
  - destruct Hrep as [-> Hrep]. intros [= <-]. apply (relay_ok_copy replay s _ Up); try done; simpl;
      rewrite ?fn_lookup_insert, ?Hp; try done.
    + split; simpl; rewrite ?fn_lookup_insert; try done.
      * exists (take n (r_replay s)). split; [|done]. unfold to_deliver, delivered, unread in *. simpl in *.
        rewrite Hd. rewrite (app_assoc (take n _)), take_drop. done.
      * rewrite Hclosed. split; by intros (r & ? & ?).
      * intros Hx. by destruct (Hwc Hx).
    + by apply (copy_frame replay s).
  - destruct (k_closed (r_link s (source c))) eqn:Ecl.
    { intros [= <-]. apply (end_copy_ok _ _ _ []); try done. intros e _. by right. }
    case_bool_decide as Hin.
    + intros [= <-]. apply (relay_ok_copy replay s _ c); try done; simpl;
        rewrite ?fn_lookup_insert, ?fn_lookup_insert_ne by auto with relay; try done; [by rewrite Hp..| |].
      * assert (Hun : unread s c = k_in (r_link s (source c))).
        { unfold unread. destruct c; [|done]. destruct (r_replay s) eqn:E; [done|]. by destruct Hrep. }
        assert (Hnew : unread (set_phase (set_link s (source c) (consume (r_link s (source c)) n)) c
                          (Copying (take n (k_in (r_link s (source c)))))) c = drop n (k_in (r_link s (source c)))).
        { unfold unread. simpl. rewrite fn_lookup_insert. simpl.
          destruct c; [|done]. destruct (r_replay s) eqn:E; [done|]. by destruct Hrep. }
        split; simpl; rewrite ?fn_lookup_insert; try done.
        -- exists (take n (k_in (r_link s (source c)))). split; [|done]. rewrite Hnew, take_drop.
           unfold to_deliver, delivered in *. simpl. rewrite fn_lookup_insert, fn_lookup_insert_ne by auto with relay.
           simpl. by rewrite Hd, Hun.
        -- rewrite fn_lookup_insert_ne by auto with relay. rewrite Hclosed. split; by intros (r & ? & ?).
        -- rewrite fn_lookup_insert_ne by auto with relay. intros Hx. by destruct (Hwc Hx).
        -- by rewrite fn_lookup_insert_ne by auto with relay.
      * apply (copy_frame replay s); simpl; rewrite ?other_source, ?other_dest, ?fn_lookup_insert,
          ?fn_lookup_insert_ne by auto with relay; try done.
        unfold unread. simpl. rewrite other_source, fn_lookup_insert_ne by auto with relay. done.
    + destruct (k_end (r_link s (source c))) as [err|] eqn:Ee; [|done]. intros [= <-].
      apply (end_copy_ok _ _ _ []); try done.
      * intros ->. split; [done|]. split; [|done]. unfold unread. rewrite Hin.
        destruct c; [|done]. destruct (r_replay s) eqn:E; [done|]. by destruct Hrep.
      * intros e ->. left. destruct (copy_link _ _ _ Hother) as [He _]. apply He. by rewrite other_dest.
Qed.

Lemma write_copy_ok replay s s' c p n gone :
  copies_ok replay s → r_phase s c = Copying p → copy_write s c p n gone = Some s' → p ≠ [] → copies_ok replay s'.
Proof.
  intros Hok Hp. pose proof (ok_copy _ _ Hok c) as [(rest & Hd & Hr) Hclean Hfault Hclosed Hwc [Hend Hbroken]].
  pose proof (ok_copy _ _ Hok (other c)) as Hother.
  rewrite Hp in *. subst rest. unfold copy_write. cbv zeta. intros Hw Hne. destruct (k_closed (r_link s (dest c))) eqn:Ecl.
  { destruct (proj1 Hclosed eq_refl) as (r & ? & _). congruence. }
  cbn [orb] in Hw. destruct (k_wclosed (r_link s (dest c))) eqn:Ew; [by destruct (Hwc eq_refl)|].
  destruct (k_broken (r_link s (dest c))) as [e|] eqn:Eb.
  { injection Hw as <-. apply (end_copy_ok _ _ _ p); try done. intros e' [= <-]. left. by apply Hbroken. }
  destruct (n <=? _)%nat; [|done]. injection Hw as <-.
  apply (relay_ok_copy replay s _ c); try done; simpl;
    rewrite ?fn_lookup_insert, ?fn_lookup_insert_ne by auto with relay; try done; [by rewrite Hp..| |].
  - split; simpl; rewrite ?fn_lookup_insert; try done.
    + exists (drop n p). split; [|done]. unfold to_deliver, delivered, unread in *. simpl.
      rewrite fn_lookup_insert, !fn_lookup_insert_ne by auto with relay. simpl. rewrite Hd.
      by rewrite <-app_assoc, (app_assoc (take n p)), take_drop.
    + simpl. rewrite Ecl. split; [done|by intros (r & ? & ?)].
    + simpl. by rewrite Ew.
    + split; [done|]. simpl. rewrite Eb. done.
  - apply (copy_frame replay s); simpl; rewrite ?other_source, ?other_dest, ?fn_lookup_insert,
      ?fn_lookup_insert_ne by auto with relay; try done.
    unfold unread. simpl. rewrite other_source, fn_lookup_insert. simpl. done.
Qed.

(** A change of phase that keeps the error a copy ended with. *)
Lemma copy_phase_ok replay s s' c :
  copy_ok replay s c → is_Some (ended (r_phase s c)) → ended (r_phase s' c) = ended (r_phase s c) →
  r_replay s' = r_replay s → r_faults s' = r_faults s →
  r_link s' (source c) = r_link s (source c) →
  (k_closed (r_link s (source c)) = true → winner (r_phase s c) ≠ Some true → winner (r_phase s' c) ≠ Some true) →
  k_out (r_link s' (dest c)) = k_out (r_link s (dest c)) →
  k_end (r_link s' (dest c)) = k_end (r_link s (dest c)) →
  k_broken (r_link s' (dest c)) = k_broken (r_link s (dest c)) →
  (k_closed (r_link s' (dest c)) = true ↔ ∃ r, r_phase s' c = Sent r ∧ copy_fullyClosed r = true) →
  (k_wclosed (r_link s' (dest c)) = true → ∃ r, r_phase s' c = Sent r) →
  copy_ok replay s' c.
Proof.
  intros [(rest & H1 & _) H2 H3 H4 H4' H5] [err Herr] Ee Er Ef Es Ewin Eo Ek Eb Hcl Hwc.
  split; unfold to_deliver, delivered, unread in *; rewrite ?Ee, ?Er, ?Ef, ?Es, ?Eo, ?Ek, ?Eb; try done.
  - exists rest. split; [done|]. rewrite Herr in Ee. by destruct (r_phase s' c).
  - intros e E. destruct (H3 e E) as [|[? ?]]; auto.
Qed.

Lemma exchange_ok replay s s' c :
  copies_ok replay s → relay_step s (Exchange c) = Some s' → copies_ok replay s'.
Proof.
  intros Hok. simpl. destruct (r_phase s c) as [|err| |] eqn:Hp; try done. intros [= <-].
  pose proof (ok_copy _ _ Hok c) as Hc. pose proof (ok_copy _ _ Hok (other c)) as Ho.
  destruct Hok as [_ H1 H2 H3 H4]. split.
  - intros x. destruct (copy_cases c x) as [->| ->].
    + apply (copy_phase_ok replay s); simpl; rewrite ?fn_lookup_insert, ?Hp; try done.
      * intros Hk _ [= Hn]. apply negb_true_iff in Hn. rewrite H1 in Hn. specialize (Hn (other c)).
        rewrite <- other_dest in Hk. apply (copy_closed _ _ _ Ho) in Hk as (r & Hr & _). by rewrite Hr in Hn.
      * destruct Hc as [_ _ _ Hcl _ _]. rewrite Hcl, Hp. split; by intros (r & ? & ?).
      * intros Hx. destruct (copy_wclosed _ _ _ Hc Hx) as [r Hr]. congruence.
    + apply (copy_frame replay s); simpl; rewrite ?fn_lookup_insert_ne by auto with relay; done.
  - simpl. split; [done|]. intros Hw. specialize (Hw c). by rewrite fn_lookup_insert in Hw.
  - intros x. simpl. destruct (copy_cases c x) as [->| ->].
    + rewrite fn_lookup_insert, fn_lookup_insert_ne by auto with relay. simpl. intros [= Hn].
      apply negb_true_iff in Hn. rewrite H1 in Hn. by rewrite Hn.
    + rewrite other_other, fn_lookup_insert, fn_lookup_insert_ne by auto with relay. simpl. intros Hw [= Hn].
      apply negb_true_iff in Hn. rewrite H1 in Hn. by rewrite Hn in Hw.
  - intros x. simpl. destruct (copy_cases c x) as [->| ->].
    + rewrite fn_lookup_insert, fn_lookup_insert_ne by auto with relay. simpl. intros [= Hn].
      apply negb_false_iff in Hn. destruct (winner (r_phase s (other c))) as [[]|] eqn:Hw; [done| |].
      * apply H3 in Hw. rewrite other_other, Hp in Hw. done.
      * assert (Hf : r_completed s = false); [|congruence]. apply H1. intros y.
        destruct (copy_cases c y) as [->| ->]; [by rewrite Hp|done].
    + rewrite other_other, fn_lookup_insert, fn_lookup_insert_ne by auto with relay. intros Hw.
      apply H3 in Hw. rewrite other_other, Hp in Hw. done.
  - simpl. assert (Hs : ∀ x, sent ((<[c := Marked (negb (r_completed s)) err]> (r_phase s)) x) = sent (r_phase s x)).
    { intros x. destruct (copy_cases c x) as [->| ->];
        [by rewrite fn_lookup_insert, Hp|by rewrite fn_lookup_insert_ne by auto with relay]. }
    by rewrite !Hs.
Qed.

Lemma finish_ok replay s s' c :
  copies_ok replay s → relay_step s (Finish c) = Some s' → copies_ok replay s'.
Proof.
  intros Hok. simpl. destruct (r_phase s c) as [| |first err|] eqn:Hp; try done. intros [= <-].
  pose proof (ok_copy _ _ Hok c) as Hc. pose proof (ok_copy _ _ Hok (other c)) as Ho.
  set (k := r_link s (dest c)). set (r := mkCopy first err (closeWrite (k_half k))).
  assert (Hk : k_out (close_link k) = k_out k ∧ k_end (close_link k) = k_end k ∧ k_broken (close_link k) = k_broken k ∧
    k_sent (close_link k) = k_sent k ∧ k_in (close_link k) = k_in k).
  { unfold close_link. by destruct (closeWrite _). }
  destruct Hk as (Ko & Ke & Kb & Ks & Ki).
  destruct Hok as [_ H1 H2 H3 H4].
  assert (Hw : ∀ x, winner ((<[c := Sent r]> (r_phase s)) x) = winner (r_phase s x)).
  { intros x. destruct (copy_cases c x) as [->| ->];
      [by rewrite fn_lookup_insert, Hp|by rewrite fn_lookup_insert_ne by auto with relay]. }
  split; simpl.
  - intros x. destruct (copy_cases c x) as [->| ->].
    + apply (copy_phase_ok replay s); simpl; rewrite ?fn_lookup_insert, ?fn_lookup_insert_ne, ?Hp by auto with relay; try done.
      * destruct Hc as [_ _ _ Hcl _ _]. fold k in Hcl. rewrite Hp in Hcl. unfold close_link, r.
        destruct (closeWrite (k_half k)); simpl.
        -- split; [|done]. intros _. eexists. by split.
        -- rewrite Hcl. split; [by intros (r' & ? & ?)|]. by intros (r' & [= <-] & ?).
      * intros _. by eexists.
    + apply (copy_frame replay s); simpl; rewrite ?other_source, ?other_dest, ?fn_lookup_insert,
        ?fn_lookup_insert_ne by auto with relay; try done.
      * unfold unread. simpl. rewrite other_source, fn_lookup_insert, Ki. done.
      * unfold close_link. by destruct (closeWrite _).
  - rewrite H1. by setoid_rewrite Hw.
  - intros x. rewrite !Hw. apply H2.
  - intros x. rewrite !Hw. apply H3.
  - rewrite H4. destruct c; simpl; rewrite ?fn_lookup_insert, ?fn_lookup_insert_ne by done; rewrite Hp; simpl.
    + by rewrite Permutation_app_comm.
    + by rewrite app_nil_r.
Qed.

Lemma relay_step_ok replay s e s' : copies_ok replay s → relay_step s e = Some s' → copies_ok replay s'.
Proof.
  intros Hok H.
  assert (Hlink : ∀ x, (∀ e, k_end (r_link s x) = Some (Some e) → e ∈ r_faults s) ∧
                       (∀ e, k_broken (r_link s x) = Some e → e ∈ r_faults s)).
  { intros []; [apply (copy_link _ _ _ (ok_copy _ _ Hok Down))|apply (copy_link _ _ _ (ok_copy _ _ Hok Up))]. }
  destruct e as [x data|x err|x err|x n|c n gone|c n gone|c|c]; [| | | | | |by eapply exchange_ok|by eapply finish_ok];
    simpl in H.
  - destruct (Hlink x) as [He Hb]. destruct (k_end (r_link s x)) eqn:E; [done|]. injection H as <-.
    apply (link_step_ok replay s); try done; simpl; rewrite ?E; try done. exists data. done.
  - destruct (Hlink x) as [He Hb]. destruct (k_end (r_link s x)) eqn:E; [done|]. injection H as <-.
    apply (link_step_ok replay s); try done; simpl.
    + exists []. by rewrite !app_nil_r.
    + destruct err; [set_solver|done].
    + intros e [= ->]. apply list_elem_of_here.
    + intros e Hbe. destruct err; [apply list_elem_of_further|]; by apply Hb.
  - destruct (Hlink x) as [He Hb]. injection H as <-. apply (link_step_ok replay s); try done; simpl.
    + exists []. by rewrite !app_nil_r.
    + set_solver.
    + intros e Hbe. apply list_elem_of_further. by apply He.
    + intros e [= ->]. apply list_elem_of_here.
  - destruct (Hlink x) as [He Hb]. injection H as <-. apply (link_step_ok replay s); try done; simpl.
    exists []. by rewrite !app_nil_r.
  - destruct (r_phase s c) as [[|]| | |] eqn:Hp; try done. destruct (n =? 0)%nat; [done|]. by eapply read_copy_ok.
  - destruct (r_phase s c) as [[|b p]| | |] eqn:Hp; try done. destruct (n =? 0)%nat; [done|]. by eapply write_copy_ok.
Qed.

Lemma relay_reachable_ok replay s0 s : copies_ok replay s0 → relay_reachable s0 s → copies_ok replay s.
Proof. intros H0. induction 1 as [|s e s' _ IH Hstep]; [done|]. by eapply relay_step_ok. Qed.

(** ** The outcome *)

Lemma relayFrom_cases a b : copy_first a = negb (copy_first b) →
  relayFrom a b = let '(first, second) := if copy_first a then (a, b) else (b, a) in
                  match relayError (copy_err first) with
                  | Some e => Some e
                  | None => if copy_fullyClosed first then None else relayError (copy_err second)
                  end.
Proof.
  intros H. unfold relayFrom. rewrite H. destruct (copy_first b); simpl; by rewrite ?H.
Qed.

(** Both results are in: exactly one copy was first. *)
Lemma relay_outcome_first replay s out :
  copies_ok replay s → relay_outcome s = Some out →
  ∃ c first second, r_phase s c = Sent first ∧ r_phase s (other c) = Sent second ∧ copy_first first = true ∧
    out = match relayError (copy_err first) with
          | Some e => Some e
          | None => if copy_fullyClosed first then None else relayError (copy_err second)
          end.
Proof.
  intros [_ _ H2 H3 H4] Ho. unfold relay_outcome in Ho.
  destruct (r_results s) as [|a [|b [|]]] eqn:Er; try done. injection Ho as <-.
  assert (Hph : ∃ u d, r_phase s Up = Sent u ∧ r_phase s Down = Sent d).
  { apply Permutation_length in H4. simpl in H4.
    destruct (r_phase s Up), (r_phase s Down); simpl in H4; try lia. eauto. }
  destruct Hph as (u & d & Hu & Hd). rewrite Hu, Hd in H4. simpl in H4.
  assert (Hx : copy_first u = negb (copy_first d)).
  { pose proof (H2 Up) as Ha. pose proof (H3 Up) as Hb. pose proof (H3 Down) as Hc. simpl in *.
    rewrite Hu, Hd in *. simpl in *. destruct (copy_first u), (copy_first d); try done.
    - by destruct (Ha eq_refl).
    - specialize (Hb eq_refl). congruence. }
  assert (Hab : (a = u ∧ b = d) ∨ (a = d ∧ b = u)).
  { apply Permutation_length_2_inv in H4 as [[= -> ->]|[= -> ->]]; auto. }
  destruct (copy_first u) eqn:Eu.
  - exists Up, u, d. split_and!; try done.
    destruct Hab as [[-> ->]|[-> ->]]; rewrite relayFrom_cases; rewrite ?Eu; try done; symmetry in Hx;
      apply negb_true_iff in Hx; by rewrite ?Hx.
  - symmetry in Hx. apply negb_false_iff in Hx. exists Down, d, u. split_and!; try done.
    destruct Hab as [[-> ->]|[-> ->]]; rewrite relayFrom_cases; rewrite ?Eu, ?Hx; done.
Qed.

Lemma relayError_Some err e :
  relayError err = Some e → err = Some e.
Proof. unfold relayError. destruct err as [x|]; [|done]. by destruct (_ || _). Qed.

(** C25: a relay is a transparent pipe.  In every interleaving of the two copies and
    the peers, what has been written to each side is a prefix of what the other
    side sent (the bytes the sniffer buffered first), with nothing lost, repeated
    or reordered; a copy that ended without an error has delivered all of it; and
    when the relay returns an error, it is one that a connection really showed,
    never the error, whatever it is, of a copy that the relay itself ended by
    closing its connection. *)
Theorem relay_delivers_in_order (replay inbound outbound : bytes) (inhalf outhalf : bool) (inroom outroom : nat)
    (s : relayState) (c : copy) :
  relay_reachable (relay_start replay (open_link inbound inhalf inroom) (open_link outbound outhalf outroom)) s →
  (∃ rest, to_deliver replay s c = delivered s c ++ rest) ∧
  (ended (r_phase s c) = Some None → delivered s c = to_deliver replay s c) ∧
  (∀ e, relay_outcome s = Some (Some e) → e ∈ r_faults s).
Proof.
  intros Hr. pose proof (relay_reachable_ok replay _ _ (relay_start_ok replay inbound outbound inroom outroom inhalf outhalf) Hr) as Hok.
  pose proof (ok_copy _ _ Hok c) as [(rest & Hd & _) Hclean _ _ _ _]. split_and!.
  - eexists. exact Hd.
  - intros E. by destruct (Hclean E).
  - intros e Ho. destruct (relay_outcome_first _ _ _ Hok Ho) as (x & first & second & H1 & H2 & Hfirst & He).
    assert (Hf : ∀ y r, r_phase s y = Sent r → relayError (copy_err r) = Some e →
      (copy_first r = true ∨ k_closed (r_link s (source y)) = false) → e ∈ r_faults s).
    { intros y r Hy Hre%relayError_Some Hn.
      destruct (copy_fault _ _ _ (ok_copy _ _ Hok y) e) as [|[Hk Hw]]; [rewrite Hy; simpl; by rewrite Hre|done|].
      rewrite Hy in Hw. simpl in Hw. destruct Hn; congruence. }
    destruct (relayError (copy_err first)) eqn:E1; [injection He as <-; apply (Hf x first H1 E1); by left|].
    destruct (copy_fullyClosed first) eqn:Efc; [done|]. apply (Hf (other x) second H2 (eq_sym He)). right.
    rewrite other_source. destruct (k_closed _) eqn:Ek; [|done].
    apply (copy_closed _ _ _ (ok_copy _ _ Hok x)) in Ek as (r' & Hr' & ?). congruence.
Qed.

(** ** The relay ends *)

(** Between two events of the peers the copies take finitely many steps. *)
Definition phase_weight (p : phase) : nat :=
  match p with Copying p => 3 + length p | Ended _ => 2 | Marked _ _ => 1 | Sent _ => 0 end.
Definition relay_measure (s : relayState) : nat :=
  2 * (length (r_replay s) + length (k_in (r_link s Inbound)) + length (k_in (r_link s Outbound)))
  + phase_weight (r_phase s Up) + phase_weight (r_phase s Down).

Lemma set_phase_measure s c p :
  (phase_weight p < phase_weight (r_phase s c))%nat → (relay_measure (set_phase s c p) < relay_measure s)%nat.
Proof.
  intros H. unfold relay_measure, set_phase. simpl.
  destruct c; rewrite fn_lookup_insert, fn_lookup_insert_ne by done; lia.
Qed.

Lemma close_link_in k : k_in (close_link k) = k_in k.
Proof. unfold close_link. by destruct (closeWrite _). Qed.

Lemma relay_step_measure s e s' :
  local e = true → relay_step s e = Some s' → (relay_measure s' < relay_measure s)%nat.
Proof.
  intros He H. destruct e as [| | | |c n gone|c n gone|c|c]; try done; simpl in H.
  - destruct (r_phase s c) as [[|]| | |] eqn:Hp; try done. destruct (n =? 0)%nat eqn:En; [done|].
    apply Nat.eqb_neq in En. unfold copy_read in H. case_bool_decide as Hrep.
    + destruct Hrep as [-> Hrep]. injection H as <-. unfold relay_measure. cbn [r_replay r_link r_phase].
      rewrite fn_lookup_insert, (fn_lookup_insert_ne _ Up Down), Hp, length_drop by done. simpl. rewrite length_take.
      destruct (r_replay s) eqn:E; [by destruct Hrep|]. simpl. lia.
    + destruct (k_closed _); [injection H as <-; apply set_phase_measure; rewrite Hp; simpl; lia|].
      case_bool_decide as Hin.
      * injection H as <-. unfold relay_measure, set_phase, set_link. cbn [r_replay r_link r_phase]. destruct c; cbn [source dest] in *;
          rewrite !fn_lookup_insert, !fn_lookup_insert_ne, Hp by done; simpl; rewrite length_drop, length_take;
          (match type of Hin with ?k ≠ [] => destruct k eqn:E end; [by destruct Hin|]; simpl; lia).
      * destruct (k_end _) as [err|]; [|done]. injection H as <-. apply set_phase_measure. rewrite Hp. simpl. lia.
  - destruct (r_phase s c) as [[|b p]| | |] eqn:Hp; try done. destruct (n =? 0)%nat eqn:En; [done|].
    apply Nat.eqb_neq in En. unfold copy_write in H.
    destruct (_ || _); [injection H as <-; apply set_phase_measure; rewrite Hp; simpl; lia|].
    destruct (k_broken _); [injection H as <-; apply set_phase_measure; rewrite Hp; simpl; lia|].
    destruct (_ <=? _)%nat; [|done]. injection H as <-. unfold relay_measure, set_phase, set_link. cbn [r_replay r_link r_phase].
    destruct c; cbn [source dest]; rewrite !fn_lookup_insert, !fn_lookup_insert_ne, Hp by done; simpl; rewrite length_drop; simpl; lia.
  - destruct (r_phase s c) eqn:Hp; try done. injection H as <-. unfold relay_measure, set_phase, set_link. cbn [r_replay r_link r_phase].
    destruct c; cbn [source dest]; rewrite !fn_lookup_insert, !fn_lookup_insert_ne, Hp by done; simpl; lia.
  - destruct (r_phase s c) eqn:Hp; try done. injection H as <-. unfold relay_measure, set_phase, set_link. cbn [r_replay r_link r_phase].
    destruct c; cbn [source dest]; rewrite !fn_lookup_insert, !fn_lookup_insert_ne, Hp, close_link_in by done; simpl; lia.
Qed.

(** What a copy still has in memory to write. *)
Definition backlog (s : relayState) (c : copy) : nat :=
  match r_phase s c with
  | Copying p => length p + match c with Up => length (r_replay s) | Down => 0 end
  | _ => 0
  end.

(** No copy can take a step without the peers. *)
Definition quiet (s : relayState) : Prop := ∀ e, local e = true → relay_step s e = None.

(** A copy waits in a write for a peer that takes no more bytes. *)
Definition stalled (s : relayState) (c : copy) : Prop :=
  ∃ b p, r_phase s c = Copying (b :: p) ∧ k_room (r_link s (dest c)) = 0%nat.

Lemma both_sent_outcome replay s c a b :
  copies_ok replay s → r_phase s c = Sent a → r_phase s (other c) = Sent b → is_Some (relay_outcome s).
Proof.
  intros Hok Ha Hb. pose proof (ok_results _ _ Hok) as Hp. apply Permutation_length in Hp. rewrite length_app in Hp.
  unfold relay_outcome. destruct c; simpl in *; rewrite Ha, Hb in Hp; simpl in Hp;
    destruct (r_results s) as [|x [|y [|]]]; simpl in Hp; try lia; eauto.
Qed.

(** A copy that has sent its result is done. *)
Lemma sent_stays s e s' c r : r_phase s c = Sent r → relay_step s e = Some s' → r_phase s' c = Sent r.
Proof.
  intros Hc H.
  assert (Hset : ∀ c' p, c' ≠ c → <[c' := p]> (r_phase s) c = Sent r) by (intros; by rewrite fn_lookup_insert_ne).
  destruct e as [x data|x err|x err|x n|c' n gone|c' n gone|c'|c']; simpl in H;
    try (repeat case_match; simplify_eq/=; done);
    (assert (c' = c → False) as Hne; [intros ->; rewrite Hc in H; done|]);
    unfold copy_read, copy_write in H; repeat case_match; simplify_eq/=; apply Hset;
    first [exact Hne|intros <-; apply Hne; match goal with
           | E : bool_decide _ = true |- _ => by apply bool_decide_eq_true in E as [-> _] end].
Qed.

(** Once its source is closed, a copy only writes what it holds. *)
Lemma backlog_step replay s e s' c r :
  copies_ok replay s → r_phase s c = Sent r → copy_fullyClosed r = true → local e = true → relay_step s e = Some s' →
  (backlog s (other c) ≤ k_room (r_link s (dest (other c))))%nat →
  (backlog s' (other c) ≤ k_room (r_link s' (dest (other c))))%nat.
Proof.
  intros Hok Hc Hfull He H Hroom.
  assert (Hclosed : k_closed (r_link s (source (other c))) = true).
  { rewrite other_source. apply (copy_closed _ _ _ (ok_copy _ _ Hok c)). eauto. }
  set (o := other c) in *.
  assert (Hend : ∀ p, (∀ q, p ≠ Copying q) → backlog (set_phase s o p) o = 0%nat).
  { intros p Hp. unfold backlog, set_phase. cbn [r_phase]. rewrite fn_lookup_insert. by destruct p as [q| | |]; [destruct (Hp q)|..]. }
  destruct e as [| | | |c' n gone|c' n gone|c'|c']; try done; simpl in H;
    (assert (c' = o) as ->; [subst o; destruct (copy_cases c c') as [->| ->]; [by rewrite Hc in H|done]|]).
  - destruct (r_phase s o) as [[|]| | |] eqn:Ho; try done. destruct (n =? 0)%nat; [done|]. unfold copy_read in H.
    case_bool_decide as Hrep; [|rewrite Hclosed in H; injection H as <-; rewrite Hend by done; lia].
    destruct Hrep as [Hup _]. injection H as <-. unfold backlog in *. rewrite Ho in Hroom. rewrite Hup in *.
    cbn [r_phase r_replay r_link]. rewrite fn_lookup_insert, length_take, length_drop. simpl in *. lia.
  - destruct (r_phase s o) as [[|b p]| | |] eqn:Ho; try done. destruct (n =? 0)%nat; [done|]. unfold copy_write in H.
    destruct (_ || _); [injection H as <-; rewrite Hend by done; lia|].
    destruct (k_broken _); [injection H as <-; rewrite Hend by done; lia|].
    destruct (_ <=? _)%nat eqn:En; [|done]. injection H as <-. unfold backlog in *. rewrite Ho in Hroom.
    cbn [set_phase set_link r_phase r_replay r_link]. rewrite !fn_lookup_insert. cbn [produce k_room].
    rewrite length_drop, length_take. lia.
  - destruct (r_phase s o) eqn:Ho; try done. injection H as <-. unfold backlog. cbn [r_phase]. rewrite fn_lookup_insert. lia.
  - destruct (r_phase s o) eqn:Ho; try done. injection H as <-. unfold backlog. cbn [r_phase]. rewrite fn_lookup_insert. lia.
Qed.

(** After a full close the opposite copy stops only at its end or at a stalled peer. *)
Lemma full_close_quiet replay s c r :
  copies_ok replay s → r_phase s c = Sent r → copy_fullyClosed r = true → quiet s →
  is_Some (relay_outcome s) ∨ stalled s (other c).
Proof.
  intros Hok Hc Hfull Hq.
  assert (Hclosed : k_closed (r_link s (source (other c))) = true).
  { rewrite other_source. apply (copy_closed _ _ _ (ok_copy _ _ Hok c)). eauto. }
  destruct (r_phase s (other c)) as [[|b p]|err|f err|r'] eqn:Ho.
  - exfalso. pose proof (Hq (CopyRead (other c) 1 ENetClosed) eq_refl) as H. simpl in H. rewrite Ho in H.
    unfold copy_read in H. rewrite Hclosed in H. by case_bool_decide.
  - right. exists b, p. split; [done|]. pose proof (Hq (CopyWrite (other c) 1 ENetClosed) eq_refl) as H. simpl in H.
    rewrite Ho in H. unfold copy_write in H. destruct (_ || _); [done|]. destruct (k_broken _); [done|].
    by destruct (k_room _).
  - exfalso. pose proof (Hq (Exchange (other c)) eq_refl) as H. simpl in H. by rewrite Ho in H.
  - exfalso. pose proof (Hq (Finish (other c)) eq_refl) as H. simpl in H. by rewrite Ho in H.
  - left. exact (both_sent_outcome replay s c r r' Hok Hc Ho).
Qed.

(** What runs of the copies alone keep after a full close, and how long they are. *)
Lemma full_close_run replay s c r es s' :
  copies_ok replay s → r_phase s c = Sent r → copy_fullyClosed r = true →
  Forall (λ e, local e = true) es → run_relay s es = Some s' →
  copies_ok replay s' ∧ r_phase s' c = Sent r ∧ (length es + relay_measure s' ≤ relay_measure s)%nat ∧
  ((backlog s (other c) ≤ k_room (r_link s (dest (other c))))%nat →
   (backlog s' (other c) ≤ k_room (r_link s' (dest (other c))))%nat).
Proof.
  intros Hok Hc Hfull Hes. revert s Hok Hc. induction Hes as [|e es He _ IH]; intros s Hok Hc H; simpl in H.
  { injection H as <-. split_and!; try done. }
  destruct (relay_step s e) as [s1|] eqn:Hs; [|done]. cbn [mbind option_bind] in H.
  destruct (IH s1) as (H1 & H2 & H3 & H4); [exact (relay_step_ok replay s e s1 Hok Hs)|exact (sent_stays s e s1 c r Hc Hs)|exact H|].
  pose proof (relay_step_measure s e s1 He Hs). split_and!; try done; [simpl; lia|].
  intros Hroom. apply H4. exact (backlog_step replay s e s1 c r Hok Hc Hfull He Hs Hroom).
Qed.

(** C26: a relay does not outlive a connection without half-close, unless a peer
    stops taking bytes.  Once a copy has ended and closed a destination that has no
    [CloseWrite] (a Hysteria stream), every run of the two copies without an event
    of the peers is finite, and where no copy can go on the relay has returned or
    the opposite copy waits in a write for a peer with no room left; the latter
    never happens when there was room for the bytes it held.  If the ended copy was
    the first and ended cleanly, the relay then returns no error whatever the
    forced end of the other one reports. *)
Theorem relay_ends_after_full_close (replay inbound outbound : bytes) (inhalf outhalf : bool) (inroom outroom : nat)
    (s : relayState) (c : copy) (r : copyResult) (es : list relayEvent) (s' : relayState) :
  relay_reachable (relay_start replay (open_link inbound inhalf inroom) (open_link outbound outhalf outroom)) s →
  r_phase s c = Sent r → copy_fullyClosed r = true →
  Forall (λ e, local e = true) es → run_relay s es = Some s' →
  (length es ≤ relay_measure s)%nat ∧
  (quiet s' → is_Some (relay_outcome s') ∨ stalled s' (other c)) ∧
  (quiet s' → (backlog s (other c) ≤ k_room (r_link s (dest (other c))))%nat → is_Some (relay_outcome s')) ∧
  (copy_first r = true → relayError (copy_err r) = None → ∀ out, relay_outcome s' = Some out → out = None).
Proof.
  intros Hr Hc Hfull Hes Hrun.
  pose proof (relay_reachable_ok replay _ _ (relay_start_ok replay inbound outbound inroom outroom inhalf outhalf) Hr) as Hok.
  destruct (full_close_run replay s c r es s' Hok Hc Hfull Hes Hrun) as (Hok' & Hc' & Hlen & Hroom).
  split; [lia|]. split; [by apply (full_close_quiet replay s' c r)|]. split.
  { intros Hq Hle. destruct (full_close_quiet replay s' c r Hok' Hc' Hfull Hq) as [H|(b & p & Hp & H0)]; [done|].
    specialize (Hroom Hle). unfold backlog in Hroom. rewrite Hp, H0 in Hroom. simpl in Hroom. lia. }
  intros Hfirst Herr out Ho.
  destruct (relay_outcome_first _ _ _ Hok' Ho) as (x & first & second & H1 & H2 & Hf & ->).
  destruct (copy_cases c x) as [->| ->].
  - rewrite Hc' in H1. injection H1 as <-. by rewrite Herr, Hfull.
  - rewrite other_other, Hc' in H2. injection H2 as <-.
    destruct (ok_winner _ _ Hok' c); [by rewrite Hc'; simpl; f_equal|]. rewrite H1. simpl. by f_equal.
Qed.

(** ** Witnesses *)

(** A client sends a request, the server (over a connection without half-close)
    answers, the client ends, and the forced close ends the opposite copy. *)
Definition sample_relay : relayState :=
  relay_start (str "GET") (open_link (str " /") true 100) (open_link [] false 100).
Definition sample_events : list relayEvent :=
  [CopyRead Up 10 EEOF; CopyWrite Up 2 EEOF; CopyWrite Up 5 EEOF; PeerSends Outbound (str "200 OK"); CopyRead Up 10 EEOF; CopyWrite Up 10 EEOF;
   CopyRead Down 4 EEOF; PeerEnds Inbound None; CopyRead Up 1 EEOF; Exchange Up; Finish Up].
Definition sample_relay_end : relayState := default sample_relay (run_relay sample_relay sample_events).

Example sample_relay_runs :
  run_relay sample_relay (sample_events ++ [CopyWrite Down 4 EEOF; CopyRead Down 1 EEOF; Exchange Down; Finish Down])
    ≫= relay_outcome = Some None ∧ delivered sample_relay_end Up = str "GET /".
Proof. vm_compute. done. Qed.

Lemma run_relay_reachable s es s' : run_relay s es = Some s' → relay_reachable s s'.
Proof.
  assert (H : ∀ es s1 s', relay_reachable s s1 → run_relay s1 es = Some s' → relay_reachable s s').
  { induction es0 as [|e es0 IH]; simpl; intros s1 s2 Hr Hs; [by simplify_eq|].
    destruct (relay_step s1 e) as [s3|] eqn:E; [|done]. simpl in Hs. apply (IH s3); [|done]. by eapply relay_next. }
  apply H. constructor.
Qed.

Lemma sample_relay_reachable : relay_reachable sample_relay sample_relay_end.
Proof. apply (run_relay_reachable _ sample_events). vm_compute. reflexivity. Qed.

Lemma relay_delivers_in_order_witness : delivered sample_relay_end Up = str "GET /".
Proof.
  destruct (relay_delivers_in_order (str "GET") (str " /") [] true false 100 100 sample_relay_end Up) as (_ & H & _).
  - exact sample_relay_reachable.
  - rewrite H by (vm_compute; reflexivity). vm_compute. reflexivity.
Defined.

Lemma relay_ends_after_full_close_witness :
  ∃ s', run_relay sample_relay_end [CopyWrite Down 4 EEOF; CopyRead Down 1 EEOF; Exchange Down; Finish Down] = Some s' ∧
        relay_outcome s' = Some None.
Proof.
  destruct (run_relay sample_relay_end [CopyWrite Down 4 EEOF; CopyRead Down 1 EEOF; Exchange Down; Finish Down])
    as [s'|] eqn:E; [|vm_compute in E; discriminate].
  exists s'. split; [reflexivity|].
  destruct (relay_outcome s') as [out|] eqn:Ho; [|vm_compute in E; injection E as <-; vm_compute in Ho; discriminate].
  assert (Hes : Forall (λ e, local e = true) [CopyWrite Down 4 EEOF; CopyRead Down 1 EEOF; Exchange Down; Finish Down])
    by (repeat constructor).
  destruct (relay_ends_after_full_close (str "GET") (str " /") [] true false 100 100
    sample_relay_end Up (mkCopy true None true) [CopyWrite Down 4 EEOF; CopyRead Down 1 EEOF; Exchange Down; Finish Down] s'
    sample_relay_reachable) as (_ & _ & _ & H); [vm_compute; reflexivity|reflexivity|exact Hes|exact E|].
  rewrite (H eq_refl eq_refl out Ho). reflexivity.
Defined.
