(* ===== verification/Udp.v ===== *)
(** * The transparent UDP proxy: [internal/dataplane/udp.go]

    Which datagrams are accepted, which session carries a datagram, and the life
    of a session: opened for one (source, target) pair, closed exactly once.  A
    session object is identified with the packet session it wraps; opening a
    packet session hands out the next identity. *)

From S2P Require Import Prelude GoStrings GoNet Domains IPv4Tree Sha256 Dataset GoCodec.
From S2P Require Import Config Classifier GoHeap Lru Learning SessionTable SniffParse SniffPeek.
From S2P Require Import AddrText Tcp.

(** A [*net.UDPAddr]: its IP slice and port. *)
Record UDPAddr := mkUDPAddr { ua_ip : bytes; ua_port : Z }.

(** A port fits in 16 bits after the guard, so the conversion keeps it. *)
Definition ipv4UDPEndpoint (addr : option UDPAddr) : option AddrPort :=
  match addr with
  | None => None
  | Some addr =>
      if (ua_port addr <? 1) || (65535 <? ua_port addr) then None else
      match AddrFromSlice (ua_ip addr) with
      | None => None
      | Some ip => let ip := Unmap ip in
                   if negb (Is4 ip) then None else Some (mkAddrPort ip (u16 (ua_port addr)))
      end
  end.

(** [udpSession]: its two connections, and whether [once] has run. *)
Record udpSession := mkUdpSession { us_packet : nat; us_reply : option nat; us_done : bool }.

(** [Close]: the connections closed by this call, the reply socket first. *)
Definition udpSession_Close (s : udpSession) : udpSession * list nat :=
  if us_done s then (s, [])
  else (mkUdpSession (us_packet s) (us_reply s) true,
        match us_reply s with Some r => [r] | None => [] end ++ [us_packet s]).

Record UDPServer := mkUDPServer {
  udp_classifier : option Classifier; udp_has_direct : bool; udp_has_proxy : bool }.

(** The state: the sessions, the learning table, the next identity, and what has
    happened so far: the sessions opened (for which datagrams and which way), the
    packet sessions closed because no reply socket could be opened, the reply
    sockets of the sessions (bound to which address, connected to which client),
    and the datagrams sent (on which session, of which client, to which target). *)
Record sentDatagram := mkSent {
  sd_session : nat; sd_source : AddrPort; sd_payload : bytes; sd_target : bytes }.

Record udpState := mkUdp {
  u_sessions : sessionTable;
  u_learned : option LearningTable;
  u_next : nat;
  u_opened : list (nat * sessionKey * route);
  u_orphans : list nat;
  u_replies : list (nat * AddrPort * AddrPort);
  u_sent : list sentDatagram }.

Definition set_sessions (s : udpState) (t : sessionTable) : udpState :=
  mkUdp t (u_learned s) (u_next s) (u_opened s) (u_orphans s) (u_replies s) (u_sent s).

(** What the outside answers while one datagram is handled: the clock at each
    reading, opening a packet session a way, the reply socket, and a send. *)
Record packetEnv := mkPacketEnv {
  pe_get : time; pe_use : time; pe_lookup : time; pe_add : time;
  pe_open : route → option error; pe_reply : option error; pe_send : option error }.

Definition shouldDirect (server : UDPServer) (learned : option LearningTable) (target : Addr)
    (now : time) : option LearningTable * bool :=
  let by_learning :=
    let by_classifier (learned : option LearningTable) :=
      (learned, match udp_classifier server with
                | Some c => bool_decide (dec_action (classify_IP c target) = Direct)
                | None => false
                end) in
    match learned with
    | Some table =>
        let '(table, l) := Lookup table target now in
        if ld_proxy l then (Some table, false)
        else if ld_direct l then (Some table, true)
        else by_classifier (Some table)
    | None => by_classifier None
    end in
  match udp_classifier server with
  | Some c =>
      let decision := classify_IP c target in
      if bool_decide (dec_source decision = SourceExplicitIP)
      then (learned, bool_decide (dec_action decision = Direct)) else by_learning
  | None => by_learning
  end.

(** [existing.Send], and the removal of a session whose send failed. *)
Definition send_existing (s : udpState) (key : sessionKey) (source target : AddrPort) (id : nat)
    (payload : bytes) (outcome : option error) : udpState * option error :=
  let s := mkUdp (u_sessions s) (u_learned s) (u_next s) (u_opened s) (u_orphans s) (u_replies s)
             (u_sent s ++ [mkSent id source payload (addrport_String target)]) in
  match outcome with
  | Some e => (set_sessions s (session_remove (u_sessions s) key (Some id)), Some e)
  | None => (s, None)
  end.

(** [dialer.OpenPacket]: the identity of the new packet session, [None] for an
    error. *)
Definition open_packet (server : UDPServer) (s : udpState) (key : sessionKey) (env : packetEnv)
  : udpState * result nat :=
  let '(learned, direct) := shouldDirect server (u_learned s) (ap_addr (sk_target key)) (pe_lookup env) in
  let way := if direct then RouteDirect else RouteProxy in
  match pe_open env way with
  | Some e => (mkUdp (u_sessions s) learned (u_next s) (u_opened s) (u_orphans s) (u_replies s) (u_sent s), Err e)
  | None => (mkUdp (u_sessions s) learned (S (u_next s)) (u_opened s ++ [(u_next s, key, way)])
               (u_orphans s) (u_replies s) (u_sent s), Ok (u_next s))
  end.

Definition handlePacket (server : UDPServer) (s : udpState) (source target : AddrPort)
    (payload : bytes) (env : packetEnv) : option (udpState * option error) :=
  let key := mkSessionKey source target in
  let '(t, existing) := session_get (u_sessions s) key (pe_get env) (pe_use env) in
  let s := set_sessions s t in
  match existing with
  | Some id => Some (send_existing s key source target id payload (pe_send env))
  | None =>
      if negb (udp_has_direct server) || negb (udp_has_proxy server)
      then Some (s, Some (EMsg "UDP server is not configured")) else
      match open_packet server s key env with
      | (s, Err e) => Some (s, Some e)
      | (s, Ok id) =>
          match pe_reply env with
          | Some e => Some (mkUdp (u_sessions s) (u_learned s) (u_next s) (u_opened s)
                              (u_orphans s ++ [id]) (u_replies s) (u_sent s), Some e)
          | None =>
              let s := mkUdp (u_sessions s) (u_learned s) (u_next s) (u_opened s) (u_orphans s)
                         (u_replies s ++ [(id, target, source)]) (u_sent s) in
              t ← session_add (u_sessions s) key (Some id) (pe_add env);
              Some (send_existing (set_sessions s t) key source target id payload (pe_send env))
          end
      end
  end.

(** [handleFirst]: the same without a reply socket; the packet session itself is
    put in the table and stays there when its first send fails. *)
Definition handleFirst (server : UDPServer) (s : udpState) (source target : AddrPort)
    (payload : bytes) (env : packetEnv) : option (udpState * option error) :=
  if negb (udp_has_direct server) || negb (udp_has_proxy server)
  then Some (s, Some (EMsg "UDP server is not configured")) else
  let key := mkSessionKey source target in
  let '(t, existing) := session_get (u_sessions s) key (pe_get env) (pe_use env) in
  let s := set_sessions s t in
  match existing with
  | Some id => Some (send_existing s key source target id payload (pe_send env))
  | None =>
      match open_packet server s key env with
      | (s, Err e) => Some (s, Some e)
      | (s, Ok id) =>
          t ← session_add (u_sessions s) key (Some id) (pe_add env);
          let s := set_sessions s t in
          Some (mkUdp (u_sessions s) (u_learned s) (u_next s) (u_opened s) (u_orphans s) (u_replies s)
                  (u_sent s ++ [mkSent id source payload (addrport_String target)]), pe_send env)
      end
  end.

(** One turn of the reply loop: a received payload, the outcome of writing it,
    and whether the context has ended. *)
Record replyTurn := mkTurn { rt_receive : result bytes; rt_write : option error; rt_ctx : bool }.

(** The loop of [forwardUDPReply]: the payloads written to the client, and
    whether the loop has returned. *)
Fixpoint reply_loop (turns : list replyTurn) : list bytes * bool :=
  match turns with
  | [] => ([], false)
  | turn :: turns =>
      match rt_receive turn with
      | Err _ => ([], true)
      | Ok payload =>
          match rt_write turn with
          | Some _ => ([], true)
          | None => if rt_ctx turn then ([payload], true)
                    else let '(written, ended) := reply_loop turns in (payload :: written, ended)
          end
      end
  end.

Definition forwardUDPReply (s : udpState) (key : sessionKey) (session : nat)
    (turns : list replyTurn) : udpState * list bytes :=
  let '(written, ended) := reply_loop turns in
  (if ended then set_sessions s (session_remove (u_sessions s) key (Some session)) else s, written).

(** One datagram of the loop of [Run]: a datagram without two IPv4 endpoints is
    skipped; the result says whether the loop goes on. *)
Definition receive_datagram (server : UDPServer) (s : udpState) (source target : option UDPAddr)
    (buffer : bytes) (n : nat) (ctx_done : bool) (env : packetEnv) : option (udpState * bool) :=
  match source, target with
  | Some _, Some _ =>
      match ipv4UDPEndpoint source, ipv4UDPEndpoint target with
      | Some sourceAddr, Some targetAddr =>
          '(s, err) ← handlePacket server s sourceAddr targetAddr (take n buffer) env;
          Some (s, negb (bool_decide (is_Some err) && ctx_done))
      | _, _ => Some (s, true)
      end
  | _, _ => Some (s, true)
  end.

(** One turn of the loop: what was read, and whether the context has ended when the
    loop looks at it. *)
Record udpTurn := mkUdpTurn {
  ud_read : result (option UDPAddr * option UDPAddr * bytes * nat); ud_ctx : bool; ud_env : packetEnv }.

(** The loop of [Run], which a read error ends (the watcher of the context closes
    the socket), and a failed datagram only once the context has ended; [None] for
    the result while it still runs. *)
Fixpoint udp_loop (server : UDPServer) (s : udpState) (turns : list udpTurn)
  : option (udpState * option (option error)) :=
  match turns with
  | [] => Some (s, None)
  | turn :: turns =>
      match ud_read turn with
      | Err e => Some (s, Some (if ud_ctx turn then None else Some e))
      | Ok (source, target, buffer, n) =>
          '(s, goes_on) ← receive_datagram server s source target buffer n (ud_ctx turn) (ud_env turn);
          if goes_on : bool then udp_loop server s turns else Some (s, Some None)
      end
  end.

(** ** Routing *)

Lemma shouldDirect_selectDialer (server : UDPServer) (classifier : Classifier)
    (learned : option LearningTable) (target : Addr) (now : time) :
  udp_classifier server = Some classifier →
  let '(table, direct) := shouldDirect server learned target now in
  selectDialer classifier learned target [] now =
    (table, if direct then RouteDirect else RouteProxy).
Proof.
  intros Hc. unfold shouldDirect, selectDialer. rewrite Hc. cbn [negb]. simpl negb. cbn iota.
  destruct (bool_decide (dec_source _ = _)); [done|].
  destruct learned as [table|]; [|done].
  destruct (Lookup table target now) as [table' l]. by destruct (ld_direct l), (ld_proxy l).
Qed.

(** TCP and UDP traffic to the same address takes the same way: with a
    classifier, the UDP decision is the one the TCP proxy takes for a connection
    without a sniffed name, and it leaves the learning table in the same state. *)
Theorem udp_route_is_tcp_route (server : UDPServer) (classifier : Classifier)
    (learned : option LearningTable) (target : Addr) (now : time) :
  udp_classifier server = Some classifier →
  let '(table, direct) := shouldDirect server learned target now in
  selectDialer classifier learned target [] now =
    (table, if direct then RouteDirect else RouteProxy).
Proof. apply shouldDirect_selectDialer. Qed.

(** ** The invariant *)

(** Every session of [t'] is one of [t], under the same key. *)
Definition sessions_within (t' t : sessionTable) : Prop :=
  ∀ k e', st_entries t' !! k = Some e' →
    ∃ e, st_entries t !! k = Some e ∧ se_session e = se_session e'.

#[export] Instance sessions_within_preorder : PreOrder sessions_within.
Proof.
  split; [by intros t k e He; eauto|]. intros t1 t2 t3 H1 H2 k e He.
  destruct (H1 k e He) as (e2 & He2 & <-). destruct (H2 k e2 He2) as (e3 & ? & <-). eauto.
Qed.

Lemma expireLocked_within t now :
  sessions_ok t → sessions_within (session_expireLocked t now) t.
Proof.
  intros Ht. destruct (session_expireLocked_spec t now _ Ht (reflexivity _)) as (_ & _ & _ & _ & He).
  intros k e. rewrite He. intros [? _]%map_lookup_filter_Some. eauto.
Qed.

Lemma get_within t key now now' :
  sessions_ok t → sessions_within (session_get t key now now').1 t.
Proof.
  intros Ht. pose proof (expireLocked_within t now Ht) as Hw. unfold session_get.
  set (t1 := session_expireLocked t now) in *. destruct (st_entries t1 !! key) as [e|] eqn:He; [|done].
  transitivity t1; [|done]. intros k e'. simpl. destruct (decide (k = key)) as [->|Hne].
  - rewrite lookup_insert_eq. intros [= <-]. eauto.
  - rewrite lookup_insert_ne by done. eauto.
Qed.

Lemma session_remove_within t key id : sessions_within (session_remove t key id) t.
Proof.
  unfold session_remove. destruct (st_entries t !! key) as [e|] eqn:He; [|done].
  case_bool_decide; [|done]. intros k e'. rewrite session_remove_entries.
  intros [_ ?]%lookup_delete_Some. eauto.
Qed.

Lemma get_entry t key now now' id :
  (session_get t key now now').2 = Some id →
  ∃ e, st_entries (session_get t key now now').1 !! key = Some e ∧ se_session e = Some id.
Proof.
  unfold session_get. set (t1 := session_expireLocked t now).
  destruct (st_entries t1 !! key) as [e|]; [|done]. simpl. intros He.
  eexists. by rewrite lookup_insert_eq.
Qed.

Record udp_ok (s : udpState) : Prop := {
  uo_sessions : sessions_ok (u_sessions s);
  uo_accounted : ∃ added, accounted added (u_sessions s) ∧
                   (λ x, x.1.1) <$> u_opened s ≡ₚ u_orphans s ++ added;
  uo_fresh : (λ x, x.1.1) <$> u_opened s = seq 0 (u_next s);
  uo_keys : ∀ k e id, st_entries (u_sessions s) !! k = Some e → se_session e = Some id →
              (id, sk_target k, sk_source k) ∈ u_replies s;
  uo_replies : ∀ id target source, (id, target, source) ∈ u_replies s →
                 ∃ way, (id, mkSessionKey source target, way) ∈ u_opened s;
  uo_sent : ∀ d, d ∈ u_sent s → ∃ target,
              (sd_session d, target, sd_source d) ∈ u_replies s ∧ sd_target d = addrport_String target }.

Lemma set_sessions_ok s t :
  udp_ok s → sessions_ok t → (∀ added, accounted added (u_sessions s) → accounted added t) →
  sessions_within t (u_sessions s) → udp_ok (set_sessions s t).
Proof.
  intros [H1 (added & H2 & H3) H4 H5 H6 H7] Ht Ha Hw. split; simpl; try done.
  - exists added. eauto.
  - intros k e id He Hs. destruct (Hw k e He) as (e0 & He0 & E). rewrite Hs in E. eauto.
Qed.

Lemma remove_udp_ok s key id :
  udp_ok s → udp_ok (set_sessions s (session_remove (u_sessions s) key (Some id))).
Proof.
  intros Hs. pose proof (uo_sessions s Hs) as Ht.
  apply set_sessions_ok; [done| | |apply session_remove_within]; unfold session_remove;
    destruct (st_entries (u_sessions s) !! key); try case_bool_decide; try done.
  - by apply remove_sessions_ok.
  - intros added Ha. by apply remove_accounted.
Qed.

Lemma get_udp_ok s key now now' :
  udp_ok s → udp_ok (set_sessions s (session_get (u_sessions s) key now now').1).
Proof.
  intros Hs. pose proof (uo_sessions s Hs) as Ht. apply set_sessions_ok; [done| | |by apply get_within].
  - by apply (session_get_ok _ key now now' _ Ht (reflexivity _)).
  - intros added Ha. by apply session_get_ok.
Qed.

Lemma send_udp_ok s source target id payload outcome :
  udp_ok s → (id, target, source) ∈ u_replies s →
  udp_ok (send_existing s (mkSessionKey source target) source target id payload outcome).1.
Proof.
  intros Hs Hid. unfold send_existing.
  assert (Hs' : udp_ok (mkUdp (u_sessions s) (u_learned s) (u_next s) (u_opened s) (u_orphans s) (u_replies s)
                          (u_sent s ++ [mkSent id source payload (addrport_String target)]))).
  { destruct Hs as [H1 H2 H3 H4 H5 H6]. split; simpl; try done.
    intros d [Hi|Hi%list_elem_of_singleton]%elem_of_app; [by eapply H6|]. subst d. eauto. }
  destruct outcome; [exact (remove_udp_ok _ _ id Hs')|done].
Qed.

(** Opening a packet session: it is handed out, and owed to nobody yet. *)
Lemma open_packet_spec server s key env s' r :
  open_packet server s key env = (s', r) →
  u_sessions s' = u_sessions s ∧ u_sent s' = u_sent s ∧ u_orphans s' = u_orphans s ∧ u_replies s' = u_replies s ∧
  match r with
  | Ok id => id = u_next s ∧ u_next s' = S (u_next s) ∧
             ∃ way, u_opened s' = u_opened s ++ [(id, key, way)] ∧ pe_open env way = None ∧
               way = if (shouldDirect server (u_learned s) (ap_addr (sk_target key)) (pe_lookup env)).2
                     then RouteDirect else RouteProxy
  | Err _ => u_next s' = u_next s ∧ u_opened s' = u_opened s
  end.
Proof.
  unfold open_packet. destruct (shouldDirect _ _ _ _) as [learned direct]. simpl.
  destruct (pe_open env _) eqn:E; intros [= <- <-]; simpl; [done|].
  repeat (split; [done|]). eauto.
Qed.

(** An opened session that is closed at once, or handed to the table. *)
Lemma opened_udp_ok s s' id key way t orphans replies :
  udp_ok s → sessions_ok t →
  u_sessions s' = t → u_sent s' = u_sent s → u_next s' = S (u_next s) → id = u_next s →
  u_opened s' = u_opened s ++ [(id, key, way)] → u_orphans s' = u_orphans s ++ orphans →
  u_replies s' = u_replies s ++ replies → (∀ r, r ∈ replies → r = (id, sk_target key, sk_source key)) →
  (∀ k e i, st_entries t !! k = Some e → se_session e = Some i →
     (i, sk_target k, sk_source k) ∈ replies ∨
     ∃ e0, st_entries (u_sessions s) !! k = Some e0 ∧ se_session e0 = Some i) →
  (∀ added, accounted added (u_sessions s) →
     ∃ added', accounted added' t ∧ added' ++ orphans ≡ₚ added ++ [id]) →
  udp_ok s'.
Proof.
  intros [H1 (added & H2 & H3) H4 H5 H6 H7] Ht <- E1 E2 -> E3 E4 E5 Hrep Hk Ha. split.
  - done.
  - destruct (Ha added H2) as (added' & Ha1 & Ha2). exists added'. split; [done|].
    rewrite E3, E4, fmap_app, H3. simpl. rewrite <- !app_assoc. f_equiv.
    rewrite (Permutation_app_comm orphans). by symmetry.
  - rewrite E3, E2, fmap_app, H4, seq_S. done.
  - intros k e i He Hi. rewrite E5. apply elem_of_app.
    destruct (Hk k e i He Hi) as [?|(e0 & He0 & Hi0)]; [by right|left; eauto].
  - intros i l r. rewrite E5, E3. setoid_rewrite elem_of_app. intros [Hin|Hin].
    + destruct (H6 i l r Hin) as [w Hw]. exists w. by left.
    + apply Hrep in Hin as [= -> -> ->]. exists way. right. destruct key. by apply list_elem_of_singleton.
  - intros d. rewrite E1, E5. setoid_rewrite elem_of_app. intros Hin.
    destruct (H7 d Hin) as (l & Hl & ->). exists l. split; [by left|done].
Qed.

(** A datagram without a session: the packet session is opened, and with a reply
    socket handed to the table. *)
Lemma first_packet_ok server s source target payload env :
  udp_ok s →
  let key := mkSessionKey source target in
  match open_packet server s key env with
  | (s, Err e) => udp_ok s
  | (s, Ok id) =>
      udp_ok (mkUdp (u_sessions s) (u_learned s) (u_next s) (u_opened s) (u_orphans s ++ [id]) (u_replies s) (u_sent s)) ∧
      ∃ t, session_add (u_sessions s) key (Some id) (pe_add env) = Some t ∧
        udp_ok (send_existing (mkUdp t (u_learned s) (u_next s) (u_opened s) (u_orphans s)
                                 (u_replies s ++ [(id, target, source)]) (u_sent s))
                  key source target id payload (pe_send env)).1
  end.
Proof.
  intros Hs key. destruct (open_packet server s key env) as [s2 r] eqn:Eo.
  apply open_packet_spec in Eo as (E1 & E2 & E3 & E6 & E4). destruct r as [id|e].
  2:{ destruct E4 as [E4 E5], Hs as [G1 G2 G3 G4 G5 G6]. by split; rewrite ?E1, ?E2, ?E3, ?E4, ?E5, ?E6. }
  destruct E4 as (Hid & E4 & way & E5 & _). pose proof (uo_sessions _ Hs) as Ht. split.
  - eapply (opened_udp_ok s _ id key way (u_sessions s) [id] []); simpl; try done.
    { by rewrite E3. } { by rewrite E6, app_nil_r. } { intros r Hr. by apply not_elem_of_nil in Hr. } { eauto. }
    intros added Ha. by exists added.
  - rewrite E1. destruct (session_add_ok (u_sessions s) key (Some id) (pe_add env) _ Ht (reflexivity _))
      as (t2 & Hadd & A1 & _ & _ & _ & A5 & A6 & _).
    exists t2. split; [done|]. apply send_udp_ok; [|apply elem_of_app; right; by apply list_elem_of_singleton].
    eapply (opened_udp_ok s _ id key way t2 [] [(id, target, source)]); simpl; try done.
    + by rewrite app_nil_r.
    + by rewrite E6.
    + by intros r ->%list_elem_of_singleton.
    + intros k e i He Hi. destruct (decide (k = key)) as [->|Hne].
      * left. rewrite A5 in He. simplify_eq/=. by apply list_elem_of_singleton.
      * right. destruct (expireLocked_within _ (pe_add env) Ht k e) as (e0 & ? & E0).
        -- eapply lookup_weaken; [|exact A6]. by rewrite lookup_delete_ne.
        -- rewrite Hi in E0. eauto.
    + intros added Ha. exists (added ++ [id]). rewrite app_nil_r. split; [|done].
      destruct (session_add_ok (u_sessions s) key (Some id) (pe_add env) _ Ht Ha) as (t3 & Hadd3 & _ & ? & _).
      by simplify_eq.
Qed.

Lemma handlePacket_ok server s source target payload env :
  udp_ok s →
  ∃ s' err, handlePacket server s source target payload env = Some (s', err) ∧ udp_ok s'.
Proof.
  intros Hs. unfold handlePacket. set (key := mkSessionKey source target).
  pose proof (get_udp_ok s key (pe_get env) (pe_use env) Hs) as Hg.
  pose proof (get_entry (u_sessions s) key (pe_get env) (pe_use env)) as Hex.
  destruct (session_get _ _ _ _) as [t existing]. simpl in Hg, Hex.
  destruct existing as [id|].
  - destruct (Hex id eq_refl) as (e & He & Hid). pose proof (uo_keys _ Hg key e id He Hid) as Hw.
    pose proof (send_udp_ok _ source target id payload (pe_send env) Hg Hw) as Hsend. fold key in Hsend.
    destruct (send_existing _ _ _ _ _ _ _). eauto.
  - destruct (_ || _); [eauto|].
    pose proof (first_packet_ok server (set_sessions s t) source target payload env Hg) as Hfirst.
    cbn zeta in Hfirst. fold key in Hfirst.
    destruct (open_packet server _ key env) as [s2 [id|e]]; [|eauto].
    destruct Hfirst as [H1 (t2 & Hadd & H2)]. destruct (pe_reply env) as [e|]; [eauto|].
    cbn [u_sessions]. rewrite Hadd. cbn [mbind option_bind].
    unfold set_sessions. cbn [u_learned u_next u_opened u_orphans u_replies u_sent].
    destruct (send_existing _ _ _ _ _ _ _). eauto.
Qed.

(** What one datagram adds to the record of sends: itself, at most once. *)
Lemma handlePacket_sends server s source target payload env s' err :
  handlePacket server s source target payload env = Some (s', err) →
  u_sent s' = u_sent s ∨
  ∃ id, u_sent s' = u_sent s ++ [mkSent id source payload (addrport_String target)].
Proof.
  assert (Hsend : ∀ s0 key id, u_sent s0 = u_sent s →
    u_sent (send_existing s0 key source target id payload (pe_send env)).1 =
      u_sent s ++ [mkSent id source payload (addrport_String target)]).
  { intros s0 key id <-. unfold send_existing. by destruct (pe_send env). }
  unfold handlePacket. destruct (session_get _ _ _ _) as [t [id|]].
  { intros [= H]. right. exists id. rewrite <- (Hsend (set_sessions s t) (mkSessionKey source target) id eq_refl).
    by rewrite H. }
  destruct (_ || _); [intros [= <- _]; by left|].
  destruct (open_packet server _ _ env) as [s2 r] eqn:Eo. apply open_packet_spec in Eo as (_ & E2 & _).
  destruct r as [id|e]; [|intros [= <- _]; by left].
  destruct (pe_reply env); [intros [= <- _]; by left|]. cbn [u_sessions].
  destruct (session_add _ _ _ _) as [t2|]; [|done]. cbn [mbind option_bind]. intros [= H]. right. exists id.
  erewrite <- Hsend; [by rewrite H|done].
Qed.

(** ** Any sequence of datagrams and ended reply loops *)

Inductive udp_event :=
| Datagram (source target : option UDPAddr) (buffer : bytes) (n : nat) (ctx_done : bool) (env : packetEnv)
| ReplyLoop (key : sessionKey) (session : nat) (turns : list replyTurn).

Definition udp_step (server : UDPServer) (s : udpState) (e : udp_event) : option udpState :=
  match e with
  | Datagram source target buffer n ctx_done env =>
      fst <$> receive_datagram server s source target buffer n ctx_done env
  | ReplyLoop key session turns => Some (forwardUDPReply s key session turns).1
  end.

Definition udp_start (capacity : Z) (idle : duration) (learned : option LearningTable) : udpState :=
  mkUdp (newSessionTable capacity idle) learned 0 [] [] [] [].

Inductive udp_reachable (server : UDPServer) (capacity : Z) (idle : duration)
    (learned : option LearningTable) : udpState → Prop :=
| udp_begin : udp_reachable server capacity idle learned (udp_start capacity idle learned)
| udp_next s e s' : udp_reachable server capacity idle learned s →
    udp_step server s e = Some s' → udp_reachable server capacity idle learned s'.

Lemma udp_start_ok capacity idle learned : udp_ok (udp_start capacity idle learned).
Proof.
  split; simpl; try done.
  - apply new_sessions_ok.
  - exists []. unfold accounted, live_sessions. simpl. by rewrite map_to_list_empty.
  - intros id l r H. by apply not_elem_of_nil in H.
  - intros d H. by apply not_elem_of_nil in H.
Qed.

Lemma udp_step_ok server s e : udp_ok s → ∃ s', udp_step server s e = Some s' ∧ udp_ok s'.
Proof.
  intros Hs. destruct e as [source target buffer n ctx env|key session turns]; simpl.
  - unfold receive_datagram. destruct source as [a|]; [|eauto]. destruct target as [b|]; [|eauto].
    destruct (ipv4UDPEndpoint (Some a)) as [x|]; [|eauto].
    destruct (ipv4UDPEndpoint (Some b)) as [y|]; [|eauto].
    destruct (handlePacket_ok server s x y (take n buffer) env Hs) as (s' & err & -> & Hs'). eauto.
  - unfold forwardUDPReply. destruct (reply_loop turns) as [written []]; simpl; [|eauto].
    eexists. split; [done|]. by apply remove_udp_ok.
Qed.

Lemma udp_step_sends server s e s' :
  udp_step server s e = Some s' → u_sent s' = u_sent s ∨
  ∃ source target buffer n ctx env x y id,
    e = Datagram source target buffer n ctx env ∧
    ipv4UDPEndpoint source = Some x ∧ ipv4UDPEndpoint target = Some y ∧
    u_sent s' = u_sent s ++ [mkSent id x (take n buffer) (addrport_String y)].
Proof.
  destruct e as [source target buffer n ctx env|key session turns]; simpl.
  - unfold receive_datagram. destruct source as [a|]; [|intros [= <-]; by left].
    destruct target as [b|]; [|intros [= <-]; by left].
    destruct (ipv4UDPEndpoint (Some a)) as [x|] eqn:Ex; [|intros [= <-]; by left].
    destruct (ipv4UDPEndpoint (Some b)) as [y|] eqn:Ey; [|intros [= <-]; by left].
    destruct (handlePacket _ _ _ _ _ _) as [[s1 err]|] eqn:H; [|done]. intros [= <-].
    apply handlePacket_sends in H as [H|[id H]]; [by left|right].
    by exists (Some a), (Some b), buffer, n, ctx, env, x, y, id.
  - unfold forwardUDPReply. destruct (reply_loop turns) as [written []]; intros [= <-]; by left.
Qed.

Lemma udp_reachable_ok server capacity idle learned s :
  udp_reachable server capacity idle learned s → udp_ok s.
Proof.
  induction 1 as [|s e s' _ IH Hstep]; [apply udp_start_ok|].
  destruct (udp_step_ok server s e IH) as (s1 & ? & ?). by simplify_eq.
Qed.

(** The loop never panics, keeps the sessions accounted for, and is stopped only by
    its context or by an error of its own socket, never by a datagram. *)
Lemma udp_loop_stops server s turns : udp_ok s →
  ∃ s' out, udp_loop server s turns = Some (s', out) ∧ udp_ok s' ∧
    (out = Some None → ∃ turn, turn ∈ turns ∧ ud_ctx turn = true) ∧
    (∀ e, out = Some (Some e) → ∃ turn, turn ∈ turns ∧ ud_read turn = Err e ∧ ud_ctx turn = false).
Proof.
  revert s. induction turns as [|t turns IH]; intros s Hs; cbn [udp_loop].
  { exists s, None. split; [done|]. split; [done|]. split; done. }
  destruct (ud_read t) as [[[[source target] buffer] n]|e] eqn:Et.
  - destruct (udp_step_ok server s (Datagram source target buffer n (ud_ctx t) (ud_env t)) Hs) as (s1 & H1 & Hs1).
    simpl in H1. destruct (receive_datagram _ _ _ _ _ _ _ _) as [[s2 go]|] eqn:Er; [|done]. injection H1 as ->.
    cbn [mbind option_bind]. destruct go.
    + destruct (IH s1 Hs1) as (s' & out & H2 & Hs' & Hn & He). exists s', out. split; [done|]. split; [done|]. split.
      * intros Ho. destruct (Hn Ho) as (x & Hx & ?). exists x. split; [by apply list_elem_of_further|done].
      * intros e Ho. destruct (He e Ho) as (x & Hx & ? & ?). exists x. split; [by apply list_elem_of_further|done].
    + exists s1, (Some None). split; [done|]. split; [done|]. split; [|done]. intros _.
      exists t. split; [apply list_elem_of_here|]. unfold receive_datagram in Er.
      destruct source, target; try done. destruct (ipv4UDPEndpoint _); [|done]. destruct (ipv4UDPEndpoint _); [|done].
      destruct (handlePacket _ _ _ _ _ _) as [[s3 err]|]; [|done]. simpl in Er. injection Er as -> Er.
      by destruct (bool_decide _), (ud_ctx t).
  - exists s, (Some (if ud_ctx t then None else Some e)). split; [done|]. split; [done|]. destruct (ud_ctx t) eqn:Ec; split; try done.
    + intros _. exists t. split; [apply list_elem_of_here|done].
    + intros e' [= <-]. exists t. split; [apply list_elem_of_here|done].
Qed.

(** C10: UDP flows never mix and no packet session leaks: after any sequence of
    datagrams, send failures, expiries and ended reply loops, the packet sessions
    ever opened are exactly the live ones and the closed ones, each closed once;
    a reply socket belongs to a session opened for its client and its target;
    every datagram was sent to its target on a session whose reply socket goes to
    the client it came from; a step sends at most the datagram it received, from
    its source to its target; and no next event panics. *)
Theorem udp_flows_isolated (server : UDPServer) (capacity : Z) (idle : duration)
    (learned : option LearningTable) (s : udpState) :
  udp_reachable server capacity idle learned s →
  (λ x, x.1.1) <$> u_opened s
    ≡ₚ u_orphans s ++ st_closed (u_sessions s) ++ live_sessions (u_sessions s) ∧
  NoDup ((λ x, x.1.1) <$> u_opened s) ∧
  (∀ id target source, (id, target, source) ∈ u_replies s →
     ∃ way, (id, mkSessionKey source target, way) ∈ u_opened s) ∧
  (∀ d, d ∈ u_sent s → ∃ target,
     (sd_session d, target, sd_source d) ∈ u_replies s ∧ sd_target d = addrport_String target) ∧
  (∀ key e id, st_entries (u_sessions s) !! key = Some e → se_session e = Some id →
     (id, sk_target key, sk_source key) ∈ u_replies s) ∧
  (∀ e s', udp_step server s e = Some s' → u_sent s' = u_sent s ∨
     ∃ source target buffer n ctx env x y id,
       e = Datagram source target buffer n ctx env ∧
       ipv4UDPEndpoint source = Some x ∧ ipv4UDPEndpoint target = Some y ∧
       u_sent s' = u_sent s ++ [mkSent id x (take n buffer) (addrport_String y)]) ∧
  (∀ e, ∃ s', udp_step server s e = Some s').
Proof.
  intros Hr. apply udp_reachable_ok in Hr as Hs. destruct (Hs) as [_ (added & Ha & Ho) Hf Hk Hrep Hsent].
  split; [by rewrite Ho, Ha|]. split; [rewrite Hf; apply NoDup_seq|]. do 3 (split; [done|]).
  split; [by apply udp_step_sends|]. intros e. destruct (udp_step_ok server s e Hs) as (s' & ? & _). eauto.
Qed.

(** The first datagram of a flow opens one packet session the way the policy
    prescribes for its target address and is sent on it unchanged; the next
    datagram within the idle time is sent on the same session, without a new
    decision. *)
Theorem first_datagram_opens_policy_session (data : Data) (rules : list RuleConfig) (cl : Classifier)
    (s : udpState) (table : LearningTable) (source target : AddrPort) (payload : bytes)
    (env : packetEnv) :
  New data rules = Ok cl → Forall prefix4_ok (Prefixes data) → byte4 (ap_addr target) →
  udp_ok s → u_learned s = Some table → learning_ok table →
  (session_get (u_sessions s) (mkSessionKey source target) (pe_get env) (pe_use env)).2 = None →
  pe_open env = (λ _, None) → pe_reply env = None → pe_send env = None →
  let key := mkSessionKey source target in
  let server := mkUDPServer (Some cl) true true in
  ∃ s' way,
    handlePacket server s source target payload env = Some (s', None) ∧
    route_spec data rules (lt_entries table) (pe_lookup env) (ap_addr target) [] way ∧
    u_opened s' = u_opened s ++ [(u_next s, key, way)] ∧
    u_sent s' = u_sent s ++ [mkSent (u_next s) source payload (addrport_String target)] ∧
    ∀ payload' env', pe_get env' < pe_add env + st_idle (u_sessions s') → pe_send env' = None →
      ∃ s'', handlePacket server s' source target payload' env' = Some (s'', None) ∧
        u_opened s'' = u_opened s' ∧
        u_sent s'' = u_sent s' ++ [mkSent (u_next s) source payload' (addrport_String target)].
Proof.
  intros Hnew Hpre Hb Hs Hl Hlok Hget Hopen Hreply Hsend key server.
  pose proof (get_udp_ok s key (pe_get env) (pe_use env) Hs) as Hg. unfold handlePacket. fold key. fold key in Hget.
  destruct (session_get (u_sessions s) key (pe_get env) (pe_use env)) as [t existing].
  simpl in Hget, Hg. subst existing. cbn [negb orb udp_has_direct udp_has_proxy server].
  unfold open_packet. simpl u_learned. rewrite Hl, Hopen, Hreply, Hsend. simpl sk_target.
  pose proof (shouldDirect_selectDialer server cl (Some table) (ap_addr target) (pe_lookup env) eq_refl) as Hr.
  pose proof (selectDialer_spec data rules cl table (ap_addr target) [] (pe_lookup env) Hnew Hpre Hb Hlok) as Hsel.
  destruct (shouldDirect server (Some table) (ap_addr target) (pe_lookup env)) as [learned direct].
  rewrite Hr in Hsel. destruct Hsel as [Hroute _]. cbn [u_sessions set_sessions u_next].
  destruct (session_add_ok t key (Some (u_next s)) (pe_add env) _ (uo_sessions _ Hg) (reflexivity _))
    as (t2 & -> & A1 & _ & _ & A4 & A5 & _). cbn [mbind option_bind send_existing].
  eexists _, _. split; [done|]. split; [done|]. simpl. split; [done|]. split; [done|].
  intros payload' env' Htime Hsend'.
  pose proof (get_active t2 key (pe_get env') (pe_use env') _ A1 A5) as Hga.
  simpl in Hga. rewrite (proj2 (Z.ltb_lt _ _)) in Hga by done.
  destruct (session_get t2 key (pe_get env') (pe_use env')) as [t3 ex]. simpl in Hga. subst ex.
  rewrite Hsend'. eexists. split; [done|]. done.
Qed.

(** The reply loop writes the received payloads in order, up to the first failed
    receive or write or the end of the context; when it returns, the session is
    removed, and only if it is still the one of its key. *)
Lemma forwardUDPReply_spec (s : udpState) (key : sessionKey) (session : nat) (payloads : list bytes)
    (last : replyTurn) (rest : list replyTurn) (e : error) :
  rt_receive last = Err e →
  forwardUDPReply s key session (((λ p, mkTurn (Ok p) None false) <$> payloads) ++ last :: rest) =
    (set_sessions s (session_remove (u_sessions s) key (Some session)), payloads).
Proof.
  intros He. unfold forwardUDPReply.
  assert (E : reply_loop (((λ p, mkTurn (Ok p) None false) <$> payloads) ++ last :: rest) = (payloads, true)).
  { induction payloads as [|p ps IH]; [simpl; by rewrite He|].
    rewrite fmap_cons. cbn [app reply_loop rt_receive rt_write rt_ctx]. by rewrite IH. }
  by rewrite E.
Qed.

(** [Close] runs once: a second call closes nothing. *)
Lemma udpSession_Close_once (s : udpSession) :
  us_done s = false →
  (udpSession_Close s).2 = match us_reply s with Some r => [r] | None => [] end ++ [us_packet s] ∧
  (udpSession_Close (udpSession_Close s).1).2 = [].
Proof. unfold udpSession_Close. by intros ->. Qed.

(** Only IPv4 datagrams with a port are accepted, an IPv4-mapped address as the
    IPv4 address it stands for. *)
Lemma ipv4UDPEndpoint_accepts (a b c d port : Z) :
  1 ≤ port ≤ 65535 →
  ipv4UDPEndpoint (Some (mkUDPAddr [a; b; c; d] port)) = Some (mkAddrPort (Addr4 a b c d) port) ∧
  ipv4UDPEndpoint (Some (mkUDPAddr (mapped_prefix ++ [a; b; c; d]) port)) =
    Some (mkAddrPort (Addr4 a b c d) port).
Proof.
  intros Hp. unfold ipv4UDPEndpoint. cbn [ua_port ua_ip].
  rewrite (proj2 (Z.ltb_ge port 1)), (proj2 (Z.ltb_ge 65535 port)) by lia. simpl.
  unfold u16. rewrite Z.mod_small by lia. done.
Qed.

Lemma ipv4UDPEndpoint_only_ipv4 addr ap :
  ipv4UDPEndpoint addr = Some ap → Is4 (ap_addr ap) = true ∧ 1 ≤ ap_port ap ≤ 65535.
Proof.
  unfold ipv4UDPEndpoint. destruct addr as [[ip port]|]; [|done]. cbn [ua_port ua_ip].
  destruct (_ || _) eqn:E; [done|]. destruct (AddrFromSlice ip) as [x|]; [|done].
  destruct (Is4 (Unmap x)) eqn:E4; [|done]. intros [= <-]. bools. simpl.
  unfold u16. rewrite Z.mod_small by lia. split; [done|lia].
Qed.

(** ** Witnesses *)

Lemma udp_route_is_tcp_route_witness :
  selectDialer sample_classifier None (Addr4 8 8 4 4) [] 0 = (None, RouteDirect).
Proof.
  exact (udp_route_is_tcp_route (mkUDPServer (Some sample_classifier) true true) sample_classifier
           None (Addr4 8 8 4 4) 0 eq_refl).
Defined.

Definition sample_env : packetEnv := mkPacketEnv 1 1 1 1 (λ _, None) None None.
Definition sample_source : AddrPort := mkAddrPort (Addr4 192 168 1 2) 5000.
Definition sample_target : AddrPort := mkAddrPort (Addr4 8 8 4 4) 53.
Definition sample_udp_server : UDPServer := mkUDPServer (Some sample_classifier) true true.

Definition sample_datagram : udp_event :=
  Datagram (Some (mkUDPAddr [192; 168; 1; 2] 5000)) (Some (mkUDPAddr [8; 8; 4; 4] 53))
    [1; 2; 3] 2 false sample_env.

Lemma udp_flows_isolated_witness :
  ∃ s, udp_step sample_udp_server (udp_start 4 Second None) sample_datagram = Some s ∧
       u_sent s = [mkSent 0 sample_source [1; 2] (str "8.8.4.4:53")] ∧ ∃ s', udp_step sample_udp_server s sample_datagram = Some s'.
Proof.
  destruct (udp_step_ok sample_udp_server (udp_start 4 Second None) sample_datagram
    (udp_start_ok _ _ _)) as (s & Hs & _).
  exists s. split; [exact Hs|]. split; [vm_compute in Hs; injection Hs as <-; reflexivity|].
  apply (udp_flows_isolated sample_udp_server 4 Second None s).
  exact (udp_next _ _ _ _ _ _ _ (udp_begin _ _ _ _) Hs).
Defined.

Lemma first_datagram_opens_policy_session_witness :
  ∃ s' way, handlePacket sample_udp_server (udp_start 4 Second (Some sample_table)) sample_source
              sample_target [7] sample_env = Some (s', None) ∧
            u_opened s' = [(0%nat, mkSessionKey sample_source sample_target, way)] ∧ way = RouteDirect.
Proof.
  destruct (first_datagram_opens_policy_session sample_data sample_rules sample_classifier
    (udp_start 4 Second (Some sample_table)) sample_table sample_source sample_target [7] sample_env)
    as (s' & way & H1 & H2 & H3 & _); try reflexivity.
  - exact sample_prefixes_ok.
  - simpl. lia.
  - apply udp_start_ok.
  - exact sample_table_ok.
  - exists s', way. split; [exact H1|]. split; [exact H3|]. vm_compute in H2. exact H2.
Defined.
