(* ===== verification/DnsRouting.v ===== *)
(** * From a DNS answer to a route: [newApplication] and [learningAdapter] of
    [cmd/hy2route-core/application.go]

    The resolver of the application reports what it learned to the table that
    the data plane consults.  This file puts the resolver, the adapter, the
    firewall's learner, the table and the routing decisions together: the
    addresses of an answer are routed as the name was. *)

From S2P Require Import Prelude GoStrings GoNet Domains IPv4Tree Sha256 Dataset GoCodec.
From S2P Require Import Config Classifier GoHeap Lru Learning Firewall DnsCache SessionTable.
From S2P Require Import SniffParse SniffPeek DnsMsg Resolver AddrText Tcp Udp.

(** [learningAdapter.Observe]: through the firewall's learner when there is one;
    [replace] is its set client, [clock] lists the readings of its clock. *)
Definition learningAdapter_Observe (replace : option (list SetUpdate → option error))
    (table : LearningTable) (o : Observation) (clock : list time)
  : option (LearningTable * option error) :=
  match replace with
  | Some replace => Learner_Observe replace table o clock
  | None => Observe table o
  end.

(** The learner of the resolver: the table, or [None] after a panic.  The resolver
    drops the error. *)
Definition report (replace : option (list SetUpdate → option error)) (clock : list time)
    (learner : option LearningTable) (o : Observation) : option LearningTable :=
  table ← learner; fst <$> learningAdapter_Observe replace table o clock.

(** The resolver [newApplication] builds. *)
Definition app_resolver (cfg : Config) (classifier : Classifier) (domestic trusted : exchanger)
    (learner : LearningTable) : Resolver (option LearningTable) :=
  NewResolver (Some classifier) (Some domestic) (Some trusted) (Some (Some learner))
    (lim_dns_cache (cfg_limits cfg)) (3 * Second).

(** ** An observation that stays *)

(** The key is valid until after [now] and at most [n] keys are newer. *)
Definition held (t : LearningTable) (k : observationKey) (now : time) (n : nat) : Prop :=
  learning_ok t ∧ (∃ e, lt_entries t !! k = Some e ∧ now < e) ∧
  ∃ older newer, lt_lru t = older ++ k :: newer ∧ (length newer ≤ n)%nat.

Lemma held_weaken t k now n n' : held t k now n → (n ≤ n')%nat → held t k now n'.
Proof. intros (? & ? & older & newer & ? & ?) ?. split; [done|]. split; [done|]. exists older, newer. split; [done|lia]. Qed.

Lemma held_expire t k now n s :
  held t k now n → s ≤ now → held (learning_expireLocked t s).1 k now n.
Proof.
  intros (Hok & (e & Hk & He) & older & newer & Hl & Hn) Hs.
  destruct (expireLocked_spec t s Hok) as [Hok' _ Hent Hlru _].
  assert (Hk' : live s (lt_entries t) !! k = Some e).
  { apply map_lookup_filter_Some. split; [done|simpl; lia]. }
  split; [done|]. split; [exists e; by rewrite Hent|].
  rewrite Hlru, Hl, list.filter_app, filter_cons_True by (apply elem_of_dom; eauto).
  eexists _, _. split; [done|]. etrans; [apply list.length_filter|done].
Qed.

Lemma length_recorded seen ips : (length (recorded_ips seen ips) ≤ length ips)%nat.
Proof.
  revert seen. induction ips as [|ip ips IH]; intros seen; simpl; [lia|].
  destruct (Is4 ip); [|simpl; lia]. case_bool_decide; simpl; [specialize (IH seen)|specialize (IH ({[ip]} ∪ seen))]; lia.
Qed.

Lemma recorded_all ips seen ip :
  forallb Is4 ips = true → ip ∈ ips → ip ∉ seen → ip ∈ recorded_ips seen ips.
Proof.
  revert seen. induction ips as [|x ips IH]; intros seen H4 Hi Hs; [by apply not_elem_of_nil in Hi|].
  simpl in *. apply andb_prop in H4 as [-> H4]. destruct (decide (ip = x)) as [->|Hne].
  - rewrite bool_decide_false by done. apply list_elem_of_here.
  - apply elem_of_cons in Hi as [?|Hi]; [done|]. case_bool_decide; [by apply IH|].
    apply list_elem_of_further, IH; [done..|]. set_solver.
Qed.

(** An observation that is still valid at [now] and fits does not push it out. *)
Lemma held_observe t k now n o t' err :
  held t k now n → now < obs_expires o →
  (n + length (obs_ips o) < Z.to_nat (lt_capacity t))%nat →
  Observe t o = Some (t', err) → held t' k now (n + length (obs_ips o)).
Proof.
  intros H Ho Hc. pose proof H as (Hok & (e & Hk & He) & older & newer & Hl & Hn). unfold Observe.
  destruct (_ && _); [intros [= <- _]; eapply held_weaken; [done|lia]|].
  destruct (_ =? 0); [intros [= <- _]; eapply held_weaken; [done|lia]|].
  destruct (NormalizeDomain _) as [d|]; [|intros [= <- _]; eapply held_weaken; [done|lia]].
  destruct (observe_ips_spec t d (obs_action o) (obs_expires o) ∅ (obs_ips o) Hok)
    as (t1 & -> & [Hok1 _ Hlru Hent]). intros [= <- _].
  set (ks := mkKey d _ <$> _) in *.
  assert (Hlen : (length ks ≤ length (obs_ips o))%nat).
  { unfold ks. rewrite length_fmap. apply length_recorded. }
  unfold lru_after in Hlru. rewrite Hl in Hlru.
  destruct (touches_keep (Z.to_nat (lt_capacity t)) older newer k ks) as (o' & n' & E & Hn'); [lia|].
  rewrite E in Hlru. split; [done|]. split; [|exists o', n'; split; [done|lia]].
  exists (if decide (k ∈ ks) then obs_expires o else e).
  rewrite Hent, decide_True by (rewrite Hlru; set_solver). by destruct (decide (k ∈ ks)).
Qed.

(** What a sequence of operations leaves; [None] is a panic. *)
Definition learning_runs (t : LearningTable) (ops : list learning_op) : option LearningTable :=
  foldl (λ t op, t ≫= λ t, learning_run t op) (Some t) ops.

(** Operations up to a time: the clock they read is not after it, and what they
    observe is still valid then. *)
Definition until (now : time) (op : learning_op) : Prop :=
  match op with
  | OpObserve o => now < obs_expires o
  | OpLookup _ s | OpExpire s | OpSnapshot s => s ≤ now
  end.

(** The number of addresses the operations observe. *)
Definition op_ips (op : learning_op) : nat :=
  match op with OpObserve o => length (obs_ips o) | _ => 0 end.

Lemma held_run t op t' k now n :
  held t k now n → until now op → (n + op_ips op < Z.to_nat (lt_capacity t))%nat →
  learning_run t op = Some t' → held t' k now (n + op_ips op) ∧ lt_capacity t' = lt_capacity t.
Proof.
  intros H Hu Hc Hr. pose proof H as (Hok & _).
  destruct (learning_run_ok t op Hok) as (t1 & Hr' & _ & Hcap). simplify_eq. split; [|done].
  destruct op as [o|ip s|s|s]; simpl in *; rewrite ?Nat.add_0_r.
  - destruct (Observe t o) as [[t2 err]|] eqn:E; [|done]. simpl in Hr. simplify_eq. by eapply held_observe.
  - simplify_eq. by apply held_expire.
  - simplify_eq. by apply held_expire.
  - simplify_eq. by apply held_expire.
Qed.

Lemma held_runs ops t t' k now n :
  held t k now n → Forall (until now) ops →
  (n + sum_list_with op_ips ops < Z.to_nat (lt_capacity t))%nat →
  learning_runs t ops = Some t' → held t' k now (n + sum_list_with op_ips ops).
Proof.
  revert t n. induction ops as [|op ops IH]; intros t n H Hu Hc Hr; simpl in *.
  { unfold learning_runs in Hr. simpl in Hr. simplify_eq. by rewrite Nat.add_0_r. }
  apply list.Forall_cons in Hu as [Hu Hus]. unfold learning_runs in Hr. simpl in Hr.
  destruct (learning_run t op) as [t1|] eqn:E.
  - destruct (held_run t op t1 k now n H Hu ltac:(lia) E) as [H1 Hcap].
    rewrite Nat.add_assoc. apply (IH t1); [done|done|rewrite Hcap; lia|exact Hr].
  - exfalso. clear -Hr. induction ops; [done|]. simpl in Hr. auto.
Qed.

Lemma held_reconcile ips clock t k now n :
  held t k now n → Forall (λ s, s ≤ now) clock → held (reconcile_updates t ips clock).1 k now n.
Proof.
  revert t clock. induction ips as [|ip ips IH]; intros t [|s clock] H Hc; simpl; try done.
  apply list.Forall_cons in Hc as [Hs Hc].
  pose proof (IH _ clock (held_expire t k now n s H Hs) Hc) as H1.
  by destruct (reconcile_updates _ ips clock).
Qed.

(** ** Learning through the adapter *)

Lemma learningAdapter_holds replace clock t o domain ip now :
  learning_ok t → obs_action o ≠ Unknown → obs_expires o ≠ 0 →
  NormalizeDomain (obs_domain o) = Ok domain → forallb Is4 (obs_ips o) = true → ip ∈ obs_ips o →
  (length (obs_ips o) ≤ Z.to_nat (lt_capacity t))%nat → Forall (λ s, s ≤ now) clock →
  now < obs_expires o →
  ∃ t' err, learningAdapter_Observe replace t o clock = Some (t', err) ∧
    held t' (mkKey domain (obs_action o) ip) now (length (obs_ips o) - 1).
Proof.
  intros Hok Ha He Hd H4 Hi Hc Hcl Hnow.
  assert (Hobs : ∃ t1, Observe t o = Some (t1, None) ∧
            held t1 (mkKey domain (obs_action o) ip) now (length (obs_ips o) - 1)).
  { unfold Observe. replace (negb _ && negb _) with false by (by destruct (obs_action o)).
    rewrite (proj2 (Z.eqb_neq _ 0)), Hd by done.
    destruct (observe_ips_spec t domain (obs_action o) (obs_expires o) ∅ (obs_ips o) Hok)
      as (t1 & -> & [Hok1 _ Hlru Hent]). rewrite H4. exists t1. split; [done|].
    set (ks := mkKey domain _ <$> _) in *.
    assert (Hlen : (length ks ≤ length (obs_ips o))%nat).
    { unfold ks. rewrite length_fmap. apply length_recorded. }
    assert (Hk : mkKey domain (obs_action o) ip ∈ ks).
    { apply list_elem_of_fmap. exists ip. split; [done|]. apply recorded_all; [done..|]. apply not_elem_of_empty. }
    destruct (touches_hold (Z.to_nat (lt_capacity t)) (lt_lru t) _ ks Hk) as (older & newer & E & Hn); [lia|].
    unfold lru_after in Hlru. rewrite E in Hlru. split; [done|]. split; [|exists older, newer; split; [done|lia]].
    exists (obs_expires o). rewrite Hent, !decide_True; [done|done|]. rewrite Hlru. set_solver. }
  destruct Hobs as (t1 & Hobs & H1). destruct replace as [replace|]; simpl; [|eauto].
  unfold Learner_Observe. rewrite Hobs. cbn [mbind option_bind]. unfold reconcile.
  pose proof (held_reconcile (obs_ips o) clock t1 _ now _ H1 Hcl) as H2.
  destruct (reconcile_updates t1 (obs_ips o) clock) as [t2 us]. eauto.
Qed.

Lemma answer_Is4 m : forallb Is4 (answer_ipv4 m) = true.
Proof.
  apply forallb_Forall, list.Forall_forall. intros a Ha. unfold answer_ipv4 in Ha.
  apply list_elem_of_omap in Ha as ([ttl r|id] & _ & Hr); simpl in Hr; [|done].
  destruct (AddrFromSlice r) as [x|]; [|done]. simpl in Hr. destruct (Is4 x) eqn:E; [|done]. simplify_eq. done.
Qed.

(** A name that has a normal form is learned with an action that counts. *)
Lemma upstream_action_known data rules cl d t name n req asked m action :
  New data rules = Ok cl → NormalizeDomain name = Ok n →
  upstream_answer cl d t (classify_Domain cl name) req = (asked, Ok (m, action)) →
  action ≠ Unknown ∧ dec_domain (classify_Domain cl name) = n.
Proof.
  intros Hnew Hn. rewrite (classify_Domain_spec data rules cl name Hnew). unfold domain_spec. rewrite Hn.
  unfold upstream_answer, resolveUnknown, exchange.
  destruct (rules_action (explicit_domain_rules rules) n) eqn:E1;
    [destruct (rules_action (china_domain_rules data) n) eqn:E2|..]; simpl; intros [= _ H]; split; try done;
    repeat (case_match; simplify_eq; try done).
Qed.

Lemma reconcile_ok t ips clock :
  learning_ok t → learning_ok (reconcile_updates t ips clock).1 ∧
  lt_capacity (reconcile_updates t ips clock).1 = lt_capacity t.
Proof.
  revert t clock. induction ips as [|ip ips IH]; intros t [|s clock] Ht; simpl; try done.
  destruct (expireLocked_spec t s Ht) as [Ht1 Hc _ _ _].
  destruct (IH _ clock Ht1) as [H1 H2]. destruct (reconcile_updates _ ips clock). simpl in *.
  split; [done|]. by rewrite H2.
Qed.

(** Reporting never panics and keeps the table in order. *)
Lemma report_ok replace clock table o :
  learning_ok table →
  ∃ t', report replace clock (Some table) o = Some t' ∧ learning_ok t' ∧ lt_capacity t' = lt_capacity table.
Proof.
  intros Ht. destruct (Observe_ok table o Ht) as (t1 & err & Ho & Ht1 & Hc).
  unfold report, learningAdapter_Observe, Learner_Observe. destruct replace as [rep|]; simpl; rewrite Ho; simpl; [|eauto].
  destruct err as [e|]; simpl; [eauto|]. unfold reconcile.
  destruct (reconcile_ok t1 (obs_ips o) clock Ht1) as [H1 H2]. destruct (reconcile_updates _ _ _). simpl in *.
  eexists. split; [done|]. split; [done|]. by rewrite H2.
Qed.

(** What the resolver's [learn] leaves for every address of the response. *)
Lemma learned_from replace clock n action reply t2 table :
  learning_ok table → action ≠ Unknown → normalized n → 0 < t2 →
  ∃ table' expires,
    learn (report replace clock) (Some (Some table)) n action reply t2 = Some (Some table') ∧
    t2 + 30 * Second ≤ expires ≤ t2 + 24 * Hour ∧
    ∀ now ip, ip ∈ answer_ipv4 reply → now < expires → Forall (λ s, s ≤ now) clock →
      (length (answer_ipv4 reply) ≤ Z.to_nat (lt_capacity table))%nat →
      held table' (mkKey n action ip) now (length (answer_ipv4 reply) - 1) ∧
      lt_capacity table' = lt_capacity table.
Proof.
  intros Hok Ha Hn Ht2. unfold learn. pose proof (responseARecords_addresses reply) as Haddr.
  destruct (responseARecords (Some reply)) as [as_ ttl]. simpl in Haddr. subst as_.
  pose proof (clampDuration_bounds ttl (30 * Second) (24 * Hour) ltac:(done)) as Hb.
  destruct (decide (answer_ipv4 reply = [])) as [E|E].
  { rewrite bool_decide_true by done. exists table, (t2 + 30 * Second).
    split; [done|]. split; [lia|]. intros now ip Hip. rewrite E in Hip. by apply not_elem_of_nil in Hip. }
  rewrite !bool_decide_false by done. simpl.
  set (o := mkObservation n action (answer_ipv4 reply) _).
  destruct (report_ok replace clock table o Hok) as (table' & Hrep & _ & Hcap).
  exists table', (obs_expires o). rewrite <- Hrep. split; [done|]. simpl. split; [lia|].
  intros now ip Hip Hnow Hclock Hfit. split; [|done].
  assert (He : obs_expires o ≠ 0) by (simpl; unfold Second, Millisecond in *; lia).
  destruct (learningAdapter_holds replace clock table o n ip now Hok Ha He (normalized_fix n Hn) (answer_Is4 reply)
    Hip Hfit Hclock Hnow) as (t' & err & E' & Hh).
  unfold report in Hrep. simpl in Hrep. rewrite E' in Hrep. simpl in Hrep. injection Hrep as <-. exact Hh.
Qed.

(** A live observation decides the route of its address. *)
Section learned_routes.
Context (data : Data) (rules : list RuleConfig) (cl : Classifier) (table : LearningTable) (ip : Addr).
Context (name : bytes) (e now : time).
Hypothesis Hnew : New data rules = Ok cl.
Hypothesis Hprefixes : Forall prefix4_ok (Prefixes data).
Hypothesis Hip : byte4 ip.
Hypothesis Htable : learning_ok table.
Hypothesis Hrule : longest_prefix_action (explicit_ip_rules rules) ip = Unknown.
Hypothesis Hlive : now < e.

Lemma learned_proxy_routes :
  lt_entries table !! mkKey name Proxy ip = Some e →
  (selectDialer cl (Some table) ip [] now).2 = RouteProxy.
Proof.
  intros He. pose proof (selectDialer_spec data rules cl table ip [] now Hnew Hprefixes Hip Htable) as H.
  destruct (selectDialer _ _ _ _ _) as [t' way]. destruct H as [H _]. unfold route_spec in H.
  rewrite bool_decide_true, Hrule in H by done. apply H. eauto.
Qed.

Lemma learned_direct_routes :
  lt_entries table !! mkKey name Direct ip = Some e →
  (∀ other x, lt_entries table !! mkKey other Proxy ip = Some x → x ≤ now) →
  (selectDialer cl (Some table) ip [] now).2 = RouteDirect.
Proof.
  intros He Hno. pose proof (selectDialer_spec data rules cl table ip [] now Hnew Hprefixes Hip Htable) as H.
  destruct (selectDialer _ _ _ _ _) as [t' way]. destruct H as [H _]. unfold route_spec in H.
  rewrite bool_decide_true, Hrule in H by done. apply H; [eauto|].
  intros (other & x & Hx & Hlt). specialize (Hno other x Hx). lia.
Qed.
End learned_routes.

(** ** The resolver and its table at work *)

Section routing.
Context {lib : DnsLib} {laws : @DnsLaws lib}.
Context (cfg : Config) (cl : Classifier) (domestic trusted : exchanger).
Implicit Types r : Resolver (option LearningTable).

(** The states of the application's resolver: queries are resolved, and the
    data plane, the status and the expiry use the table in between. *)
Inductive app_reachable : Resolver (option LearningTable) → Prop :=
| ar_start :
    app_reachable (app_resolver cfg cl domestic trusted (NewLearningTable (lim_learned_ip (cfg_limits cfg))))
| ar_resolve r replace clock req t1 t2 t3 r' ans asked :
    app_reachable r → 0 < t3 →
    Resolve (report replace clock) r req t1 t2 t3 = Some (r', ans, asked) → app_reachable r'
| ar_learning r table op table' :
    app_reachable r → res_learner r = Some (Some table) → learning_run table op = Some table' →
    app_reachable (with_state r (Some (Some table')) (res_cache r)).

(** What holds of all of them. *)
Record app_ok r : Prop := {
  ao_classifier : res_classifier r = Some cl;
  ao_domestic : res_domestic r = Some domestic;
  ao_trusted : res_trusted r = Some trusted;
  ao_cache : cache_ok (res_cache r);
  ao_learner : ∃ table, res_learner r = Some (Some table) ∧ learning_ok table ∧
                        lt_capacity table = Z.max 1 (lim_learned_ip (cfg_limits cfg)) }.

Lemma Resolve_frame {L} (observe : L → Observation → L) (r r' : Resolver L) req t1 t2 t3 ans asked :
  Resolve observe r req t1 t2 t3 = Some (r', ans, asked) →
  res_classifier r' = res_classifier r ∧ res_domestic r' = res_domestic r ∧ res_trusted r' = res_trusted r ∧
  (res_learner r' = res_learner r ∨
   ∃ l o, res_learner r = Some l ∧ res_learner r' = Some (observe l o)).
Proof.
  unfold Resolve. intros H.
  repeat (case_match; simplify_eq/=; try by (split_and!; auto)).
  destruct (cacheResponse _ _ _ _) as [c'|]; simpl in *; simplify_eq. split_and!; [done..|].
  cbn [with_state res_learner]. unfold learn. destruct (res_learner r) as [l|]; [|by left]. destruct (responseARecords _) as [as_ ttl].
  destruct (_ || _); [by left|]. right. eauto.
Qed.

Lemma Resolve_cache_ok {L} (observe : L → Observation → L) (r r' : Resolver L) req t1 t2 t3 ans asked :
  cache_ok (res_cache r) → 0 < t3 → Resolve observe r req t1 t2 t3 = Some (r', ans, asked) →
  cache_ok (res_cache r').
Proof.
  intros Hok Ht3 H. destruct req as [req|]; [|simpl in H; by simplify_eq].
  destruct (refusal req) as [rcode|] eqn:E.
  - rewrite (Resolve_refusal observe r req rcode t1 t2 t3 E) in H. by simplify_eq.
  - apply refusal_None in E as [q Hq].
    destruct (Resolve_lookup observe r req q t1 t2 t3 Hq Hok Ht3) as (r1 & a1 & w1 & H1 & H2 & _). by simplify_eq.
Qed.

Lemma app_reachable_ok r : app_reachable r → app_ok r.
Proof.
  induction 1 as [|r replace clock req t1 t2 t3 r' ans asked _ [Hc Hd Ht Hca (table & Hl & Hok & Hcap)] Ht3 Hr
                  |r table op table' _ [Hc Hd Ht Hca (table1 & Hl & Hok & Hcap)] Htab Hrun].
  - split; try done; [apply new_cache_ok|]. eexists. split; [done|]. split; [apply new_learning_ok|].
    simpl. destruct (_ <? 1) eqn:E; bools; lia.
  - pose proof (Resolve_frame _ _ _ _ _ _ _ _ _ Hr) as (E1 & E2 & E3 & Hl').
    split; [congruence..|by eapply Resolve_cache_ok|].
    destruct Hl' as [E|(l & o & E & E')]; [rewrite E; eauto|]. rewrite Hl in E. injection E as <-. rewrite E'.
    destruct (report_ok replace clock table o Hok) as (t' & -> & H1 & H2). exists t'.
    split; [done|]. split; [done|]. by rewrite H2.
  - rewrite Hl in Htab. injection Htab as ->. split; try done.
    destruct (learning_run_ok table op Hok) as (t' & Hrun' & H1 & H2).
    rewrite Hrun in Hrun'. injection Hrun' as <-. exists table'. split; [done|]. split; [done|]. by rewrite H2.
Qed.

End routing.

(** ** Witness *)

Definition sample_answer (m : Msg) : Msg := mkMsg (msg_id m) 0 (msg_question m) [ARecord 300 [9; 9; 9; 9]] 0.

Definition sample_other : learning_op :=
  OpObserve (mkObservation (str "other.cn") Direct [Addr4 9 9 9 9] (900 * Second)).

