(* ===== verification/DnsServing.v ===== *)
(** * Concurrent DNS queries: [internal/dnsproxy/resolver.go], [server.go],
    [internal/firewall/learner.go]

    The DNS server runs a goroutine per request, and the goroutines meet in the
    cache, the learning table and the nftables client, each behind its own mutex.
    A query is a sequence of steps, one per section under a mutex and one for the
    exchange with the upstreams; the steps of different queries, and the lookups
    of the data plane, interleave freely.  Only the order of events is kept: the
    exchange is one event, whenever it comes, and an exchange that
    [context.WithTimeout] cut short is one whose upstream answered with an error.
    How long a query waits is not part of this model. *)

From S2P Require Import Prelude GoStrings GoNet Domains IPv4Tree Sha256 Dataset GoCodec.
From S2P Require Import Config Classifier GoHeap Lru Learning Firewall DnsCache DnsMsg Resolver.
From S2P Require Import SessionTable SniffParse SniffPeek AddrText Tcp Udp DnsRouting.

(** What the goroutines share. *)
Record dnsShared := mkDns { dn_cache : Cache Msg; dn_table : LearningTable; dn_sets : states }.

(** Where the goroutine of a query is: before the cache was asked, waiting for the
    upstreams, before [Observe], in the loop of [reconcile] with the addresses
    left and the updates so far, before [Put], or done. *)
Inductive queryPhase :=
| QArrived
| QAsking (question : Question)
| QLearning (question : Question) (domain : bytes) (action : Action) (response : Msg)
| QReconciling (question : Question) (ips : list Addr) (updates : list SetUpdate) (response : Msg)
| QCaching (question : Question) (response : Msg)
| QDone (reply : result Msg).

(** The next step of a query, with the clock it reads or what the outside answers;
    an upstream that did not answer in time answers with the error of its context. *)
Inductive queryEvent :=
| EvGet (now : time)
| EvAnswer (domestic trusted : exchanger)
| EvObserve (now : time)
| EvLookup (now : time)
| EvReplace (conn_err : option error) (add_err : SetUpdate → option error) (flush : list nftOp → option error)
| EvPut (now : time).

(** The outcome of a step: it is not this step's turn, it panics, or it is taken. *)
Inductive moved (S : Type) := Blocked | Panics | Moves (s : S).
Arguments Blocked {S}.
Arguments Panics {S}.
Arguments Moves {S} s.

Section serving.
Context {lib : DnsLib} (cl : Classifier).

Definition with_cache (d : dnsShared) (c : Cache Msg) : dnsShared := mkDns c (dn_table d) (dn_sets d).
Definition with_table (d : dnsShared) (t : LearningTable) : dnsShared := mkDns (dn_cache d) t (dn_sets d).

(** The checks of [Resolve] and its look at the cache. *)
Definition query_get (d : dnsShared) (req : Msg) (now : time) : dnsShared * queryPhase :=
  match msg_question req with
  | [question] =>
      if negb (q_class question =? ClassINET)
      then (d, QDone (Ok (errorReply (Some req) RcodeFormatError)))
      else if negb (q_type question =? TypeA) && negb (q_type question =? TypeAAAA)
      then (d, QDone (Ok (errorReply (Some req) RcodeNotImplemented)))
      else if q_type question =? TypeAAAA
      then (d, QDone (Ok (errorReply (Some req) RcodeSuccess)))
      else match Get (dn_cache d) (q_name question) (q_type question) now with
           | (cache, Some response) =>
               (with_cache d cache, QDone (Ok (set_question (set_id response (msg_id req)) (msg_question req))))
           | (cache, None) => (with_cache d cache, QAsking question)
           end
  | _ => (d, QDone (Ok (errorReply (Some req) RcodeFormatError)))
  end.

(** The exchange, and the header of the response. *)
Definition query_answer (req : Msg) (question : Question) (domestic trusted : exchanger) : queryPhase :=
  let decision := classify_Domain cl (q_name question) in
  match upstream_answer cl domestic trusted decision req with
  | (_, Err e) => QDone (Err e)
  | (_, Ok (response, action)) =>
      QLearning question (dec_domain decision) action
        (set_question (set_id response (msg_id req)) (msg_question req))
  end.

(** [learn] up to [table.Observe] of the firewall's learner. *)
Definition query_observe (d : dnsShared) (question : Question) (domain : bytes) (action : Action)
    (response : Msg) (now : time) : moved (dnsShared * queryPhase) :=
  let '(addresses, ttl) := responseARecords (Some response) in
  if bool_decide (addresses = []) || bool_decide (action = Unknown)
  then Moves (d, QCaching question response)
  else match Observe (dn_table d) (mkObservation domain action addresses
               (now + clampDuration ttl (30 * Second) (24 * Hour))) with
       | None => Panics
       | Some (table, Some _) => Moves (with_table d table, QCaching question response)
       | Some (table, None) => Moves (with_table d table, QReconciling question addresses [] response)
       end.

Definition query_step (d : dnsShared) (req : Msg) (p : queryPhase) (e : queryEvent)
  : moved (dnsShared * queryPhase) :=
  match p, e with
  | QArrived, EvGet now => Moves (query_get d req now)
  | QAsking question, EvAnswer domestic trusted => Moves (d, query_answer req question domestic trusted)
  | QLearning question domain action response, EvObserve now =>
      query_observe d question domain action response now
  | QReconciling question (ip :: ips) updates response, EvLookup now =>
      let '(table, l) := Lookup (dn_table d) ip now in
      Moves (with_table d table, QReconciling question ips (updates ++ [mkUpdate ip (state_of l) Hour]) response)
  | QReconciling question [] updates response, EvReplace conn_err add_err flush =>
      if bool_decide (updates = []) then Moves (d, QCaching question response) else
      let '(_, sets, _) := Replace None conn_err add_err (λ k ops, (k, flush ops)) () (dn_sets d) updates in
      Moves (mkDns (dn_cache d) (dn_table d) sets, QCaching question response)
  | QCaching question response, EvPut now =>
      match cacheResponse (dn_cache d) question response now with
      | None => Panics
      | Some cache => Moves (with_cache d cache, QDone (Ok response))
      end
  | _, _ => Blocked
  end.

(** The message [serveDNS] writes for a query that is done. *)
Definition written (req : Msg) (reply : result Msg) : Msg :=
  match reply with Ok m => m | Err _ => errorReply (Some req) RcodeServerFailure end.

(** ** The server *)

(** The queries by number, and a record of what the upstreams answered: the
    question, who was asked, and the answer. *)
Record dnsServing := mkServing {
  sv_shared : dnsShared;
  sv_queries : gmap nat (Msg * queryPhase);
  sv_log : list (Question * list upstream * Msg) }.

Definition serving_start (cacheEntries learnedEntries : Z) : dnsServing :=
  mkServing (mkDns (NewCache cacheEntries) (NewLearningTable learnedEntries) ∅) ∅ [].

(** A request arrives, a query takes a step, or the data plane, the status or the
    expiry use the learning table. *)
Inductive servingEvent :=
| SvArrive (id : nat) (req : Msg)
| SvQuery (id : nat) (e : queryEvent)
| SvTable (op : learning_op).

Definition answer_log (req : Msg) (p : queryPhase) (e : queryEvent) : list (Question * list upstream * Msg) :=
  match p, e with
  | QAsking question, EvAnswer domestic trusted =>
      match upstream_answer cl domestic trusted (classify_Domain cl (q_name question)) req with
      | (asked, Ok (response, _)) => [(question, asked, response)]
      | _ => []
      end
  | _, _ => []
  end.

Definition serving_step (s : dnsServing) (e : servingEvent) : moved dnsServing :=
  match e with
  | SvArrive id req =>
      match sv_queries s !! id with
      | Some _ => Blocked
      | None => Moves (mkServing (sv_shared s) (<[id := (req, QArrived)]> (sv_queries s)) (sv_log s))
      end
  | SvQuery id e =>
      match sv_queries s !! id with
      | None => Blocked
      | Some (req, p) =>
          match query_step (sv_shared s) req p e with
          | Blocked => Blocked
          | Panics => Panics
          | Moves (d, p') => Moves (mkServing d (<[id := (req, p')]> (sv_queries s))
                                      (sv_log s ++ answer_log req p e))
          end
      end
  | SvTable op =>
      match learning_run (dn_table (sv_shared s)) op with
      | None => Panics
      | Some t => Moves (mkServing (with_table (sv_shared s) t) (sv_queries s) (sv_log s))
      end
  end.

Inductive serving_reachable (cacheEntries learnedEntries : Z) : dnsServing → Prop :=
| sv_begin : serving_reachable cacheEntries learnedEntries (serving_start cacheEntries learnedEntries)
| sv_next s e s' :
    serving_reachable cacheEntries learnedEntries s → serving_step s e = Moves s' →
    serving_reachable cacheEntries learnedEntries s'.
End serving.

(** ** What the shared parts keep *)

Lemma Get_entries (c : Cache Msg) name qtype now :
  cache_entries (Get c name qtype now).1 ⊆ cache_entries c ∧
  ∀ m, (Get c name qtype now).2 = Some m →
    ∃ e, cache_entries c !! cache_key name qtype = Some e ∧ ce_response e = m.
Proof.
  unfold Get. destruct (cache_entries c !! _) as [e|] eqn:E; [|done].
  destruct (negb _); simpl; [rewrite cache_remove_entries; split; [apply delete_subseteq|done]|].
  split; [done|]. intros m [= <-]. eauto.
Qed.

Lemma Put_entries (c c' : Cache Msg) name qtype m expires :
  cache_ok c → Put c name qtype (Some m) expires = Some c' →
  ∀ k e, cache_entries c' !! k = Some e →
    (k = cache_key name qtype ∧ ce_response e = m) ∨ cache_entries c !! k = Some e.
Proof.
  intros Hc Hput k e He. destruct (decide (0 < expires)) as [Hp|Hp].
  - destruct (Put_effect c name qtype m expires Hc Hp) as (c1 & H1 & _ & _ & _ & Hent).
    rewrite Hput in H1. injection H1 as <-. rewrite Hent in He.
    repeat case_decide; simplify_eq; simpl; auto.
  - right. unfold Put in Hput. rewrite (proj2 (Z.ltb_ge 0 expires)) in Hput by lia. simpl in Hput. by simplify_eq.
Qed.

(** Names that differ in case only are decided alike. *)
Lemma classify_Domain_case cl a b : ToLower a = ToLower b → classify_Domain cl a = classify_Domain cl b.
Proof. intros H. unfold classify_Domain, NormalizeDomain. by rewrite H. Qed.

(** ** The invariant of the server *)

Section serving_invariant.
Context {lib : DnsLib} (cl : Classifier).
Implicit Types (log : list (Question * list upstream * Msg)) (d : dnsShared) (req m : Msg).

(** The records of [m] are those of an answer the chosen upstreams gave for the
    name, in whatever case it was asked. *)
Definition given log (lower : bytes) (m : Msg) : Prop :=
  ∃ q m0, (q, chosen cl (q_name q), m0) ∈ log ∧ ToLower (q_name q) = lower ∧
    msg_answer m = msg_answer m0 ∧ msg_rcode m = msg_rcode m0 ∧ msg_rest m = msg_rest m0.

Definition headed req m : Prop := msg_id m = msg_id req ∧ msg_question m = msg_question req.

Definition answer_ok log req (q : Question) m : Prop :=
  a_question req q ∧ headed req m ∧ given log (ToLower (q_name q)) m.

Definition phase_ok log req (p : queryPhase) : Prop :=
  match p with
  | QArrived => True
  | QAsking q => a_question req q
  | QLearning q _ _ m | QReconciling q _ _ m | QCaching q m => answer_ok log req q m
  | QDone (Ok m) =>
      (∃ rcode, refusal req = Some rcode ∧ m = errorReply (Some req) rcode) ∨ ∃ q, answer_ok log req q m
  | QDone (Err _) => ∃ q, a_question req q
  end.

Record shared_ok log d : Prop := {
  so_cache : cache_ok (dn_cache d);
  so_table : learning_ok (dn_table d);
  so_given : ∀ k e, cache_entries (dn_cache d) !! k = Some e → given log (ck_name k) (ce_response e) }.

Lemma given_more log log' lower m : given log lower m → given (log ++ log') lower m.
Proof. intros (q & m0 & Hin & H). exists q, m0. split; [|done]. apply elem_of_app. by left. Qed.

Lemma given_headed log lower req m qs :
  given log lower m → given log lower (set_question (set_id m (msg_id req)) qs).
Proof. done. Qed.

Lemma phase_ok_more log log' req p : phase_ok log req p → phase_ok (log ++ log') req p.
Proof.
  assert (H : ∀ q m, answer_ok log req q m → answer_ok (log ++ log') req q m).
  { intros q m (? & ? & ?). split; [done|]. split; [done|]. by apply given_more. }
  destruct p as [|q|q dom a m|q ips us m|q m|[m|e]]; simpl; eauto. intros [?|[q ?]]; eauto.
Qed.

Lemma shared_ok_more log log' d : shared_ok log d → shared_ok (log ++ log') d.
Proof. intros [H1 H2 H3]. split; [done..|]. intros k e He. apply given_more. eauto. Qed.

Lemma with_table_ok log d t : shared_ok log d → learning_ok t → shared_ok log (with_table d t).
Proof. intros [H1 H2 H3] Ht. by split. Qed.

Lemma query_get_refused d req rcode now :
  refusal req = Some rcode → query_get d req now = (d, QDone (Ok (errorReply (Some req) rcode))).
Proof.
  unfold refusal, query_get. destruct (msg_question req) as [|q [|]]; try by intros [= <-].
  destruct (negb (q_class q =? ClassINET)); [by intros [= <-]|].
  destruct (_ && _); [by intros [= <-]|]. by destruct (q_type q =? TypeAAAA); intros [= <-].
Qed.

Lemma query_get_ok log d req now :
  shared_ok log d → shared_ok log (query_get d req now).1 ∧ phase_ok log req (query_get d req now).2.
Proof.
  intros Hd. destruct (refusal req) as [rcode|] eqn:Hr.
  - rewrite (query_get_refused d req rcode now Hr). split; [done|]. left. eauto.
  - apply refusal_None in Hr as [q Hq]. pose proof Hq as (Hqq & Hc & Ht). unfold query_get. rewrite Hqq, Hc, Ht, !Z.eqb_refl.
    cbn [negb andb]. change (TypeA =? TypeAAAA) with false. cbv iota.
    destruct Hd as [Hca Hta Hgi]. pose proof (Get_ok (dn_cache d) (q_name q) TypeA now Hca) as Hok.
    destruct (Get_entries (dn_cache d) (q_name q) TypeA now) as [Hsub Hhit].
    destruct (Get (dn_cache d) (q_name q) TypeA now) as [c [m|]]; cbn [fst snd] in *.
    + split.
      * split; [done..|]. intros k e He. eapply Hgi, lookup_weaken; [exact He|done].
      * right. exists q. split; [done|]. split; [by split; [|rewrite Hqq]|].
        destruct (Hhit m eq_refl) as (e & He & <-). by apply (Hgi _ e) in He.
    + split; [|done]. split; [done..|]. intros k e He. eapply Hgi, lookup_weaken; [exact He|done].
Qed.

Lemma query_answer_ok log req q (dom trust : exchanger) :
  a_question req q →
  phase_ok (log ++ answer_log cl req (QAsking q) (EvAnswer dom trust)) req (query_answer cl req q dom trust).
Proof.
  intros Hq. unfold query_answer, answer_log. pose proof (upstream_asked cl dom trust (q_name q) req) as Ha.
  destruct (upstream_answer _ _ _ _ _) as [asked [[m a]|e]]; simpl in *; [|eauto].
  split; [done|]. split; [done|]. exists q, m. split; [|done].
  apply elem_of_app. right. rewrite Ha. apply list_elem_of_here.
Qed.

Lemma query_observe_ok log d req q dom a m now :
  shared_ok log d → answer_ok log req q m →
  match query_observe d q dom a m now with
  | Blocked => True | Panics => False
  | Moves (d', p) => shared_ok log d' ∧ phase_ok log req p
  end.
Proof.
  intros Hd Hm. unfold query_observe. destruct (responseARecords (Some m)) as [as_ ttl].
  destruct (_ || _); [done|]. pose proof (so_table _ _ Hd) as Ht.
  match goal with |- context [Observe _ ?o] => destruct (Observe_ok (dn_table d) o Ht) as (t & err & -> & Ht' & _) end.
  destruct err; (split; [by apply with_table_ok|done]).
Qed.

Lemma query_put_ok log d req q m now :
  shared_ok log d → answer_ok log req q m →
  ∃ c, cacheResponse (dn_cache d) q m now = Some c ∧ shared_ok log (with_cache d c).
Proof.
  intros [Hc Ht Hg] (Hq & _ & Hm). unfold cacheResponse.
  destruct (cache_run_ok (dn_cache d) (OpPut (q_name q) (q_type q) (Some m) (now + cache_ttl m)) Hc)
    as (c & Hput & Hok & _). simpl in Hput. exists c. split; [done|]. split; [done..|]. intros k e He.
  destruct (Put_entries _ _ _ _ _ _ Hc Hput k e He) as [[-> ->]|Ho]; [done|eauto].
Qed.

(** A step of a query never panics, whatever the state of the others. *)
Lemma query_step_ok log d req p e :
  shared_ok log d → phase_ok log req p →
  match query_step cl d req p e with
  | Blocked => True | Panics => False
  | Moves (d', p') => shared_ok (log ++ answer_log cl req p e) d' ∧ phase_ok (log ++ answer_log cl req p e) req p'
  end.
Proof.
  intros Hd Hp. destruct p as [|q|q dom a m|q ips us m|q m|r], e as [now|d1 t1|now|now|ce ae fl|now];
    cbn [query_step answer_log]; rewrite ?app_nil_r; try done; try by destruct ips.
  - pose proof (query_get_ok log d req now Hd) as H. by destruct (query_get d req now).
  - split; [by apply shared_ok_more|]. by apply query_answer_ok.
  - by apply query_observe_ok.
  - destruct ips as [|ip ips]; [done|]. destruct (expireLocked_spec (dn_table d) now (so_table _ _ Hd)) as [Ht _ _ _ _].
    change (learning_expireLocked (dn_table d) now).1 with (Lookup (dn_table d) ip now).1 in Ht.
    destruct (Lookup (dn_table d) ip now) as [t l]. split; [by apply with_table_ok|done].
  - destruct ips; [|done]. destruct (bool_decide _); [done|]. destruct (Replace _ _ _ _ _ _ _) as [[k sets] err].
    split; [by destruct Hd|done].
  - destruct (query_put_ok log d req q m now Hd Hp) as (c & -> & Hc). split; [done|]. right. eauto.
Qed.

(** ** Reachable states *)

Record serving_ok (s : dnsServing) : Prop := {
  svo_shared : shared_ok (sv_log s) (sv_shared s);
  svo_queries : ∀ id req p, sv_queries s !! id = Some (req, p) → phase_ok (sv_log s) req p }.

Lemma serving_start_ok cacheEntries learnedEntries : serving_ok (serving_start cacheEntries learnedEntries).
Proof.
  split; [|done]. split; simpl; [apply new_cache_ok|apply new_learning_ok|]. intros k e He. by rewrite lookup_empty in He.
Qed.

Lemma serving_step_ok s e :
  serving_ok s → match serving_step cl s e with Blocked => True | Panics => False | Moves s' => serving_ok s' end.
Proof.
  intros [Hd Hq]. destruct e as [id req|id e|op]; cbn [serving_step].
  - destruct (sv_queries s !! id) eqn:E; [done|]. split; [done|]. simpl. intros id' req' p.
    rewrite lookup_insert_Some. intros [[<- [= <- <-]]|[_ Hp]]; [done|eauto].
  - destruct (sv_queries s !! id) as [[req p]|] eqn:E; [|done].
    pose proof (query_step_ok (sv_log s) (sv_shared s) req p e Hd (Hq _ _ _ E)) as H.
    destruct (query_step cl _ _ _ _) as [| |[d' p']]; [done..|]. destruct H as [H1 H2]. split; [done|]. simpl.
    intros id' req' p0. rewrite lookup_insert_Some. intros [[<- [= <- <-]]|[_ Hp]]; [done|].
    apply phase_ok_more. eauto.
  - destruct (learning_run_ok (dn_table (sv_shared s)) op (so_table _ _ Hd)) as (t & -> & Ht & _).
    split; [by apply with_table_ok|done].
Qed.

Lemma serving_reachable_ok cacheEntries learnedEntries s :
  serving_reachable cl cacheEntries learnedEntries s → serving_ok s.
Proof.
  induction 1 as [|s e s' _ IH Hs]; [apply serving_start_ok|].
  pose proof (serving_step_ok s e IH) as H. by rewrite Hs in H.
Qed.
End serving_invariant.

(** C14: caching and concurrency never mix up or leak answers.  However requests,
    upstream exchanges, cache and table accesses of any number of queries
    interleave, no step panics; what is written for a request carries its id and
    question; and the records it carries are those of an answer some query got
    for the same name, in whatever case, from exactly the upstreams the policy
    chooses for it: the trusted one alone under an explicit proxy rule, the
    domestic one alone for a direct name. *)
Theorem served_answers_follow_policy {lib : DnsLib} {laws : @DnsLaws lib} (data : Data)
    (rules : list RuleConfig) (cl : Classifier) (cacheEntries learnedEntries : Z) (s : dnsServing) :
  New data rules = Ok cl → serving_reachable cl cacheEntries learnedEntries s →
  (∀ e, serving_step cl s e ≠ Panics) ∧
  ∀ id req reply, sv_queries s !! id = Some (req, QDone reply) →
    let m := written req reply in
    msg_id m = msg_id req ∧ msg_question m = take 1 (msg_question req) ∧
    (msg_answer m ≠ [] →
     ∃ q q0 asked m0, msg_question req = [q] ∧ (q0, asked, m0) ∈ sv_log s ∧
       ToLower (q_name q0) = ToLower (q_name q) ∧ msg_answer m = msg_answer m0 ∧
       ∀ n, NormalizeDomain (q_name q) = Ok n →
         (some_rule (explicit_domain_rules rules) Proxy n → asked = [Trusted]) ∧
         (¬ some_rule (explicit_domain_rules rules) Proxy n →
          some_rule (explicit_domain_rules rules) Direct n ∨ some_rule (china_domain_rules data) Direct n →
          asked = [Domestic])).
Proof.
  intros Hnew Hr. apply serving_reachable_ok in Hr as Hok. split.
  { intros e He. pose proof (serving_step_ok cl s e Hok) as H. by rewrite He in H. }
  intros id req reply Hq m. pose proof (svo_queries _ _ Hok _ _ _ Hq) as Hp.
  destruct reply as [m'|e]; simpl in m.
  - destruct Hp as [(rcode & Href & ->)|(q & (Hqq & _) & [Hid Hqs] & q0 & m0 & Hin & Hlow & Hans & _)].
    + destruct (errorReply_matches req rcode) as (? & ? & _ & ?). done.
    + unfold m. rewrite Hid, Hqs, Hqq. split; [done|]. split; [done|]. intros _.
      exists q, q0, (chosen cl (q_name q0)), m0. do 4 (split; [done|]). intros n Hn.
      replace (chosen cl (q_name q0)) with (chosen cl (q_name q)).
      * by apply (chosen_by_rules data rules cl (q_name q) n Hnew Hn).
      * unfold chosen. by rewrite (classify_Domain_case cl (q_name q) (q_name q0)).
  - destruct (errorReply_matches req RcodeServerFailure) as (? & ? & _ & ?). done.
Qed.

(** ** Evaluations *)

(** The state after some events; an event whose turn it is not changes nothing. *)
Definition serving_after {lib : DnsLib} (cl : Classifier) (es : list servingEvent) : dnsServing :=
  foldl (λ s e, match serving_step cl s e with Moves s' => s' | _ => s end) (serving_start 8 8) es.

Lemma serving_after_reachable {lib : DnsLib} cl es : serving_reachable cl 8 8 (serving_after cl es).
Proof.
  unfold serving_after. assert (H : serving_reachable cl 8 8 (serving_start 8 8)) by apply sv_begin.
  revert H. generalize (serving_start 8 8). induction es as [|e es IH]; intros s H; simpl; [done|].
  apply IH. destruct (serving_step cl s e) eqn:E; [done..|]. by eapply sv_next.
Qed.

Definition sample_up : exchanger := λ m, Ok (Some (sample_answer m)).
Definition sample_replace : queryEvent := EvReplace None (λ _, None) (λ _, None).

(** Two names with the same address, one direct and one proxied, are resolved at
    the same time.  The update of the first was computed before the second was
    learned and is sent after the update of the second: the address ends in the
    direct set although the table asks for its inspection. *)
Definition stale_events : list servingEvent :=
  [SvArrive 1 (sample_request 1 "www.example.cn."); SvArrive 2 (sample_request 2 "video.example.cn.");
   SvQuery 1 (EvGet 5); SvQuery 1 (EvAnswer sample_up sample_up); SvQuery 1 (EvObserve 5); SvQuery 1 (EvLookup 5);
   SvQuery 2 (EvGet 6); SvQuery 2 (EvAnswer sample_up sample_up); SvQuery 2 (EvObserve 6); SvQuery 2 (EvLookup 6);
   SvQuery 2 sample_replace; SvQuery 2 (EvPut 6);
   SvQuery 1 sample_replace; SvQuery 1 (EvPut 7)].

Example stale_update_wins :
  let s := @serving_after sample_lib sample_classifier stale_events in
  state_at (dn_sets (sv_shared s)) (Addr4 9 9 9 9) = SetDirect ∧
  state_of (Lookup (dn_table (sv_shared s)) (Addr4 9 9 9 9) 8).2 = SetInspect.
Proof. vm_compute. split; reflexivity. Qed.

(** ** Witnesses *)

Definition sample_spelled : list servingEvent :=
  stale_events ++ [SvArrive 3 (sample_request 3 "VIDEO.Example.cn."); SvQuery 3 (EvGet 8)].

Lemma served_answers_follow_policy_witness :
  let s := @serving_after sample_lib sample_classifier sample_spelled in
  ∃ m q0 m0, sv_queries s !! 3%nat = Some (sample_request 3 "VIDEO.Example.cn.", QDone (Ok m)) ∧
    msg_id m = 3 ∧ (q0, [Trusted], m0) ∈ sv_log s ∧ msg_answer m = msg_answer m0 ∧
    ToLower (q_name q0) = str "video.example.cn.".
Proof.
  assert (Hq : sv_queries (@serving_after sample_lib sample_classifier sample_spelled) !! 3%nat =
    Some (sample_request 3 "VIDEO.Example.cn.", QDone (Ok (sample_answer (sample_request 3 "VIDEO.Example.cn."))))).
  { vm_compute. reflexivity. }
  destruct (@served_answers_follow_policy sample_lib sample_lib_laws sample_data sample_rules sample_classifier 8 8
    (serving_after sample_classifier sample_spelled) sample_New (serving_after_reachable sample_classifier sample_spelled))
    as [_ H].
  destruct (H 3%nat _ _ Hq) as (Hid & _ & Hans).
  destruct Hans as (q & q0 & asked & m0 & Hqq & Hin & Hlow & Hm & Hrule); [discriminate|].
  injection Hqq as <-. destruct (Hrule (str "video.example.cn") eq_refl) as [Hp _].
  assert (asked = [Trusted]) as ->.
  { apply Hp. exists (mkDomainRule (str "video.example.cn") false Proxy).
    split; [vm_compute; apply list_elem_of_here|]. split; vm_compute; reflexivity. }
  exists (sample_answer (sample_request 3 "VIDEO.Example.cn.")), q0, m0.
  split; [exact Hq|]. split; [exact Hid|]. split; [exact Hin|]. split; [exact Hm|]. rewrite Hlow. reflexivity.
Defined.
