(* ===== verification/GoConn.v ===== *)
(** * A stream connection and the code that talks on it

    A connection is what its peer will send, what has been written to it and
    whether it is closed.  The handshakes of [internal/landing] run in a small
    state and error monad over it. *)

From S2P Require Import Prelude GoStrings GoNet.

(** [cn_in]: the bytes the peer sends before it closes; [cn_out]: the messages
    written so far; [cn_writes]: how many writes still succeed; [cn_closed]: whether
    [Close] has been called. *)
Record conn := mkConn {
  cn_in : bytes; cn_out : list bytes; cn_writes : nat; cn_closed : bool }.

Definition IO (A : Type) : Type := conn → conn * result A.

Definition io_ret {A} (a : A) : IO A := λ c, (c, Ok a).
Definition io_err {A} (e : error) : IO A := λ c, (c, Err e).
Definition io_bind {A B} (m : IO A) (k : A → IO B) : IO B := λ c,
  match m c with
  | (c, Ok a) => k a c
  | (c, Err e) => (c, Err e)
  end.
Definition io_lift {A} (r : result A) : IO A := λ c, (c, r).

Notation "'let!' x ':=' m 'in' k" := (io_bind m (λ x, k))
  (at level 10, x pattern, m at level 100, k at level 200) : go_scope.

Definition io_close : IO () := λ c, (mkConn (cn_in c) (cn_out c) (cn_writes c) true, Ok ()).

Definition io_write (data : bytes) : IO () := λ c,
  match cn_writes c with
  | O => (c, Err (EMsg "write failed"))
  | S n => (mkConn (cn_in c) (cn_out c ++ [data]) n (cn_closed c), Ok ())
  end.

(** [io.ReadFull] of [n] bytes. *)
Definition io_read_full (n : nat) : IO bytes := λ c,
  if decide (n ≤ length (cn_in c))%nat
  then (mkConn (drop n (cn_in c)) (cn_out c) (cn_writes c) (cn_closed c), Ok (take n (cn_in c)))
  else (mkConn [] (cn_out c) (cn_writes c) (cn_closed c),
        Err (match cn_in c with [] => EEOF | _ => EMsg "unexpected EOF" end)).

(** [if err != nil { conn.Close(); return nil, wrap(err) }] around a step. *)
Definition or_close {A} (wrap : error → error) (m : IO A) : IO A := λ c,
  match m c with
  | (c, Ok a) => (c, Ok a)
  | (c, Err e) => ((io_close c).1, Err (wrap e))
  end.

(** [if b { conn.Close(); return nil, e }]. *)
Definition refuse_if (b : bool) (e : error) : IO () := or_close id (if b then io_err e else io_ret ()).

(** A step on a connection that has still to be dialled. *)
Definition on_dialled {A} (dial : result conn) (wrap : error → error) (m : IO A)
  : option conn * result A :=
  match dial with
  | Err e => (None, Err (wrap e))
  | Ok c => let '(c, r) := m c in (Some c, r)
  end.

(** ** Steps that close what they fail on *)

(** [closes m]: when [m] fails, the connection has been closed. *)
Definition closes {A} (m : IO A) : Prop := ∀ c e, (m c).2 = Err e → cn_closed (m c).1 = true.

Lemma closes_ret {A} (a : A) : closes (io_ret a).
Proof. by intros c e. Qed.
Lemma closes_or_close {A} w (m : IO A) : closes (or_close w m).
Proof. intros c e. unfold or_close. destruct (m c) as [c' []]; done. Qed.
Lemma closes_refuse_if b e : closes (refuse_if b e).
Proof. apply closes_or_close. Qed.
Lemma closes_bind {A B} (m : IO A) (k : A → IO B) :
  closes m → (∀ a, closes (k a)) → closes (io_bind m k).
Proof.
  intros Hm Hk c e. unfold io_bind. specialize (Hm c). destruct (m c) as [c' [a|e']].
  - apply Hk.
  - intros _. by apply (Hm e').
Qed.

#[export] Hint Resolve closes_ret closes_or_close closes_refuse_if : go.

(** A failed attempt leaves no open connection behind. *)
Lemma on_dialled_closes {A} dial w (m : IO A) c e :
  closes m → on_dialled dial w m = (Some c, Err e) → cn_closed c = true.
Proof.
  intros Hm. unfold on_dialled. destruct dial as [c0|]; [|done]. specialize (Hm c0 e).
  destruct (m c0) as [c1 r]. intros [= -> ->]. by apply Hm.
Qed.

(** ** Running a step that succeeds *)

Lemma io_bind_ok {A B} (m : IO A) (k : A → IO B) c c' a :
  m c = (c', Ok a) → io_bind m k c = k a c'.
Proof. unfold io_bind. by intros ->. Qed.

Lemma or_close_ok {A} w (m : IO A) c c' a : m c = (c', Ok a) → or_close w m c = (c', Ok a).
Proof. unfold or_close. by intros ->. Qed.

Lemma io_write_ok data i o n cl : io_write data (mkConn i o (S n) cl) = (mkConn i (o ++ [data]) n cl, Ok ()).
Proof. done. Qed.

Lemma io_read_full_app x rest o n cl k : k = length x →
  io_read_full k (mkConn (x ++ rest) o n cl) = (mkConn rest o n cl, Ok x).
Proof.
  intros ->. unfold io_read_full. simpl. rewrite decide_True by (rewrite length_app; lia).
  by rewrite take_app_length, drop_app_length.
Qed.

Lemma refuse_if_false e c : refuse_if false e c = (c, Ok ()).
Proof. done. Qed.

(** Reads of the short fixed parts of a handshake. *)
Lemma io_read_1 a rest o n cl :
  io_read_full 1 (mkConn (a :: rest) o n cl) = (mkConn rest o n cl, Ok [a]).
Proof. by apply (io_read_full_app [a]). Qed.
Lemma io_read_2 a b rest o n cl :
  io_read_full 2 (mkConn (a :: b :: rest) o n cl) = (mkConn rest o n cl, Ok [a; b]).
Proof. by apply (io_read_full_app [a; b]). Qed.
Lemma io_read_4 a b c d rest o n cl :
  io_read_full 4 (mkConn (a :: b :: c :: d :: rest) o n cl) = (mkConn rest o n cl, Ok [a; b; c; d]).
Proof. by apply (io_read_full_app [a; b; c; d]). Qed.

(** Run one step of a handshake whose next bytes are known. *)
Ltac io_step :=
  cbn [app];
  first
    [ erewrite io_bind_ok;
        [|apply or_close_ok; first [apply io_write_ok | apply io_read_1 | apply io_read_2 | apply io_read_4]]
    | erewrite io_bind_ok; [|apply refuse_if_false] ];
  cbn beta iota; cbn [negb orb Z.eqb Pos.eqb].
