(* ===== verification/Socks5.v ===== *)
(** * The SOCKS5 landing: [internal/landing/socks5.go] *)

From S2P Require Import Prelude GoStrings GoNet Domains IPv4Tree AddrText GoConn.

Record socks5Dialer := mkSocks5 { s5_server : bytes; s5_user : bytes; s5_password : bytes }.

Definition has_credentials (d : socks5Dialer) : bool :=
  negb (bool_decide (s5_user d = [])) || negb (bool_decide (s5_password d = [])).

Definition wrap (msg : string) : error → error := EWrap msg.

(** The greeting and the authentication of [authenticatedConn], after the
    deadline is set. *)
Definition authenticate (d : socks5Dialer) : IO () :=
  let method := if has_credentials d then 2 else 0 in
  let! _ := or_close (wrap "SOCKS5 greeting write") (io_write [5; 1; method]) in
  let! response := or_close (wrap "SOCKS5 greeting read") (io_read_full 2) in
  match response with
  | [version; selected] =>
      let! _ := refuse_if (negb (version =? 5)) (EMsg "SOCKS5 greeting: invalid version") in
      let! _ := refuse_if (selected =? 255) (EMsg "SOCKS5 method rejected") in
      let! _ := refuse_if (negb (selected =? method))
                  (EMsg "SOCKS5 greeting: server selected unoffered method") in
      if selected =? 2 then
        let! _ := refuse_if ((255 <? length (s5_user d))%nat || (255 <? length (s5_password d))%nat)
                    (EMsg "SOCKS5 credentials too long") in
        let auth := [1; u8 (Z.of_nat (length (s5_user d)))] ++ s5_user d
                    ++ [u8 (Z.of_nat (length (s5_password d)))] ++ s5_password d in
        let! _ := or_close (wrap "SOCKS5 authentication write") (io_write auth) in
        let! response := or_close (wrap "SOCKS5 authentication read") (io_read_full 2) in
        match response with
        | [version; status] =>
            let! _ := refuse_if (negb (version =? 1)) (EMsg "SOCKS5 authentication: invalid version") in
            refuse_if (negb (status =? 0)) (EMsg "SOCKS5 authentication rejected")
        | _ => io_ret ()
        end
      else io_ret ()
  | _ => io_ret ()
  end.

(** [authenticatedConn]; [deadline_err] is the outcome of [SetDeadline]. *)
Definition authenticatedConn (d : socks5Dialer) (deadline_err : option error) : IO () :=
  let! _ := or_close id (match deadline_err with Some e => io_err e | None => io_ret () end) in
  authenticate d.

(** The CONNECT request for a target. *)
Definition connect_request (target : bytes) : result bytes :=
  let? (host, portText) := SplitHostPort target in
  match Atoi portText with
  | None => errorf "invalid target port"
  | Some port =>
      if (port <? 1) || (65535 <? port) then errorf "invalid target port" else
      let? address :=
        match ParseIP host ≫= To4 with
        | Some ip => Ok ([1] ++ ip)
        | None => if (length host =? 0)%nat || (255 <? length host)%nat
                  then errorf "invalid target domain"
                  else Ok ([3; u8 (Z.of_nat (length host))] ++ host)
        end in
      Ok ([5; 1; 0] ++ address ++ [u8 (Z.shiftr port 8); u8 port])
  end.

(** How many bytes of address follow the header of a reply. *)
Definition reply_address (atyp : Z) : IO nat :=
  if atyp =? 1 then io_ret 4%nat
  else if atyp =? 3 then
    let! n := or_close (wrap "SOCKS5 connect address length read") (io_read_full 1) in
    io_ret (match n with [n] => Z.to_nat n | _ => O end)
  else if atyp =? 4 then io_ret 16%nat
  else or_close id (io_err (EMsg "invalid SOCKS5 reply")).

(** [Dial] on the dialled connection. *)
Definition socks5_connect (d : socks5Dialer) (deadline_err : option error) (target : bytes) : IO () :=
  let! _ := authenticatedConn d deadline_err in
  let! request := or_close id (io_lift (connect_request target)) in
  let! _ := or_close (wrap "SOCKS5 connect write") (io_write request) in
  let! response := or_close (wrap "SOCKS5 connect read") (io_read_full 4) in
  match response with
  | [version; status; reserved; atyp] =>
      let! _ := refuse_if (negb (version =? 5) || negb (reserved =? 0))
                  (EMsg "SOCKS5 connect: invalid reply header") in
      let! _ := refuse_if (negb (status =? 0)) (EMsg "SOCKS5 connect rejected") in
      let! remaining := reply_address atyp in
      let! _ := or_close (wrap "SOCKS5 connect address read") (io_read_full (remaining + 2)) in
      io_ret ()
  | _ => io_ret ()
  end.

(** [socks5Dialer.Dial]; [dial] is the base dialer. *)
Definition socks5_Dial (dial : bytes → result conn) (d : socks5Dialer) (deadline_err : option error)
    (target : bytes) : option conn * result () :=
  on_dialled (dial (s5_server d)) (wrap "SOCKS5 upstream dial") (socks5_connect d deadline_err target).

(** ** No failed attempt leaves a connection open *)

Ltac closing :=
  repeat first
    [ apply closes_ret | apply closes_or_close | apply closes_refuse_if
    | apply closes_bind; [|intros ?]
    | match goal with
      | |- closes (match ?x with _ => _ end) => destruct x
      end ].

Lemma authenticatedConn_closes d de : closes (authenticatedConn d de).
Proof. unfold authenticatedConn, authenticate. closing. Qed.

Lemma reply_address_closes atyp : closes (reply_address atyp).
Proof. unfold reply_address. closing. Qed.

Lemma socks5_connect_closes d de target : closes (socks5_connect d de target).
Proof.
  unfold socks5_connect. apply closes_bind; [apply authenticatedConn_closes|]. intros _.
  closing. apply reply_address_closes.
Qed.

(** ** The handshake with a conforming server *)

(** What a server answers to the greeting and the credentials. *)
Definition auth_reply (d : socks5Dialer) : bytes :=
  if has_credentials d then [5; 2; 1; 0] else [5; 0].

(** What the client has written once it is authenticated. *)
Definition auth_messages (d : socks5Dialer) : list bytes :=
  if has_credentials d
  then [[5; 1; 2];
        [1; Z.of_nat (length (s5_user d))] ++ s5_user d
        ++ [Z.of_nat (length (s5_password d))] ++ s5_password d]
  else [[5; 1; 0]].

(** A successful reply to CONNECT: any bound address, of any type. *)
Inductive connect_reply : bytes → Prop :=
| reply_ipv4 a p : length a = 4%nat → length p = 2%nat → connect_reply ([5; 0; 0; 1] ++ a ++ p)
| reply_ipv6 a p : length a = 16%nat → length p = 2%nat → connect_reply ([5; 0; 0; 4] ++ a ++ p)
| reply_domain a p : (length a ≤ 255)%nat → length p = 2%nat →
    connect_reply ([5; 0; 0; 3] ++ [Z.of_nat (length a)] ++ a ++ p).

Lemma authenticate_ok d rest o n :
  (length (s5_user d) ≤ 255)%nat → (length (s5_password d) ≤ 255)%nat →
  ∃ m, authenticate d (mkConn (auth_reply d ++ rest) o (2 + n) false) =
    (mkConn rest (o ++ auth_messages d) m false, Ok ()) ∧ (n ≤ m)%nat.
Proof.
  intros Hu Hp. unfold authenticate, auth_reply, auth_messages. destruct (has_credentials d).
  - do 5 io_step.
    rewrite (proj2 (Nat.ltb_ge 255 (length (s5_user d)))), (proj2 (Nat.ltb_ge 255 (length (s5_password d)))) by done.
    rewrite !u8_small by lia. cbn [orb]. do 4 io_step.
    exists n. rewrite <- app_assoc. done.
  - do 5 io_step. exists (S n). split; [done|lia].
Qed.

Lemma connect_reply_consumed reply rest o n d target request :
  connect_reply reply → connect_request target = Ok request →
  (let! request := or_close id (io_lift (connect_request target)) in
   let! _ := or_close (wrap "SOCKS5 connect write") (io_write request) in
   let! response := or_close (wrap "SOCKS5 connect read") (io_read_full 4) in
   match response with
   | [version; status; reserved; atyp] =>
       let! _ := refuse_if (negb (version =? 5) || negb (reserved =? 0))
                   (EMsg "SOCKS5 connect: invalid reply header") in
       let! _ := refuse_if (negb (status =? 0)) (EMsg "SOCKS5 connect rejected") in
       let! remaining := reply_address atyp in
       let! _ := or_close (wrap "SOCKS5 connect address read") (io_read_full (remaining + 2)) in
       io_ret ()
   | _ => io_ret ()
   end) (mkConn (reply ++ rest) o (S n) d) = (mkConn rest (o ++ [request]) n d, Ok ()).
Proof.
  intros Hr Hq. erewrite io_bind_ok by (apply or_close_ok; unfold io_lift; by rewrite Hq).
  io_step. destruct Hr as [a p Ha Hp|a p Ha Hp|a p Ha Hp]; rewrite <- !app_assoc;
    do 3 io_step; unfold reply_address; cbn [Z.eqb Pos.eqb].
  3: erewrite (io_bind_ok (io_bind _ _)) by (io_step; reflexivity).
  1,2: erewrite io_bind_ok by done.
  all: cbn beta iota; rewrite ?Nat2Z.id, (app_assoc a); erewrite io_bind_ok; [done|];
    apply or_close_ok, io_read_full_app; rewrite length_app; lia.
Qed.

(** ** What the server reads *)

(** How a SOCKS5 server reads a CONNECT request: the destination and its port. *)
Definition server_reads (request : bytes) : option (bytes * Z) :=
  match request with
  | [5; 1; 0; 1; a; b; c; d; hi; lo] => Some (string4 a b c d, hi * 256 + lo)
  | 5 :: 1 :: 0 :: 3 :: n :: rest =>
      match drop (Z.to_nat n) rest with
      | [hi; lo] => Some (take (Z.to_nat n) rest, hi * 256 + lo)
      | _ => None
      end
  | _ => None
  end.

Lemma port_bytes port : 0 ≤ port < 65536 → u8 (Z.shiftr port 8) * 256 + u8 port = port.
Proof.
  intros Hp. rewrite u8_shiftr by lia. unfold u8. change (2 ^ 8) with 256.
  Z.to_euclidean_division_equations. lia.
Qed.

Lemma connect_request_ipv4 a b c d port :
  byte4 (Addr4 a b c d) → 1 ≤ port ≤ 65535 →
  connect_request (addrport_String (mkAddrPort (Addr4 a b c d) port)) =
    Ok [5; 1; 0; 1; a; b; c; d; u8 (Z.shiftr port 8); u8 port].
Proof.
  intros Hb Hp. unfold connect_request. rewrite SplitHostPort_endpoint by (done || lia).
  rewrite Atoi_Itoa by lia.
  rewrite (proj2 (Z.ltb_ge port 1)), (proj2 (Z.ltb_ge 65535 port)) by lia. cbn [orb].
  unfold ParseIP. rewrite ParseAddr_string4 by done. done.
Qed.

Lemma connect_request_domain name port :
  normalized name → ParseIP name = None → 1 ≤ port ≤ 65535 →
  connect_request (name ++ [58] ++ Itoa port) =
    Ok ([5; 1; 0; 3; Z.of_nat (length name)] ++ name ++ [u8 (Z.shiftr port 8); u8 port]).
Proof.
  intros Hn Hip Hp. destruct (Hn) as [Hlen _].
  unfold connect_request. rewrite SplitHostPort_name by (done || lia). rewrite Atoi_Itoa by lia.
  rewrite (proj2 (Z.ltb_ge port 1)), (proj2 (Z.ltb_ge 65535 port)) by lia. cbn [orb].
  rewrite Hip. cbn [mbind option_bind].
  rewrite (proj2 (Nat.eqb_neq (length name) 0)), (proj2 (Nat.ltb_ge 255 (length name))) by lia. cbn [orb].
  rewrite u8_small by lia. by rewrite <- ?app_assoc.
Qed.

Lemma server_reads_domain name p : (1 ≤ length name ≤ 255)%nat → 0 ≤ p < 65536 →
  server_reads ([5; 1; 0; 3; Z.of_nat (length name)] ++ name ++ [u8 (Z.shiftr p 8); u8 p]) = Some (name, p).
Proof.
  intros Hn Hp. cbn [app server_reads]. rewrite Nat2Z.id, drop_app_length, take_app_length.
  by rewrite port_bytes.
Qed.

(** The targets the data plane dials: an IPv4 endpoint, or a canonical name that
    is no address with a port. *)
Inductive dial_text : bytes → bytes → Z → Prop :=
| dial_ipv4 a b c d port : byte4 (Addr4 a b c d) → 1 ≤ port ≤ 65535 →
    dial_text (addrport_String (mkAddrPort (Addr4 a b c d) port)) (string4 a b c d) port
| dial_name name port : normalized name → ParseIP name = None → 1 ≤ port ≤ 65535 →
    dial_text (name ++ [58] ++ Itoa port) name port.

Lemma connect_request_reads target host port :
  dial_text target host port →
  ∃ request, connect_request target = Ok request ∧ server_reads request = Some (host, port).
Proof.
  destruct 1 as [a b c d port Hb Hp|name port Hn Hip Hp].
  - rewrite connect_request_ipv4 by done. eexists. split; [done|]. simpl. by rewrite port_bytes by lia.
  - rewrite connect_request_domain by done. eexists. split; [done|].
    apply server_reads_domain; [|lia]. destruct Hn as [? _]. lia.
Qed.

(** C30: a SOCKS5 dial to a conforming server succeeds and leaves the tunnel at its
    first byte: the client writes exactly the greeting, the credentials and one
    CONNECT request, which the server reads as the target's host and port; the
    connection is open and what is left to read is exactly what follows the
    server's reply. *)
Theorem socks5_Dial_handshake (d : socks5Dialer) (dial : bytes → result conn)
    (target host : bytes) (port : Z) (reply rest : bytes) :
  (length (s5_user d) ≤ 255)%nat → (length (s5_password d) ≤ 255)%nat →
  dial_text target host port → connect_reply reply →
  dial (s5_server d) = Ok (mkConn (auth_reply d ++ reply ++ rest) [] 3 false) →
  ∃ request left, socks5_Dial dial d None target =
      (Some (mkConn rest (auth_messages d ++ [request]) left false), Ok ()) ∧
    server_reads request = Some (host, port).
Proof.
  intros Hu Hp Ht Hr Hd. destruct (connect_request_reads _ _ _ Ht) as (request & Hq & Hs).
  unfold socks5_Dial, on_dialled. rewrite Hd. unfold socks5_connect, authenticatedConn.
  destruct (authenticate_ok d (reply ++ rest) [] 1 Hu Hp) as (m & Ha & Hm).
  destruct m as [|m]; [lia|].
  erewrite io_bind_ok; [|erewrite io_bind_ok; [exact Ha|done]]. cbn beta.
  erewrite connect_reply_consumed by done. by eexists _, _.
Qed.

(** ** Witness *)

Lemma socks5_Dial_handshake_witness :
  ∃ request left,
    socks5_Dial (λ _, Ok (mkConn ([5; 2; 1; 0] ++ [5; 0; 0; 1; 9; 9; 9; 9; 1; 1] ++ [72]) [] 3 false))
      (mkSocks5 (str "1.2.3.4:1080") (str "u") (str "p")) None (str "a.cn:443") =
    (Some (mkConn [72] [[5; 1; 2]; [1; 1; 117; 1; 112]; request] left false), Ok ()) ∧
    server_reads request = Some (str "a.cn", 443).
Proof.
  apply (socks5_Dial_handshake (mkSocks5 (str "1.2.3.4:1080") (str "u") (str "p")) _ (str "a.cn:443")
           (str "a.cn") 443 [5; 0; 0; 1; 9; 9; 9; 9; 1; 1] [72]).
  - simpl. lia.
  - simpl. lia.
  - apply (dial_name (str "a.cn") 443); [|vm_compute; reflexivity|lia].
    apply (NormalizeDomain_Ok (str "a.cn")). vm_compute. reflexivity.
  - apply (reply_ipv4 [9; 9; 9; 9] [1; 1]); reflexivity.
  - reflexivity.
Defined.
