(* ===== verification/HttpConnect.v ===== *)
(** * The HTTP CONNECT landing: [internal/landing/http.go],
    [internal/landing/prefixed_conn.go]

    The dial reads the proxy's response through a buffered reader that may take
    more from the connection than the response, and the connection it returns
    reads through that reader. *)

From S2P Require Import Prelude GoStrings GoNet Domains IPv4Tree GoCodec Config AddrText GoConn Socks5.

(** ** [base64.StdEncoding] *)

Definition b64_digit (v : Z) : Z :=
  if v <? 26 then 65 + v else if v <? 52 then 71 + v else if v <? 62 then v - 4
  else if v =? 62 then 43 else 47.

Fixpoint b64std_EncodeToString (s : bytes) : bytes :=
  match s with
  | [] => []
  | [a] => [b64_digit (a / 4); b64_digit (a mod 4 * 16); 61; 61]
  | [a; b] => [b64_digit (a / 4); b64_digit (a mod 4 * 16 + b / 16); b64_digit (b mod 16 * 4); 61]
  | a :: b :: c :: s =>
      [b64_digit (a / 4); b64_digit (a mod 4 * 16 + b / 16); b64_digit (b mod 16 * 4 + c / 64);
       b64_digit (c mod 64)] ++ b64std_EncodeToString s
  end.

Example b64_sample : b64std_EncodeToString (str "user:pass") = str "dXNlcjpwYXNz".
Proof. reflexivity. Qed.

(** ** Lines and MIME headers of a stream: [net/textproto] *)

Definition crlf : bytes := [13; 10].

(** [ReadString('\n')]: the line with its end, or the end of the stream. *)
Definition read_string (s : bytes) : option (bytes * bytes) :=
  match IndexByte s 10 with
  | Some i => Some (take (S i) s, drop (S i) s)
  | None => None
  end.

(** [ReadLine]: the line without its end; a last line may lack one. *)
Definition read_line (s : bytes) : option (bytes * bytes) :=
  match s with
  | [] => None
  | _ => match IndexByte s 10 with
         | None => Some (s, [])
         | Some i => Some (TrimSuffix (take i s) [13], drop (S i) s)
         end
  end.

Definition is_blank (c : Z) : bool := (c =? 32) || (c =? 9).

Fixpoint skip_blanks (s : bytes) : bytes :=
  match s with c :: s' => if is_blank c then skip_blanks s' else s | [] => [] end.

Definition trim_blanks (s : bytes) : bytes := reverse (skip_blanks (reverse (skip_blanks s))).

(** The continuation lines of a header: each starts with a blank. *)
Fixpoint continue_lines (fuel : nat) (buf s : bytes) : bytes * bytes :=
  match fuel, s with
  | S fuel, c :: _ =>
      if is_blank c then
        match read_line (skip_blanks s) with
        | None => (buf ++ [32], [])
        | Some (line, s) => continue_lines fuel (buf ++ [32] ++ trim_blanks line) s
        end
      else (buf, s)
  | _, _ => (buf, s)
  end.

Definition token_byte (c : Z) : bool :=
  is_digit c || in_range 65 90 c || in_range 97 122 c
  || ContainsByte (str "!#$%&'*+-.^_`|~") c.

Definition value_byte (c : Z) : bool := (c =? 9) || ((32 <=? c) && negb (c =? 127)).

(** One header of [ReadMIMEHeader]: its key and value are well formed. *)
Definition header_ok (kv : bytes) : bool :=
  match IndexByte kv 58 with
  | None => false
  | Some i =>
      let key := take i kv in
      negb (bool_decide (key = [])) && forallb (λ c, token_byte c || (c =? 32)) key
      && forallb value_byte (drop (S i) kv)
  end.

(** The loop of [ReadMIMEHeader]: the stream after the blank line. *)
Fixpoint mime_loop (fuel : nat) (s : bytes) : result bytes :=
  match fuel with
  | O => errorf "unexpected EOF"
  | S fuel =>
      match read_line s with
      | None => Err EEOF
      | Some ([], s) => Ok s
      | Some (line, s) =>
          if negb (ContainsByte line 58) then errorf "malformed MIME header" else
          let '(kv, s) := continue_lines (length s) (trim_blanks line) s in
          if header_ok kv then mime_loop fuel s else errorf "malformed MIME header line"
      end
  end.

Definition ReadMIMEHeader (s : bytes) : result bytes :=
  match s with
  | c :: _ => if is_blank c then errorf "malformed MIME header initial line"
              else mime_loop (S (length s)) s
  | [] => mime_loop 1 []
  end.

(** ** The same through a [bufio.Reader] *)

(** The reader: its buffer, how many bytes its next reads of the connection bring
    (at least one while there are any; all that fit in the buffer when the list is
    over), and the connection. *)
Record bufReader := mkBuf { br_buf : bytes; br_fills : list nat; br_conn : conn }.

Definition set_buf (r : bufReader) (buf : bytes) : bufReader := mkBuf buf (br_fills r) (br_conn r).

Definition conn_take (c : conn) (n : nat) : conn :=
  mkConn (drop n (cn_in c)) (cn_out c) (cn_writes c) (cn_closed c).

(** The size given to [NewReaderSize]. *)
Definition reader_size : nat := Z.to_nat 8192.

Definition next_fill (r : bufReader) : nat :=
  Nat.max 1 (match br_fills r with n :: _ => n | [] => reader_size end).

(** [fill]: one read of the connection; [None] at its end. *)
Definition br_fill (r : bufReader) : option bufReader :=
  match cn_in (br_conn r) with
  | [] => None
  | _ => Some (mkBuf (br_buf r ++ take (next_fill r) (cn_in (br_conn r))) (tail (br_fills r))
                 (conn_take (br_conn r) (next_fill r)))
  end.

(** Fill until the buffer is enough or the connection ends. *)
Fixpoint br_until (fuel : nat) (enough : bytes → bool) (r : bufReader) : bufReader :=
  match fuel with
  | O => r
  | S fuel => if enough (br_buf r) then r
              else match br_fill r with None => r | Some r => br_until fuel enough r end
  end.

Definition br_wait (enough : bytes → bool) (r : bufReader) : bufReader :=
  br_until (S (length (cn_in (br_conn r)))) enough r.

Definition br_ReadString (r : bufReader) : bufReader * option bytes :=
  let r := br_wait (λ b, ContainsByte b 10) r in
  match read_string (br_buf r) with
  | None => (set_buf r [], None)
  | Some (line, rest) => (set_buf r rest, Some line)
  end.

Definition br_ReadLine (r : bufReader) : bufReader * option bytes :=
  let r := br_wait (λ b, ContainsByte b 10) r in
  match read_line (br_buf r) with
  | None => (r, None)
  | Some (line, rest) => (set_buf r rest, Some line)
  end.

Definition br_skipSpace (r : bufReader) : bufReader :=
  let r := br_wait (existsb (λ c, negb (is_blank c))) r in set_buf r (skip_blanks (br_buf r)).

(** Whether the next byte is a blank. *)
Definition br_blank_next (r : bufReader) : bufReader * bool :=
  let r := br_wait (λ b, negb (bool_decide (b = []))) r in
  (r, match br_buf r with c :: _ => is_blank c | [] => false end).

Fixpoint br_continue (fuel : nat) (kv : bytes) (r : bufReader) : bufReader * bytes :=
  match fuel with
  | O => (r, kv)
  | S fuel =>
      let '(r, blank) := br_blank_next r in
      if blank : bool then
        match br_ReadLine (br_skipSpace r) with
        | (r, None) => (r, kv ++ [32])
        | (r, Some line) => br_continue fuel (kv ++ [32] ++ trim_blanks line) r
        end
      else (r, kv)
  end.

Fixpoint br_mime_loop (fuel : nat) (r : bufReader) : bufReader * result () :=
  match fuel with
  | O => (r, errorf "unexpected EOF")
  | S fuel =>
      match br_ReadLine r with
      | (r, None) => (r, Err EEOF)
      | (r, Some []) => (r, Ok ())
      | (r, Some line) =>
          if negb (ContainsByte line 58) then (r, errorf "malformed MIME header") else
          let '(r, kv) := br_continue (length (br_buf r ++ cn_in (br_conn r))) (trim_blanks line) r in
          if header_ok kv then br_mime_loop fuel r else (r, errorf "malformed MIME header line")
      end
  end.

Definition br_ReadMIMEHeader (r : bufReader) : bufReader * result () :=
  let '(r, blank) := br_blank_next r in
  if blank : bool then (r, errorf "malformed MIME header initial line")
  else br_mime_loop (S (length (br_buf r ++ cn_in (br_conn r)))) r.

(** ** The dialer *)

Record httpDialer := mkHttp { hd_server : bytes; hd_user : bytes; hd_password : bytes }.

Definition http_request (d : httpDialer) (target : bytes) : bytes :=
  str "CONNECT " ++ target ++ str " HTTP/1.1" ++ crlf ++ str "Host: " ++ target ++ crlf
  ++ (if negb (bool_decide (hd_user d = [])) || negb (bool_decide (hd_password d = []))
      then str "Proxy-Authorization: Basic "
           ++ b64std_EncodeToString (hd_user d ++ [58] ++ hd_password d) ++ crlf
      else [])
  ++ crlf.

(** [reader.ReadString] and the test of the status line. *)
Definition read_status (r : bufReader) : bufReader * result () :=
  match br_ReadString r with
  | (r, None) => (r, Err (EMsg "HTTP CONNECT rejected"))
  | (r, Some line) =>
      (r, if (1024 <? length line)%nat || negb (HasPrefix line (str "HTTP/"))
             || negb (Contains line (str " 200 "))
          then Err (EMsg "HTTP CONNECT rejected") else Ok ())
  end.

(** The deadline and the request. *)
Definition http_send (d : httpDialer) (deadline_err : option error) (target : bytes) : IO () :=
  let! _ := or_close id (match deadline_err with Some e => io_err e | None => io_ret () end) in
  or_close id (io_write (http_request d target)).

Definition br_close (r : bufReader) : bufReader := mkBuf (br_buf r) (br_fills r) (io_close (br_conn r)).1.

(** [Dial]; [fills] is how the bytes of the proxy arrive.  The result is the
    connection with the reader in front of it, a [prefixedConn]. *)
Definition http_Dial (fills : list nat) (dial : bytes → result conn) (d : httpDialer)
    (deadline_err : option error) (target : bytes) : option bufReader * result () :=
  match dial (hd_server d) with
  | Err e => (None, Err e)
  | Ok c =>
      match http_send d deadline_err target c with
      | (c, Err e) => (Some (mkBuf [] fills c), Err e)
      | (c, Ok _) =>
          match read_status (mkBuf [] fills c) with
          | (r, Err e) => (Some (br_close r), Err e)
          | (r, Ok _) =>
              match br_ReadMIMEHeader r with
              | (r, Err e) => (Some (br_close r), Err (EWrap "HTTP CONNECT headers" e))
              | (r, Ok _) => (Some r, Ok ())
              end
          end
      end
  end.

(** [prefixedConn.Read] into a slice of [n] bytes, by [bufio.Reader.Read]: what is
    buffered first; with an empty buffer, a read of the connection, directly when
    the slice is as large as the buffer. *)
Definition prefixed_Read (r : bufReader) (n : nat) : bufReader * result bytes :=
  if (n =? 0)%nat then (r, Ok []) else
  match br_buf r with
  | [] =>
      match cn_in (br_conn r) with
      | [] => (r, Err EEOF)
      | input =>
          if (reader_size <=? n)%nat then
            let k := Nat.min n (next_fill r) in
            (mkBuf [] (tail (br_fills r)) (conn_take (br_conn r) k), Ok (take k input))
          else
            match br_fill r with
            | None => (r, Err EEOF)
            | Some r => (set_buf r (drop n (br_buf r)), Ok (take n (br_buf r)))
            end
      end
  | buf => (set_buf r (drop n buf), Ok (take n buf))
  end.

(** ** The landing of a configuration: [New] *)

Inductive landing :=
| LandDirect
| LandHTTP (d : httpDialer)
| LandSOCKS5 (d : socks5Dialer).

Definition New_landing (cfg : LandingConfig) : result landing :=
  if bool_decide (landing_type cfg = str "direct") then Ok LandDirect
  else if bool_decide (landing_type cfg = str "http") then
    Ok (LandHTTP (mkHttp (landing_server cfg) (landing_username cfg)
                     (landing_password cfg)))
  else if bool_decide (landing_type cfg = str "socks5") then
    Ok (LandSOCKS5 (mkSocks5 (landing_server cfg) (landing_username cfg)
                     (landing_password cfg)))
  else errorf "unsupported landing type".

(** Dialling through a landing; [base] is the relay below it.  A plain connection
    is one with nothing buffered in front of it. *)
Definition plain (r : option conn * result ()) : option bufReader * result () :=
  (mkBuf [] [] <$> r.1, r.2).

Definition landing_Dial (fills : list nat) (base : bytes → result conn) (l : landing)
    (deadline_err : option error) (target : bytes) : option bufReader * result () :=
  match l with
  | LandDirect => plain (on_dialled (base target) id (io_ret ()))
  | LandHTTP d => http_Dial fills base d deadline_err target
  | LandSOCKS5 d => plain (socks5_Dial base d deadline_err target)
  end.

(** ** Failures close *)

Lemma http_send_closes d de target : closes (http_send d de target).
Proof. unfold http_send. closing. Qed.

Lemma http_Dial_closes fills dial d de target r e :
  http_Dial fills dial d de target = (Some r, Err e) → cn_closed (br_conn r) = true.
Proof.
  unfold http_Dial. destruct (dial (hd_server d)) as [c|]; [|done].
  pose proof (http_send_closes d de target c) as Hs. destruct (http_send d de target c) as [c' [u|e']].
  - destruct (read_status _) as [r1 [u1|e1]]; [|by intros [= <- _]].
    destruct (br_ReadMIMEHeader r1) as [r2 [u2|e2]]; [done|by intros [= <- _]].
  - intros [= <- <-]. exact (Hs e' eq_refl).
Qed.

(** No landing leaves a connection behind: whenever a dial through a direct,
    HTTP or SOCKS5 landing fails after the relay connection was made, that
    connection has been closed. *)
Theorem landing_failure_closes (fills : list nat) (base : bytes → result conn) (l : landing)
    (deadline_err : option error) (target : bytes) (r : bufReader) (e : error) :
  landing_Dial fills base l deadline_err target = (Some r, Err e) → cn_closed (br_conn r) = true.
Proof.
  assert (Hplain : ∀ dial w (m : IO ()), closes m → plain (on_dialled dial w m) = (Some r, Err e) →
    cn_closed (br_conn r) = true).
  { intros dial w m Hm. unfold plain. intros [= H1 H2].
    destruct (on_dialled dial w m) as [[c|] out] eqn:E; [|done]. simpl in H1, H2. injection H1 as <-. subst out.
    by apply (on_dialled_closes dial w m c e Hm). }
  destruct l; simpl; [apply Hplain, closes_ret|apply http_Dial_closes|apply Hplain, socks5_connect_closes].
Qed.

(** ** The fuel is enough *)

Lemma IndexByte_bound s c i : IndexByte s c = Some i → (i < length s)%nat.
Proof.
  revert i. induction s as [|b s IH]; intros i H; simpl in *; [done|].
  destruct (b =? c); [simplify_eq; lia|]. destruct (IndexByte s c) as [j|]; [|done].
  simplify_eq/=. specialize (IH j eq_refl). lia.
Qed.

Lemma read_line_shorter s line rest : read_line s = Some (line, rest) → (length rest < length s)%nat.
Proof.
  unfold read_line. destruct s as [|c s]; [done|]. destruct (IndexByte (c :: s) 10) as [i|] eqn:E.
  - intros [= <- <-]. apply IndexByte_bound in E. rewrite length_drop. simpl in *. lia.
  - intros [= <- <-]. simpl. lia.
Qed.

Lemma skip_blanks_length s : (length (skip_blanks s) ≤ length s)%nat.
Proof. induction s as [|c s IH]; simpl; [done|]. destruct (is_blank c); [|done]. lia. Qed.

Lemma continue_lines_length fuel buf s : (length (continue_lines fuel buf s).2 ≤ length s)%nat.
Proof.
  revert buf s. induction fuel as [|fuel IH]; intros buf s; simpl; [done|]. destruct s as [|c s]; [done|].
  cbn [continue_lines]. destruct (is_blank c) eqn:E; [|done].
  pose proof (skip_blanks_length (c :: s)).
  destruct (read_line _) as [[line rest]|] eqn:Er; [|simpl; lia].
  apply read_line_shorter in Er. etransitivity; [apply IH|lia].
Qed.

(** More fuel than bytes never changes the result of the header loop. *)
Lemma mime_loop_fuel f1 f2 s :
  (length s < f1)%nat → (length s < f2)%nat → mime_loop f1 s = mime_loop f2 s.
Proof.
  revert f2 s. induction f1 as [|f1 IH]; intros f2 s H1 H2; [lia|]. destruct f2 as [|f2]; [lia|].
  cbn [mime_loop]. destruct (read_line s) as [[line rest]|] eqn:Er; [|done].
  apply read_line_shorter in Er. destruct line as [|c line]; [done|].
  destruct (negb _); [done|].
  pose proof (continue_lines_length (length rest) (trim_blanks (c :: line)) rest) as Hc.
  destruct (continue_lines _ _ _) as [kv s']. simpl in Hc. destruct (header_ok kv); [|done].
  apply IH; lia.
Qed.

(** ** The tunnel starts right after the response *)

(** A header line as a proxy sends it. *)
Record mime_header (h : bytes * bytes) : Prop := {
  mh_key : h.1 ≠ [];
  mh_token : Forall (λ c, token_byte c = true) h.1;
  mh_value : Forall (λ c, value_byte c = true) h.2 }.

Definition header_line (h : bytes * bytes) : bytes := h.1 ++ [58; 32] ++ h.2 ++ crlf.

Definition response (status : bytes) (headers : list (bytes * bytes)) : bytes :=
  status ++ crlf ++ mjoin (header_line <$> headers) ++ crlf.

Lemma IndexByte_mid h c p : avoids c h → IndexByte (h ++ c :: p) c = Some (length h).
Proof.
  induction 1 as [|b h Hb _ IH]; simpl; [by rewrite Z.eqb_refl|].
  by rewrite (proj2 (Z.eqb_neq b c)), IH.
Qed.

Lemma drop_S_mid {A} (h : list A) c p : drop (S (length h)) (h ++ c :: p) = p.
Proof. by induction h. Qed.

Lemma TrimSuffix_app s p : TrimSuffix (s ++ p) p = s.
Proof.
  unfold TrimSuffix, HasSuffix. rewrite length_app.
  replace (length s + length p - length p)%nat with (length s) by lia.
  rewrite drop_app_length, take_app_length, bool_decide_true by done.
  by rewrite (proj2 (Nat.leb_le _ _)) by lia.
Qed.

Lemma read_line_crlf line rest : avoids 10 line → read_line (line ++ crlf ++ rest) = Some (line, rest).
Proof.
  intros Hl. unfold read_line.
  assert (E : line ++ crlf ++ rest = (line ++ [13]) ++ 10 :: rest) by (by rewrite <- app_assoc).
  rewrite E. destruct ((line ++ [13]) ++ 10 :: rest) as [|c s] eqn:E2; [by destruct line|].
  rewrite <- E2, IndexByte_mid by (apply Forall_app; split; [done|by repeat constructor]).
  by rewrite take_app_length, drop_S_mid, TrimSuffix_app.
Qed.

Lemma token_byte_facts c : token_byte c = true →
  is_blank c = false ∧ c ≠ 58 ∧ c ≠ 10.
Proof.
  intros H. split; [|split].
  - destruct (is_blank c) eqn:E; [|done]. unfold is_blank in E. apply orb_prop in E as [E|E]; bools; subst;
      by vm_compute in H.
  - intros ->. by vm_compute in H.
  - intros ->. by vm_compute in H.
Qed.

Lemma value_byte_not_newline c : value_byte c = true → c ≠ 10.
Proof. intros H ->. by vm_compute in H. Qed.

(** What follows a header of a well-formed response does not continue it. *)
Definition starts_plain (s : bytes) : Prop := ∀ c s', s = c :: s' → is_blank c = false.

Lemma continue_lines_plain fuel buf s : starts_plain s → continue_lines fuel buf s = (buf, s).
Proof.
  intros H. destruct fuel as [|fuel]; [by destruct s|]. destruct s as [|c s]; [done|].
  cbn [continue_lines]. by rewrite (H c s eq_refl).
Qed.

Lemma headers_plain headers rest :
  Forall mime_header headers → starts_plain (mjoin (header_line <$> headers) ++ crlf ++ rest).
Proof.
  destruct 1 as [|[k v] hs [Hk Ht _] _]; [by intros c s' [= <- <-]|]. simpl in *.
  destruct k as [|c k]; [done|]. apply list.Forall_cons in Ht as [Hc _].
  intros c' s' [= <- _]. by apply token_byte_facts.
Qed.

Lemma skip_blanks_suffix s : ∃ p, s = p ++ skip_blanks s.
Proof.
  induction s as [|c s [p IH]]; [by exists []|]. simpl. destruct (is_blank c); [|by exists []].
  exists (c :: p). simpl. by f_equal.
Qed.

(** Trimming a header line drops only blanks of its value. *)
Lemma trim_header k v : k ≠ [] → Forall (λ c, token_byte c = true) k →
  ∃ v', trim_blanks (k ++ [58; 32] ++ v) = k ++ [58] ++ v' ∧
        (Forall (λ c, value_byte c = true) v → Forall (λ c, value_byte c = true) v').
Proof.
  intros Hk Ht. destruct k as [|c k]; [done|]. unfold trim_blanks.
  assert (Hc : is_blank c = false) by (apply list.Forall_cons in Ht as [Hc _]; by apply token_byte_facts).
  cbn [app skip_blanks]. rewrite Hc.
  assert (E : reverse (c :: k ++ 58 :: 32 :: v) = reverse ([32] ++ v) ++ 58 :: reverse (c :: k)).
  { rewrite (app_assoc (c :: k) [58] ([32] ++ v) : c :: k ++ 58 :: 32 :: v = _).
    by rewrite reverse_app, (reverse_app (c :: k)). }
  rewrite E.
  assert (Hsk : ∀ w, ∃ p, skip_blanks (w ++ 58 :: reverse (c :: k)) = p ++ 58 :: reverse (c :: k) ∧ ∃ q, w = q ++ p).
  { intros w. induction w as [|x w (p & IH & q & Hq)]; simpl; [by exists []; split; [|exists []]|].
    destruct (is_blank x); [exists p; split; [done|]; exists (x :: q); by rewrite Hq|].
    exists (x :: w). split; [done|]. by exists []. }
  destruct (Hsk (reverse ([32] ++ v))) as (p & -> & q & Hq).
  exists (reverse p). split.
  - rewrite reverse_app, reverse_cons, reverse_involutive. by rewrite <- app_assoc.
  - intros Hv. assert (Hv' : Forall (λ c, value_byte c = true) ([32] ++ v)) by (by constructor).
    apply list.Forall_reverse in Hv'. rewrite Hq in Hv'. apply Forall_app in Hv' as [_ Hv'].
    by apply list.Forall_reverse.
Qed.

Lemma header_ok_line k v : k ≠ [] → Forall (λ c, token_byte c = true) k →
  Forall (λ c, value_byte c = true) v → header_ok (k ++ [58] ++ v) = true.
Proof.
  intros Hk Ht Hv. unfold header_ok. cbn [app].
  rewrite IndexByte_mid by (eapply list.Forall_impl; [exact Ht|]; intros c Hc; by apply token_byte_facts).
  rewrite take_app_length, drop_S_mid, bool_decide_false by done. cbn [negb andb].
  rewrite (proj2 (forallb_Forall value_byte v)) by done. rewrite andb_true_r.
  apply forallb_Forall. eapply list.Forall_impl; [exact Ht|]. simpl. by intros c ->.
Qed.

Lemma mime_loop_headers headers rest fuel :
  Forall mime_header headers → (length headers < fuel)%nat →
  mime_loop fuel (mjoin (header_line <$> headers) ++ crlf ++ rest) = Ok rest.
Proof.
  intros Hh. revert fuel. induction Hh as [|[k v] hs [Hk Ht Hv] Hhs IH]; intros fuel Hf;
    (destruct fuel as [|fuel]; [simpl in Hf; lia|]); cbn [mime_loop].
  - change (mjoin (header_line <$> []) ++ crlf ++ rest) with ([] ++ crlf ++ rest).
    by rewrite read_line_crlf by constructor.
  - simpl in Hk, Ht, Hv. rewrite fmap_cons, mjoin_cons. unfold header_line at 1. cbn [fst snd].
    replace ((k ++ [58; 32] ++ v ++ crlf) ++ mjoin (header_line <$> hs))
      with ((k ++ [58; 32] ++ v) ++ crlf ++ mjoin (header_line <$> hs)) by (by rewrite <- !app_assoc).
    rewrite <- (app_assoc (k ++ _)), <- (app_assoc crlf).
    rewrite read_line_crlf.
    2: { apply Forall_app. split; [eapply list.Forall_impl; [exact Ht|]; intros c Hc; by apply token_byte_facts|].
         repeat (constructor; [done|]). eapply list.Forall_impl; [exact Hv|]. intros c. apply value_byte_not_newline. }
    assert (Hcolon : ContainsByte (k ++ [58; 32] ++ v) 58 = true).
    { unfold ContainsByte. cbn [app]. rewrite IndexByte_mid; [done|].
      eapply list.Forall_impl; [exact Ht|]; intros c Hc; by apply token_byte_facts. }
    destruct (trim_header k v Hk Ht) as (v' & Etrim & Hv').
    destruct (k ++ [58; 32] ++ v) as [|c line] eqn:E; [by destruct k|]. rewrite <- E in *.
    rewrite Hcolon. cbn [negb]. rewrite continue_lines_plain by (by apply headers_plain).
    rewrite Etrim, header_ok_line by (done || by apply Hv'). apply IH. simpl in Hf. lia.
Qed.

Lemma length_headers headers : Forall mime_header headers →
  (length headers ≤ length (mjoin (header_line <$> headers)))%nat.
Proof.
  induction 1 as [|[k v] hs [Hk _ _] _ IH]; [done|]. rewrite fmap_cons, mjoin_cons, length_app.
  unfold header_line at 1. destruct k as [|c k]; [done|]. simpl in *. lia.
Qed.

Lemma ReadMIMEHeader_headers headers rest :
  Forall mime_header headers →
  ReadMIMEHeader (mjoin (header_line <$> headers) ++ crlf ++ rest) = Ok rest.
Proof.
  intros Hh. unfold ReadMIMEHeader. pose proof (headers_plain headers rest Hh) as Hp.
  pose proof (length_headers headers Hh) as Hl.
  destruct (mjoin _ ++ crlf ++ rest) as [|c s] eqn:E.
  - by destruct (mjoin _).
  - rewrite (Hp c s eq_refl), <- E. apply mime_loop_headers; [done|]. rewrite length_app. lia.
Qed.

Lemma take_S_mid {A} (h : list A) c p : take (S (length h)) (h ++ c :: p) = h ++ [c].
Proof. induction h as [|x h IH]; [done|]. simpl. f_equal. apply IH. Qed.

(** ** The buffered reader reads the stream *)

(** What the reader has in front of it: its buffer, then the connection. *)
Definition br_stream (r : bufReader) : bytes := br_buf r ++ cn_in (br_conn r).

(** Reading changes neither what was written nor whether the connection is closed. *)
Definition same_conn (r' r : bufReader) : Prop :=
  cn_out (br_conn r') = cn_out (br_conn r) ∧ cn_writes (br_conn r') = cn_writes (br_conn r) ∧
  cn_closed (br_conn r') = cn_closed (br_conn r).

#[export] Instance same_conn_preorder : PreOrder same_conn.
Proof. unfold same_conn. split; [done|]. intros a b c (? & ? & ?) (? & ? & ?). split_and!; congruence. Qed.

Lemma same_set_buf r b : same_conn (set_buf r b) r.
Proof. done. Qed.
#[local] Hint Resolve same_set_buf : go.

Lemma br_fill_spec r r' :
  br_fill r = Some r' →
  br_stream r' = br_stream r ∧ same_conn r' r ∧ (length (cn_in (br_conn r')) < length (cn_in (br_conn r)))%nat.
Proof.
  unfold br_fill, br_stream. destruct (cn_in (br_conn r)) as [|b s] eqn:E; [done|].
  intros [= <-]. cbn [br_buf br_conn conn_take cn_in]. rewrite <- app_assoc. rewrite E, take_drop.
  split; [done|]. split; [done|]. rewrite length_drop. unfold next_fill. simpl. lia.
Qed.

Lemma br_fill_None r : br_fill r = None ↔ cn_in (br_conn r) = [].
Proof. unfold br_fill. by destruct (cn_in (br_conn r)). Qed.

Lemma br_wait_spec enough r :
  br_stream (br_wait enough r) = br_stream r ∧ same_conn (br_wait enough r) r ∧
  (enough (br_buf (br_wait enough r)) = true ∨ cn_in (br_conn (br_wait enough r)) = []).
Proof.
  unfold br_wait. assert (H : (length (cn_in (br_conn r)) < S (length (cn_in (br_conn r))))%nat) by lia.
  revert H. generalize (S (length (cn_in (br_conn r)))). intros fuel. revert r.
  induction fuel as [|fuel IH]; intros r Hf; [lia|]. cbn [br_until].
  destruct (enough (br_buf r)) eqn:E; [split; [done|]; split; [done|]; by left|].
  destruct (br_fill r) as [r'|] eqn:Ef.
  - apply br_fill_spec in Ef as (H1 & H2 & H3). destruct (IH r') as (I1 & I2 & I3); [lia|].
    split; [by rewrite I1|]. split; [by transitivity r'|done].
  - apply br_fill_None in Ef. split; [done|]. split; [done|]. by right.
Qed.

Lemma IndexByte_app_l s t c i : IndexByte s c = Some i → IndexByte (s ++ t) c = Some i.
Proof.
  revert i. induction s as [|b s IH]; intros i H; simpl in *; [done|]. destruct (b =? c); [done|].
  destruct (IndexByte s c) as [j|]; [|done]. by rewrite (IH j eq_refl).
Qed.

(** A line that is complete in the buffer, or the last one of the connection. *)
Lemma read_line_buffered b s :
  ContainsByte b 10 = true ∨ s = [] →
  read_line (b ++ s) = match read_line b with Some (line, rest) => Some (line, rest ++ s) | None => None end.
Proof.
  intros [H| ->]; [|rewrite app_nil_r; destruct (read_line b) as [[? ?]|]; by rewrite ?app_nil_r].
  unfold ContainsByte in H. destruct (IndexByte b 10) as [i|] eqn:E; [|done].
  pose proof (IndexByte_bound _ _ _ E) as Hi. apply (IndexByte_app_l _ s) in E as E'.
  unfold read_line. destruct b as [|c b]; [done|]. cbn [app] in *. rewrite E, E'.
  change (c :: b ++ s) with ((c :: b) ++ s).
  rewrite take_app_le, drop_app_le by lia. done.
Qed.

Lemma br_ReadLine_spec r :
  same_conn (br_ReadLine r).1 r ∧
  match read_line (br_stream r) with
  | None => (br_ReadLine r).2 = None ∧ br_stream (br_ReadLine r).1 = []
  | Some (line, rest) => (br_ReadLine r).2 = Some line ∧ br_stream (br_ReadLine r).1 = rest
  end.
Proof.
  unfold br_ReadLine. destruct (br_wait_spec (λ b, ContainsByte b 10) r) as (H1 & H2 & H3).
  set (r' := br_wait _ r) in *. rewrite <- H1. unfold br_stream. rewrite read_line_buffered by done.
  destruct (read_line (br_buf r')) as [[line rest]|] eqn:E; simpl.
  - split; [by transitivity r'; [apply same_set_buf|]|done].
  - split; [done|]. split; [done|]. destruct (br_buf r') as [|c b]; [|unfold read_line in E; by destruct (IndexByte (c :: b) 10)].
    by destruct H3 as [H3|H3].
Qed.

Lemma br_ReadString_spec r :
  same_conn (br_ReadString r).1 r ∧
  match read_string (br_stream r) with
  | None => (br_ReadString r).2 = None
  | Some (line, rest) => (br_ReadString r).2 = Some line ∧ br_stream (br_ReadString r).1 = rest
  end.
Proof.
  unfold br_ReadString. destruct (br_wait_spec (λ b, ContainsByte b 10) r) as (H1 & H2 & H3).
  set (r' := br_wait _ r) in *. rewrite <- H1. unfold br_stream, read_string, ContainsByte in *.
  destruct (IndexByte (br_buf r') 10) as [i|] eqn:E.
  - rewrite (IndexByte_app_l _ _ _ _ E). apply IndexByte_bound in E. simpl.
    rewrite take_app_le, drop_app_le by lia. split; [by transitivity r'; [apply same_set_buf|]|done].
  - destruct H3 as [H3|H3]; [done|]. rewrite H3, app_nil_r, E. simpl. split; [|done].
    by transitivity r'; [apply same_set_buf|].
Qed.

Lemma skip_blanks_app b s :
  existsb (λ c, negb (is_blank c)) b = true → skip_blanks (b ++ s) = skip_blanks b ++ s.
Proof. induction b as [|c b IH]; simpl; [done|]. destruct (is_blank c); simpl; [apply IH|done]. Qed.

Lemma br_skipSpace_spec r :
  same_conn (br_skipSpace r) r ∧ br_stream (br_skipSpace r) = skip_blanks (br_stream r).
Proof.
  unfold br_skipSpace. destruct (br_wait_spec (existsb (λ c, negb (is_blank c))) r) as (H1 & H2 & H3).
  set (r' := br_wait _ r) in *. rewrite <- H1. unfold br_stream. simpl.
  split; [by transitivity r'; [apply same_set_buf|]|].
  destruct H3 as [H3|H3]; [by rewrite skip_blanks_app|by rewrite H3, !app_nil_r].
Qed.

Lemma br_blank_next_spec r :
  same_conn (br_blank_next r).1 r ∧ br_stream (br_blank_next r).1 = br_stream r ∧
  (br_blank_next r).2 = match br_stream r with c :: _ => is_blank c | [] => false end.
Proof.
  unfold br_blank_next. destruct (br_wait_spec (λ b, negb (bool_decide (b = []))) r) as (H1 & H2 & H3).
  set (r' := br_wait _ r) in *. simpl. split; [done|]. split; [done|]. rewrite <- H1. unfold br_stream.
  destruct (br_buf r') as [|c b]; [|done]. simpl. destruct H3 as [H3| ->]; done.
Qed.

Lemma br_continue_spec fuel kv r :
  same_conn (br_continue fuel kv r).1 r ∧
  continue_lines fuel kv (br_stream r) = ((br_continue fuel kv r).2, br_stream (br_continue fuel kv r).1).
Proof.
  revert kv r. induction fuel as [|fuel IH]; intros kv r; [simpl; split; [done|by destruct (br_stream r)]|]. cbn [br_continue continue_lines].
  destruct (br_blank_next_spec r) as (H1 & H2 & H3). destruct (br_blank_next r) as [r1 blank]. simpl in H1, H2, H3.
  rewrite H3. destruct (br_stream r) as [|c s] eqn:E; [by simpl; rewrite H2|].
  destruct (is_blank c); [|by simpl; rewrite H2].
  destruct (br_skipSpace_spec r1) as (S1 & S2). destruct (br_ReadLine_spec (br_skipSpace r1)) as (L1 & L2).
  rewrite S2, H2 in L2. destruct (br_ReadLine (br_skipSpace r1)) as [r2 out]. cbn [fst snd] in L1, L2.
  assert (Hs : same_conn r2 r) by (etransitivity; [exact L1|]; by transitivity r1).
  revert L2. destruct (read_line (skip_blanks (c :: s))) as [[line rest]|]; intros [-> L2].
  - destruct (IH (kv ++ [32] ++ trim_blanks line) r2) as [I1 I2]. rewrite L2 in I2.
    split; [by transitivity r2|exact I2].
  - simpl. by rewrite L2.
Qed.

Lemma br_mime_loop_spec fuel r :
  same_conn (br_mime_loop fuel r).1 r ∧
  match mime_loop fuel (br_stream r) with
  | Ok rest => (br_mime_loop fuel r).2 = Ok () ∧ br_stream (br_mime_loop fuel r).1 = rest
  | Err e => (br_mime_loop fuel r).2 = Err e
  end.
Proof.
  revert r. induction fuel as [|fuel IH]; intros r; [done|]. cbn [br_mime_loop mime_loop].
  destruct (br_ReadLine_spec r) as (L1 & L2). destruct (br_ReadLine r) as [r1 out]. simpl in L1, L2.
  revert L2. destruct (read_line (br_stream r)) as [[line rest]|]; intros [-> L2]; [|done].
  destruct line as [|c line]; [done|]. destruct (negb _); [done|].
  destruct (br_continue_spec (length (br_stream r1)) (trim_blanks (c :: line)) r1) as (C1 & C2).
  change (br_buf r1 ++ cn_in (br_conn r1)) with (br_stream r1). rewrite <- L2, C2.
  destruct (br_continue _ _ r1) as [r2 kv]. simpl in C1 |- *. assert (Hs : same_conn r2 r) by (by transitivity r1).
  destruct (header_ok kv); [|done]. destruct (IH r2) as [I1 I2]. split; [by transitivity r2|done].
Qed.

Lemma br_ReadMIMEHeader_spec r :
  same_conn (br_ReadMIMEHeader r).1 r ∧
  match ReadMIMEHeader (br_stream r) with
  | Ok rest => (br_ReadMIMEHeader r).2 = Ok () ∧ br_stream (br_ReadMIMEHeader r).1 = rest
  | Err e => (br_ReadMIMEHeader r).2 = Err e
  end.
Proof.
  unfold br_ReadMIMEHeader, ReadMIMEHeader. destruct (br_blank_next_spec r) as (H1 & H2 & H3).
  destruct (br_blank_next r) as [r1 blank]. simpl in H1, H2, H3. rewrite H3.
  change (br_buf r1 ++ cn_in (br_conn r1)) with (br_stream r1).
  destruct (br_mime_loop_spec (S (length (br_stream r1))) r1) as [M1 M2]. rewrite H2 in M1, M2.
  assert (Hs : same_conn (br_mime_loop (S (length (br_stream r))) r1).1 r) by (by transitivity r1).
  rewrite H2. destruct (br_stream r) as [|c s]; [done|]. destruct (is_blank c); done.
Qed.

(** *** Reading on after the response *)

(** Each read returns the next bytes of the stream, at least one until its end. *)
Lemma prefixed_Read_spec r n :
  (0 < n)%nat →
  match prefixed_Read r n with
  | (r', Ok data) => data ≠ [] ∧ br_stream r = data ++ br_stream r' ∧ same_conn r' r
  | (_, Err e) => e = EEOF ∧ br_stream r = []
  end.
Proof.
  intros Hn. unfold prefixed_Read. rewrite (proj2 (Nat.eqb_neq n 0)) by lia.
  destruct n as [|n]; [lia|]. destruct (br_buf r) as [|b buf] eqn:Eb.
  - destruct (cn_in (br_conn r)) as [|c s] eqn:Ec; [unfold br_stream; by rewrite Eb, Ec|].
    destruct (reader_size <=? S n)%nat.
    + unfold br_stream. rewrite Eb, Ec. cbn [br_buf br_conn conn_take cn_in app]. rewrite Ec, take_drop.
      split; [|done]. unfold next_fill. by destruct (Nat.max _ _) eqn:E; [lia|].
    + destruct (br_fill r) as [r1|] eqn:Ef; [|apply br_fill_None in Ef; congruence].
      pose proof (br_fill_spec _ _ Ef) as (H1 & H2 & _).
      assert (Hbuf : ∃ x xs, br_buf r1 = x :: xs).
      { unfold br_fill in Ef. rewrite Ec in Ef. injection Ef as <-. cbn [br_buf]. rewrite Eb. unfold next_fill.
        destruct (Nat.max _ _) eqn:E; [lia|]. simpl. eauto. }
      destruct Hbuf as (x & xs & Hx). rewrite <- H1. unfold br_stream. cbn [br_buf set_buf br_conn].
      rewrite app_assoc, take_drop. split; [by rewrite Hx|done].
  - unfold br_stream. rewrite Eb. cbn [br_buf set_buf br_conn]. rewrite app_assoc, take_drop. done.
Qed.

(** A client of the connection that reads [n] bytes at a time to its end. *)
Fixpoint read_to_end (fuel n : nat) (r : bufReader) : bytes :=
  match fuel with
  | O => []
  | S fuel => match prefixed_Read r n with
              | (r, Ok data) => data ++ read_to_end fuel n r
              | (_, Err _) => []
              end
  end.

Lemma read_to_end_stream fuel n r :
  (0 < n)%nat → (length (br_stream r) < fuel)%nat → read_to_end fuel n r = br_stream r.
Proof.
  intros Hn. revert r. induction fuel as [|fuel IH]; intros r Hf; [lia|]. cbn [read_to_end].
  pose proof (prefixed_Read_spec r n Hn) as H. destruct (prefixed_Read r n) as [r' [data|e]].
  - destruct H as (Hne & Hs & _). rewrite Hs, length_app in Hf. rewrite Hs, IH; [done|].
    destruct data; [done|]. simpl in Hf. lia.
  - by destruct H as [_ ->].
Qed.

(** *** The request *)

(** [base64] read back, by RFC 4648. *)
Definition b64_value (c : Z) : option Z :=
  if in_range 65 90 c then Some (c - 65) else if in_range 97 122 c then Some (c - 71)
  else if in_range 48 57 c then Some (c + 4) else if c =? 43 then Some 62 else if c =? 47 then Some 63 else None.

Fixpoint b64_decode (s : bytes) : option bytes :=
  match s with
  | [] => Some []
  | c0 :: c1 :: c2 :: c3 :: s =>
      a ← b64_value c0; b ← b64_value c1;
      if c3 =? 61 then
        if negb (bool_decide (s = [])) then None
        else if c2 =? 61 then Some [a * 4 + b / 16]
        else c ← b64_value c2; Some [a * 4 + b / 16; b mod 16 * 16 + c / 4]
      else
        c ← b64_value c2; d ← b64_value c3; rest ← b64_decode s;
        Some ([a * 4 + b / 16; b mod 16 * 16 + c / 4; c mod 4 * 64 + d] ++ rest)
  | _ => None
  end.

(** A CONNECT request for a target, line by line: the request line, the host, the
    credentials where there are any, and the blank line. *)
Definition connect_lines (d : httpDialer) (target : bytes) (lines : list bytes) : Prop :=
  let request := [str "CONNECT " ++ target ++ str " HTTP/1.1"; str "Host: " ++ target] in
  if bool_decide (hd_user d = [] ∧ hd_password d = []) then lines = request ++ [[]]
  else ∃ token, lines = request ++ [str "Proxy-Authorization: Basic " ++ token; []] ∧
                b64_decode token = Some (hd_user d ++ str ":" ++ hd_password d).

Lemma b64_value_digit v : 0 ≤ v < 64 → b64_value (b64_digit v) = Some v ∧ b64_digit v ≠ 61.
Proof.
  intros Hv. unfold b64_value, b64_digit, in_range.
  destruct (v <? 26) eqn:E1; bools.
  { rewrite (proj2 (Z.leb_le 65 _)), (proj2 (Z.leb_le _ 90)) by lia. simpl. split; [f_equal|]; lia. }
  destruct (v <? 52) eqn:E2; bools.
  { rewrite (proj2 (Z.leb_gt (71 + v) 90)), andb_false_r by lia.
    rewrite (proj2 (Z.leb_le 97 _)), (proj2 (Z.leb_le _ 122)) by lia. simpl. split; [f_equal|]; lia. }
  destruct (v <? 62) eqn:E3; bools.
  { rewrite (proj2 (Z.leb_gt 65 _)), (proj2 (Z.leb_gt 97 _)) by lia. simpl.
    rewrite (proj2 (Z.leb_le 48 _)), (proj2 (Z.leb_le _ 57)) by lia. simpl. split; [f_equal|]; lia. }
  destruct (v =? 62) eqn:E4; bools; [by subst|]. by replace v with 63 by lia.
Qed.

(** The arithmetic of one group of three bytes. *)
Lemma b64_group a b c :
  0 ≤ a < 256 → 0 ≤ b < 256 → 0 ≤ c < 256 →
  (0 ≤ a / 4 < 64 ∧ 0 ≤ a mod 4 * 16 + b / 16 < 64 ∧ 0 ≤ b mod 16 * 4 + c / 64 < 64 ∧ 0 ≤ c mod 64 < 64) ∧
  a / 4 * 4 + (a mod 4 * 16 + b / 16) / 16 = a ∧
  (a mod 4 * 16 + b / 16) mod 16 * 16 + (b mod 16 * 4 + c / 64) / 4 = b ∧
  (b mod 16 * 4 + c / 64) mod 4 * 64 + c mod 64 = c.
Proof. intros. repeat split; Z.to_euclidean_division_equations; lia. Qed.

Lemma b64_decode_encode_three a b c s :
  0 ≤ a < 256 → 0 ≤ b < 256 → 0 ≤ c < 256 → b64_decode (b64std_EncodeToString s) = Some s →
  b64_decode (b64std_EncodeToString (a :: b :: c :: s)) = Some (a :: b :: c :: s).
Proof.
  intros Ha Hb Hc IH. destruct (b64_group a b c Ha Hb Hc) as ((R1 & R2 & R3 & R4) & E1 & E2 & E3).
  cbn [b64std_EncodeToString app b64_decode].
  rewrite (proj1 (b64_value_digit _ R1)), (proj1 (b64_value_digit _ R2)). cbn [mbind option_bind].
  rewrite (proj2 (Z.eqb_neq _ 61)) by apply (b64_value_digit _ R4).
  rewrite (proj1 (b64_value_digit _ R3)), (proj1 (b64_value_digit _ R4)), IH. cbn [mbind option_bind app].
  by rewrite E1, E2, E3.
Qed.

Lemma b64_decode_encode s : Forall (λ b, 0 ≤ b < 256) s → b64_decode (b64std_EncodeToString s) = Some s.
Proof.
  remember (length s) as n eqn:En. revert s En. induction n as [n IH] using lt_wf_ind. intros s En Hs.
  destruct s as [|a s]; [done|]. apply list.Forall_cons in Hs as [Ha Hs].
  destruct s as [|b s].
  { destruct (b64_group a 0 0 Ha) as ((R1 & R2 & _) & E1 & _); [lia..|].
    change (0 / 16) with 0 in *. rewrite Z.add_0_r in *.
    cbn [b64std_EncodeToString b64_decode]. rewrite (proj1 (b64_value_digit _ R1)), (proj1 (b64_value_digit _ R2)).
    cbn [mbind option_bind Z.eqb Pos.eqb]. simpl. by rewrite E1. }
  apply list.Forall_cons in Hs as [Hb Hs]. destruct s as [|c s].
  { destruct (b64_group a b 0 Ha Hb) as ((R1 & R2 & R3 & _) & E1 & E2 & _); [lia|].
    change (0 / 64) with 0 in *. rewrite Z.add_0_r in *.
    cbn [b64std_EncodeToString b64_decode]. rewrite (proj1 (b64_value_digit _ R1)), (proj1 (b64_value_digit _ R2)).
    cbn [mbind option_bind]. rewrite (Z.eqb_refl 61). rewrite (proj2 (Z.eqb_neq (b64_digit (b mod 16 * 4)) 61)) by apply (b64_value_digit _ R3).
    rewrite (proj1 (b64_value_digit _ R3)). cbn [mbind option_bind]. simpl. by rewrite E1, E2. }
  apply list.Forall_cons in Hs as [Hc Hs].
  apply b64_decode_encode_three; [done..|]. subst n. apply (IH (length s)); [simpl; lia|done|done].
Qed.

Lemma http_request_lines d target :
  Forall (λ b, 0 ≤ b < 256) (hd_user d ++ str ":" ++ hd_password d) →
  ∃ lines, http_request d target = mjoin ((λ l, l ++ crlf) <$> lines) ∧ connect_lines d target lines.
Proof.
  destruct d as [server user password]. unfold http_request, connect_lines. cbn [hd_user hd_password]. intros Hb.
  destruct (decide (user = [] ∧ password = [])) as [Hc|Hc].
  - destruct Hc as [-> ->]. eexists. split; [|done]. cbn -[str]. by rewrite <- !app_assoc.
  - assert (negb (bool_decide (user = [])) || negb (bool_decide (password = [])) = true) as ->.
    { destruct user, password; try done. by destruct Hc. }
    rewrite (bool_decide_false _ Hc).
    eexists. split; [|eexists; split; [done|by apply b64_decode_encode]]. cbn -[str b64std_EncodeToString].
    by rewrite <- !app_assoc.
Qed.

(** *** The whole dial *)

(** What [read_status] accepts: a first line of at most 1024 bytes that starts with
    HTTP/ and has the code 200. *)
Definition accepted_status (input line rest : bytes) : Prop :=
  input = line ++ [10] ++ rest ∧ avoids 10 line ∧ (length line < 1024)%nat ∧
  HasPrefix (line ++ [10]) (str "HTTP/") = true ∧ Contains (line ++ [10]) (str " 200 ") = true.

Lemma read_string_line s line rest :
  read_string s = Some (line, rest) → ∃ l, line = l ++ [10] ∧ s = l ++ [10] ++ rest ∧ avoids 10 l.
Proof.
  unfold read_string. destruct (IndexByte s 10) as [i|] eqn:E; [|done]. intros [= <- <-]. revert i E.
  induction s as [|b s IH]; intros i E; [done|]. cbn [IndexByte] in E. destruct (b =? 10) eqn:Eb.
  - bools. injection E as <-. subst b. exists []. split; [done|]. split; [done|constructor].
  - destruct (IndexByte s 10) as [j|]; [|done]. injection E as <-. destruct (IH j eq_refl) as (l & H1 & H2 & H3).
    exists (b :: l). cbn [take drop app] in *. rewrite H1. split; [done|]. split; [by f_equal|].
    constructor; [by bools|done].
Qed.

Lemma first_line_unique l1 l2 r1 r2 :
  avoids 10 l1 → avoids 10 l2 → l1 ++ [10] ++ r1 = l2 ++ [10] ++ r2 → l1 = l2 ∧ r1 = r2.
Proof.
  intros H1 H2 E. apply (f_equal (λ s, IndexByte s 10)) in E as Hi. cbn [app] in Hi.
  rewrite !IndexByte_mid in Hi by done. injection Hi as Hi. by apply app_inj_1 in E as [-> [= ->]].
Qed.

Lemma read_status_spec r :
  same_conn (read_status r).1 r ∧
  ((read_status r).2 = Ok () ↔ ∃ line rest, accepted_status (br_stream r) line rest) ∧
  ∀ line rest, accepted_status (br_stream r) line rest → br_stream (read_status r).1 = rest.
Proof.
  unfold read_status. destruct (br_ReadString_spec r) as [H1 H2].
  destruct (br_ReadString r) as [r1 out]. cbn [fst snd] in H1, H2. revert H2.
  destruct (read_string (br_stream r)) as [[full rest]|] eqn:E.
  - intros [-> H2]. cbn [fst snd]. split; [done|].
    apply read_string_line in E as (line & -> & Hs & Hnl). rewrite Hs, H2. unfold accepted_status. split; [split|].
    + destruct (_ || _ || _) eqn:Ebad; [done|]. intros _. apply orb_false_iff in Ebad as [Ebad B3].
      apply orb_false_iff in Ebad as [B1 B2]. apply negb_false_iff in B2, B3. apply Nat.ltb_ge in B1.
      rewrite length_app in B1. simpl in B1. exists line, rest. split_and!; try done. lia.
    + intros (l & rest' & Heq & Hl & Hlen & Hpre & H200). apply first_line_unique in Heq as [-> ->]; [|done..].
      rewrite Hpre, H200. rewrite (proj2 (Nat.ltb_ge _ _)); [done|]. rewrite length_app. simpl. lia.
    + intros l rest' (Heq & Hl & _). by apply first_line_unique in Heq as [_ ->].
  - intros ->. split; [done|].
    assert (Hno : ∀ l rest, ¬ accepted_status (br_stream r) l rest).
    { intros l rest (Heq & Hl & _). unfold read_string in E. rewrite Heq in E. cbn [app] in E. by rewrite IndexByte_mid in E. }
    split; [split; [done|]|]; [intros (l & rest & Ha)|intros l rest Ha]; by destruct (Hno l rest).
Qed.

(** C31: a CONNECT dial sends one request and, when the proxy accepts it, loses no
    byte of the tunnel.  The request is, line by line, the CONNECT line and the host
    for the target, the credentials in Basic form where there are any, and a blank
    line.  Against a proxy that answers with an acceptable status line, headers and
    a blank line, however the bytes arrive, the dial succeeds, and whoever reads the
    returned connection, in pieces of any size, reads exactly what the proxy sent
    after the response, what was buffered included.  The dial never succeeds on a
    first line that is longer than 1024 bytes, not HTTP or without the code 200, and
    whenever it fails the connection has been closed. *)
Theorem http_Dial_tunnel (fills : list nat) (d : httpDialer) (dial : bytes → result conn) (target input : bytes) :
  Forall (λ b, 0 ≤ b < 256) (hd_user d ++ str ":" ++ hd_password d) →
  dial (hd_server d) = Ok (mkConn input [] 1 false) →
  ∃ r out, http_Dial fills dial d None target = (Some r, out) ∧
    (∃ lines, cn_out (br_conn r) = [mjoin ((λ l, l ++ crlf) <$> lines)] ∧ connect_lines d target lines) ∧
    (∀ line headers rest, accepted_status input (line ++ [13]) (mjoin (header_line <$> headers) ++ crlf ++ rest) →
       Forall mime_header headers →
       out = Ok () ∧ cn_closed (br_conn r) = false ∧
       ∀ n, (0 < n)%nat → read_to_end (S (length rest)) n r = rest) ∧
    (out = Ok () → ∃ line rest, accepted_status input line rest) ∧
    (∀ e, out = Err e → cn_closed (br_conn r) = true).
Proof.
  intros Hb Hd. destruct (http_request_lines d target Hb) as (lines & Hreq & Hlines).
  assert (Hclose : ∀ r e, http_Dial fills dial d None target = (Some r, Err e) → cn_closed (br_conn r) = true)
    by (intros r e; apply http_Dial_closes).
  unfold http_Dial in *. rewrite Hd in *.
  change (http_send d None target (mkConn input [] 1 false)) with
    (mkConn input [http_request d target] 0 false, Ok () : result ()) in *. cbn iota in *.
  set (r0 := mkBuf [] fills (mkConn input [http_request d target] 0 false)) in *.
  destruct (read_status_spec r0) as (S1 & S2 & S3). change (br_stream r0) with input in S2, S3.
  assert (Hout : ∀ r, same_conn r r0 →
    cn_out (br_conn r) = [mjoin ((λ l, l ++ crlf) <$> lines)] ∧ cn_closed (br_conn r) = false).
  { intros r (H1 & _ & H2). by rewrite H1, H2, <- Hreq. }
  destruct (read_status r0) as [r1 [[]|e1]]; cbn [fst snd] in S1, S2, S3.
  - destruct (br_ReadMIMEHeader_spec r1) as [M1 M2]. destruct (br_ReadMIMEHeader r1) as [r2 out2]. cbn [fst snd] in M1, M2.
    destruct (Hout r2) as [Ho Hcl]; [by transitivity r1|].
    assert (Hwhole : ∀ line headers rest,
      accepted_status input (line ++ [13]) (mjoin (header_line <$> headers) ++ crlf ++ rest) →
      Forall mime_header headers → out2 = Ok () ∧ br_stream r2 = rest).
    { intros line headers rest Ha Hh. by rewrite (S3 _ _ Ha), ReadMIMEHeader_headers in M2. }
    destruct out2 as [[]|e2].
    + exists r2, (Ok ()). split; [done|]. split; [by exists lines|]. split; [|by split; [intros _; apply S2|]].
      intros line headers rest Ha Hh. destruct (Hwhole _ _ _ Ha Hh) as [_ Hs]. split; [done|]. split; [done|].
      intros n Hn. rewrite <- Hs. apply read_to_end_stream; [done|lia].
    + exists (br_close r2), (Err (EWrap "HTTP CONNECT headers" e2)). split; [done|]. split; [by exists lines|].
      split; [|done]. intros line headers rest Ha Hh. by destruct (Hwhole _ _ _ Ha Hh).
  - exists (br_close r1), (Err e1). split; [done|]. destruct (Hout r1 S1) as [Ho _]. split; [by exists lines|].
    split; [|done]. intros line headers rest Ha _. exfalso.
    assert (Hno : (Err e1 : result ()) = Ok ()) by (apply S2; eauto). done.
Qed.

(** ** Witnesses *)

Lemma landing_failure_closes_witness :
  ∃ r e, landing_Dial [3%nat] (λ _, Ok (mkConn (str "HTTP/1.1 403 Forbidden" ++ crlf ++ crlf) [] 1 false))
           (LandHTTP (mkHttp (str "h:80") [] [])) None (str "a.cn:443") = (Some r, Err e) ∧
         cn_closed (br_conn r) = true.
Proof.
  eexists _, _. split; [vm_compute; reflexivity|].
  eapply (landing_failure_closes [3%nat]
    (λ _, Ok (mkConn (str "HTTP/1.1 403 Forbidden" ++ crlf ++ crlf) [] 1 false))
    (LandHTTP (mkHttp (str "h:80") [] [])) None (str "a.cn:443")).
  vm_compute. reflexivity.
Defined.

(** The proxy's response and the first bytes of the tunnel arrive in pieces of 7
    and 40 bytes and the rest; the tunnel is read in pieces of two bytes. *)
Lemma http_Dial_tunnel_witness :
  ∃ r, http_Dial [7; 40]%nat
         (λ _, Ok (mkConn (response (str "HTTP/1.1 200 OK") [(str "Via", str "1.1 x")] ++ [22; 3; 1]) [] 1 false))
         (mkHttp (str "h:80") (str "u") (str "p")) None (str "a.cn:443") = (Some r, Ok ()) ∧
       read_to_end 4 2 r = [22; 3; 1].
Proof.
  destruct (http_Dial_tunnel [7; 40]%nat (mkHttp (str "h:80") (str "u") (str "p"))
    (λ _, Ok (mkConn (response (str "HTTP/1.1 200 OK") [(str "Via", str "1.1 x")] ++ [22; 3; 1]) [] 1 false))
    (str "a.cn:443") (response (str "HTTP/1.1 200 OK") [(str "Via", str "1.1 x")] ++ [22; 3; 1]))
    as (r & out & H1 & _ & H2 & _).
  - apply list.Forall_forall. intros x Hx. vm_compute in Hx. repeat (apply elem_of_cons in Hx as [-> |Hx]; [lia|]).
    by apply not_elem_of_nil in Hx.
  - reflexivity.
  - destruct (H2 (str "HTTP/1.1 200 OK") [(str "Via", str "1.1 x")] [22; 3; 1]) as (-> & _ & H3).
    + split; [reflexivity|]. split; [repeat constructor; discriminate|].
      split; [apply Nat.ltb_lt; vm_compute; reflexivity|]. split; vm_compute; reflexivity.
    + repeat constructor. discriminate.
    + exists r. split; [exact H1|]. apply (H3 2%nat). apply Nat.ltb_lt. reflexivity.
Defined.
