(* ===== verification/SocksUdp.v ===== *)
(** * UDP over the SOCKS5 landing: [internal/landing/udp.go] *)

From S2P Require Import Prelude GoStrings GoNet Domains IPv4Tree GoCodec Config AddrText GoConn Socks5.

(** ** Addresses on the wire *)

(** [readAddress] of an address of a type from a reader: its host:port text. *)
Definition readAddress (typ : Z) : IO bytes :=
  let! host :=
    if typ =? 1 then let! b := io_read_full 4 in io_ret (IP_String b)
    else if typ =? 4 then let! b := io_read_full 16 in io_ret (IP_String b)
    else if typ =? 3 then
      let! n := io_read_full 1 in
      match n with
      | [n] => if n =? 0 then io_err (EMsg "empty domain") else io_read_full (Z.to_nat n)
      | _ => io_err (EMsg "empty domain")
      end
    else io_err (EMsg "unknown address type") in
  let! p := io_read_full 2 in
  match be_u16 p with
  | Some port => io_ret (JoinHostPort host (Itoa port))
  | None => io_err (EMsg "unexpected EOF")
  end.

Definition encodeUDP (payload target : bytes) : result bytes :=
  let? (host, port) := SplitHostPort target in
  match Atoi port with
  | None => errorf "invalid UDP destination port"
  | Some p =>
      if (p <? 1) || (65535 <? p) then errorf "invalid UDP destination port" else
      let? address :=
        match ParseIP host with
        | Some ip => match To4 ip with
                     | Some v4 => Ok ([1] ++ v4)
                     | None => Ok ([4] ++ ip)
                     end
        | None => if (length host =? 0)%nat || (255 <? length host)%nat
                  then errorf "invalid UDP destination domain"
                  else Ok ([3; u8 (Z.of_nat (length host))] ++ host)
        end in
      Ok ([0; 0; 0] ++ address ++ [u8 (Z.shiftr p 8); u8 p] ++ payload)
  end.

(** ** Opening an association *)

(** [socksPacketSession]: the packets handed to the relay session are logged, and
    [sp_closes] counts the closings of the two connections. *)
Record socksPacketSession := mkSocksSession {
  sp_relay : bytes; sp_maxPayload : Z; sp_target : bytes; sp_closed : bool;
  sp_sent : list (bytes * bytes); sp_closes : nat }.

(** [NewPacket]: UDP needs a SOCKS5 landing. *)
Definition NewPacket (cfg : LandingConfig) : result (socks5Dialer * Z) :=
  if negb (bool_decide (landing_type cfg = str "socks5")) then errorf "UDP landing requires SOCKS5"
  else Ok (mkSocks5 (landing_server cfg) (landing_username cfg) (landing_password cfg),
           landing_max_udp_payload cfg).

Definition split_or_empty (s : bytes) : bytes * bytes :=
  match SplitHostPort s with Ok hp => hp | Err _ => ([], []) end.

(** A relay that answers with the unspecified address is reached at the host of
    the control connection. *)
Definition relay_address (server relay : bytes) : result bytes :=
  let '(host, port) := split_or_empty relay in
  if bool_decide (port = str "0") then errorf "SOCKS5 UDP relay returned zero port"
  else match ParseIP host with
       | Some ip => if IsUnspecified ip then Ok (JoinHostPort (split_or_empty server).1 port) else Ok relay
       | None => Ok relay
       end.

(** The exchange of [OpenPacket] on the authenticated control connection: the
    relay address. *)
Definition associate (d : socks5Dialer) : IO bytes :=
  let! _ := or_close (wrap "SOCKS5 UDP associate write") (io_write [5; 3; 0; 1; 0; 0; 0; 0; 0; 0]) in
  let! header := or_close (wrap "SOCKS5 UDP associate read") (io_read_full 4) in
  match header with
  | [version; status; reserved; atyp] =>
      let! _ := refuse_if (negb (version =? 5) || negb (reserved =? 0))
                  (EMsg "SOCKS5 UDP associate: invalid reply") in
      let! _ := refuse_if (negb (status =? 0)) (EMsg "SOCKS5 UDP associate rejected") in
      let! relay := or_close (wrap "SOCKS5 UDP relay address") (readAddress atyp) in
      or_close id (io_lift (relay_address (s5_server d) relay))
  | _ => io_ret []
  end.

(** What [OpenPacket] leaves: the control connection, whether a packet session was
    opened and not closed, and its result. *)
Record opened := mkOpened {
  op_control : option conn; op_packet_open : bool; op_result : result socksPacketSession }.

(** [OpenPacket]; [open_err] is the outcome of opening the relay's packet session
    and [reset_err] that of clearing the deadline. *)
Definition socks_OpenPacket (dial : bytes → result conn) (d : socks5Dialer) (maxPayload : Z)
    (deadline_err open_err reset_err : option error) : opened :=
  let '(control, r) :=
    on_dialled (dial (s5_server d)) (wrap "SOCKS5 upstream dial")
      (let! _ := authenticatedConn d deadline_err in
       let! relay := associate d in
       let! _ := or_close id (match open_err with Some e => io_err e | None => io_ret () end) in
       let! _ := or_close id (match reset_err with Some e => io_err e | None => io_ret () end) in
       io_ret relay) in
  match r with
  | Ok relay => mkOpened control true (Ok (mkSocksSession relay maxPayload [] false [] 0))
  | Err e => mkOpened control false (Err e)
  end.

(** ** The session *)

(** [Send]; [outcome] is the result of sending on the relay's packet session. *)
Definition socks_Send (s : socksPacketSession) (payload target : bytes) (outcome : option error)
  : socksPacketSession * option error :=
  if (0 <? sp_maxPayload s) && (sp_maxPayload s <? Z.of_nat (length payload))
  then (s, Some (EMsg "UDP payload exceeds landing limit"))
  else match encodeUDP payload target with
       | Err e => (s, Some e)
       | Ok b =>
           if sp_closed s then (s, Some ENetClosed)
           else if negb (bool_decide (sp_target s = [])) && negb (bool_decide (sp_target s = target))
           then (s, Some (EMsg "SOCKS5 UDP association is bound to one destination"))
           else (mkSocksSession (sp_relay s) (sp_maxPayload s) target false
                   (sp_sent s ++ [(b, sp_relay s)]) (sp_closes s), outcome)
       end.

(** What one packet of the relay gives: skipped, or a result. *)
Definition receive_one (s : socksPacketSession) (b source : bytes)
  : option (option (result (bytes * bytes))) :=
  let relayHost := (split_or_empty (sp_relay s)).1 in
  if bool_decide (is_Some (ParseIP relayHost)) && negb (bool_decide (source = sp_relay s)) then Some None
  else if (length b <? 4)%nat then Some None
  else match b with
       | b0 :: b1 :: b2 :: b3 :: reader =>
           if negb (b0 =? 0) || negb (b1 =? 0) || negb (b2 =? 0) then Some None
           else match readAddress b3 (mkConn reader [] 0 false) with
                | (_, Err _) => Some None
                | (unread, Ok target) =>
                    if sp_closed s then Some (Some (Err ENetClosed))
                    else
                      let host := (split_or_empty (sp_target s)).1 in
                      if bool_decide (is_Some (ParseIP host)) && negb (bool_decide (target = sp_target s))
                      then Some None
                      else payload ← slice b (length b - length (cn_in unread)) (length b);
                           Some (Some (Ok (payload, target)))
                end
       | _ => None
       end.

(** [Receive] on the packets that arrive: [Some None] is still waiting, [None] a
    panic. *)
Fixpoint socks_Receive (s : socksPacketSession) (packets : list (result (bytes * bytes)))
  : option (option (result (bytes * bytes))) :=
  match packets with
  | [] => Some None
  | Err e :: _ => Some (Some (Err e))
  | Ok (b, source) :: packets =>
      r ← receive_one s b source;
      match r with
      | Some r => Some (Some r)
      | None => socks_Receive s packets
      end
  end.

Definition socks_Close (s : socksPacketSession) : socksPacketSession :=
  if sp_closed s then s
  else mkSocksSession (sp_relay s) (sp_maxPayload s) (sp_target s) true (sp_sent s) (S (sp_closes s)).

(** ** The wire format *)

Lemma be_u16_port port : 0 ≤ port < 65536 → be_u16 [u8 (Z.shiftr port 8); u8 port] = Some port.
Proof. intros Hp. by apply (be_put_u16 port []). Qed.

Lemma encodeUDP_wire payload target host port :
  dial_text target host port →
  ∃ typ address, encodeUDP payload target =
      Ok ([0; 0; 0; typ] ++ address ++ [u8 (Z.shiftr port 8); u8 port] ++ payload) ∧
    ∀ o n cl, readAddress typ (mkConn (address ++ [u8 (Z.shiftr port 8); u8 port] ++ payload) o n cl) =
      (mkConn payload o n cl, Ok target).
Proof.
  destruct 1 as [a b c d port Hb Hp|name port Hn Hip Hp]; unfold encodeUDP.
  - rewrite SplitHostPort_endpoint, Atoi_Itoa by (done || lia).
    rewrite (proj2 (Z.ltb_ge port 1)), (proj2 (Z.ltb_ge 65535 port)) by lia. cbn [orb].
    unfold ParseIP. rewrite ParseAddr_string4 by done.
    exists 1, [a; b; c; d]. split; [done|]. intros o n cl. unfold readAddress. cbn [Z.eqb Pos.eqb app].
    erewrite io_bind_ok by (erewrite io_bind_ok by apply io_read_4; done). cbn beta.
    erewrite io_bind_ok by apply io_read_2. cbn beta. rewrite be_u16_port by lia.
    change (IP_String [a; b; c; d]) with (string4 a b c d).
    destruct Hb as (? & ? & ? & ?). by rewrite JoinHostPort_plain by (apply string4_avoids; lia).
  - destruct (Hn) as [Hlen _]. rewrite SplitHostPort_name, Atoi_Itoa by (done || lia).
    rewrite (proj2 (Z.ltb_ge port 1)), (proj2 (Z.ltb_ge 65535 port)) by lia. cbn [orb]. rewrite Hip.
    rewrite (proj2 (Nat.eqb_neq (length name) 0)), (proj2 (Nat.ltb_ge 255 (length name))) by lia. cbn [orb].
    rewrite u8_small by lia. exists 3, ([Z.of_nat (length name)] ++ name).
    split; [by rewrite <- !app_assoc|]. intros o n cl. unfold readAddress. cbn [Z.eqb Pos.eqb].
    rewrite <- (app_assoc [_]). cbn [app].
    erewrite io_bind_ok.
    2: { erewrite io_bind_ok by apply io_read_1. cbn beta iota.
         rewrite (proj2 (Z.eqb_neq _ 0)) by lia. apply io_read_full_app. lia. }
    cbn beta. erewrite io_bind_ok by apply io_read_2. cbn beta. rewrite be_u16_port by lia.
    by rewrite JoinHostPort_plain by (by apply normalized_avoids).
Qed.

Lemma slice_tail {A} (p x : list A) : slice (p ++ x) (length (p ++ x) - length x) (length (p ++ x)) = Some x.
Proof.
  rewrite slice_Some by lia. rewrite length_app.
  replace (length p + length x - length x)%nat with (length p) by lia. f_equal.
  rewrite drop_app_length. apply firstn_all2. lia.
Qed.

(** C32: a packet survives the wire format of the landing: what [Send] hands to the
    relay for a target is accepted by [Receive], when the relay sends it back, as
    the same payload from the same target, whatever skipped packets come before. *)
Theorem udp_packet_roundtrip (s : socksPacketSession) (payload target host : bytes) (port : Z)
    (b : bytes) (rest : list (result (bytes * bytes))) :
  dial_text target host port → sp_closed s = false → sp_target s = target →
  encodeUDP payload target = Ok b →
  ∀ skipped, Forall (λ p, receive_one s p.1 p.2 = Some None) skipped →
  socks_Receive s ((Ok <$> skipped) ++ Ok (b, sp_relay s) :: rest) = Some (Some (Ok (payload, target))).
Proof.
  intros Ht Hc Hb He skipped Hs. induction Hs as [|[x y] skipped Hx _ IH].
  - simpl. destruct (encodeUDP_wire payload target host port Ht) as (typ & address & Hw & Hr).
    rewrite Hw in He. injection He as <-. unfold receive_one.
    rewrite (bool_decide_true (sp_relay s = sp_relay s)) by done. rewrite andb_false_r.
    cbn [app]. rewrite (proj2 (Nat.ltb_ge _ 4)) by (simpl; lia). cbn [negb Z.eqb orb].
    rewrite Hr, Hc, Hb, (bool_decide_true (target = target)) by done. rewrite andb_false_r. cbn [cn_in].
    match goal with |- context [slice ?l _ _] =>
      replace l with (([0; 0; 0; typ] ++ address ++ [u8 (Z.shiftr port 8); u8 port]) ++ payload)
        by (by rewrite <- !app_assoc) end.
    by rewrite slice_tail.
  - rewrite fmap_cons. cbn [app socks_Receive]. simpl in Hx. by rewrite Hx.
Qed.

(** ** What is accepted from the relay *)

Lemma io_read_full_suffix k c c' r : io_read_full k c = (c', r) →
  ∃ p, cn_in c = p ++ cn_in c'.
Proof.
  unfold io_read_full. case_decide; intros [= <- <-]; simpl.
  - exists (take k (cn_in c)). by rewrite take_drop.
  - exists (cn_in c). by rewrite app_nil_r.
Qed.

(** [advances m]: [m] reads a prefix of the stream. *)
Definition advances {A} (m : IO A) : Prop := ∀ c, ∃ p, cn_in c = p ++ cn_in (m c).1.

Lemma advances_bind {A B} (m : IO A) (k : A → IO B) :
  advances m → (∀ a, advances (k a)) → advances (io_bind m k).
Proof.
  intros Hm Hk c. unfold io_bind. destruct (Hm c) as [p Hp]. destruct (m c) as [c' [a|e]]; [|by exists p].
  destruct (Hk a c') as [q Hq]. exists (p ++ q). simpl in *. by rewrite Hp, Hq, app_assoc.
Qed.
Lemma advances_read k : advances (io_read_full k).
Proof. intros c. destruct (io_read_full k c) eqn:E. by eapply io_read_full_suffix. Qed.
Lemma advances_ret {A} (a : A) : advances (io_ret a).
Proof. intros c. by exists []. Qed.
Lemma advances_err {A} e : advances (A:=A) (io_err e).
Proof. intros c. by exists []. Qed.

Lemma readAddress_advances typ : advances (readAddress typ).
Proof.
  unfold readAddress.
  repeat first
    [ apply advances_ret | apply advances_err | apply advances_read
    | apply advances_bind; [|intros ?]
    | match goal with |- advances (match ?x with _ => _ end) => destruct x end ].
Qed.

Lemma filter_passed (P Q : Prop) {dP : base.Decision P} {dQ : base.Decision Q} :
  bool_decide P && negb (bool_decide Q) = false → P → Q.
Proof.
  intros E HP. rewrite (bool_decide_true P) in E by done.
  by apply negb_false_iff, bool_decide_eq_true in E.
Qed.

Lemma receive_one_spec s b source :
  ∃ r, receive_one s b source = Some r ∧
  ∀ payload target, r = Some (Ok (payload, target)) →
    sp_closed s = false ∧
    (is_Some (ParseIP (split_or_empty (sp_relay s)).1) → source = sp_relay s) ∧
    (is_Some (ParseIP (split_or_empty (sp_target s)).1) → target = sp_target s) ∧
    ∃ header, b = [0; 0; 0] ++ header ++ payload.
Proof.
  unfold receive_one. destruct (_ && _) eqn:E1; [by eexists|].
  destruct (length b <? 4)%nat eqn:E2; [by eexists|].
  destruct b as [|b0 [|b1 [|b2 [|b3 reader]]]]; try (bools; simpl in E2; lia).
  destruct (_ || _ || _) eqn:E3; [by eexists|].
  destruct (readAddress_advances b3 (mkConn reader [] 0 false)) as [p Hp].
  destruct (readAddress b3 _) as [unread [target|]]; [|by eexists].
  destruct (sp_closed s); [by eexists|].
  match goal with |- context [if ?b then Some None else _] => destruct b eqn:E4; [by eexists|] end.
  simpl in Hp. subst reader.
  match goal with |- context [slice ?l _ _] =>
    replace l with ((b0 :: b1 :: b2 :: b3 :: p) ++ cn_in unread) by done end.
  rewrite slice_tail. cbn [mbind option_bind]. eexists. split; [done|].
  intros payload t [= <- <-]. split; [done|].
  split; [exact (filter_passed _ _ E1)|]. split; [exact (filter_passed _ _ E4)|].
  assert (b0 = 0 ∧ b1 = 0 ∧ b2 = 0) as (-> & -> & ->) by lia. by exists (b3 :: p).
Qed.

(** Only the relay and only the bound destination are heard: a payload that
    [Receive] returns came, when the relay is numeric, from exactly the negotiated
    relay endpoint, and, when the destination is numeric, from exactly the bound
    destination; the session was open; and no received packet makes it panic. *)
Theorem Receive_filters_sources (s : socksPacketSession) (packets : list (result (bytes * bytes))) :
  ∃ r, socks_Receive s packets = Some r ∧
  ∀ payload target, r = Some (Ok (payload, target)) →
    sp_closed s = false ∧
    ∃ b source header, Ok (b, source) ∈ packets ∧ b = [0; 0; 0] ++ header ++ payload ∧
      (is_Some (ParseIP (split_or_empty (sp_relay s)).1) → source = sp_relay s) ∧
      (is_Some (ParseIP (split_or_empty (sp_target s)).1) → target = sp_target s).
Proof.
  induction packets as [|[[b source]|e] packets (r & IH1 & IH2)]; [by eexists| |by eexists].
  cbn [socks_Receive]. destruct (receive_one_spec s b source) as (q & -> & Hq). cbn [mbind option_bind].
  destruct q as [q|].
  - eexists. split; [done|]. intros payload target [= ->].
    destruct (Hq payload target eq_refl) as (H1 & H2 & H3 & header & H4). split; [done|].
    exists b, source, header. split; [apply list_elem_of_here|done].
  - exists r. split; [done|]. intros payload target Hr.
    destruct (IH2 payload target Hr) as (H1 & b' & source' & header & H2 & H3).
    split; [done|]. exists b', source', header. split; [by apply list_elem_of_further|done].
Qed.

(** ** An association serves one destination *)

Inductive socks_op :=
| SocksSend (payload target : bytes) (outcome : option error)
| SocksClose.

Definition socks_run (s : socksPacketSession) (op : socks_op) : socksPacketSession :=
  match op with
  | SocksSend payload target outcome => (socks_Send s payload target outcome).1
  | SocksClose => socks_Close s
  end.

Definition socks_fresh (relay : bytes) (maxPayload : Z) : socksPacketSession :=
  mkSocksSession relay maxPayload [] false [] 0.

(** Everything sent so far is for the bound destination, within the limit. *)
Record session_bound (relay : bytes) (maxPayload : Z) (s : socksPacketSession) : Prop := {
  sb_relay : sp_relay s = relay;
  sb_max : sp_maxPayload s = maxPayload;
  sb_sent : Forall (λ p, p.2 = relay ∧ ∃ payload, encodeUDP payload (sp_target s) = Ok p.1 ∧
                         (0 < maxPayload → Z.of_nat (length payload) ≤ maxPayload)) (sp_sent s);
  sb_unbound : sp_target s = [] → sp_sent s = [];
  sb_closes : sp_closes s = if sp_closed s then 1%nat else 0%nat }.

Lemma encodeUDP_empty payload : ¬ is_ok (encodeUDP payload []) = true.
Proof. by vm_compute. Qed.

Lemma socks_run_bound relay maxPayload s op :
  session_bound relay maxPayload s →
  session_bound relay maxPayload (socks_run s op) ∧
  (sp_target s ≠ [] → sp_target (socks_run s op) = sp_target s).
Proof.
  intros Hs. destruct (Hs) as [H1 H2 H3 H4 H5]. destruct op as [payload target outcome|]; simpl.
  - unfold socks_Send. destruct (_ && _) eqn:E1; [by split|].
    destruct (encodeUDP payload target) as [b|] eqn:He; [|by split].
    destruct (sp_closed s) eqn:Hc; [by split|].
    match goal with |- context [if ?b then (s, Some (EMsg _)) else _] => destruct b eqn:E2 end;
      [by split|].
    assert (Hsame : sp_target s = [] ∨ sp_target s = target)
      by (apply andb_false_iff in E2 as [E2|E2]; bools; tauto).
    split; [split; simpl; try done|].
    + apply Forall_app. split.
      * destruct Hsame as [Hun| <-]; [|done]. by rewrite (H4 Hun).
      * constructor; [|done]. split; [done|]. exists payload. split; [done|]. intros Hm.
        rewrite H2 in E1. lia.
    + intros ->. pose proof (encodeUDP_empty payload) as Hx. by rewrite He in Hx.
    + simpl. by destruct Hsame.
  - unfold socks_Close. destruct (sp_closed s) eqn:Hc; [by split|].
    split; [|done]. split; simpl; try done. by rewrite H5.
Qed.

(** C15: an association is pinned to its first destination: after any sequence of
    sends and closings every packet handed to the relay is the encoding, for the
    one bound target, of a payload within the configured limit; the binding never
    changes once made; and the connections are closed at most once. *)
Theorem association_pinned (relay : bytes) (maxPayload : Z) (ops more : list socks_op) :
  let s := foldl socks_run (socks_fresh relay maxPayload) ops in
  let s' := foldl socks_run s more in
  Forall (λ p, p.2 = relay ∧ ∃ payload, encodeUDP payload (sp_target s) = Ok p.1 ∧
               (0 < maxPayload → Z.of_nat (length payload) ≤ maxPayload)) (sp_sent s) ∧
  (sp_target s ≠ [] → sp_target s' = sp_target s) ∧
  (sp_closes s ≤ 1)%nat.
Proof.
  assert (Hrun : ∀ ops s, session_bound relay maxPayload s →
    session_bound relay maxPayload (foldl socks_run s ops) ∧
    (sp_target s ≠ [] → sp_target (foldl socks_run s ops) = sp_target s)).
  { clear. induction ops as [|op ops IH]; intros s Hs; [done|]. simpl.
    destruct (socks_run_bound relay maxPayload s op Hs) as [H1 H2].
    destruct (IH _ H1) as [H3 H4]. split; [done|]. intros Ht. rewrite H4; [by apply H2|].
    by rewrite H2. }
  intros s s'. destruct (Hrun ops (socks_fresh relay maxPayload)) as [Hs _].
  { split; simpl; done. }
  fold s in Hs. destruct (Hrun more s Hs) as [_ Hm]. destruct Hs as [_ _ H3 _ H5].
  split; [done|]. split; [done|]. rewrite H5. destruct (sp_closed s); lia.
Qed.

(** ** Opening *)

Lemma associate_closes d : closes (associate d).
Proof. unfold associate. closing. Qed.

(** A failed [OpenPacket] leaves neither the control connection nor a packet
    session open. *)
Lemma socks_OpenPacket_failure dial d maxPayload de oe re e :
  op_result (socks_OpenPacket dial d maxPayload de oe re) = Err e →
  op_packet_open (socks_OpenPacket dial d maxPayload de oe re) = false ∧
  ∀ c, op_control (socks_OpenPacket dial d maxPayload de oe re) = Some c → cn_closed c = true.
Proof.
  unfold socks_OpenPacket.
  match goal with |- context [on_dialled ?a ?b ?m] =>
    assert (Hm : closes m) by (apply closes_bind; [apply authenticatedConn_closes|]; intros _;
      apply closes_bind; [apply associate_closes|]; intros ?; closing);
    pose proof (on_dialled_closes a b m) as Hcl; destruct (on_dialled a b m) as [control r] eqn:E end.
  destruct r as [relay|e']; [done|]. intros _. split; [done|]. simpl. intros c ->.
  by eapply Hcl.
Qed.

(** An association of a relay at 0.0.0.0 goes to the SOCKS5 server's own host. *)
Lemma relay_at_server_host a b c d sport port :
  byte4 (Addr4 a b c d) → 0 ≤ sport → 1 ≤ port ≤ 65535 →
  relay_address (addrport_String (mkAddrPort (Addr4 a b c d) sport))
    (addrport_String (mkAddrPort (Addr4 0 0 0 0) port)) =
  Ok (addrport_String (mkAddrPort (Addr4 a b c d) port)).
Proof.
  intros Hb Hs Hp. unfold relay_address, split_or_empty.
  rewrite !SplitHostPort_endpoint by (done || simpl; lia).
  rewrite bool_decide_false.
  2: { intros Hz. pose proof (Atoi_Itoa port ltac:(lia)) as Ha. rewrite Hz in Ha.
       vm_compute in Ha. injection Ha as <-. lia. }
  unfold ParseIP. rewrite ParseAddr_string4 by (simpl; lia). simpl.
  rewrite JoinHostPort_plain; [done|]. destruct Hb as (? & ? & ? & ?). apply string4_avoids; lia.
Qed.

(** ** Witness *)

Lemma udp_packet_roundtrip_witness :
  socks_Receive (mkSocksSession (str "1.2.3.4:1080") 0 (str "8.8.8.8:53") false [] 0)
    [Ok ([9], str "1.2.3.4:1080");
     Ok ([0; 0; 0; 1; 8; 8; 8; 8; 0; 53; 42], str "1.2.3.4:1080")] =
  Some (Some (Ok ([42], str "8.8.8.8:53"))).
Proof.
  apply (udp_packet_roundtrip (mkSocksSession (str "1.2.3.4:1080") 0 (str "8.8.8.8:53") false [] 0)
    [42] (str "8.8.8.8:53") (str "8.8.8.8") 53 [0; 0; 0; 1; 8; 8; 8; 8; 0; 53; 42] []) with
    (skipped := [([9], str "1.2.3.4:1080")]); try reflexivity.
  - apply (dial_ipv4 8 8 8 8 53); [simpl|]; lia.
  - repeat constructor.
Defined.
