(* ===== verification/FailOpen.v ===== *)
(** * Fail-open dialling: [internal/transport/failopen.go],
    [internal/transport/failopen_packet.go], [internal/transport/block.go]

    While the failover controller is in proxy mode the proxy is tried first; any
    failure falls through to a direct connection.  During recovery one background
    probe at a time tries the proxy again. *)

From S2P Require Import Prelude GoStrings Failover.

(** [transport.Event]: the stage and the reported error. *)
Record Event := mkEvent { ev_stage : string; ev_reason : error }.

(** ** Streams *)

(** [failOpen]; [fo_probes] logs the targets and times of the probes started. *)
Record failOpen := mkFailOpen {
  fo_controller : Controller; fo_events : list Event; fo_interval : duration;
  fo_running : bool; fo_nextProbe : time; fo_probes : list (bytes * time) }.

Definition NewFailOpenWithProbe (c : Controller) (probeInterval : duration) : failOpen :=
  mkFailOpen c [] (if probeInterval <=? 0 then Second else probeInterval) false 0 [].

Definition NewFailOpen (c : Controller) : failOpen := NewFailOpenWithProbe c (10 * Second).

Definition set_controller (d : failOpen) (c : Controller) : failOpen :=
  mkFailOpen c (fo_events d) (fo_interval d) (fo_running d) (fo_nextProbe d) (fo_probes d).

Definition emit (d : failOpen) (e : Event) : failOpen :=
  mkFailOpen (fo_controller d) (fo_events d ++ [e]) (fo_interval d) (fo_running d) (fo_nextProbe d)
    (fo_probes d).

(** [maybeProbe] once [Mode] has reported recovery: the flag is taken, and given
    back when the next probe is not due. *)
Definition try_probe (d : failOpen) (target : bytes) (now : time) : failOpen :=
  if fo_running d then d
  else if now <? fo_nextProbe d then d
  else mkFailOpen (fo_controller d) (fo_events d) (fo_interval d) true (now + fo_interval d)
         (fo_probes d ++ [(target, now)]).

(** [maybeProbe]: the clock is read by [Mode] and then for the probe. *)
Definition maybeProbe (d : failOpen) (target : bytes) (mode_now now : time) : failOpen :=
  let '(c, mode) := controller_Mode (fo_controller d) mode_now in
  let d := set_controller d c in
  if negb (bool_decide (mode = DirectRecovery)) then d else try_probe d target now.

(** The end of the probe's goroutine, with the outcome of dialling the proxy. *)
Definition probe_done (d : failOpen) (outcome : option error) (now : time) : failOpen :=
  let d := match outcome with
           | Some e => emit (set_controller d (RecordFailure (fo_controller d) now))
                         (mkEvent "recovery-probe" e)
           | None => set_controller d (RecordSuccess (fo_controller d) now)
           end in
  mkFailOpen (fo_controller d) (fo_events d) (fo_interval d) false (fo_nextProbe d) (fo_probes d).

(** Which of the two dialers made a connection. *)
Inductive via := ViaProxy | ViaDirect.

Record dialEnv := mkDialEnv {
  de_mode : time; de_probe_mode : time; de_probe : time; de_record : time;
  de_proxy : option error; de_direct : option error }.

Definition via_direct (env : dialEnv) : result via :=
  match de_direct env with Some e => Err e | None => Ok ViaDirect end.

(** What a dial records after it tried the proxy. *)
Definition record_dial (d : failOpen) (outcome : option error) (now : time) : failOpen :=
  match outcome with
  | None => set_controller d (RecordSuccess (fo_controller d) now)
  | Some e => emit (set_controller d (RecordFailure (fo_controller d) now)) (mkEvent "fail-open" e)
  end.

Definition failOpen_Dial (d : failOpen) (target : bytes) (env : dialEnv) : failOpen * result via :=
  let '(c, mode) := controller_Mode (fo_controller d) (de_mode env) in
  let d := set_controller d c in
  if negb (bool_decide (mode = ModeProxy))
  then (maybeProbe d target (de_probe_mode env) (de_probe env), via_direct env)
  else (record_dial d (de_proxy env) (de_record env),
        match de_proxy env with None => Ok ViaProxy | Some _ => via_direct env end).

(** ** Packets *)

(** [failOpenPacketSession] with its shared controller: sessions are numbered as
    they are opened, [fp_closed] logs the closings. *)
Record packetSession := mkPacketSession {
  fp_controller : Controller; fp_events : list Event; fp_session : nat; fp_directMode : bool;
  fp_next : nat; fp_closed : list nat }.

(** What [OpenPacket] of the packet dialer hands out. *)
Inductive opened_packet :=
| OpenedDirect
| OpenedProxy (s : packetSession).

Definition failOpenPacket_OpenPacket (c : Controller) (env : dialEnv)
  : Controller * list Event * result opened_packet :=
  let direct := match de_direct env with Some e => Err e | None => Ok OpenedDirect end in
  let '(c, mode) := controller_Mode c (de_mode env) in
  if negb (bool_decide (mode = ModeProxy)) then (c, [], direct)
  else match de_proxy env with
       | None => let c := RecordSuccess c (de_record env) in
                 (c, [], Ok (OpenedProxy (mkPacketSession c [] 0 false 1 [])))
       | Some e => (RecordFailure c (de_record env), [mkEvent "fail-open-udp" e], direct)
       end.

(** [Send] reads the session and the mode before it sends. *)
Definition fp_snapshot (s : packetSession) : nat * bool := (fp_session s, fp_directMode s).

(** The rest of [Send], from the outcome of sending on the session it read. *)
Definition fp_after_send (s : packetSession) (snapshot : nat * bool) (outcome open_err : option error)
    (now : time) : packetSession * option error :=
  match outcome with
  | None => (s, None)
  | Some err =>
      if snapshot.2 then (s, Some err)
      else if fp_directMode s then (s, Some err)
      else
        let s := mkPacketSession (RecordFailure (fp_controller s) now)
                   (fp_events s ++ [mkEvent "fail-open-udp" err]) (fp_session s) false (fp_next s)
                   (fp_closed s ++ [fp_session s]) in
        match open_err with
        | Some e => (s, Some e)
        | None => (mkPacketSession (fp_controller s) (fp_events s) (fp_next s) true (S (fp_next s))
                     (fp_closed s), Some err)
        end
  end.

Definition fp_Send (s : packetSession) (outcome open_err : option error) (now : time)
  : packetSession * option error :=
  fp_after_send s (fp_snapshot s) outcome open_err now.

(** [Receive] reads from the session it finds. *)
Definition fp_Receive (s : packetSession) (incoming : nat → result (bytes * bytes))
  : result (bytes * bytes) := incoming (fp_session s).

Definition fp_Close (s : packetSession) : packetSession :=
  mkPacketSession (fp_controller s) (fp_events s) (fp_session s) (fp_directMode s) (fp_next s)
    (fp_closed s ++ [fp_session s]).

(** ** Blocked packets *)

Definition Block_OpenPacket {A} : result A := errorf "UDP blocked by policy".

(** ** A connection is refused only when the direct one is *)

(** Fail-open means open: a dial fails only when the direct connection to the
    same target fails, and with exactly that error; the proxy is used only in
    proxy mode and only when it connected; and a dial outside proxy mode is direct. *)
Theorem failOpen_Dial_open (d : failOpen) (target : bytes) (env : dialEnv) :
  let '(_, r) := failOpen_Dial d target env in
  let mode := (controller_Mode (fo_controller d) (de_mode env)).2 in
  (∀ e, r = Err e → de_direct env = Some e) ∧
  (r = Ok ViaProxy ↔ mode = ModeProxy ∧ de_proxy env = None) ∧
  (r = Ok ViaDirect ↔ de_direct env = None ∧ (mode = ModeProxy → ∃ e, de_proxy env = Some e)).
Proof.
  unfold failOpen_Dial, via_direct. destruct (controller_Mode _ _) as [c mode]. simpl.
  destruct (decide (mode = ModeProxy)) as [->|Hm].
  - rewrite bool_decide_true by done. simpl.
    destruct (de_proxy env) as [e|], (de_direct env) as [e'|]; split; try (split; split); try done; try naive_solver.
  - rewrite bool_decide_false by done. simpl.
    destruct (de_proxy env) as [e|], (de_direct env) as [e'|]; split; try (split; split); try done; try naive_solver.
Qed.

(** ** Recovery probes *)

(** Dials overlap: beside whole dials there are the pieces of dials that others
    disturb, a reading of the mode, an attempt to start a probe by a dial that saw
    recovery some time before, and the record of a dial that tried the proxy. *)
Inductive fo_event :=
| FoDial (target : bytes) (env : dialEnv)
| FoMode (now : time)
| FoTryProbe (target : bytes) (now : time)
| FoRecord (outcome : option error) (now : time)
| FoProbeDone (outcome : option error) (now : time).

Definition fo_step (d : failOpen) (e : fo_event) : failOpen :=
  match e with
  | FoDial target env => (failOpen_Dial d target env).1
  | FoMode now => set_controller d (controller_Mode (fo_controller d) now).1
  | FoTryProbe target now => try_probe d target now
  | FoRecord outcome now => record_dial d outcome now
  | FoProbeDone outcome now => probe_done d outcome now
  end.

(** The states of a dialer, with the number of probes that have ended; a probe
    ends only while one is running. *)
Inductive fo_reachable (cfg : FailoverConfig) (interval : duration) : nat → failOpen → Prop :=
| fo_start : fo_reachable cfg interval 0 (NewFailOpenWithProbe (NewController cfg) interval)
| fo_next n d e : fo_reachable cfg interval n d →
    (∀ outcome now, e = FoProbeDone outcome now → fo_running d = true) →
    fo_reachable cfg interval (match e with FoProbeDone _ _ => S n | _ => n end) (fo_step d e).

(** Consecutive times are at least an interval apart. *)
Definition spaced (interval : Z) (times : list Z) : Prop :=
  ∀ i t t', times !! i = Some t → times !! S i = Some t' → t + interval ≤ t'.

Lemma spaced_snoc interval times t :
  spaced interval times → (∀ l, list.last times = Some l → l + interval ≤ t) → spaced interval (times ++ [t]).
Proof.
  intros Hs Hl i a b Ha Hb.
  destruct (decide (S i < length times)%nat) as [Hi|Hi].
  - rewrite lookup_app_l in Ha, Hb by lia. by apply (Hs i).
  - rewrite lookup_app_r in Hb by lia. apply list_lookup_singleton_Some in Hb as [Hb ->].
    rewrite lookup_app_l in Ha by lia. apply Hl. rewrite last_lookup.
    replace (pred (length times)) with i by lia. done.
Qed.

Record fo_ok (n : nat) (interval : duration) (d : failOpen) : Prop := {
  fok_controller : controller_ok (fo_controller d);
  fok_interval : fo_interval d = interval;
  fok_spaced : spaced interval (snd <$> fo_probes d);
  fok_next : ∀ t, list.last (snd <$> fo_probes d) = Some t → fo_nextProbe d = t + interval;
  fok_count : length (fo_probes d) = (n + if fo_running d then 1 else 0)%nat }.

Lemma set_controller_ok n interval d c :
  fo_ok n interval d → controller_ok c → fo_ok n interval (set_controller d c).
Proof. by intros [H1 H2 H3 H4 H5] Hc. Qed.

Lemma emit_ok n interval d e : fo_ok n interval d → fo_ok n interval (emit d e).
Proof. by intros [H1 H2 H3 H4 H5]. Qed.

Lemma Mode_controller_ok c now : controller_ok c → controller_ok (controller_Mode c now).1.
Proof. apply (controller_step_ok c (EvMode, now)). Qed.

Lemma try_probe_ok n interval d target now :
  fo_ok n interval d → fo_ok n interval (try_probe d target now).
Proof.
  intros Hs. unfold try_probe. destruct (fo_running d) eqn:E1; [done|]. destruct (now <? fo_nextProbe d) eqn:E2; [done|].
  destruct Hs as [H1 H2 H3 H4 H5]. bools.
  split; cbn [fo_controller fo_interval fo_probes fo_nextProbe fo_running]; try done.
  - rewrite fmap_app. apply spaced_snoc; [done|]. intros l Hl. by rewrite <- (H4 l Hl).
  - intros t. rewrite fmap_app. simpl. rewrite last_snoc. rewrite <- H2. by intros [= <-].
  - rewrite length_app, H5, E1. simpl. lia.
Qed.

Lemma mode_fo_ok n interval d now :
  fo_ok n interval d → fo_ok n interval (set_controller d (controller_Mode (fo_controller d) now).1).
Proof. intros Hd. apply set_controller_ok; [done|]. apply Mode_controller_ok, Hd. Qed.

Lemma maybeProbe_ok n interval d target mode_now now :
  fo_ok n interval d → fo_ok n interval (maybeProbe d target mode_now now).
Proof.
  intros Hd. unfold maybeProbe. pose proof (mode_fo_ok n interval d mode_now Hd) as Hm.
  destruct (controller_Mode _ _) as [c mode]. destruct (negb _); [done|]. by apply try_probe_ok.
Qed.

Lemma record_dial_ok n interval d outcome now :
  fo_ok n interval d → fo_ok n interval (record_dial d outcome now).
Proof.
  intros Hd. destruct outcome as [e|]; simpl.
  - apply emit_ok, set_controller_ok; [done|]. apply (controller_step_ok _ (EvFailure, now)), Hd.
  - apply set_controller_ok; [done|]. apply (controller_step_ok _ (EvSuccess, now)), Hd.
Qed.

Lemma Dial_fo_ok n interval d target env :
  fo_ok n interval d → fo_ok n interval (failOpen_Dial d target env).1.
Proof.
  intros Hd. unfold failOpen_Dial. pose proof (mode_fo_ok n interval d (de_mode env) Hd) as Hm.
  destruct (controller_Mode _ _) as [c mode].
  destruct (negb _); [by apply maybeProbe_ok|by apply record_dial_ok].
Qed.

Lemma probe_done_ok n interval d outcome now :
  fo_ok n interval d → fo_running d = true → fo_ok (S n) interval (probe_done d outcome now).
Proof.
  intros [H1 H2 H3 H4 H5] Hr. rewrite Hr in H5. unfold probe_done. destruct outcome; split; simpl; try done.
  1: apply (controller_step_ok _ (EvFailure, now)), H1.
  2: apply (controller_step_ok _ (EvSuccess, now)), H1.
  all: rewrite H5; lia.
Qed.

Lemma fo_reachable_ok cfg interval n d :
  fo_reachable cfg interval n d →
  fo_ok n (if interval <=? 0 then Second else interval) d.
Proof.
  induction 1 as [|n d e _ IH Hrun].
  - split; simpl; try done. apply new_controller_ok.
  - destruct e as [target env|now|target now|outcome now|outcome now]; simpl.
    + by apply Dial_fo_ok.
    + by apply mode_fo_ok.
    + by apply try_probe_ok.
    + by apply record_dial_ok.
    + apply probe_done_ok; [done|]. by eapply Hrun.
Qed.

(** C19: recovery probes never pile up: whatever is dialled, however dials
    overlap and probes end, at most one probe is running, probes start at least
    the probe interval apart, and the controller keeps its invariant. *)
Theorem recovery_probes_rate_limited (cfg : FailoverConfig) (interval : duration) (n : nat) (d : failOpen) :
  fo_reachable cfg interval n d →
  length (fo_probes d) = (n + if fo_running d then 1 else 0)%nat ∧
  spaced (if interval <=? 0 then Second else interval) (snd <$> fo_probes d) ∧
  controller_ok (fo_controller d).
Proof. by intros [H1 H2 H3 H4 H5]%fo_reachable_ok. Qed.

(** ** Packet sessions *)

Inductive fp_op :=
| FpSent (snapshot : nat * bool) (outcome open_err : option error) (now : time)
| FpClose.

Definition fp_run (s : packetSession) (op : fp_op) : packetSession :=
  match op with
  | FpSent snapshot outcome open_err now => (fp_after_send s snapshot outcome open_err now).1
  | FpClose => fp_Close s
  end.

(** However sends overlap, a session switches to a direct one at most once, and a
    switched session reports no more failures to the controller. *)
Lemma fp_switches_once s ops :
  fp_session s = 0%nat → fp_directMode s = false → fp_next s = 1%nat →
  let s' := foldl fp_run s ops in
  (fp_next s' ≤ 2)%nat ∧ (fp_directMode s' = true ↔ fp_next s' = 2%nat) ∧
  fp_session s' = (fp_next s' - 1)%nat ∧
  (fp_directMode s' = true → ∀ op, fp_controller (fp_run s' op) = fp_controller s').
Proof.
  intros H1 H2 H3 s'.
  assert (Hinv : fp_session s' = (fp_next s' - 1)%nat ∧
    ((fp_directMode s' = false ∧ fp_next s' = 1%nat) ∨ (fp_directMode s' = true ∧ fp_next s' = 2%nat))).
  { unfold s'. clear s'. assert (Hs : fp_session s = (fp_next s - 1)%nat ∧
      ((fp_directMode s = false ∧ fp_next s = 1%nat) ∨ (fp_directMode s = true ∧ fp_next s = 2%nat)))
      by (split; [lia|by left]).
    clear H1 H2 H3. revert s Hs. induction ops as [|op ops IH]; intros s Hs; [done|]. simpl. apply IH.
    destruct op as [snapshot outcome open_err now|]; [|done]. simpl. unfold fp_after_send.
    destruct outcome; [|done]. destruct snapshot as [? []]; [done|]. simpl.
    destruct Hs as [Hs [[Hd Hn]|[Hd Hn]]]; rewrite Hd; [|simpl; auto].
    destruct open_err; simpl; [auto|]. split; [lia|]. right. split; [done|lia]. }
  destruct Hinv as [Hs Hinv]. repeat split; try tauto; try lia.
  - destruct Hinv as [[-> ?]|[? ?]]; [done|lia].
  - destruct Hinv as [[? ?]|[? ?]]; [lia|done].
  - intros Hd op. destruct op as [snapshot outcome open_err now|]; [|done]. simpl. unfold fp_after_send.
    destruct outcome; [|done]. destruct (snapshot.2); [done|]. by rewrite Hd.
Qed.

(** A send that fails because the session was closed under it opens a direct
    session that nothing closes any more. *)
Example send_after_close_leaks :
  let s := mkPacketSession (NewController (mkFailoverConfig 3 3 Second)) [] 0 false 1 [] in
  let s' := foldl fp_run s [FpClose; FpSent (0%nat, false) (Some ENetClosed) None 0] in
  fp_session s' = 1%nat ∧ fp_closed s' = [0%nat; 0%nat].
Proof. done. Qed.

(** ** Witness *)

Lemma recovery_probes_rate_limited_witness :
  ∃ d, fo_reachable (mkFailoverConfig 1 1 0) Second 0 d ∧ length (fo_probes d) = 1%nat ∧ fo_running d = true.
Proof.
  set (env1 := mkDialEnv 1 1 1 1 (Some EEOF) None).
  set (env2 := mkDialEnv 2 2 2 2 None None).
  set (d0 := NewFailOpenWithProbe (NewController (mkFailoverConfig 1 1 0)) Second).
  assert (H : fo_reachable (mkFailoverConfig 1 1 0) Second 0
                (fo_step (fo_step d0 (FoDial (str "a:1") env1)) (FoDial (str "a:1") env2))).
  { apply (fo_next _ _ 0 _ (FoDial (str "a:1") env2)); [|discriminate].
    apply (fo_next _ _ 0 _ (FoDial (str "a:1") env1)); [apply fo_start|discriminate]. }
  eexists. split; [exact H|].
  pose proof (recovery_probes_rate_limited _ _ _ _ H) as [Hn _].
  split; [rewrite Hn|]; vm_compute; reflexivity.
Defined.
