(* ===== verification/RelayFallback.v ===== *)
(** * Relay fallback: [internal/transport/relay_fallback.go]

    A primary relay with a backup: after a failure the primary rests for a
    cool-down.  Streams fall back per dial; a packet session that fails on the
    primary moves to the backup once, with the failed packet sent again. *)

From S2P Require Import Prelude GoStrings.

(** ** Streams *)

Record RelayFallback := mkRelayFallback {
  rf_cooldown : duration; rf_retryAt : time; rf_active : bytes;
  rf_primaryName : bytes; rf_backupName : bytes }.

(** The zero [time.Time] precedes every reading of the clock; times are counted
    from it. *)
Definition NewRelayFallback (primaryName backupName : bytes) (cooldown : duration) : RelayFallback :=
  mkRelayFallback cooldown 0 primaryName primaryName backupName.

(** The time the primary gets: four seconds, or half of what the deadline leaves;
    [until] are the two readings of [time.Until(deadline)]. *)
Definition primary_timeout (until : option (duration * duration)) : duration :=
  match until with
  | Some (first, second) => if Z.quot first 2 <? 4 * Second then Z.quot second 2 else 4 * Second
  | None => 4 * Second
  end.

(** What happens around one dial: the clock when it starts and when the primary
    has failed, the two outcomes, and the error of the context after the primary. *)
Record relayEnv := mkRelayEnv {
  re_now : time; re_failed : time; re_primary : option error; re_backup : option error;
  re_ctx : option error }.

Inductive relaySide := Primary | Backup.

#[export] Instance relaySide_eq_dec : EqDecision relaySide.
Proof. solve_decision. Defined.

(** [Dial]: the relays tried in order, and the one that connected. *)
Definition relay_Dial (d : RelayFallback) (env : relayEnv) : RelayFallback * list relaySide * result relaySide :=
  let backup (d : RelayFallback) (tried : list relaySide) (primaryErr : option error) :=
    match re_backup env with
    | None => (mkRelayFallback (rf_cooldown d) (rf_retryAt d) (rf_backupName d) (rf_primaryName d) (rf_backupName d),
               tried ++ [Backup], Ok Backup)
    | Some e => (d, tried ++ [Backup],
                 Err (match primaryErr with Some p => EJoin p e | None => e end))
    end in
  if negb (re_now env <? rf_retryAt d) then
    match re_primary env with
    | None => (mkRelayFallback (rf_cooldown d) 0 (rf_primaryName d) (rf_primaryName d) (rf_backupName d),
               [Primary], Ok Primary)
    | Some err =>
        match re_ctx env with
        | Some e => (d, [Primary], Err e)
        | None =>
            backup (mkRelayFallback (rf_cooldown d) (re_failed env + rf_cooldown d) (rf_active d)
                      (rf_primaryName d) (rf_backupName d)) [Primary] (Some err)
        end
    end
  else backup d [] None.

(** ** Packets *)

(** [PacketRelayFallback]: its packet sessions share it. *)
Record packetRelay := mkPacketRelay { pr_cooldown : duration; pr_retryAt : time; pr_active : bytes }.

Definition NewPacketRelayFallback (cooldown : duration) : packetRelay :=
  mkPacketRelay cooldown 0 (str "hy2").

Definition pr_failed (d : packetRelay) (now : time) : packetRelay :=
  mkPacketRelay (pr_cooldown d) (now + pr_cooldown d) (pr_active d).

(** [fallbackPacketSession]: packet sessions are numbered as they are opened for
    it; [fb_log] logs the packets sent, on which session, and [fb_closedLog] the
    packet sessions closed. *)
Record fallbackSession := mkFallback {
  fb_session : nat; fb_backup : bool; fb_closed : bool;
  fb_next : nat; fb_log : list (nat * bytes * bytes); fb_closedLog : list nat }.

Definition fb_fresh : fallbackSession := mkFallback 0 false false 1 [] [].

(** [OpenPacket]: a session over the primary, or a plain session of the backup. *)
Definition packet_OpenPacket (d : packetRelay) (env : relayEnv)
  : packetRelay * list relaySide * result (option fallbackSession) :=
  let backup (d : packetRelay) (tried : list relaySide) :=
    match re_backup env with
    | Some e => (d, tried ++ [Backup], Err e)
    | None => (mkPacketRelay (pr_cooldown d) (pr_retryAt d) (str "reality"), tried ++ [Backup], Ok None)
    end in
  if negb (re_now env <? pr_retryAt d) then
    match re_primary env with
    | None => (mkPacketRelay (pr_cooldown d) 0 (str "hy2"), [Primary], Ok (Some fb_fresh))
    | Some _ => match re_ctx env with
                | Some e => (d, [Primary], Err e)
                | None => backup (pr_failed d (re_failed env)) [Primary]
                end
    end
  else backup d [].

(** [Send], first part: under the read lock, the session to send on. *)
Definition send_begin (s : fallbackSession) : result (nat * bool) :=
  if fb_closed s then Err ENetClosed else Ok (fb_session s, fb_backup s).

Definition log_send (s : fallbackSession) (id : nat) (payload target : bytes) : fallbackSession :=
  mkFallback (fb_session s) (fb_backup s) (fb_closed s) (fb_next s)
    (fb_log s ++ [(id, payload, target)]) (fb_closedLog s).

(** [Send], second part: [err] is the outcome of sending on the session read;
    [open_err] the outcome of opening a backup session, [again] that of the second
    attempt, [now] the clock when the relay is marked as failed. *)
Definition send_end (d : packetRelay) (s : fallbackSession) (snapshot : nat * bool)
    (payload target : bytes) (err open_err again : option error) (now : time)
  : packetRelay * fallbackSession * option error :=
  let '(packet, backup) := snapshot in
  let s := log_send s packet payload target in
  match err with
  | None => (d, s, None)
  | Some e =>
      if backup : bool then (d, s, Some e) else
      let d := pr_failed d now in
      if fb_closed s then (d, s, Some ENetClosed)
      else if negb (fb_backup s) then
        match open_err with
        | Some oe => (d, s, Some (EJoin e oe))
        | None =>
            let s := mkFallback (fb_next s) true false (S (fb_next s)) (fb_log s)
                       (fb_closedLog s ++ [packet]) in
            (mkPacketRelay (pr_cooldown d) (pr_retryAt d) (str "reality"),
             log_send s (fb_session s) payload target, again)
        end
      else (d, log_send s (fb_session s) payload target, again)
  end.

(** [Receive], after a receive on [packet] has failed: wait on the session that
    has replaced it ([None]), or give the error up. *)
Definition receive_failed (d : packetRelay) (s : fallbackSession) (packet : nat) (err : error)
    (now : time) : packetRelay * option error :=
  let changed := negb (bool_decide (fb_session s = packet)) && negb (fb_closed s) in
  if changed then (d, None)
  else if negb (fb_closed s) && negb (fb_backup s) then (pr_failed d now, Some err)
  else (d, Some err).

Definition fb_Close (s : fallbackSession) : fallbackSession :=
  if fb_closed s then s
  else mkFallback (fb_session s) (fb_backup s) true (fb_next s) (fb_log s)
         (fb_closedLog s ++ [fb_session s]).

(** ** The primary rests *)

Lemma relay_Dial_tries (d : RelayFallback) (env : relayEnv) :
  let '(d', tried, r) := relay_Dial d env in
  (Primary ∈ tried ↔ rf_retryAt d ≤ re_now env) ∧
  (∀ used, r = Ok used → used ∈ tried ∧ rf_active d' =
     match used with Primary => rf_primaryName d | Backup => rf_backupName d end) ∧
  rf_cooldown d' = rf_cooldown d ∧ rf_primaryName d' = rf_primaryName d ∧
  rf_backupName d' = rf_backupName d.
Proof.
  unfold relay_Dial. destruct (re_now env <? rf_retryAt d) eqn:E; bools; simpl;
    repeat match goal with |- context [match ?x with Some _ => _ | None => _ end] => destruct x end.
  all: simpl; split; [|split; [|done]].
  all: try (intros used [= <-]; split; [apply (bool_decide_unpack _); vm_compute; exact I|done]).
  all: try done.
  all: split; intros Hp; try lia; try (apply (bool_decide_unpack _); vm_compute; exact I).
  all: apply (bool_decide_eq_true_2 _) in Hp; by vm_compute in Hp.
Qed.

(** A sequence of dials: the state after it and the relays each dial tried. *)
Fixpoint relay_run (d : RelayFallback) (envs : list relayEnv) : RelayFallback * list (list relaySide) :=
  match envs with
  | [] => (d, [])
  | env :: envs =>
      let '(d, tried, _) := relay_Dial d env in
      let '(d, all) := relay_run d envs in (d, tried :: all)
  end.

Lemma relay_run_resting d envs :
  Forall (λ e, re_now e < rf_retryAt d) envs →
  Forall (λ tried, tried = [Backup]) (relay_run d envs).2 ∧
  rf_retryAt (relay_run d envs).1 = rf_retryAt d.
Proof.
  revert d. induction envs as [|env envs IH]; intros d Henv; [done|].
  apply list.Forall_cons in Henv as [He Henv]. cbn [relay_run]. unfold relay_Dial.
  rewrite (proj2 (Z.ltb_lt _ _) He). cbn [negb].
  destruct (re_backup env) as [e|].
  - destruct (IH d Henv) as [H1 H2]. destruct (relay_run d envs). by split; [constructor|].
  - match goal with |- context [relay_run ?d1 envs] => destruct (IH d1 Henv) as [H1 H2]; destruct (relay_run d1 envs) end.
    by split; [constructor|].
Qed.

(** A failed primary relay rests: after a dial in which the primary failed, no
    dial that starts within the cool-down tries it, however the backup fares, and
    the first dial after the cool-down tries it again. *)
Theorem failed_primary_rests (d : RelayFallback) (env : relayEnv) (e : error) (envs : list relayEnv)
    (later : relayEnv) :
  rf_retryAt d ≤ re_now env → re_primary env = Some e → re_ctx env = None →
  Forall (λ x, re_now x < re_failed env + rf_cooldown d) envs →
  re_failed env + rf_cooldown d ≤ re_now later →
  let '(d1, tried, _) := relay_Dial d env in
  let '(d2, all) := relay_run d1 envs in
  tried = [Primary; Backup] ∧ Forall (λ t, t = [Backup]) all ∧
  Primary ∈ (relay_Dial d2 later).1.2.
Proof.
  intros Hn Hp Hc Henv Hl. unfold relay_Dial at 1. rewrite (proj2 (Z.ltb_ge _ _) Hn), Hp, Hc. cbn [negb app].
  assert (Hgoal : ∀ d1, rf_retryAt d1 = re_failed env + rf_cooldown d →
    let '(d2, all) := relay_run d1 envs in
    Forall (λ t, t = [Backup]) all ∧ Primary ∈ (relay_Dial d2 later).1.2).
  { intros d1 E. destruct (relay_run_resting d1 envs) as [H1 H2]; [by rewrite E|].
    destruct (relay_run d1 envs) as [d2 all]. simpl in H1, H2. split; [done|].
    pose proof (relay_Dial_tries d2 later) as Ht. destruct (relay_Dial d2 later) as [[d3 tried] r].
    destruct Ht as [[_ Ht] _]. apply Ht. lia. }
  destruct (re_backup env);
    match goal with |- context [relay_run ?d1 envs] => specialize (Hgoal d1 eq_refl); destruct (relay_run d1 envs) end;
    by split.
Qed.

(** A dial fails only when every relay it tried failed or the context ended. *)
Lemma relay_Dial_error (d : RelayFallback) (env : relayEnv) (e : error) :
  (relay_Dial d env).2 = Err e →
  (∃ b, re_backup env = Some b ∧ (rf_retryAt d ≤ re_now env → ∃ p, re_primary env = Some p ∧ e = EJoin p b)) ∨
  re_ctx env = Some e.
Proof.
  unfold relay_Dial. destruct (re_now env <? rf_retryAt d) eqn:E; bools; simpl.
  - destruct (re_backup env) as [b|] eqn:Eb; [|done]. intros _. left. exists b. split; [done|]. lia.
  - destruct (re_primary env) as [p|] eqn:Ep; [|done]. destruct (re_ctx env) as [c|] eqn:Ec; simpl.
    + intros [= ->]. by right.
    + destruct (re_backup env) as [b|] eqn:Eb; [|done]. intros [= <-]. left. exists b. eauto.
Qed.

(** The primary never takes more than half of the time a deadline leaves. *)
Lemma primary_timeout_half (first second : duration) :
  0 ≤ second ≤ first → primary_timeout (Some (first, second)) ≤ first `quot` 2.
Proof.
  intros H. unfold primary_timeout. destruct (_ <? _) eqn:E; bools; [|done].
  rewrite !Z.quot_div_nonneg by lia. apply Z.div_le_mono; lia.
Qed.

(** ** Packet sessions under overlapping sends *)

(** The relay, the session and the sends that have read it and not ended. *)
Record fbState := mkFb { fb_relay : packetRelay; fb_sess : fallbackSession; fb_pending : list (nat * bool) }.

Inductive fb_event :=
| SendBegin
| SendEnd (index : nat) (payload target : bytes) (err open_err again : option error) (now : time)
| ReceiveFailed (packet : nat) (err : error) (now : time)
| SessionClose.

Definition fb_step (x : fbState) (e : fb_event) : fbState :=
  match e with
  | SendBegin =>
      match send_begin (fb_sess x) with
      | Ok snapshot => mkFb (fb_relay x) (fb_sess x) (fb_pending x ++ [snapshot])
      | Err _ => x
      end
  | SendEnd index payload target err open_err again now =>
      match fb_pending x !! index with
      | Some snapshot =>
          let '(d, s, _) := send_end (fb_relay x) (fb_sess x) snapshot payload target err open_err again now in
          mkFb d s (delete index (fb_pending x))
      | None => x
      end
  | ReceiveFailed packet err now =>
      mkFb (receive_failed (fb_relay x) (fb_sess x) packet err now).1 (fb_sess x) (fb_pending x)
  | SessionClose => mkFb (fb_relay x) (fb_Close (fb_sess x)) (fb_pending x)
  end.

Record fb_ok (x : fbState) : Prop := {
  fbk_session : if fb_backup (fb_sess x) then fb_session (fb_sess x) = 1%nat ∧ fb_next (fb_sess x) = 2%nat
                else fb_session (fb_sess x) = 0%nat ∧ fb_next (fb_sess x) = 1%nat;
  fbk_pending : ∀ id, (id, false) ∈ fb_pending x → id = 0%nat;
  fbk_closed : fb_closedLog (fb_sess x) ++ (if fb_closed (fb_sess x) then [] else [fb_session (fb_sess x)])
               ≡ₚ seq 0 (fb_next (fb_sess x)) }.

Lemma send_end_ok x index snapshot payload target err open_err again now :
  fb_ok x → fb_pending x !! index = Some snapshot →
  fb_ok (fb_step x (SendEnd index payload target err open_err again now)).
Proof.
  intros [H1 H2 H3] Hi. simpl. rewrite Hi. destruct snapshot as [packet backup].
  assert (Hp : ∀ id, (id, false) ∈ delete index (fb_pending x) → id = 0%nat).
  { intros id Hid. apply H2. eapply elem_of_sublist; [done|]. apply sublist_delete. }
  destruct x as [d [se ba cl ne lg cll] pe]. simpl in *. unfold send_end. simpl.
  destruct err as [e|]; [|by split]. destruct backup; [by split|].
  assert (packet = 0%nat) as -> by (apply H2; by eapply list_elem_of_lookup_2).
  simpl. destruct cl; [by split|]. destruct ba; [by split|]. destruct open_err; [by split|].
  destruct H1 as [-> ->]. split; simpl; [done|done|].
  exact (Permutation_app_tail [1%nat] H3).
Qed.

Lemma fb_step_ok x e : fb_ok x → fb_ok (fb_step x e).
Proof.
  intros Hx. destruct (Hx) as [H1 H2 H3]. destruct e as [|index payload target err open_err again now|packet err now|].
  - simpl. unfold send_begin. destruct (fb_closed (fb_sess x)) eqn:Hc; [done|].
    split; simpl; [done| |by rewrite Hc in *].
    intros id [Hid|Hid%list_elem_of_singleton]%elem_of_app; [by apply H2|]. injection Hid as -> Hb.
    rewrite <- Hb in H1. by destruct H1.
  - destruct (fb_pending x !! index) as [snapshot|] eqn:Hi; [by eapply send_end_ok|].
    simpl. by rewrite Hi.
  - done.
  - simpl. unfold fb_Close. destruct (fb_closed (fb_sess x)) eqn:Hc; [by destruct x|].
    split; simpl; [done|done|]. by rewrite app_nil_r.
Qed.

(** C33: a packet session over a relay pair never leaks and never closes twice:
    however sends, failed receives and closings overlap, the packet sessions
    opened for it (the primary's and at most one of the backup's) are exactly the
    closed ones, each closed once, and, until the session is closed, its current
    one. *)
Theorem fallback_session_never_leaks (d : packetRelay) (events : list fb_event) :
  let s := fb_sess (foldl fb_step (mkFb d fb_fresh []) events) in
  fb_closedLog s ++ (if fb_closed s then [] else [fb_session s]) ≡ₚ seq 0 (fb_next s) ∧
  (fb_next s ≤ 2)%nat.
Proof.
  assert (H : ∀ events x, fb_ok x → fb_ok (foldl fb_step x events)).
  { clear. induction events as [|e events IH]; intros x Hx; [done|]. simpl. by apply IH, fb_step_ok. }
  intros s. specialize (H events (mkFb d fb_fresh [])). destruct H as [H1 _ H3].
  { split; simpl; [done| |done]. intros id Hid. by apply not_elem_of_nil in Hid. }
  split; [done|]. unfold s. destruct (fb_backup _); destruct H1; lia.
Qed.

(** A packet that fails on the primary is not lost: when a backup session
    opens, the same payload is sent to the same target on it, the session stays on
    the backup, the outcome is the backup's, and the primary rests for the
    cool-down; a receiver blocked on the old session continues on the new one. *)
Theorem failed_packet_sent_on_backup (d : packetRelay) (s : fallbackSession) (payload target : bytes)
    (e : error) (again : option error) (now : time) :
  fb_closed s = false → fb_backup s = false → fb_session s ≠ fb_next s →
  let '(d', s', r) := send_end d s (fb_session s, false) payload target (Some e) None again now in
  fb_log s' = fb_log s ++ [(fb_session s, payload, target); (fb_next s, payload, target)] ∧
  r = again ∧ send_begin s' = Ok (fb_next s, true) ∧
  pr_retryAt d' = now + pr_cooldown d ∧ pr_active d' = str "reality" ∧
  ∀ err later, receive_failed d' s' (fb_session s) err later = (d', None).
Proof.
  intros Hc Hb Hn. unfold send_end. simpl. rewrite Hc, Hb. simpl.
  split; [by rewrite <- app_assoc|]. repeat (split; [done|]).
  intros err later. unfold receive_failed. simpl. by rewrite bool_decide_false.
Qed.

(** ** Witnesses *)

Lemma failed_primary_rests_witness :
  let d := NewRelayFallback (str "hy2") (str "reality") 100 in
  let fail := mkRelayEnv 5 10 (Some EEOF) None None in
  let soon := mkRelayEnv 50 50 None None None in
  Primary ∈ (relay_Dial (relay_run (relay_Dial d fail).1.1 [soon]).1 (mkRelayEnv 110 110 None None None)).1.2.
Proof.
  intros d fail soon.
  apply (failed_primary_rests d fail EEOF [soon] (mkRelayEnv 110 110 None None None)); simpl; try reflexivity; try lia.
  repeat constructor.
Defined.

Lemma failed_packet_sent_on_backup_witness :
  let '(_, s', r) := send_end (NewPacketRelayFallback 100) fb_fresh (0%nat, false) [1] (str "8.8.8.8:53")
                       (Some EEOF) None None 7 in
  fb_log s' = [(0%nat, [1], str "8.8.8.8:53"); (1%nat, [1], str "8.8.8.8:53")] ∧ r = None.
Proof.
  destruct (failed_packet_sent_on_backup (NewPacketRelayFallback 100) fb_fresh [1] (str "8.8.8.8:53")
    EEOF None 7) as (H1 & H2 & _); [reflexivity|reflexivity|discriminate|].
  split; [exact H1|exact H2].
Defined.
