(* ===== verification/RelayDials.v ===== *)
(** * Overlapping dials of the relay fallback: [RelayFallback.Dial] of
    [internal/transport/relay_fallback.go]

    Connections are dialled concurrently, and [Dial] holds its mutex only to read
    or to record: each dial is a sequence of steps, and the steps of different
    dials interleave.  [relay_Dial] is a dial that nobody disturbs.  The state is
    shown to be a function of the outcomes in the order they were recorded. *)

From S2P Require Import Prelude GoStrings RelayFallback.

(** Where a dial is: not begun, waiting for the primary, waiting for the backup
    with the error of the primary if it was tried, or done. *)
Inductive dialPhase :=
| DialNew
| DialPrimary
| DialBackup (primaryErr : option error)
| Dialled (r : result relaySide).

(** Reading the clock under the mutex; the primary's outcome with the error of the
    context and the clock then; the backup's outcome. *)
Inductive dialEvent :=
| DvBegin (now : time)
| DvPrimary (outcome ctx_err : option error) (now : time)
| DvBackup (outcome : option error).

Definition dial_step (d : RelayFallback) (p : dialPhase) (e : dialEvent) : option (RelayFallback * dialPhase) :=
  match p, e with
  | DialNew, DvBegin now =>
      Some (d, if negb (now <? rf_retryAt d) then DialPrimary else DialBackup None)
  | DialPrimary, DvPrimary None _ _ =>
      Some (mkRelayFallback (rf_cooldown d) 0 (rf_primaryName d) (rf_primaryName d) (rf_backupName d),
            Dialled (Ok Primary))
  | DialPrimary, DvPrimary (Some _) (Some e) _ => Some (d, Dialled (Err e))
  | DialPrimary, DvPrimary (Some err) None now =>
      Some (mkRelayFallback (rf_cooldown d) (now + rf_cooldown d) (rf_active d) (rf_primaryName d) (rf_backupName d),
            DialBackup (Some err))
  | DialBackup _, DvBackup None =>
      Some (mkRelayFallback (rf_cooldown d) (rf_retryAt d) (rf_backupName d) (rf_primaryName d) (rf_backupName d),
            Dialled (Ok Backup))
  | DialBackup primaryErr, DvBackup (Some e) =>
      Some (d, Dialled (Err (match primaryErr with Some p => EJoin p e | None => e end)))
  | _, _ => None
  end.

(** ** Any number of dials *)

(** What the dials recorded, newest first: a connection of a relay, or a failure of
    the primary at a time. *)
Inductive relayRecord := Connected (side : relaySide) | PrimaryFailed (at_ : time).

Record dialsState := mkDials {
  ds_relay : RelayFallback; ds_dials : gmap nat dialPhase; ds_records : list relayRecord }.

Definition dial_record (p : dialPhase) (e : dialEvent) : list relayRecord :=
  match p, e with
  | DialPrimary, DvPrimary None _ _ => [Connected Primary]
  | DialPrimary, DvPrimary (Some _) None now => [PrimaryFailed now]
  | DialBackup _, DvBackup None => [Connected Backup]
  | _, _ => []
  end.

(** A dial that was not seen before begins with its first event. *)
Definition dials_step (s : dialsState) (id : nat) (e : dialEvent) : option dialsState :=
  let p := default DialNew (ds_dials s !! id) in
  o ← dial_step (ds_relay s) p e;
  let '(d, p') := o in
  Some (mkDials d (<[id := p']> (ds_dials s)) (dial_record p e ++ ds_records s)).

Inductive dials_reachable (primaryName backupName : bytes) (cooldown : duration) : dialsState → Prop :=
| dials_start : dials_reachable primaryName backupName cooldown
    (mkDials (NewRelayFallback primaryName backupName cooldown) ∅ [])
| dials_next s id e s' : dials_reachable primaryName backupName cooldown s →
    dials_step s id e = Some s' → dials_reachable primaryName backupName cooldown s'.

(** ** The specification *)

(** When the primary may be tried again: at the end of the rest after its last
    failure, unless it connected since. *)
Fixpoint rest_until (cooldown : duration) (records : list relayRecord) : time :=
  match records with
  | [] => 0
  | Connected Primary :: _ => 0
  | PrimaryFailed at_ :: _ => at_ + cooldown
  | Connected Backup :: records => rest_until cooldown records
  end.

(** The relay that connected last. *)
Fixpoint last_connected (records : list relayRecord) : relaySide :=
  match records with
  | [] => Primary
  | Connected side :: _ => side
  | PrimaryFailed _ :: records => last_connected records
  end.

Definition side_name (d : RelayFallback) (side : relaySide) : bytes :=
  match side with Primary => rf_primaryName d | Backup => rf_backupName d end.

Record dials_ok (primaryName backupName : bytes) (cooldown : duration) (s : dialsState) : Prop := {
  do_cooldown : rf_cooldown (ds_relay s) = cooldown;
  do_primaryName : rf_primaryName (ds_relay s) = primaryName;
  do_backupName : rf_backupName (ds_relay s) = backupName;
  do_retryAt : rf_retryAt (ds_relay s) = rest_until cooldown (ds_records s);
  do_active : rf_active (ds_relay s) = side_name (ds_relay s) (last_connected (ds_records s)) }.

Section dials.
Context (primaryName backupName : bytes) (cooldown : duration).

Lemma dials_step_ok s id e s' :
  dials_ok primaryName backupName cooldown s → dials_step s id e = Some s' →
  dials_ok primaryName backupName cooldown s'.
Proof.
  intros [H1 H2 H3 H4 H5]. unfold dials_step.
  destruct (default DialNew (ds_dials s !! id)) as [| |pe|r], e as [now|[err|] [ctx|] now|[err|]]; simpl;
    intros [= <-]; split; simpl; rewrite ?H1, ?H2, ?H3, ?H4, ?H5; unfold side_name; simpl; rewrite ?H2, ?H3; done.
Qed.

Lemma dials_reachable_ok s :
  dials_reachable primaryName backupName cooldown s → dials_ok primaryName backupName cooldown s.
Proof. induction 1; [done|by eapply dials_step_ok]. Qed.

(** A failure that was not followed by a connection of the primary keeps it
    resting. *)
Lemma rest_until_failed t news old :
  (∀ r, r ∈ news → r ≠ Connected Primary ∧ ∀ t', r = PrimaryFailed t' → t ≤ t') →
  t + cooldown ≤ rest_until cooldown (news ++ PrimaryFailed t :: old).
Proof.
  intros H. induction news as [|r news IH]; simpl; [lia|].
  destruct (H r) as [H1 H2]; [apply list_elem_of_here|].
  assert (IH' : t + cooldown ≤ rest_until cooldown (news ++ PrimaryFailed t :: old)).
  { apply IH. intros r' Hr'. apply H. by apply list_elem_of_further. }
  destruct r as [[]|at_]; [done|done|]. specialize (H2 at_ eq_refl). lia.
Qed.

Lemma dials_begin s id now s' :
  dials_ok primaryName backupName cooldown s → ds_dials s !! id = None →
  dials_step s id (DvBegin now) = Some s' →
  ds_records s' = ds_records s ∧
  ds_dials s' !! id = Some (if now <? rest_until cooldown (ds_records s) then DialBackup None else DialPrimary).
Proof.
  intros [H1 H2 H3 H4 H5] Hn. unfold dials_step. rewrite Hn. simpl. intros [= <-]. simpl. split; [done|].
  rewrite lookup_insert_eq, H4. by destruct (now <? _).
Qed.

(** C34: however dials overlap, the fallback behaves as the recorded outcomes say:
    the relay it reports is the one that connected last; a dial that begins tries
    the primary exactly when the rest after its last recorded failure is over, or
    it has connected since; so after a failure no dial that begins within the
    cool-down tries the primary, whatever the dials in flight record, unless one
    of them was connected by it. *)
Theorem overlapping_dials_follow_records (s : dialsState) :
  dials_reachable primaryName backupName cooldown s →
  rf_active (ds_relay s) = match last_connected (ds_records s) with
                           | Primary => primaryName | Backup => backupName end ∧
  ∀ id now s', ds_dials s !! id = None → dials_step s id (DvBegin now) = Some s' →
    ds_records s' = ds_records s ∧
    ds_dials s' !! id = Some (if now <? rest_until cooldown (ds_records s) then DialBackup None else DialPrimary) ∧
    ∀ t news old, ds_records s = news ++ PrimaryFailed t :: old →
      (∀ r, r ∈ news → r ≠ Connected Primary ∧ ∀ t', r = PrimaryFailed t' → t ≤ t') →
      now < t + cooldown → ds_dials s' !! id = Some (DialBackup None).
Proof.
  intros Hr. pose proof (dials_reachable_ok s Hr) as Hok. split.
  - rewrite (do_active _ _ _ _ Hok). unfold side_name.
    rewrite (do_primaryName _ _ _ _ Hok), (do_backupName _ _ _ _ Hok). by destruct (last_connected _).
  - intros id now s' Hn Hs. destruct (dials_begin s id now s' Hok Hn Hs) as [H1 H2]. split; [done|]. split; [done|].
    intros t news old E Hnews Hnow. rewrite H2. pose proof (rest_until_failed t news old Hnews) as Hle.
    rewrite <- E in Hle. by rewrite (proj2 (Z.ltb_lt _ _)) by lia.
Qed.
End dials.

(** ** A dial that nobody disturbs *)

Fixpoint dial_run (d : RelayFallback) (p : dialPhase) (es : list dialEvent) : option (RelayFallback * dialPhase) :=
  match es with
  | [] => Some (d, p)
  | e :: es => o ← dial_step d p e; dial_run o.1 o.2 es
  end.

(** Taken without disturbance, the steps do what [relay_Dial] does. *)
Lemma undisturbed_dial (d : RelayFallback) (env : relayEnv) :
  ∃ es, dial_run d DialNew es = Some ((relay_Dial d env).1.1, Dialled (relay_Dial d env).2) ∧ (length es ≤ 3)%nat.
Proof.
  unfold relay_Dial. destruct (negb (re_now env <? rf_retryAt d)) eqn:E.
  - destruct (re_primary env) as [err|] eqn:Ep.
    + destruct (re_ctx env) as [e|] eqn:Ec.
      * exists [DvBegin (re_now env); DvPrimary (Some err) (Some e) (re_failed env)]. simpl. rewrite E. simpl. split; [done|lia].
      * exists [DvBegin (re_now env); DvPrimary (Some err) None (re_failed env); DvBackup (re_backup env)].
        simpl. rewrite E. simpl. split; [by destruct (re_backup env)|lia].
    + exists [DvBegin (re_now env); DvPrimary None None 0]. simpl. rewrite E. simpl. split; [done|lia].
  - exists [DvBegin (re_now env); DvBackup (re_backup env)]. simpl. rewrite E. simpl.
    split; [by destruct (re_backup env)|lia].
Qed.

(** A dial in flight when the primary failed may connect by it and end the rest. *)
Definition overlapping : dialsState :=
  foldl (λ s '(id, e), default s (dials_step s id e)) (mkDials (NewRelayFallback (str "reality") (str "hy2") 100) ∅ [])
    [(1%nat, DvBegin 5); (2%nat, DvBegin 6); (1%nat, DvPrimary (Some EEOF) None 10); (1%nat, DvBackup None)].

Lemma foldl_dials_reachable p b c s es :
  dials_reachable p b c s →
  dials_reachable p b c (foldl (λ s '(id, e), default s (dials_step s id e)) s es).
Proof.
  revert s. induction es as [|[id e] es IH]; intros s H; simpl; [done|]. apply IH.
  destruct (dials_step s id e) eqn:E; simpl; [by eapply dials_next|done].
Qed.

Example success_in_flight_ends_rest :
  (λ s, (ds_dials s !! 3%nat, rf_active (ds_relay s))) <$>
    (s ← dials_step overlapping 2 (DvPrimary None None 0); dials_step s 3 (DvBegin 12)) =
  Some (Some DialPrimary, str "reality").
Proof. vm_compute. reflexivity. Qed.

(** ** Witness *)

Lemma overlapping_dials_follow_records_witness :
  rf_active (ds_relay overlapping) = str "hy2" ∧
  (λ s, ds_dials s !! 3%nat) <$> dials_step overlapping 3 (DvBegin 12) = Some (Some (DialBackup None)).
Proof.
  destruct (overlapping_dials_follow_records (str "reality") (str "hy2") 100 overlapping) as [H1 H2].
  { apply foldl_dials_reachable, dials_start. }
  split; [rewrite H1; vm_compute; reflexivity|].
  destruct (dials_step overlapping 3 (DvBegin 12)) as [s'|] eqn:E; [|discriminate E].
  destruct (H2 3%nat 12 s') as (_ & H3 & _); [vm_compute; reflexivity|exact E|].
  simpl. rewrite H3. vm_compute. reflexivity.
Defined.
