(* ===== verification/Hy2.v ===== *)
(** * The HY2 transport: [internal/transport/hy2/client.go],
    [internal/transport/hy2/reconnect.go], [internal/transport/hy2/resolver.go]

    The certificate pin and the configuration handed to the hysteria client; the
    reconnecting core, which pairs every operation with the generation of the
    connection it used; the bootstrap resolver, which finds the server's address.
    The calls of the client on top of the core are in [Hy2Client]. *)

From S2P Require Import Prelude GoStrings GoNet Domains IPv4Tree Sha256 Dataset GoCodec.
From S2P Require Import Config AddrText DnsMsg.

(** ** The certificate pin *)

(** [pinVerifier]: [None] is the nil verifier, which leaves the usual checks. *)
Definition pinVerifier (pin : bytes) : option (list bytes → option error) :=
  if bool_decide (pin = []) then None
  else
    let expected := hex_DecodeString pin in
    match expected with
    | Some expected =>
        if negb (length expected =? 32)%nat then Some (λ _, Some (EMsg "invalid certificate pin"))
        else Some (λ rawCerts,
          match rawCerts with
          | [] => Some (EMsg "peer sent no certificate")
          | cert :: _ => if bool_decide (Sum256 cert = expected) then None
                         else Some (EMsg "certificate pin mismatch")
          end)
    | None => Some (λ _, Some (EMsg "invalid certificate pin"))
    end.

(** ** The configuration of the core *)

(** The fields of the core configuration the program computes; [cc_udp] is the
    server address, [cc_mark] the mark of its sockets. *)
Record coreConfig := mkCore {
  cc_ip : bytes; cc_port : Z; cc_mark : Z; cc_auth : bytes; cc_sni : bytes; cc_insecure : bool;
  cc_verify : option (list bytes → option error);
  cc_windows : Z * Z * Z * Z; cc_max_idle : duration; cc_keep_alive : duration }.

Definition buildCoreConfig (cfg : HY2Config) (lookup : bytes → result Addr) (mark : list Z)
  : result coreConfig :=
  match SplitHostPort (hy2_server cfg) with
  | Err e => Err (EWrap "HY2 server" e)
  | Ok (host, rawPort) =>
      match Atoi rawPort with
      | None => errorf "HY2 server port is invalid"
      | Some port =>
          if (port <? 1) || (65535 <? port) then errorf "HY2 server port is invalid" else
          let? ip := match ParseAddr host with
                     | Some ip => Ok ip
                     | None => match lookup host with
                               | Ok ip => Ok ip
                               | Err e => Err (EWrap "bootstrap HY2 server" e)
                               end
                     end in
          if negb (Is4 ip) || Is4In6 ip then errorf "HY2 server must resolve to IPv4" else
          Ok (mkCore (AsSlice ip) port (match mark with [] => 0 | m :: _ => m end)
                (hy2_auth cfg) (hy2_sni cfg) (hy2_insecure cfg) (pinVerifier (hy2_pin cfg))
                (hy2_init_stream cfg, hy2_max_stream cfg, hy2_init_conn cfg, hy2_max_conn cfg)
                (hy2_max_idle cfg) (hy2_keep_alive cfg))
      end
  end.

(** ** The bootstrap resolver *)

Record bootstrapEntry := mkBootstrap { be_ip : Addr; be_expires : time }.

Definition bootstrapCache := gmap bytes bootstrapEntry.

Definition clamp_ttl (ttl : Z) : duration :=
  let ttl := ttl * Second in
  let ttl := if ttl <? 5 * Minute then 5 * Minute else ttl in
  if Hour <? ttl then Hour else ttl.

(** The first usable A record of an answer. *)
Fixpoint first_ipv4 (answers : list RR) : option (Addr * Z) :=
  match answers with
  | [] => None
  | ARecord ttl a :: answers =>
      match AddrFromSlice a with
      | Some ip => if negb (Is4 ip) || Is4In6 ip then first_ipv4 answers else Some (ip, ttl)
      | None => first_ipv4 answers
      end
  | OtherRR _ :: answers => first_ipv4 answers
  end.

(** The query of [LookupIPv4] and the storing of its answer: [question] is the query
    the DNS library builds for the A record of a name, [exchange] the exchanger. *)
Definition bootstrap_ask (question : bytes → Msg) (exchange : Msg → result (option Msg))
    (cache : bootstrapCache) (host : bytes) (stored : time) : bootstrapCache * result Addr :=
  match exchange (question host) with
  | Err e => (cache, Err e)
  | Ok None => (cache, errorf "bootstrap DNS returned no response")
  | Ok (Some response) =>
      match first_ipv4 (msg_answer response) with
      | Some (ip, ttl) => (<[host := mkBootstrap ip (stored + clamp_ttl ttl)]> cache, Ok ip)
      | None => (cache, errorf "bootstrap DNS returned no IPv4 answer")
      end
  end.

(** [LookupIPv4]: the clock is read before the cache is consulted and again when
    an answer is stored. *)
Definition LookupIPv4 (question : bytes → Msg) (exchange : Msg → result (option Msg))
    (cache : bootstrapCache) (host : bytes) (now stored : time) : bootstrapCache * result Addr :=
  let host := TrimSuffix (ToLower host) [46] in
  match cache !! host with
  | Some e => if now <? be_expires e then (cache, Ok (be_ip e))
              else bootstrap_ask question exchange cache host stored
  | None => bootstrap_ask question exchange cache host stored
  end.

(** ** The reconnecting core *)

(** [reconnectableCore]: clients are numbered as they are made; [rc_closedLog] logs
    the clients closed, [rc_connected] the generations announced as connected. *)
Record reconnectable := mkReconnect {
  rc_client : option nat; rc_sequence : Z; rc_closed : bool;
  rc_next : nat; rc_closedLog : list nat; rc_connected : list (nat * Z) }.

Definition newReconnectableCore : reconnectable := mkReconnect None 0 false 0 [] [].

(** [reconnectLocked]: [outcome] is the error of the configuration or of the new
    client. *)
Definition reconnectLocked (c : reconnectable) (outcome : option error) : reconnectable * option error :=
  let c := match rc_client c with
           | Some id => mkReconnect None (rc_sequence c) (rc_closed c) (rc_next c)
                          (rc_closedLog c ++ [id]) (rc_connected c)
           | None => c
           end in
  let sequence := u64 (rc_sequence c + 1) in
  match outcome with
  | Some e => (mkReconnect (rc_client c) sequence (rc_closed c) (rc_next c) (rc_closedLog c)
                 (rc_connected c), Some e)
  | None => (mkReconnect (Some (rc_next c)) sequence (rc_closed c) (S (rc_next c)) (rc_closedLog c)
               (rc_connected c ++ [(rc_next c, sequence)]), None)
  end.

(** [clientDo] up to the operation: the client and generation it runs on, or the
    sequence and error it returns. *)
Definition do_begin (c : reconnectable) (outcome : option error)
  : reconnectable * (Z * error + nat * Z) :=
  if rc_closed c then (c, inl (rc_sequence c, EHyClosed))
  else match rc_client c with
       | Some id => (c, inr (id, rc_sequence c))
       | None =>
           match reconnectLocked c outcome with
           | (c, Some e) => (c, inl (rc_sequence c, e))
           | (c, None) => match rc_client c with
                          | Some id => (c, inr (id, rc_sequence c))
                          | None => (c, inl (rc_sequence c, EHyClosed))
                          end
           end
       end.

(** [clientDo] after the operation: a client that reports itself closed is
    forgotten, unless it has been replaced. *)
Definition do_end (c : reconnectable) (client : nat) (err : option error) : reconnectable :=
  match err with
  | Some e =>
      if errors_Is (λ e, bool_decide (e = EHyClosed)) e && bool_decide (rc_client c = Some client)
      then mkReconnect None (rc_sequence c) (rc_closed c) (rc_next c) (rc_closedLog c) (rc_connected c)
      else c
  | None => c
  end.

Definition core_Close (c : reconnectable) : reconnectable :=
  mkReconnect (rc_client c) (rc_sequence c) true (rc_next c)
    (rc_closedLog c ++ match rc_client c with Some id => [id] | None => [] end) (rc_connected c).

(** ** The pin decides *)

(** With a pin configured, a server is accepted only with the pinned
    certificate: the verifier exists and passes exactly when the first certificate
    of the chain has the SHA-256 digest whose hexadecimal text is the pin; a
    malformed pin accepts nothing. *)
Theorem pinned_certificate_only (pin : bytes) :
  pin ≠ [] →
  ∃ verify, pinVerifier pin = Some verify ∧
  ∀ certs, verify certs = None ↔
    ∃ cert rest, certs = cert :: rest ∧ hex_DecodeString pin = Some (Sum256 cert).
Proof.
  intros Hp. unfold pinVerifier. rewrite bool_decide_false by done.
  destruct (hex_DecodeString pin) as [expected|]; [destruct (length expected =? 32)%nat eqn:E|];
    simpl; eexists; (split; [done|]); intros certs.
  - destruct certs as [|cert rest]; [by split; [|intros (? & ? & ? & ?)]|].
    case_bool_decide as Hd; split.
    + intros _. subst. eauto.
    + done.
    + done.
    + intros (c & r & [= <- <-] & [= ->]). done.
  - split; [done|]. intros (cert & rest & -> & [= ->]). by rewrite length_Sum256 in E.
  - split; [done|]. by intros (cert & rest & -> & ?).
Qed.

(** ** The server address *)

Lemma buildCoreConfig_ipv4 cfg lookup mark a b c d port :
  byte4 (Addr4 a b c d) → 1 ≤ port ≤ 65535 →
  hy2_server cfg = addrport_String (mkAddrPort (Addr4 a b c d) port) →
  ∃ core, buildCoreConfig cfg lookup mark = Ok core ∧ cc_ip core = [a; b; c; d] ∧ cc_port core = port.
Proof.
  intros Hb Hp Hs. unfold buildCoreConfig. rewrite Hs, SplitHostPort_endpoint, Atoi_Itoa by (done || lia).
  rewrite (proj2 (Z.ltb_ge port 1)), (proj2 (Z.ltb_ge 65535 port)) by lia. cbn [orb].
  rewrite ParseAddr_string4 by done. simpl. eauto.
Qed.

(** The client's sockets get the mark the configuration was built with. *)
Lemma buildCoreConfig_mark cfg lookup mark core :
  buildCoreConfig cfg lookup [mark] = Ok core → cc_mark core = mark.
Proof. unfold buildCoreConfig. intros H. repeat (case_match; simplify_eq/=; try done). Qed.

(** Every accepted configuration names an IPv4 server and a port in range. *)
Lemma buildCoreConfig_valid cfg lookup mark core :
  buildCoreConfig cfg lookup mark = Ok core →
  length (cc_ip core) = 4%nat ∧ 1 ≤ cc_port core ≤ 65535 ∧ cc_auth core = hy2_auth cfg ∧
  cc_verify core = pinVerifier (hy2_pin cfg).
Proof.
  unfold buildCoreConfig. destruct (SplitHostPort _) as [[host rawPort]|]; [|done].
  destruct (Atoi rawPort) as [port|]; [|done]. destruct (_ || _) eqn:E; [done|].
  destruct (match ParseAddr host with Some ip => Ok ip | None => _ end) as [ip|]; [|done].
  destruct (negb (Is4 ip) || Is4In6 ip) eqn:E4; [done|]. intros [= <-]. simpl.
  apply orb_false_elim in E4 as [E4 _]. destruct ip; try done. repeat split; lia.
Qed.

(** ** The bootstrap resolver *)

Lemma clamp_ttl_bounds ttl : 5 * Minute ≤ clamp_ttl ttl ≤ Hour.
Proof.
  unfold clamp_ttl. destruct (ttl * Second <? 5 * Minute) eqn:E1; [vm_compute; split; discriminate|].
  destruct (Hour <? ttl * Second) eqn:E2; bools; [vm_compute; split; discriminate|lia].
Qed.

Lemma first_ipv4_Is4 answers ip ttl : first_ipv4 answers = Some (ip, ttl) → Is4 ip = true.
Proof.
  induction answers as [|[t a|i] answers IH]; simpl; try done.
  destruct (AddrFromSlice a) as [x|]; [|done]. destruct (negb (Is4 x) || _) eqn:E; [done|].
  intros [= <- <-]. by destruct (Is4 x).
Qed.

(** A cache in which every entry is IPv4. *)
Definition bootstrap_ok (cache : bootstrapCache) : Prop :=
  map_Forall (λ _ e, Is4 (be_ip e) = true) cache.

(** The bootstrap resolver returns IPv4 addresses only, and keeps an answer
    for between five minutes and an hour: until then a lookup of the same name,
    in any case and with or without a final dot, is answered from the cache
    whatever the network does. *)
Theorem bootstrap_lookup_cached (question : bytes → Msg) (exchange : Msg → result (option Msg))
    (cache : bootstrapCache) (host : bytes) (now stored : time) (ip : Addr) :
  bootstrap_ok cache →
  (LookupIPv4 question exchange cache host now stored).2 = Ok ip →
  let cache' := (LookupIPv4 question exchange cache host now stored).1 in
  Is4 ip = true ∧ bootstrap_ok cache' ∧
  ∃ e, cache' !! TrimSuffix (ToLower host) [46] = Some e ∧ be_ip e = ip ∧
    (now < be_expires e ∨ stored + 5 * Minute ≤ be_expires e ≤ stored + Hour) ∧
    ∀ exchange' host' later t, TrimSuffix (ToLower host') [46] = TrimSuffix (ToLower host) [46] →
      later < be_expires e → LookupIPv4 question exchange' cache' host' later t = (cache', Ok ip).
Proof.
  intros Hok Hr cache'. unfold cache'. revert Hr. clear cache'. unfold LookupIPv4.
  set (h := TrimSuffix (ToLower host) [46]).
  assert (Hask : (bootstrap_ask question exchange cache h stored).2 = Ok ip →
    let cache' := (bootstrap_ask question exchange cache h stored).1 in
    Is4 ip = true ∧ bootstrap_ok cache' ∧
    ∃ e, cache' !! h = Some e ∧ be_ip e = ip ∧ stored + 5 * Minute ≤ be_expires e ≤ stored + Hour).
  { unfold bootstrap_ask. destruct (exchange _) as [[m|]|]; try done.
    destruct (first_ipv4 _) as [[ip' ttl]|] eqn:E; [|done]. apply first_ipv4_Is4 in E.
    intros [= ->]. cbn zeta. cbn [fst]. split; [done|]. split; [by apply map_Forall_insert_2|].
    eexists. split; [apply lookup_insert_eq|]. pose proof (clamp_ttl_bounds ttl). simpl. split; [done|lia]. }
  assert (Hhit : ∀ (c : bootstrapCache) e, c !! h = Some e → ∀ exchange' host' later t,
    TrimSuffix (ToLower host') [46] = h → later < be_expires e →
    LookupIPv4 question exchange' c host' later t = (c, Ok (be_ip e))).
  { intros c e He exchange' host' later t Hh Hl. unfold LookupIPv4. rewrite Hh, He.
    by rewrite (proj2 (Z.ltb_lt _ _) Hl). }
  destruct (cache !! h) as [e|] eqn:Hc; [destruct (now <? be_expires e) eqn:Hn|]; bools.
  - simpl. intros [= <-]. split; [by apply (Hok h e)|]. split; [done|]. exists e.
    split; [done|]. split; [done|]. split; [by left|]. by apply Hhit.
  - intros Hr. destruct (Hask Hr) as (H1 & H2 & e' & H3 & <- & H4). split; [done|]. split; [done|].
    exists e'. split; [done|]. split; [done|]. split; [by right|]. by apply Hhit.
  - intros Hr. destruct (Hask Hr) as (H1 & H2 & e' & H3 & <- & H4). split; [done|]. split; [done|].
    exists e'. split; [done|]. split; [done|]. split; [by right|]. by apply Hhit.
Qed.

(** ** Generations of the core *)

Inductive core_event :=
| CoreBegin (outcome : option error)
| CoreEnd (client : nat) (err : option error)
| CoreClose.

Definition core_step (c : reconnectable) (e : core_event) : reconnectable :=
  match e with
  | CoreBegin outcome => (do_begin c outcome).1
  | CoreEnd client err => do_end c client err
  | CoreClose => core_Close c
  end.

(** Generations before any wrap-around of the 64-bit sequence: [n] events so far. *)
Record core_ok (n : Z) (c : reconnectable) : Prop := {
  ck_sequence : 0 ≤ rc_sequence c ≤ n;
  ck_ids : (rc_connected c).*1 = seq 0 (rc_next c);
  ck_past : Forall (λ x, x.2 ≤ rc_sequence c) (rc_connected c);
  ck_increasing : ∀ i x y, rc_connected c !! i = Some x → rc_connected c !! S i = Some y → x.2 < y.2;
  ck_current : ∀ id, rc_client c = Some id → (id, rc_sequence c) ∈ rc_connected c }.

Lemma do_begin_ok n c outcome :
  n < 2 ^ 64 - 1 → core_ok n c → core_ok (n + 1) (do_begin c outcome).1 ∧
  match (do_begin c outcome).2 with
  | inr (id, sequence) => (id, sequence) ∈ rc_connected (do_begin c outcome).1 ∧ rc_closed c = false ∧
                          rc_client (do_begin c outcome).1 = Some id
  | inl _ => True
  end.
Proof.
  intros Hn Hok. destruct (Hok) as [H1 H2 H3 H4 H5]. unfold do_begin.
  assert (Hsame : core_ok (n + 1) c) by (split; try done; lia).
  destruct (rc_closed c) eqn:Hc; [done|]. destruct (rc_client c) as [id|] eqn:Hcl; [split; [done|]; simpl; split; [by apply H5|done]|].
  unfold reconnectLocked. rewrite Hcl.
  assert (Hu : u64 (rc_sequence c + 1) = rc_sequence c + 1) by (unfold u64; rewrite Z.mod_small; lia).
  rewrite Hu. destruct outcome as [e|]; simpl.
  - split; [|done]. split; simpl; [lia|done| |done|by rewrite Hcl].
    eapply list.Forall_impl; [exact H3|]. simpl. intros. lia.
  - split; [|split; [apply elem_of_app; right; by apply list_elem_of_singleton|done]].
    split; simpl.
    + lia.
    + rewrite fmap_app, H2. change (seq 0 (rc_next c) ++ [rc_next c] = seq 0 (S (rc_next c))). by rewrite seq_S.
    + apply Forall_app. split; [|by repeat constructor]. eapply list.Forall_impl; [exact H3|]. simpl. intros. lia.
    + intros i x y Hx Hy. destruct (decide (S i < length (rc_connected c))%nat) as [Hi|Hi].
      * rewrite lookup_app_l in Hx, Hy by lia. by apply (H4 i).
      * rewrite lookup_app_r in Hy by lia. apply list_lookup_singleton_Some in Hy as [Hy <-].
        rewrite lookup_app_l in Hx by lia. rewrite list.Forall_lookup in H3. apply H3 in Hx. simpl. lia.
    + intros id [= <-]. apply elem_of_app. right. by apply list_elem_of_singleton.
Qed.

Lemma core_step_ok n c e : n < 2 ^ 64 - 1 → core_ok n c → core_ok (n + 1) (core_step c e).
Proof.
  intros Hn Hok. destruct e as [outcome|client err|]; simpl; [by apply do_begin_ok| |].
  - destruct Hok as [H1 H2 H3 H4 H5].
    unfold do_end. destruct err as [e|]; [|split; try done; lia].
    destruct (_ && _); split; simpl; try done; lia.
  - destruct Hok as [H1 H2 H3 H4 H5]. split; simpl; try done; lia.
Qed.

(** Late failures cannot disturb a newer connection: for fewer than 2^64 events
    in any interleaving, generations strictly increase from one connection to the
    next, an operation runs on the client of exactly the generation it reports,
    the failure of a client that has been replaced changes nothing, and after
    [Close] no operation gets a client. *)
Theorem core_generations (events : list core_event) :
  Z.of_nat (length events) < 2 ^ 64 - 1 →
  let c := foldl core_step newReconnectableCore events in
  (∀ i x y, rc_connected c !! i = Some x → rc_connected c !! S i = Some y → x.2 < y.2) ∧
  NoDup (rc_connected c).*1 ∧
  (∀ outcome id sequence, (do_begin c outcome).2 = inr (id, sequence) →
     (id, sequence) ∈ rc_connected (do_begin c outcome).1 ∧ rc_client (do_begin c outcome).1 = Some id) ∧
  (∀ client err, rc_client c ≠ Some client → do_end c client err = c) ∧
  (rc_closed c = true → ∀ outcome, do_begin c outcome = (c, inl (rc_sequence c, EHyClosed))).
Proof.
  intros Hlen c.
  assert (Hok : core_ok (Z.of_nat (length events)) c).
  { unfold c. clear c. induction events as [|e events IH] using rev_ind.
    - split; simpl; try done.
    - rewrite foldl_app, length_app. simpl. rewrite length_app in Hlen. simpl in Hlen.
      replace (Z.of_nat (length events + 1)) with (Z.of_nat (length events) + 1) by lia.
      apply core_step_ok; [lia|]. apply IH. lia. }
  split; [apply Hok|]. split; [rewrite (ck_ids _ _ Hok); apply NoDup_seq|]. split; [|split].
  - intros outcome id sequence E. destruct (do_begin_ok _ c outcome Hlen Hok) as [_ Hd].
    rewrite E in Hd. tauto.
  - intros client err Hne. unfold do_end. destruct err; [|done].
    by rewrite (bool_decide_false (rc_client c = Some client)), andb_false_r.
  - intros Hcl outcome. unfold do_begin. by rewrite Hcl.
Qed.

(** ** Witnesses *)

Lemma pinned_certificate_only_witness :
  ∃ verify, pinVerifier (hex_EncodeToString (Sum256 (str "abc"))) = Some verify ∧
            verify [str "abc"] = None ∧ verify [str "abd"] ≠ None.
Proof.
  destruct (pinned_certificate_only (hex_EncodeToString (Sum256 (str "abc")))) as (verify & H1 & H2).
  - vm_compute. discriminate.
  - exists verify. split; [exact H1|]. split.
    + apply H2. exists (str "abc"), []. split; [reflexivity|]. vm_compute. reflexivity.
    + intros H. apply H2 in H as (c & r & E & Hx). injection E as <- <-. vm_compute in Hx. discriminate.
Defined.

Lemma bootstrap_lookup_cached_witness :
  let exchange := λ _, Ok (Some (mkMsg 0 0 [] [OtherRR 7; ARecord 1 [1; 2; 3; 4]] 0)) in
  let r := LookupIPv4 (λ h, mkMsg 0 0 [mkQuestion h 1 1] [] 0) exchange ∅ (str "hy2.example.com") 0 0 in
  LookupIPv4 (λ h, mkMsg 0 0 [mkQuestion h 1 1] [] 0) (λ _, Err EEOF) r.1 (str "HY2.example.com.") Minute Minute
    = (r.1, Ok (Addr4 1 2 3 4)).
Proof.
  intros exchange r.
  destruct (bootstrap_lookup_cached (λ h, mkMsg 0 0 [mkQuestion h 1 1] [] 0) exchange ∅
    (str "hy2.example.com") 0 0 (Addr4 1 2 3 4)) as (_ & _ & e & H1 & _ & _ & H2).
  - apply map_Forall_empty.
  - vm_compute. reflexivity.
  - apply H2; [vm_compute; reflexivity|]. vm_compute in H1. injection H1 as <-. vm_compute. reflexivity.
Defined.

Lemma core_generations_witness :
  let c := foldl core_step newReconnectableCore
             [CoreBegin None; CoreEnd 0 (Some EHyClosed); CoreBegin None] in
  do_end c 0 (Some EHyClosed) = c.
Proof.
  intros c. destruct (core_generations [CoreBegin None; CoreEnd 0 (Some EHyClosed); CoreBegin None])
    as (_ & _ & _ & H & _); [vm_compute; reflexivity|]. apply H. vm_compute. discriminate.
Defined.
