(* ===== verification/Hy2Status.v ===== *)
(** * The status of the HY2 transport: [cmd/hy2route-core/hy2_status.go]

    Events carry the generation of the connection they come from; the tracker
    keeps the newest state, redacts and bounds error texts, and limits how often
    it logs.  [format] stands for the RFC 3339 text of a time. *)

From S2P Require Import Prelude GoStrings.

Record hy2StatusSnapshot := mkStatus {
  hs_state : bytes; hs_connected : bool; hs_lastSuccess : bytes; hs_lastError : bytes;
  hs_lastErrorReason : bytes; hs_lastErrorStage : bytes }.

(** [st_logging] is whether [logf] is set; [st_lastLog] is [None] for the zero time;
    [st_logs] are the lines logged. *)
Record hy2StatusTracker := mkTracker {
  st_snapshot : hy2StatusSnapshot; st_sequence : Z; st_secrets : list bytes; st_logging : bool;
  st_lastLog : option time; st_logs : list (time * bytes * bytes) }.

Definition newHY2StatusTracker (secrets : list bytes) : hy2StatusTracker :=
  mkTracker (mkStatus (str "idle") false [] [] [] []) 0 secrets true None [].

(** A [transport.Event] of the HY2 client. *)
Record hyEvent := mkHyEvent { he_stage : bytes; he_reason : bytes; he_sequence : Z }.

Definition redact (secrets : list bytes) (reason : bytes) : bytes :=
  foldl (λ reason secret, if bool_decide (secret = []) then reason
                          else ReplaceAll reason secret (str "[redacted]")) reason secrets.

(** The text kept of an error: redacted, with single spaces, at most 1024 runes. *)
Definition status_reason (secrets : list bytes) (reason : bytes) : bytes :=
  let reason := Join (Fields (redact secrets reason)) [32] in
  if (1024 <? length (runes reason))%nat
  then mjoin (encode_rune <$> take 1024 (runes reason)) ++ str "..."
  else reason.

(** Whether a failure is logged: the first, and then at most once a minute. *)
Definition log_due (t : hy2StatusTracker) (now : time) : bool :=
  st_logging t &&
  (negb (bool_decide (hs_state (st_snapshot t) = str "degraded"))
   || match st_lastLog t with None => true | Some last => Minute <=? now - last end).

Definition Emit (format : time → bytes) (t : hy2StatusTracker) (event : hyEvent) (now : time)
  : hy2StatusTracker :=
  let s := st_snapshot t in
  if bool_decide (he_stage event = str "hy2.connected") then
    if he_sequence event <? st_sequence t then t
    else mkTracker (mkStatus (str "connected") true (format now) (hs_lastError s)
                      (hs_lastErrorReason s) (hs_lastErrorStage s))
           (he_sequence event) (st_secrets t) (st_logging t) (st_lastLog t) (st_logs t)
  else if bool_decide (he_stage event = str "hy2.tcp") || bool_decide (he_stage event = str "hy2.udp") then
    if he_sequence event <? st_sequence t then t
    else
      let reason := status_reason (st_secrets t) (he_reason event) in
      let due := log_due t now in
      mkTracker (mkStatus (str "degraded") false (hs_lastSuccess s) (format now) reason (he_stage event))
        (he_sequence event) (st_secrets t) (st_logging t)
        (if due then Some now else st_lastLog t)
        (if due then st_logs t ++ [(now, he_stage event, reason)] else st_logs t)
  else t.

(** ** Stale events *)

Definition status_run (format : time → bytes) (t : hy2StatusTracker) (events : list (hyEvent * time)) : hy2StatusTracker :=
  foldl (λ t e, Emit format t e.1 e.2) t events.

Definition is_hy2_stage (stage : bytes) : bool :=
  bool_decide (stage = str "hy2.connected") || bool_decide (stage = str "hy2.tcp")
  || bool_decide (stage = str "hy2.udp").

Lemma Emit_sequence format t e now :
  st_sequence t ≤ st_sequence (Emit format t e now) ∧
  (is_hy2_stage (he_stage e) = true → he_sequence e ≤ st_sequence (Emit format t e now)).
Proof.
  unfold Emit, is_hy2_stage.
  destruct (bool_decide (he_stage e = str "hy2.connected")) eqn:E1;
    [destruct (_ <? _) eqn:E; bools; simpl; split; intros; lia|].
  destruct (bool_decide (he_stage e = str "hy2.tcp")), (bool_decide (he_stage e = str "hy2.udp"));
    cbn [orb]; try (split; [lia|done]);
    destruct (he_sequence e <? st_sequence t) eqn:E; bools; simpl; split; intros; lia.
Qed.

Lemma status_run_sequence format t events :
  st_sequence t ≤ st_sequence (status_run format t events).
Proof.
  revert t. induction events as [|[e now] events IH]; intros t; [done|]. simpl.
  etransitivity; [apply (Emit_sequence format t e now)|]. apply IH.
Qed.

(** The status follows the newest connection: an event of an older generation
    than one already seen changes nothing, whatever happened in between; the
    latest event of the newest generation decides the state, and the connected
    flag says exactly whether the state is "connected". *)
Theorem status_follows_newest_generation (format : time → bytes) (secrets : list bytes)
    (events more : list (hyEvent * time)) (newer old : hyEvent) (now later : time) :
  is_hy2_stage (he_stage newer) = true → he_sequence old < he_sequence newer →
  let t := status_run format (newHY2StatusTracker secrets) events in
  let t' := status_run format (Emit format t newer now) more in
  Emit format t' old later = t' ∧
  (st_sequence t ≤ he_sequence newer →
   hs_state (st_snapshot (Emit format t newer now)) =
     (if bool_decide (he_stage newer = str "hy2.connected") then str "connected" else str "degraded")) ∧
  (hs_connected (st_snapshot t') = true ↔ hs_state (st_snapshot t') = str "connected").
Proof.
  intros Hst Hlt t t'. split; [|split].
  - assert (He : he_sequence old < st_sequence t').
    { eapply Z.lt_le_trans; [exact Hlt|].
      etransitivity; [by apply (Emit_sequence format t newer now)|apply status_run_sequence]. }
    unfold Emit. rewrite (proj2 (Z.ltb_lt _ _) He).
    by repeat match goal with |- (if ?b then _ else _) = _ => destruct b end.
  - intros Hle. unfold Emit. rewrite (proj2 (Z.ltb_ge _ _) Hle). unfold is_hy2_stage in Hst.
    destruct (bool_decide (he_stage newer = str "hy2.connected")); [done|]. simpl in Hst. by rewrite Hst.
  - assert (Hinv : ∀ events t, (hs_connected (st_snapshot t) = true ↔ hs_state (st_snapshot t) = str "connected") →
      (hs_connected (st_snapshot (status_run format t events)) = true ↔
       hs_state (st_snapshot (status_run format t events)) = str "connected")).
    { clear. induction events as [|[e now] events IH]; intros t H; [done|]. simpl. apply IH.
      unfold Emit. destruct (bool_decide _); [by destruct (_ <? _)|].
      destruct (_ || _); [|done]. destruct (_ <? _); [done|]. by split. }
    unfold t'. apply (Hinv ((newer, now) :: more)). unfold t. apply Hinv. by split.
Qed.

(** ** Error texts *)

Lemma runes_take_bounded secrets reason :
  (length (status_reason secrets reason) ≤ 4 * 1024 + 3)%nat ∨
  (length (runes (status_reason secrets reason)) ≤ 1024)%nat.
Proof.
  unfold status_reason. destruct (_ <? _)%nat eqn:E.
  - left. rewrite length_app.
    assert (H : ∀ l, (length (mjoin (encode_rune <$> l)) ≤ 4 * length l)%nat).
    { induction l as [|r l IH]; [done|]. rewrite fmap_cons, mjoin_cons, length_app.
      assert (length (encode_rune r) ≤ 4)%nat by (unfold encode_rune; repeat case_match; simpl; lia).
      simpl. lia. }
    specialize (H (take 1024 (runes (Join (Fields (redact secrets reason)) [32])))).
    rewrite length_take in H. change (length (str "...")) with 3%nat. lia.
  - right. bools. lia.
Qed.

(** Joining words after the redaction can bring a secret back: a secret with a
    space, reported with two, is kept. *)
Example redaction_undone :
  status_reason [str "my pass"] (str "auth  my  pass  refused") = str "auth my pass refused".
Proof. vm_compute. reflexivity. Qed.

(** ** Logging *)

(** While the state stays degraded, failures are logged at most once a minute. *)
Lemma degraded_logs_rate_limited format t event now last :
  hs_state (st_snapshot t) = str "degraded" → st_lastLog t = Some last → now - last < Minute →
  st_logs (Emit format t event now) = st_logs t ∧ st_lastLog (Emit format t event now) = Some last.
Proof.
  intros Hs Hl Hn. unfold Emit, log_due. rewrite Hs, Hl, (bool_decide_true (str "degraded" = _)) by done.
  rewrite (proj2 (Z.leb_gt _ _)) by lia. simpl. rewrite andb_false_r.
  destruct (bool_decide _); [by destruct (_ <? _)|]. destruct (_ || _); [|done]. by destruct (_ <? _).
Qed.

Lemma status_follows_newest_generation_witness :
  let f := λ now : Z, Itoa now in
  let t := Emit f (newHY2StatusTracker []) (mkHyEvent (str "hy2.connected") [] 2) 5 in
  Emit f t (mkHyEvent (str "hy2.tcp") (str "timeout") 1) 6 = t ∧ hs_connected (st_snapshot t) = true.
Proof.
  intros f t.
  destruct (status_follows_newest_generation f [] [] [] (mkHyEvent (str "hy2.connected") [] 2)
    (mkHyEvent (str "hy2.tcp") (str "timeout") 1) 5 6) as (H1 & H2 & H3); [reflexivity|simpl; lia|].
  split; [exact H1|]. apply H3. apply H2. simpl. lia.
Defined.
