(* ===== verification/Hy2Client.v ===== *)
(** * The HY2 client: [internal/transport/hy2/client.go] ([Dial], [OpenPacket]),
    [internal/transport/hy2/reconnect.go] ([TCP], [UDP])

    Operations of many callers on one reconnecting core, with the semaphore that
    bounds them, callers that give up, and the events the status tracker sees.
    A call runs in steps, cut where another goroutine may run: a slot is taken,
    the core hands out a client ([do_begin]), the operation of the client ends
    ([do_end]) and its result waits in the channel, the caller takes the result or
    gives up, the failure is reported.  [error_text] is [err.Error()]. *)

From S2P Require Import Prelude GoStrings GoNet Domains IPv4Tree Sha256 GoCodec Config.
From S2P Require Import AddrText DnsMsg Hy2 Hy2Status.

Definition isTransportFailure (e : error) : bool :=
  negb (errors_Is (λ e, match e with EHyDial _ => true | _ => false end) e).

(** [Dial] and [OpenPacket] differ in the core operation and the stage of their
    failures. *)
Inductive hyOperation := OpTCP | OpUDP.

Definition failure_stage (op : hyOperation) : bytes :=
  match op with OpTCP => str "hy2.tcp" | OpUDP => str "hy2.udp" end.

(** Where the goroutine of a call is: before [clientDo], in the operation of a
    client, or done with its result in the channel. *)
Inductive hyPhase :=
| HyStarted
| HyRunning (client : nat) (sequence : Z)
| HyDone (sequence : Z) (err : option error).

(** A call that holds a slot; [fl_abandoned] once its caller has given up. *)
Record flight := mkFlight { fl_op : hyOperation; fl_phase : hyPhase; fl_abandoned : bool }.

(** [Client] with its core: the slots in use by call, the connections the core
    opened (named by the call), those returned to callers and those closed because
    the caller had gone, the errors callers got, the failures about to be reported
    and the events reported, in order. *)
Record hyClient := mkHy {
  hc_core : reconnectable; hc_capacity : nat; hc_next : nat; hc_flights : gmap nat flight;
  hc_opened : list nat; hc_returned : list nat; hc_dropped : list nat;
  hc_failed : list (nat * error); hc_reports : list hyEvent; hc_emitted : list hyEvent }.

Definition New_hyClient (maxConcurrentDials : Z) : hyClient :=
  mkHy newReconnectableCore
    (if maxConcurrentDials <? 1 then 32%nat else Z.to_nat maxConcurrentDials) 0 ∅ [] [] [] [] [] [].

Inductive hyStep :=
| HyAcquire (op : hyOperation)                (* the select takes a slot *)
| HyBegin (id : nat) (outcome : option error) (* the core hands out a client *)
| HyEnd (id : nat) (err : option error)       (* the operation of the client ends *)
| HyTake (id : nat)                           (* the caller receives the result *)
| HyCancel (id : nat) (err : error)           (* the caller's context ends *)
| HyReap (id : nat)                           (* the result of a caller that has gone *)
| HyReport (i : nat)                          (* a failure reaches the event sink *)
| HyClose.

Definition connected_event (sequence : Z) : hyEvent :=
  mkHyEvent (str "hy2.connected") (str "connected") sequence.

(** What the caller does with a result it receives: the report it owes. *)
Definition failure_report (error_text : error → bytes) (op : hyOperation) (sequence : Z) (e : error)
  : list hyEvent :=
  if isTransportFailure e then [mkHyEvent (failure_stage op) (error_text e) sequence] else [].

Definition hy_acquire (c : hyClient) (op : hyOperation) : hyClient :=
  if (size (hc_flights c) <? hc_capacity c)%nat
  then mkHy (hc_core c) (hc_capacity c) (S (hc_next c))
         (<[hc_next c := mkFlight op HyStarted false]> (hc_flights c))
         (hc_opened c) (hc_returned c) (hc_dropped c) (hc_failed c) (hc_reports c) (hc_emitted c)
  else c.

Definition hy_begin (c : hyClient) (id : nat) (f : flight) (outcome : option error) : hyClient :=
  let '(core, r) := do_begin (hc_core c) outcome in
  let phase := match r with
               | inl (sequence, e) => HyDone sequence (Some e)
               | inr (client, sequence) => HyRunning client sequence
               end in
  mkHy core (hc_capacity c) (hc_next c)
    (<[id := mkFlight (fl_op f) phase (fl_abandoned f)]> (hc_flights c))
    (hc_opened c) (hc_returned c) (hc_dropped c) (hc_failed c) (hc_reports c)
    (hc_emitted c ++
       ((λ x, connected_event x.2) <$> drop (length (rc_connected (hc_core c))) (rc_connected core))).

Definition hy_end (c : hyClient) (id : nat) (f : flight) (client : nat) (sequence : Z)
    (err : option error) : hyClient :=
  mkHy (do_end (hc_core c) client err) (hc_capacity c) (hc_next c)
    (<[id := mkFlight (fl_op f) (HyDone sequence err) (fl_abandoned f)]> (hc_flights c))
    (match err with None => hc_opened c ++ [id] | Some _ => hc_opened c end)
    (hc_returned c) (hc_dropped c) (hc_failed c) (hc_reports c) (hc_emitted c).

Definition hy_take (error_text : error → bytes) (c : hyClient) (id : nat) (f : flight) (sequence : Z)
    (err : option error) : hyClient :=
  match err with
  | None =>
      mkHy (hc_core c) (hc_capacity c) (hc_next c) (delete id (hc_flights c)) (hc_opened c)
        (hc_returned c ++ [id]) (hc_dropped c) (hc_failed c) (hc_reports c) (hc_emitted c)
  | Some e =>
      mkHy (hc_core c) (hc_capacity c) (hc_next c) (delete id (hc_flights c)) (hc_opened c)
        (hc_returned c) (hc_dropped c) (hc_failed c ++ [(id, e)])
        (hc_reports c ++ failure_report error_text (fl_op f) sequence e) (hc_emitted c)
  end.

Definition hy_cancel (c : hyClient) (id : nat) (f : flight) (e : error) : hyClient :=
  mkHy (hc_core c) (hc_capacity c) (hc_next c)
    (<[id := mkFlight (fl_op f) (fl_phase f) true]> (hc_flights c)) (hc_opened c)
    (hc_returned c) (hc_dropped c) (hc_failed c ++ [(id, e)]) (hc_reports c) (hc_emitted c).

Definition hy_reap (c : hyClient) (id : nat) (err : option error) : hyClient :=
  mkHy (hc_core c) (hc_capacity c) (hc_next c) (delete id (hc_flights c)) (hc_opened c)
    (hc_returned c) (match err with None => hc_dropped c ++ [id] | Some _ => hc_dropped c end)
    (hc_failed c) (hc_reports c) (hc_emitted c).

(** One step; a step that is not possible in the state changes nothing. *)
Definition hy_step (error_text : error → bytes) (c : hyClient) (s : hyStep) : hyClient :=
  match s with
  | HyAcquire op => hy_acquire c op
  | HyBegin id outcome =>
      match hc_flights c !! id with
      | Some (mkFlight _ HyStarted _ as f) => hy_begin c id f outcome
      | _ => c
      end
  | HyEnd id err =>
      match hc_flights c !! id with
      | Some (mkFlight _ (HyRunning client sequence) _ as f) => hy_end c id f client sequence err
      | _ => c
      end
  | HyTake id =>
      match hc_flights c !! id with
      | Some (mkFlight _ (HyDone sequence err) false as f) => hy_take error_text c id f sequence err
      | _ => c
      end
  | HyCancel id e =>
      match hc_flights c !! id with
      | Some (mkFlight _ _ false as f) => hy_cancel c id f e
      | _ => c
      end
  | HyReap id =>
      match hc_flights c !! id with
      | Some (mkFlight _ (HyDone _ err) true) => hy_reap c id err
      | _ => c
      end
  | HyReport i =>
      match hc_reports c !! i with
      | Some e => mkHy (hc_core c) (hc_capacity c) (hc_next c) (hc_flights c) (hc_opened c)
                    (hc_returned c) (hc_dropped c) (hc_failed c) (delete i (hc_reports c))
                    (hc_emitted c ++ [e])
      | None => c
      end
  | HyClose => mkHy (core_Close (hc_core c)) (hc_capacity c) (hc_next c) (hc_flights c) (hc_opened c)
                 (hc_returned c) (hc_dropped c) (hc_failed c) (hc_reports c) (hc_emitted c)
  end.

(** ** Slots, connections and answers *)

(** What the logs say of one call: while it holds a slot it has no connection
    returned or dropped, it is answered exactly when its caller has given up, and
    its connection is open exactly when its result says so; afterwards its
    connection, if any, was returned or dropped and not both. *)
Definition call_ok (c : hyClient) (id : nat) : Prop :=
  match hc_flights c !! id with
  | Some f => (id < hc_next c)%nat ∧ (id ∉ hc_returned c) ∧ (id ∉ hc_dropped c) ∧
              (id ∈ (hc_failed c).*1 ↔ fl_abandoned f = true) ∧
              (id ∈ hc_opened c ↔ ∃ sequence, fl_phase f = HyDone sequence None)
  | None => (id ∈ hc_opened c ↔ id ∈ hc_returned c ∨ id ∈ hc_dropped c) ∧
            (id ∈ hc_returned c → (id ∉ hc_dropped c) ∧ (id ∉ (hc_failed c).*1)) ∧
            ((hc_next c ≤ id)%nat → (id ∉ hc_opened c) ∧ (id ∉ (hc_failed c).*1))
  end.

Record calls_ok (c : hyClient) : Prop := {
  co_slots : (size (hc_flights c) ≤ hc_capacity c)%nat;
  co_opened : NoDup (hc_opened c);
  co_returned : NoDup (hc_returned c);
  co_dropped : NoDup (hc_dropped c);
  co_failed : NoDup (hc_failed c).*1;
  co_calls : ∀ id, call_ok c id }.

Lemma NoDup_snoc {A} (l : list A) x : x ∉ l → NoDup l → NoDup (l ++ [x]).
Proof.
  intros Hx Hl. apply list.NoDup_app. split; [done|]. split; [|apply NoDup_singleton].
  intros y Hy ->%list_elem_of_singleton. done.
Qed.

Lemma elem_of_snoc {A} (l : list A) x y : y ∈ l ++ [x] ↔ y ∈ l ∨ y = x.
Proof. by rewrite elem_of_app, list_elem_of_singleton. Qed.

(** A step of another call leaves what the logs say of a call as it is. *)
Lemma call_ok_frame c c' id :
  hc_flights c' !! id = hc_flights c !! id → (hc_next c ≤ hc_next c')%nat →
  (id ∈ hc_opened c' ↔ id ∈ hc_opened c) → (id ∈ hc_returned c' ↔ id ∈ hc_returned c) →
  (id ∈ hc_dropped c' ↔ id ∈ hc_dropped c) → (id ∈ (hc_failed c').*1 ↔ id ∈ (hc_failed c).*1) →
  call_ok c id → call_ok c' id.
Proof.
  intros E Hn Ho Hr Hd Hf H. unfold call_ok in *. rewrite E. destruct (hc_flights c !! id) as [f|].
  - rewrite Ho, Hr, Hd, Hf. destruct H as [H1 H2]. split; [lia|done].
  - rewrite Ho, Hr, Hd, Hf. destruct H as (H1 & H2 & H3). split; [done|]. split; [done|].
    intros. apply H3. lia.
Qed.

Ltac other_call :=
  eapply call_ok_frame; [| | | | | |done]; simpl;
  rewrite ?fmap_app, ?lookup_insert_ne, ?lookup_delete_ne by done; simpl;
  rewrite ?elem_of_snoc; try done; try lia; intuition congruence.

Lemma acquire_calls_ok c op : calls_ok c → calls_ok (hy_acquire c op).
Proof.
  intros Hok. destruct (Hok) as [H1 H2 H3 H4 H5 H6]. unfold hy_acquire.
  destruct (_ <? _)%nat eqn:E; [|done]. apply Nat.ltb_lt in E.
  pose proof (H6 (hc_next c)) as H. unfold call_ok in H.
  destruct (hc_flights c !! hc_next c) eqn:Hn; [lia|]. destruct H as (Ha & Hb & Hc).
  destruct (Hc (le_n _)) as [Hc1 Hc2].
  split; simpl; try done; [rewrite map_size_insert_None by done; lia|].
  intros id. pose proof (H6 id) as H. destruct (decide (id = hc_next c)) as [->|Hne]; [|other_call].
  unfold call_ok. simpl. rewrite lookup_insert_eq. simpl.
  split; [lia|]. split; [tauto|]. split; [tauto|]. split; [by split|]. split; [done|]. by intros [? [=]].
Qed.

(** A step that moves a call to another phase and opens a connection exactly when
    that phase is done without error. *)
Lemma phase_calls_ok c c' id f phase :
  calls_ok c → hc_flights c !! id = Some f → (∀ sequence, fl_phase f ≠ HyDone sequence None) →
  hc_flights c' = <[id := mkFlight (fl_op f) phase (fl_abandoned f)]> (hc_flights c) →
  hc_capacity c' = hc_capacity c → hc_next c' = hc_next c → hc_returned c' = hc_returned c →
  hc_dropped c' = hc_dropped c → hc_failed c' = hc_failed c →
  hc_opened c' = (match phase with HyDone _ None => hc_opened c ++ [id] | _ => hc_opened c end) →
  calls_ok c'.
Proof.
  intros [H1 H2 H3 H4 H5 H6] Hf Hp Ef Ec En Er Ed El Eo.
  pose proof (H6 id) as H. unfold call_ok in H. rewrite Hf in H. destruct H as (Ha & Hb & Hc & Hd & He).
  assert (Hno : id ∉ hc_opened c) by (intros [s Hs]%He; by eapply Hp).
  split.
  - rewrite Ef, Ec. rewrite map_size_insert_Some; eauto.
  - rewrite Eo. destruct phase as [| |? [|]]; try done. by apply NoDup_snoc.
  - by rewrite Er.
  - by rewrite Ed.
  - by rewrite El.
  - intros i. pose proof (H6 i) as H. destruct (decide (i = id)) as [->|Hne].
    + unfold call_ok. rewrite Ef, En, Er, Ed, El, Eo, lookup_insert_eq. simpl.
      repeat (split; [done|]).
      destruct phase as [| |s [|]]; try (split; [done|by intros [? [=]]]).
      rewrite elem_of_snoc. split; [eauto|by right].
    + eapply call_ok_frame; [| | | | | |exact H]; rewrite ?Ef, ?En, ?Er, ?Ed, ?El, ?Eo; try done.
      * by rewrite lookup_insert_ne.
      * destruct phase as [| |s [|]]; try done. rewrite elem_of_snoc. intuition congruence.
Qed.

Lemma size_delete_lt (m : gmap nat flight) id f :
  m !! id = Some f → S (size (delete id m)) = size m.
Proof.
  intros H. rewrite map_size_delete_Some by eauto.
  assert (size m ≠ 0%nat); [|lia]. intros E%map_size_empty_inv. by rewrite E, lookup_empty in H.
Qed.

Lemma take_calls_ok error_text c id f sequence err :
  calls_ok c → hc_flights c !! id = Some f → fl_phase f = HyDone sequence err → fl_abandoned f = false →
  calls_ok (hy_take error_text c id f sequence err).
Proof.
  intros [H1 H2 H3 H4 H5 H6] Hf Hp Hab. pose proof (size_delete_lt _ _ _ Hf) as Hs.
  pose proof (H6 id) as H. unfold call_ok in H. rewrite Hf, Hp, Hab in H. destruct H as (Ha & Hb & Hc & Hd & He).
  assert (Hnf : id ∉ (hc_failed c).*1) by (intros Hi%Hd; done).
  unfold hy_take. destruct err as [e|]; split; simpl; try done; try lia.
  - rewrite fmap_app. by apply NoDup_snoc.
  - intros i. pose proof (H6 i) as H. destruct (decide (i = id)) as [->|Hne]; [|other_call].
    unfold call_ok. simpl. rewrite lookup_delete_eq.
    assert (id ∉ hc_opened c) by (intros [? [=]]%He).
    split; [tauto|]. split; [done|]. intros. lia.
  - by apply NoDup_snoc.
  - intros i. pose proof (H6 i) as H. destruct (decide (i = id)) as [->|Hne]; [|other_call].
    unfold call_ok. simpl. rewrite lookup_delete_eq, elem_of_snoc.
    assert (id ∈ hc_opened c) by (apply He; eauto).
    split; [tauto|]. split; [done|]. intros. lia.
Qed.

Lemma cancel_calls_ok c id f e :
  calls_ok c → hc_flights c !! id = Some f → fl_abandoned f = false → calls_ok (hy_cancel c id f e).
Proof.
  intros [H1 H2 H3 H4 H5 H6] Hf Hab.
  pose proof (H6 id) as H. unfold call_ok in H. rewrite Hf, Hab in H. destruct H as (Ha & Hb & Hc & Hd & He).
  split; simpl; try done.
  - rewrite map_size_insert_Some; eauto.
  - rewrite fmap_app. apply NoDup_snoc; [|done]. by intros Hi%Hd.
  - intros i. pose proof (H6 i) as H. destruct (decide (i = id)) as [->|Hne]; [|other_call].
    unfold call_ok. simpl. rewrite lookup_insert_eq, fmap_app. simpl. rewrite elem_of_snoc.
    repeat (split; [done|]). split; [|done]. split; [done|by right].
Qed.

Lemma reap_calls_ok c id f sequence err :
  calls_ok c → hc_flights c !! id = Some f → fl_phase f = HyDone sequence err → fl_abandoned f = true →
  calls_ok (hy_reap c id err).
Proof.
  intros [H1 H2 H3 H4 H5 H6] Hf Hp Hab. pose proof (size_delete_lt _ _ _ Hf) as Hs.
  pose proof (H6 id) as H. unfold call_ok in H. rewrite Hf, Hp in H. destruct H as (Ha & Hb & Hc & Hd & He).
  split; simpl; try done; try lia; [destruct err; [done|by apply NoDup_snoc]|].
  intros i. pose proof (H6 i) as H. destruct (decide (i = id)) as [->|Hne]; [|destruct err; other_call].
  unfold call_ok. simpl. rewrite lookup_delete_eq. destruct err as [e|].
  - assert (id ∉ hc_opened c) by (intros [? [=]]%He). split; [tauto|]. split; [done|]. intros. lia.
  - assert (id ∈ hc_opened c) by (apply He; eauto). rewrite elem_of_snoc.
    split; [tauto|]. split; [done|]. intros. lia.
Qed.

Lemma hy_step_calls_ok error_text c s : calls_ok c → calls_ok (hy_step error_text c s).
Proof.
  intros Hok. destruct s as [op|id outcome|id err|id|id e|id|i|]; simpl.
  - by apply acquire_calls_ok.
  - destruct (hc_flights c !! id) as [f|] eqn:Hf; [|done]. destruct f as [op [| |] ab]; try done.
    unfold hy_begin. destruct (do_begin _ _) as [core r].
    eapply (phase_calls_ok c _ id); [done|exact Hf|done|reflexivity|done..|].
    by destruct r as [[]|[]].
  - destruct (hc_flights c !! id) as [f|] eqn:Hf; [|done]. destruct f as [op [|cl s|] ab]; try done.
    eapply (phase_calls_ok c _ id); [done|exact Hf|done|reflexivity|done..].
  - destruct (hc_flights c !! id) as [f|] eqn:Hf; [|done]. destruct f as [op [| |s err] [|]]; try done.
    by eapply take_calls_ok.
  - destruct (hc_flights c !! id) as [f|] eqn:Hf; [|done]. destruct f as [op ph [|]]; [done|].
    by eapply cancel_calls_ok.
  - destruct (hc_flights c !! id) as [f|] eqn:Hf; [|done]. destruct f as [op [| |s err] [|]]; try done.
    by eapply reap_calls_ok.
  - destruct (hc_reports c !! i); [|done]. by destruct Hok.
  - by destruct Hok.
Qed.

Lemma New_calls_ok maxConcurrentDials : calls_ok (New_hyClient maxConcurrentDials).
Proof.
  split; simpl; try apply NoDup_nil_2; [rewrite map_size_empty; lia|].
  intros id. unfold call_ok. simpl. rewrite lookup_empty. split; [set_solver|]. split; [set_solver|].
  intros. split; set_solver.
Qed.

(** ** The order of events *)

Definition is_connected (e : hyEvent) : bool := bool_decide (he_stage e = str "hy2.connected").

(** No event carries a generation the core has not reached, failures owed are not
    connections, and a connection is announced after everything older. *)
Record events_ok (n : Z) (c : hyClient) : Prop := {
  eo_core : core_ok n (hc_core c);
  eo_flights : ∀ id f, hc_flights c !! id = Some f →
    match fl_phase f with
    | HyStarted => True
    | HyRunning _ s | HyDone s _ => s ≤ rc_sequence (hc_core c)
    end;
  eo_reports : Forall (λ e, he_sequence e ≤ rc_sequence (hc_core c) ∧ is_connected e = false) (hc_reports c);
  eo_emitted : Forall (λ e, he_sequence e ≤ rc_sequence (hc_core c) ∧
                            (is_connected e = true → 0 ≤ he_sequence e)) (hc_emitted c);
  eo_order : ∀ i j e e', hc_emitted c !! i = Some e → hc_emitted c !! j = Some e' → (i ≤ j)%nat →
    is_connected e' = true → he_sequence e ≤ he_sequence e' }.

Lemma do_begin_shape n c outcome core r :
  n < 2 ^ 64 - 1 → core_ok n c → do_begin c outcome = (core, r) →
  rc_sequence c ≤ rc_sequence core ∧
  match r with inl (s, _) | inr (_, s) => s = rc_sequence core end ∧
  (drop (length (rc_connected c)) (rc_connected core) = [] ∨
   ∃ id, drop (length (rc_connected c)) (rc_connected core) = [(id, rc_sequence core)]).
Proof.
  intros Hn [[H0 H1] _ _ _ _]. unfold do_begin, reconnectLocked.
  assert (Hu : u64 (rc_sequence c + 1) = rc_sequence c + 1) by (unfold u64; rewrite Z.mod_small; lia).
  destruct (rc_closed c); [intros [= <- <-]; rewrite drop_all; split; [lia|]; eauto|].
  destruct (rc_client c) as [id|] eqn:Hc; [intros [= <- <-]; rewrite drop_all; split; [lia|]; eauto|].
  rewrite Hu. destruct outcome as [e|]; intros [= <- <-]; simpl.
  - rewrite drop_all. split; [lia|]. eauto.
  - rewrite drop_app_length. split; [lia|]. eauto.
Qed.

Lemma core_step_mono n c e :
  n < 2 ^ 64 - 1 → core_ok n c → rc_sequence c ≤ rc_sequence (core_step c e).
Proof.
  intros Hn Hok. destruct e as [outcome|client err|]; simpl; [| |done].
  - destruct (do_begin c outcome) as [core r] eqn:E. by destruct (do_begin_shape _ _ _ _ _ Hn Hok E).
  - unfold do_end. destruct err; [|done]. by destruct (_ && _).
Qed.

(** Events appended to the log keep its order when they are failures, or a
    connection newer than everything logged. *)
Lemma order_snoc (l : list hyEvent) x :
  (∀ i j e e', l !! i = Some e → l !! j = Some e' → (i ≤ j)%nat →
     is_connected e' = true → he_sequence e ≤ he_sequence e') →
  (is_connected x = true → Forall (λ e, he_sequence e ≤ he_sequence x) l) →
  ∀ i j e e', (l ++ [x]) !! i = Some e → (l ++ [x]) !! j = Some e' → (i ≤ j)%nat →
     is_connected e' = true → he_sequence e ≤ he_sequence e'.
Proof.
  intros Hl Hx i j e e' Hi Hj Hle Hc.
  apply lookup_app_Some in Hj as [Hj|[Hge Hj]].
  - apply lookup_app_Some in Hi as [Hi|[Hge _]]; [by eapply Hl|]. apply lookup_lt_Some in Hj. lia.
  - apply list_lookup_singleton_Some in Hj as [_ <-].
    apply lookup_app_Some in Hi as [Hi|[_ Hi]].
    + specialize (Hx Hc). rewrite list.Forall_lookup in Hx. by eapply Hx.
    + apply list_lookup_singleton_Some in Hi as [_ <-]. lia.
Qed.

Lemma core_ok_more n c : core_ok n c → core_ok (n + 1) c.
Proof. intros [H1 H2 H3 H4 H5]. split; try done. lia. Qed.

Lemma Forall_older {A} (f : A → Z) (P : A → Prop) l s s' :
  s ≤ s' → Forall (λ x, f x ≤ s ∧ P x) l → Forall (λ x, f x ≤ s' ∧ P x) l.
Proof. intros Hs H. eapply list.Forall_impl; [exact H|]. simpl. intros x [? ?]. split; [lia|done]. Qed.

Lemma flights_older c core :
  rc_sequence (hc_core c) ≤ rc_sequence core →
  (∀ id f, hc_flights c !! id = Some f →
     match fl_phase f with
     | HyStarted => True
     | HyRunning _ s | HyDone s _ => s ≤ rc_sequence (hc_core c)
     end) →
  ∀ id f, hc_flights c !! id = Some f →
     match fl_phase f with HyStarted => True | HyRunning _ s | HyDone s _ => s ≤ rc_sequence core end.
Proof. intros Hs H id f Hf. specialize (H id f Hf). destruct (fl_phase f); [done|lia..]. Qed.

Lemma begin_events_ok n c id f outcome :
  n < 2 ^ 64 - 1 → events_ok n c → events_ok (n + 1) (hy_begin c id f outcome).
Proof.
  intros Hn [H1 H2 H3 H4 H5]. unfold hy_begin.
  destruct (do_begin (hc_core c) outcome) as [core r] eqn:E.
  destruct (do_begin_shape _ _ _ _ _ Hn H1 E) as (Hmono & Hr & Hdrop).
  assert (Hcore : core_ok (n + 1) core).
  { pose proof (do_begin_ok n _ outcome Hn H1) as [Hc _]. by rewrite E in Hc. }
  assert (Hold : Forall (λ e, he_sequence e ≤ rc_sequence core) (hc_emitted c)).
  { eapply list.Forall_impl; [exact H4|]. simpl. intros ? [? _]. lia. }
  split; simpl.
  - done.
  - intros id' f' Hf. destruct (decide (id = id')) as [->|Hne].
    + rewrite lookup_insert_eq in Hf. injection Hf as <-. simpl. destruct r as [[]|[]]; subst; lia.
    + rewrite lookup_insert_ne in Hf by done. by eapply flights_older.
  - by eapply Forall_older.
  - apply Forall_app. split; [by eapply Forall_older|]. destruct Hdrop as [->|[x ->]]; simpl; [constructor|].
    repeat constructor; simpl; [lia|]. intros _. apply (ck_sequence _ _ Hcore).
  - destruct Hdrop as [->|[x ->]]; [by rewrite app_nil_r|]. apply order_snoc; [done|]. intros _. done.
Qed.

Lemma hy_step_events_ok error_text n c s :
  n < 2 ^ 64 - 1 → events_ok n c → events_ok (n + 1) (hy_step error_text c s).
Proof.
  intros Hn Hok. destruct (Hok) as [H1 H2 H3 H4 H5]. pose proof (core_ok_more _ _ H1) as H1'.
  assert (Hsame : events_ok (n + 1) c) by (by split).
  destruct s as [op|id outcome|id err|id|id e|id|i|]; simpl.
  - unfold hy_acquire. destruct (_ <? _)%nat; [|done]. split; simpl; try done.
    intros id f [[<- <-]|[_ Hf]]%lookup_insert_Some; [done|by apply (H2 id)].
  - destruct (hc_flights c !! id) as [[op [| |] ab]|]; try done. by apply begin_events_ok.
  - destruct (hc_flights c !! id) as [[op [|cl s|] ab]|] eqn:Hf; try done.
    pose proof (core_step_mono n _ (CoreEnd cl err) Hn H1) as Hm. simpl in Hm.
    split; simpl; [by apply (core_step_ok n _ (CoreEnd cl err))| | | |done].
    + intros id' f' [[<- <-]|[_ Hf']]%lookup_insert_Some; [|by eapply flights_older].
      simpl. specialize (H2 _ _ Hf). simpl in H2. lia.
    + by eapply Forall_older.
    + by eapply Forall_older.
  - destruct (hc_flights c !! id) as [[op [| |s err] [|]]|] eqn:Hf; try done.
    specialize (H2 _ _ Hf) as Hs. simpl in Hs.
    assert (Hd : ∀ i f, delete id (hc_flights c) !! i = Some f → hc_flights c !! i = Some f)
      by (intros i f [_ ?]%lookup_delete_Some; done).
    unfold hy_take. destruct err as [e|]; split; simpl; try done; try (intros i f Hi; eapply H2; eauto).
    apply Forall_app. split; [done|]. unfold failure_report. destruct (isTransportFailure e); [|constructor].
    repeat constructor; [done|]. by destruct op.
  - destruct (hc_flights c !! id) as [[op ph [|]]|] eqn:Hf; try done. split; simpl; try done.
    intros i f [[<- <-]|[_ Hf']]%lookup_insert_Some; [apply (H2 _ _ Hf)|by eapply H2].
  - destruct (hc_flights c !! id) as [[op [| |s err] [|]]|] eqn:Hf; try done. split; simpl; try done.
    intros i f [_ Hi]%lookup_delete_Some. by eapply H2.
  - destruct (hc_reports c !! i) as [e|] eqn:Hi; [|done].
    assert (He : he_sequence e ≤ rc_sequence (hc_core c) ∧ is_connected e = false)
      by (rewrite list.Forall_lookup in H3; by eapply H3).
    split; simpl; try done.
    + by apply Forall_delete.
    + apply Forall_app. split; [done|]. repeat constructor; [tauto|]. intros. destruct He. congruence.
    + apply order_snoc; [done|]. intros Hc. destruct He as [_ He]. congruence.
  - split; simpl; try done. by apply (core_step_ok n _ CoreClose).
Qed.

(** ** The properties *)

(** A client after some steps. *)
Definition hy_run (error_text : error → bytes) (maxConcurrentDials : Z) (steps : list hyStep) : hyClient :=
  foldl (hy_step error_text) (New_hyClient maxConcurrentDials) steps.

Lemma hy_step_capacity error_text c s : hc_capacity (hy_step error_text c s) = hc_capacity c.
Proof.
  destruct s as [op|id outcome|id err|id|id e|id|i|]; simpl; try done;
    try (destruct (hc_flights c !! id) as [[op [| |? []] []]|]; try done).
  - unfold hy_acquire. by destruct (_ <? _)%nat.
  - unfold hy_begin. by destruct (do_begin _ _).
  - unfold hy_begin. by destruct (do_begin _ _).
  - by destruct (_ !! _).
Qed.

Lemma hy_run_calls_ok error_text maxConcurrentDials steps :
  calls_ok (hy_run error_text maxConcurrentDials steps) ∧
  hc_capacity (hy_run error_text maxConcurrentDials steps) = hc_capacity (New_hyClient maxConcurrentDials).
Proof.
  unfold hy_run. induction steps as [|s steps [IH1 IH2]] using rev_ind; [split; [apply New_calls_ok|done]|].
  rewrite foldl_app. cbn [foldl]. rewrite hy_step_capacity. split; [by apply hy_step_calls_ok|done].
Qed.

Lemma hy_run_events_ok error_text maxConcurrentDials steps :
  Z.of_nat (length steps) < 2 ^ 64 - 1 →
  events_ok (Z.of_nat (length steps)) (hy_run error_text maxConcurrentDials steps).
Proof.
  unfold hy_run. induction steps as [|s steps IH] using rev_ind; intros Hlen.
  - by split.
  - rewrite foldl_app, length_app in *. simpl in *.
    replace (Z.of_nat (length steps + 1)) with (Z.of_nat (length steps) + 1) by lia.
    apply hy_step_events_ok; [lia|]. apply IH. lia.
Qed.

(** C36: no call and no connection of the HY2 client is lost: whatever callers,
    server and cancellations do, at most the configured number of calls hold a
    slot; every connection the core opened was returned to its caller, or closed
    because the caller had gone, or waits as a finished call, and never two of
    these; every caller is answered at most once; and a finished call always gives
    its slot back. *)
Theorem hy2_calls_accounted (error_text : error → bytes) (maxConcurrentDials : Z) (steps : list hyStep) :
  let c := hy_run error_text maxConcurrentDials steps in
  (size (hc_flights c) ≤ if (maxConcurrentDials <? 1)%Z then 32 else Z.to_nat maxConcurrentDials)%nat ∧
  NoDup (hc_returned c ++ hc_dropped c) ∧ NoDup (hc_returned c ++ (hc_failed c).*1) ∧ NoDup (hc_opened c) ∧
  (∀ id, id ∈ hc_opened c ↔ id ∈ hc_returned c ∨ id ∈ hc_dropped c ∨
     ∃ f sequence, hc_flights c !! id = Some f ∧ fl_phase f = HyDone sequence None) ∧
  (∀ id f sequence err, hc_flights c !! id = Some f → fl_phase f = HyDone sequence err →
     let next := if fl_abandoned f then HyReap id else HyTake id in
     S (size (hc_flights (hy_step error_text c next))) = size (hc_flights c)).
Proof.
  intros c. destruct (hy_run_calls_ok error_text maxConcurrentDials steps) as [[H1 H2 H3 H4 H5 H6] Hcap].
  fold c in H1, H2, H3, H4, H5, H6, Hcap. rewrite Hcap in H1.
  split; [exact H1|]. split; [|split; [|split; [done|split]]].
  - apply list.NoDup_app. split; [done|]. split; [|done]. intros id Hr. pose proof (H6 id) as H.
    unfold call_ok in H. destruct (hc_flights c !! id); tauto.
  - apply list.NoDup_app. split; [done|]. split; [|done]. intros id Hr. pose proof (H6 id) as H.
    unfold call_ok in H. destruct (hc_flights c !! id); tauto.
  - intros id. pose proof (H6 id) as H. unfold call_ok in H. destruct (hc_flights c !! id) as [f|].
    + destruct H as (_ & Hr & Hd & _ & ->). split; [intros [s Hs]; eauto 6|].
      intros [?|[?|(f' & s & [= <-] & Hs)]]; [done..|eauto].
    + destruct H as [-> _]. split; [tauto|]. intros [?|[?|(f' & s & [=] & _)]]; tauto.
  - intros id f s err Hf Hp. destruct f as [op ph ab]. simpl in Hp. subst ph. simpl. destruct ab; simpl;
      rewrite Hf; [|unfold hy_take; destruct err]; simpl; by eapply size_delete_lt.
Qed.

(** *** The status tracker behind the client *)

Lemma Emit_stage format t e now :
  st_sequence (Emit format t e now) =
    (if is_hy2_stage (he_stage e) then Z.max (st_sequence t) (he_sequence e) else st_sequence t) ∧
  hs_state (st_snapshot (Emit format t e now)) =
    if is_hy2_stage (he_stage e) && (st_sequence t <=? he_sequence e)
    then (if is_connected e then str "connected" else str "degraded")
    else hs_state (st_snapshot t).
Proof.
  unfold Emit, is_hy2_stage, is_connected. rewrite Z.leb_antisym.
  destruct (bool_decide (he_stage e = str "hy2.connected")); cbn [orb];
    [|destruct (bool_decide (he_stage e = str "hy2.tcp") || bool_decide (he_stage e = str "hy2.udp"))];
    try done; destruct (he_sequence e <? st_sequence t) eqn:E; bools; simpl; (split; [lia|done]).
Qed.

Lemma status_older format secrets events g :
  0 ≤ g → Forall (λ e, he_sequence e.1 ≤ g) events →
  st_sequence (status_run format (newHY2StatusTracker secrets) events) ≤ g.
Proof.
  intros Hg H. induction events as [|[e now] events IH] using rev_ind; [done|].
  apply Forall_app in H as [H1 H2]. apply list.Forall_cons in H2 as [H2 _]. simpl in H2.
  unfold status_run. rewrite foldl_app. cbn [foldl fst snd].
  destruct (Emit_stage format (status_run format (newHY2StatusTracker secrets) events) e now) as [E _].
  unfold status_run in E. rewrite E. specialize (IH H1). unfold status_run in IH.
  destruct (is_hy2_stage _); lia.
Qed.

(** After a connection of generation [g] only failures of it or of a later attempt
    count. *)
Lemma status_after format t events g :
  st_sequence t = g → hs_state (st_snapshot t) = str "connected" →
  Forall (λ e, is_connected e.1 = false) events →
  hs_state (st_snapshot (status_run format t events)) =
    if existsb (λ e, is_hy2_stage (he_stage e.1) && (g <=? he_sequence e.1)) events
    then str "degraded" else str "connected".
Proof.
  intros Hg Hs H. revert t Hg Hs. induction H as [|[e now] events He H IH]; intros t Hg Hs; [done|].
  simpl in He. simpl. destruct (Emit_stage format t e now) as [E1 E2]. rewrite He, Hg in E2. rewrite Hg in E1.
  destruct (is_hy2_stage (he_stage e)) eqn:Est; simpl in *; [|by apply IH; rewrite ?E2].
  destruct (g <=? he_sequence e) eqn:Ele; simpl; [|apply IH; [bools; lia|by rewrite E2]].
  clear -H E2.
  generalize dependent (Emit format t e now). induction H as [|[e' now'] events He H IH]; intros t' E2; [done|].
  simpl. apply IH. destruct (Emit_stage format t' e' now') as [_ ->]. simpl in He. rewrite He.
  by destruct (_ && _).
Qed.

(** C35: the status shown is that of the current connection: for any interleaving
    of calls, reconnections, cancellations and delayed failure reports (fewer than
    2^64 of them), after the newest connection the tracker behind the client says
    "degraded" exactly when a failure of that connection, or of a later attempt to
    connect, has been reported since, and "connected" otherwise; late reports of
    older connections never count. *)
Theorem status_shows_current_connection (error_text : error → bytes) (format : time → bytes)
    (secrets : list bytes) (maxConcurrentDials : Z) (steps : list hyStep)
    (before after : list hyEvent) (g : Z) (times times' : list time) (now : time) :
  Z.of_nat (length steps) < 2 ^ 64 - 1 →
  hc_emitted (hy_run error_text maxConcurrentDials steps) = before ++ connected_event g :: after →
  Forall (λ e, is_connected e = false) after →
  length times = length before → length times' = length after →
  hs_state (st_snapshot (status_run format (newHY2StatusTracker secrets)
    (zip before times ++ (connected_event g, now) :: zip after times'))) =
  if existsb (λ e, is_hy2_stage (he_stage e) && (g <=? he_sequence e)) after
  then str "degraded" else str "connected".
Proof.
  intros Hlen He Hafter Ht Ht'.
  destruct (hy_run_events_ok error_text maxConcurrentDials steps Hlen) as [_ _ _ H4 H5].
  rewrite He in H4, H5.
  assert (Hg : 0 ≤ g).
  { apply Forall_app in H4 as [_ H4]. apply list.Forall_cons in H4 as [[_ H4] _]. by apply H4. }
  assert (Hb : Forall (λ e, he_sequence e ≤ g) before).
  { apply list.Forall_lookup. intros i e Hi. apply (H5 i (length before) e (connected_event g)).
    - by apply lookup_app_l_Some.
    - by rewrite list_lookup_middle.
    - apply lookup_lt_Some in Hi. lia.
    - done. }
  unfold status_run. rewrite foldl_app. cbn [foldl fst snd].
  fold (status_run format (newHY2StatusTracker secrets) (zip before times)).
  set (t := status_run _ _ (zip before times)).
  fold (status_run format (Emit format t (connected_event g) now) (zip after times')).
  assert (Hseq : st_sequence t ≤ g).
  { apply (status_older format secrets); [done|]. apply list.Forall_lookup. intros i [e u] Hi.
    apply lookup_zip_Some in Hi as [Hi _]. simpl. rewrite list.Forall_lookup in Hb. by eapply Hb. }
  destruct (Emit_stage format t (connected_event g) now) as [E1 E2]. simpl in E1.
  rewrite (status_after format (Emit format t (connected_event g) now) (zip after times') g).
  - assert (Hex : ∀ l (ts : list time), length ts = length l →
      existsb (λ e, is_hy2_stage (he_stage e.1) && (g <=? he_sequence e.1)) (zip l ts) =
      existsb (λ e, is_hy2_stage (he_stage e) && (g <=? he_sequence e)) l).
    { induction l as [|e l IH]; intros [|u ts] Hl; try done. simpl. f_equal. apply IH. simpl in Hl. lia. }
    by rewrite Hex.
  - rewrite E1. change (is_hy2_stage (str "hy2.connected")) with true. simpl. lia.
  - rewrite E2. simpl. by rewrite (proj2 (Z.leb_le _ _)).
  - apply list.Forall_lookup. intros i [e u] Hi. apply lookup_zip_Some in Hi as [Hi _].
    rewrite list.Forall_lookup in Hafter. by eapply Hafter.
Qed.

(** ** Witness *)

(** Two calls on the first connection; it breaks, a third call connects again, and
    the report of the second call's failure arrives after that. *)
Definition sample_steps : list hyStep :=
  [HyAcquire OpTCP; HyBegin 0 None; HyAcquire OpUDP; HyBegin 1 None;
   HyEnd 0 (Some EHyClosed); HyTake 0; HyEnd 1 (Some EHyClosed); HyTake 1; HyReport 0;
   HyAcquire OpTCP; HyBegin 2 None; HyReport 0; HyEnd 2 None; HyTake 2].

Lemma status_shows_current_connection_witness :
  hs_state (st_snapshot (status_run (λ _, []) (newHY2StatusTracker [])
    [(connected_event 1, 0); (mkHyEvent (str "hy2.tcp") (str "e") 1, 1);
     (connected_event 2, 2); (mkHyEvent (str "hy2.udp") (str "e") 1, 3)])) = str "connected".
Proof.
  apply (status_shows_current_connection (λ _, str "e") (λ _, []) [] 2 sample_steps
    [connected_event 1; mkHyEvent (str "hy2.tcp") (str "e") 1] [mkHyEvent (str "hy2.udp") (str "e") 1]
    2 [0; 1] [3] 2).
  - vm_compute. reflexivity.
  - vm_compute. reflexivity.
  - repeat constructor.
  - reflexivity.
  - reflexivity.
Defined.
