(* ===== verification/DataTool.v ===== *)
(** * The data compiler: [cmd/hy2route-data/main.go]

    Domain and prefix lists become a sorted, duplicate-free data file, installed
    by renaming a temporary file. *)

From stdpp Require Import sorting.
From S2P Require Import Prelude GoStrings GoNet Domains IPv4Tree Sha256 Dataset GoCodec Config Classifier.

(** ** Reading the sources *)

(** [bufio.Scanner] with its line split: the lines without their ends, or an
    error at the first line that does not fit in the buffer. *)
Definition drop_cr (line : bytes) : bytes := TrimSuffix line [13].

Definition source_lines (s : bytes) : list bytes :=
  match reverse (Split s 10) with
  | [] :: rest => reverse rest
  | _ => Split s 10
  end.

(** The scan loop of [loadDomains] and [loadPrefixes]: [entry] treats one line;
    blank lines and comments are skipped. *)
Fixpoint scan_entries {A} (max : nat) (entry : bytes → result A) (lines : list bytes) : result (list A) :=
  match lines with
  | [] => Ok []
  | line :: lines =>
      if (max <=? length line)%nat then errorf "bufio.Scanner: token too long" else
      let line := TrimSpace (drop_cr line) in
      if bool_decide (line = []) || HasPrefix line (str "#") then scan_entries max entry lines
      else let? a := entry line in
           let? rest := scan_entries max entry lines in
           Ok (a :: rest)
  end.

(** The distinct values in the order of a key ([sort.Slice] on the keys of a map). *)
Definition str_le (s t : bytes) : Prop := str_ltb t s = false.
#[export] Instance str_le_dec s t : base.Decision (str_le s t).
Proof. unfold str_le. apply _. Defined.

Definition key_le {A} (key : A → bytes) (a b : A) : Prop := str_le (key a) (key b).
#[export] Instance key_le_dec {A} (key : A → bytes) a b : base.Decision (key_le key a b).
Proof. unfold key_le. apply _. Defined.

Definition sorted_set {A} `{Countable A} (key : A → bytes) (l : list A) : list A :=
  merge_sort (key_le key) (elements (list_to_set l : gset A)).

Definition domain_entry (line : bytes) : result bytes :=
  match NormalizeDomain line with
  | Ok n => Ok n
  | Err e => Err (EWrap "domain" e)
  end.

Definition loadDomains (open_ : option error) (contents : bytes) : result (list Domain) :=
  match open_ with
  | Some e => Err (EWrap "open domains" e)
  | None =>
      let? names := scan_entries (1024 * 1024) domain_entry (source_lines contents) in
      Ok ((λ n, mkDomain n false) <$> sorted_set id names)
  end.

Definition prefix_entry (line : bytes) : result Prefix :=
  match ParsePrefix line with
  | Some prefix => if negb (Is4 (paddr prefix)) || Is4In6 (paddr prefix)
                   then errorf "IPv4 prefix is invalid" else Ok (Masked prefix)
  | None => errorf "IPv4 prefix is invalid"
  end.

Definition loadPrefixes (open_ : option error) (contents : bytes) : result (list Prefix) :=
  match open_ with
  | Some e => Err (EWrap "open IPv4 prefixes" e)
  | None =>
      let? prefixes := scan_entries (64 * 1024) prefix_entry (source_lines contents) in
      Ok (sorted_set prefix_String prefixes)
  end.

(** ** Installing the output *)

Definition files := gmap bytes bytes.

(** What the operating system answers while the output is written: [we_temp] is
    the temporary file it creates, [we_write] its verdict on each chunk. *)
Record writeEnv := mkWriteEnv {
  we_mkdir : option error; we_temp : result bytes; we_write : bytes → option error;
  we_chmod : option error; we_close : option error; we_rename : option error }.

(** [writeData]: the file systems seen after each step, the last one last, and the
    error. *)
Definition writeData (path : bytes) (data : Data) (fs : files) (env : writeEnv)
  : list files * option error :=
  match we_mkdir env with
  | Some e => ([fs], Some (EWrap "create output directory" e))
  | None =>
      match we_temp env with
      | Err e => ([fs], Some (EWrap "create output" e))
      | Ok temp =>
          let created := <[temp := []]> fs in
          let '(chunks, err) := Write (we_write env) data in
          let written := <[temp := mjoin chunks]> fs in
          let failed (e : error) (msg : string) :=
            ([fs; created; written; delete temp fs], Some (EWrap msg e)) in
          match err with
          | Some e => failed e "write output"
          | None =>
              match we_chmod env with
              | Some e => failed e "set output mode"
              | None =>
                  match we_close env with
                  | Some e => failed e "close output"
                  | None =>
                      match we_rename env with
                      | Some e => failed e "install output"
                      | None =>
                          ([fs; created; written; <[path := mjoin chunks]> (delete temp fs)], None)
                      end
                  end
              end
          end
      end
  end.

(** [run] on its parsed flags. *)
Definition data_run (parse_err : option error) (domainsPath ipv4Path outputPath : bytes)
    (read : bytes → result bytes) (fs : files) (env : writeEnv) : list files * option error :=
  match parse_err with
  | Some e => ([fs], Some e)
  | None =>
      if bool_decide (domainsPath = []) || bool_decide (ipv4Path = []) || bool_decide (outputPath = [])
      then ([fs], Some (EMsg "--domains, --ipv4, and --output are required")) else
      let open_ p := match read p with Err e => Some e | Ok _ => None end in
      let contents p := match read p with Ok c => c | Err _ => [] end in
      match loadDomains (open_ domainsPath) (contents domainsPath) with
      | Err e => ([fs], Some e)
      | Ok domains =>
          match loadPrefixes (open_ ipv4Path) (contents ipv4Path) with
          | Err e => ([fs], Some e)
          | Ok prefixes => writeData outputPath (mkData domains prefixes) fs env
          end
      end
  end.

(** ** The order *)

Lemma str_ltb_irrefl s : str_ltb s s = false.
Proof. induction s as [|a s IH]; simpl; [done|]. rewrite IH. lia. Qed.

Lemma str_ltb_asym s t : str_ltb s t = true → str_ltb t s = false.
Proof.
  revert t. induction s as [|a s IH]; intros [|b t] H; simpl in *; try done.
  apply orb_prop in H as [H|H]; [lia|]. apply andb_prop in H as [Hab H]. apply IH in H. rewrite H. lia.
Qed.

Lemma str_ltb_total s t : str_ltb s t = false → str_ltb t s = false → s = t.
Proof.
  revert t. induction s as [|a s IH]; intros [|b t] H1 H2; simpl in *; try done.
  apply orb_false_elim in H1 as [H1 H1']. apply orb_false_elim in H2 as [H2 H2'].
  assert (a = b) as -> by lia. rewrite Z.eqb_refl in H1', H2'. f_equal. by apply IH.
Qed.

Lemma str_ltb_trans s t u : str_ltb s t = true → str_ltb t u = true → str_ltb s u = true.
Proof.
  revert t u. induction s as [|a s IH]; intros [|b t] [|c u] H1 H2; simpl in *; try done.
  apply orb_prop in H1 as [H1|H1]; apply orb_prop in H2 as [H2|H2]; try lia;
    repeat match goal with H : _ && _ = true |- _ => apply andb_prop in H as [? ?] end; try lia.
  rewrite (IH t u) by done. lia.
Qed.

#[export] Instance key_le_total {A} (key : A → bytes) : Total (key_le key).
Proof.
  intros a b. unfold key_le, str_le. destruct (str_ltb (key b) (key a)) eqn:E; [right|by left].
  by apply str_ltb_asym.
Qed.

#[export] Instance key_le_trans {A} (key : A → bytes) : Transitive (key_le key).
Proof.
  intros a b c. unfold key_le, str_le. intros H1 H2. destruct (str_ltb (key c) (key a)) eqn:E; [|done].
  destruct (str_ltb (key b) (key c)) eqn:E2.
  - by rewrite (str_ltb_trans _ _ _ E2 E) in H1.
  - pose proof (str_ltb_total _ _ H2 E2) as E3. rewrite E3 in E. congruence.
Qed.

Lemma sorted_set_elem {A} `{Countable A} (key : A → bytes) l x : x ∈ sorted_set key l ↔ x ∈ l.
Proof.
  unfold sorted_set. rewrite (merge_sort_Permutation (key_le key)), elem_of_elements. apply elem_of_list_to_set.
Qed.

(** Distinct and in order: the compiled file does not depend on the order or the
    repetitions of its source. *)
Lemma sorted_set_spec {A} `{Countable A} (key : A → bytes) l :
  NoDup (sorted_set key l) ∧ StronglySorted (key_le key) (sorted_set key l).
Proof.
  unfold sorted_set. split.
  - rewrite (merge_sort_Permutation (key_le key)). apply NoDup_elements.
  - apply StronglySorted_merge_sort; apply _.
Qed.

(** ** What the scan yields *)

(** The lines that count. *)
Definition significant (lines : list bytes) : list bytes :=
  filter (λ l, l ≠ [] ∧ HasPrefix l (str "#") = false) ((λ l, TrimSpace (drop_cr l)) <$> lines).

Lemma scan_entries_spec {A} max (entry : bytes → result A) lines out :
  scan_entries max entry lines = Ok out → entry <$> significant lines = Ok <$> out.
Proof.
  revert out. induction lines as [|line lines IH]; intros out H; [by simplify_eq/=|].
  cbn [scan_entries] in H. destruct (_ <=? _)%nat; [done|]. unfold significant. rewrite fmap_cons.
  set (l := TrimSpace (drop_cr line)) in *. destruct (bool_decide (l = []) || _) eqn:E.
  - rewrite filter_cons_False; [by apply IH|]. intros [H1 H2]. by rewrite H2, orb_false_r, bool_decide_eq_true in E.
  - apply orb_false_elim in E as [E1 E2]. bools. rewrite filter_cons_True by done.
    destruct (entry l) as [a|] eqn:Ea; [|done]. destruct (scan_entries max entry lines) as [rest|]; [|done].
    injection H as <-. rewrite !fmap_cons, Ea. f_equal. by apply IH.
Qed.

Lemma scan_entries_elem {A} max (entry : bytes → result A) lines out a :
  scan_entries max entry lines = Ok out →
  a ∈ out ↔ ∃ line, line ∈ significant lines ∧ entry line = Ok a.
Proof.
  intros H%scan_entries_spec. split.
  - intros Ha. assert (Ok a ∈ entry <$> significant lines) as Hl.
    { rewrite H. apply list_elem_of_fmap. eauto. }
    apply list_elem_of_fmap in Hl as (line & ? & ?). eauto.
  - intros (line & Hl & He). assert (Ok a ∈ Ok <$> out) as Ho.
    { rewrite <- H. apply list_elem_of_fmap. eauto. }
    apply list_elem_of_fmap in Ho as (b & [= ->] & ?). done.
Qed.

Lemma Masked_ok p : prefix4_ok p → prefix4_ok (Masked p).
Proof.
  intros [Hb Hp]. unfold Masked, prefix_IsValid. rewrite (proj2 (Z.leb_le 0 (pbits p))) by lia.
  destruct (paddr p) as [|a b c d|]; [done| |done]. destruct Hb as (? & ? & ? & ?). simpl.
  split; [|done]. simpl. repeat split; apply mask_byte_bound; lia.
Qed.

Lemma prefix_entry_ok line p : prefix_entry line = Ok p → prefix4_ok p.
Proof.
  unfold prefix_entry. destruct (ParsePrefix line) as [q|] eqn:E; [|done].
  destruct (_ || _) eqn:E4; [done|]. intros [= <-]. apply Masked_ok. eapply ParsePrefix_ok; [done|].
  by destruct (Is4 (paddr q)).
Qed.

Lemma normalized_validateDomain n : normalized n → validateDomain (mkDomain n false) = Ok ().
Proof.
  intros [Hlen Hl]. unfold validateDomain. cbn [Name].
  rewrite (proj2 (Nat.eqb_neq (length n) 0)), (proj2 (Z.ltb_ge 65535 _)) by lia. cbn [orb].
  rewrite forallb_runes by (unfold name_char, in_range; intros r Hr; lia).
  rewrite (proj2 (forallb_Forall name_char n)); [done|].
  rewrite <- (Join_Split n 46). apply Join_Forall; [|by repeat constructor].
  eapply list.Forall_impl; [exact Hl|]. intros l (_ & _ & _ & Hc).
  eapply list.Forall_impl; [exact Hc|]. unfold dns_char, name_char, in_range. intros c. simpl. lia.
Qed.

Lemma loadDomains_spec contents ds :
  loadDomains None contents = Ok ds →
  Forall (λ d, normalized (Name d) ∧ Exact d = false) ds ∧
  (∀ n, mkDomain n false ∈ ds ↔ ∃ line, line ∈ significant (source_lines contents) ∧ NormalizeDomain line = Ok n) ∧
  NoDup ds ∧ StronglySorted (key_le Name) ds.
Proof.
  unfold loadDomains. destruct (scan_entries _ _ _) as [names|] eqn:E; [|done]. intros [= <-].
  assert (Hn : ∀ n, n ∈ names ↔ ∃ line, line ∈ significant (source_lines contents) ∧ NormalizeDomain line = Ok n).
  { intros n. rewrite (scan_entries_elem _ _ _ _ n E). f_equiv. intros line. unfold domain_entry.
    destruct (NormalizeDomain line); [done|]. by split; intros [? ?]. }
  destruct (sorted_set_spec id names) as [Hnd Hs]. split; [|split; [|split]].
  - apply list.Forall_fmap, list.Forall_forall. intros n Hx. apply sorted_set_elem, Hn in Hx as (line & _ & Hx).
    simpl. by apply NormalizeDomain_Ok in Hx as [_ ?].
  - intros n. rewrite <- Hn, <- (sorted_set_elem id). rewrite list_elem_of_fmap. split.
    + by intros (m & [= ->] & ?).
    + eauto.
  - apply NoDup_fmap_2; [|done]. by intros x y [= ->].
  - clear Hnd. induction Hs as [|n l Hs IH Hf]; simpl; [constructor|]. constructor; [done|].
    by apply list.Forall_fmap.
Qed.

Lemma loadPrefixes_spec contents ps :
  loadPrefixes None contents = Ok ps →
  Forall prefix4_ok ps ∧ NoDup ps ∧ StronglySorted (key_le prefix_String) ps ∧
  ∀ p, p ∈ ps ↔ ∃ line, line ∈ significant (source_lines contents) ∧ prefix_entry line = Ok p.
Proof.
  unfold loadPrefixes. destruct (scan_entries _ _ _) as [qs|] eqn:E; [|done]. intros [= <-].
  destruct (sorted_set_spec prefix_String qs) as [Hnd Hs].
  assert (Hq : ∀ p, p ∈ sorted_set prefix_String qs ↔
    ∃ line, line ∈ significant (source_lines contents) ∧ prefix_entry line = Ok p).
  { intros p. rewrite sorted_set_elem. by apply (scan_entries_elem _ _ _ _ p) in E. }
  split; [|done]. apply list.Forall_forall. intros p Hp. apply Hq in Hp as (line & _ & Hp).
  by eapply prefix_entry_ok.
Qed.

(** A compiled file is written and read back, and its entries are what the
    classifier takes. *)
Lemma compiled_file domains prefixes ds ps :
  loadDomains None domains = Ok ds → loadPrefixes None prefixes = Ok ps → counts_ok (mkData ds ps) →
  Read (Ok (mjoin (Write (λ _, None) (mkData ds ps)).1)) = Some (Ok (mkData ds ps)) ∧
  (Write (λ _, None) (mkData ds ps)).2 = None ∧
  Forall (λ d, is_ok (NormalizeDomain (Name d)) = true) ds ∧ Forall prefix4_ok ps.
Proof.
  intros Hd Hp Hc. apply loadDomains_spec in Hd as (D1 & _). apply loadPrefixes_spec in Hp as (P1 & _).
  assert (Hdok : Forall domain_ok ds).
  { eapply list.Forall_impl; [exact D1|]. intros [n x] [Hn Hx]. simpl in Hn, Hx. subst x.
    by apply normalized_validateDomain. }
  assert (Hw : write_payload (mkData ds ps) = Ok (layout (mkData ds ps))).
  { apply write_payload_spec. split; [done|]. split; [done|]. split; [|done].
    eapply list.Forall_impl; [exact P1|]. intros [a k] [Ha Hk]. unfold prefix_writable, prefix_IsValid.
    simpl in *. destruct a; try done. rewrite (proj2 (Z.leb_le 0 k)) by lia. done. }
  split; [|split; [|split; [|done]]].
  - unfold Write. rewrite Hw. cbn [fst]. rewrite !mjoin_cons.
    rewrite (app_nil_r (Sum256 _)), Read_appended by apply layout_min. by apply read_layout.
  - unfold Write. by rewrite Hw.
  - eapply list.Forall_impl; [exact D1|]. intros d [Hn _]. simpl. by rewrite normalized_fix.
Qed.

(** C37: what the data compiler accepts, the router loads: the compiled lists are
    duplicate-free and sorted by their text, and are exactly the normalised names
    and the masked prefixes of the significant lines; the data file is written without error, read back as
    the same data, and a classifier can be built from it with any validated
    rules. *)
Theorem compiled_data_loads (domains prefixes : bytes) (ds : list Domain) (ps : list Prefix)
    (rules : list RuleConfig) :
  loadDomains None domains = Ok ds → loadPrefixes None prefixes = Ok ps →
  counts_ok (mkData ds ps) → validateRules rules = None →
  NoDup ds ∧ NoDup ps ∧ StronglySorted (key_le Name) ds ∧ StronglySorted (key_le prefix_String) ps ∧
  (∀ n, mkDomain n false ∈ ds ↔
     ∃ line, line ∈ significant (source_lines domains) ∧ NormalizeDomain line = Ok n) ∧
  (∀ p, p ∈ ps ↔ ∃ line, line ∈ significant (source_lines prefixes) ∧ prefix_entry line = Ok p) ∧
  Read (Ok (mjoin (Write (λ _, None) (mkData ds ps)).1)) = Some (Ok (mkData ds ps)) ∧
  (Write (λ _, None) (mkData ds ps)).2 = None ∧
  ∃ cl, New (mkData ds ps) rules = Ok cl.
Proof.
  intros Hd Hp Hc Hr. destruct (compiled_file domains prefixes ds ps Hd Hp Hc) as (H1 & H2 & H3 & H4).
  apply loadDomains_spec in Hd as (D1 & D2 & D3 & D4). apply loadPrefixes_spec in Hp as (P1 & P2 & P4 & P3).
  repeat (split; [done|]). by apply New_total.
Qed.

(** C38: the output file is replaced atomically: in every file system seen while the
    data is written the output path has its old contents or the complete new
    file, and the new file only when no error is reported; on an error every file
    is as before, and no temporary file stays behind either way. *)
Theorem writeData_atomic (path : bytes) (data : Data) (fs : files) (env : writeEnv) :
  (∀ temp, we_temp env = Ok temp → temp ≠ path ∧ fs !! temp = None) →
  let '(seen, err) := writeData path data fs env in
  let file := mjoin (Write (we_write env) data).1 in
  (∀ fs', fs' ∈ seen → fs' !! path = fs !! path ∨ fs' !! path = Some file ∧ err = None) ∧
  (∃ final, list.last seen = Some final ∧ final = match err with Some _ => fs | None => <[path := file]> fs end).
Proof.
  intros Htemp. unfold writeData. destruct (we_mkdir env).
  { split; [|by eauto]. intros fs' ->%list_elem_of_singleton. by left. }
  destruct (we_temp env) as [temp|] eqn:Et.
  2: { split; [|by eauto]. intros fs' ->%list_elem_of_singleton. by left. }
  destruct (Htemp temp eq_refl) as [Hne Hfresh].
  destruct (Write (we_write env) data) as [chunks err]. cbn [fst].
  assert (Hdel : delete temp fs = fs) by (by apply delete_id).
  assert (Hfail : ∀ e : error, (∀ fs', fs' ∈ [fs; <[temp := []]> fs; <[temp := mjoin chunks]> fs; delete temp fs] →
      fs' !! path = fs !! path ∨ fs' !! path = Some (mjoin chunks) ∧ Some e = None) ∧
    ∃ final, list.last [fs; <[temp := []]> fs; <[temp := mjoin chunks]> fs; delete temp fs] = Some final ∧ final = fs).
  { intros e. split; [|by eauto]. intros fs' Hin. left.
    rewrite !elem_of_cons, elem_of_nil in Hin. destruct Hin as [->|[->|[->|[->|[]]]]].
    - done.
    - by apply lookup_insert_ne.
    - by apply lookup_insert_ne.
    - by apply lookup_delete_ne. }
  destruct err as [e|]; [by apply Hfail|]. destruct (we_chmod env) as [e|]; [by apply Hfail|].
  destruct (we_close env) as [e|]; [by apply Hfail|]. destruct (we_rename env) as [e|]; [by apply Hfail|].
  rewrite Hdel. split; [|by eauto]. intros fs' Hin.
  rewrite !elem_of_cons, elem_of_nil in Hin. destruct Hin as [->|[->|[->|[->|[]]]]].
  - by left.
  - left. by apply lookup_insert_ne.
  - left. by apply lookup_insert_ne.
  - right. split; [apply lookup_insert_eq|done].
Qed.

(** ** Witnesses *)

Definition sample_lists : bytes :=
  str "# china" ++ [10] ++ str "Example.CN" ++ [13; 10] ++ [10] ++ str "a.cn" ++ [10] ++ str "example.cn.".

Lemma compiled_data_loads_witness :
  ∃ ds ps cl, loadDomains None sample_lists = Ok ds ∧ loadPrefixes None (str "10.1.2.3/8") = Ok ps ∧
    Name <$> ds = [str "a.cn"; str "example.cn"] ∧ ps = [mkPrefix (Addr4 10 0 0 0) 8] ∧
    New (mkData ds ps) [] = Ok cl.
Proof.
  destruct (compiled_data_loads sample_lists (str "10.1.2.3/8")
    [mkDomain (str "a.cn") false; mkDomain (str "example.cn") false] [mkPrefix (Addr4 10 0 0 0) 8] [])
    as (_ & _ & _ & _ & _ & _ & _ & _ & cl & H).
  - vm_compute. reflexivity.
  - vm_compute. reflexivity.
  - split; vm_compute; reflexivity.
  - reflexivity.
  - exists [mkDomain (str "a.cn") false; mkDomain (str "example.cn") false], [mkPrefix (Addr4 10 0 0 0) 8], cl.
    split; [vm_compute; reflexivity|]. split; [vm_compute; reflexivity|].
    split; [reflexivity|]. split; [reflexivity|]. exact H.
Defined.

Lemma writeData_atomic_witness :
  let env := mkWriteEnv None (Ok (str ".tmp")) (λ _, None) None None (Some EEOF) in
  list.last (writeData (str "out") sample_data {[str "out" := [1]]} env).1 = Some {[str "out" := [1]]}.
Proof.
  intros env. pose proof (writeData_atomic (str "out") sample_data {[str "out" := [1]]} env) as H.
  destruct (writeData _ _ _ _) as [seen err] eqn:E. destruct H as [_ (final & H1 & H2)].
  - intros temp [= <-]. split; [discriminate|vm_compute; reflexivity].
  - vm_compute in E. injection E as _ <-. simpl. rewrite H1, H2. reflexivity.
Defined.
