(* ===== verification/Application.v ===== *)
(** * The application: [cmd/hy2route-core/application.go]

    How the configured dialers are stacked for proxied TCP, proxied UDP and
    trusted DNS, what the stack can reach for a target, how the servers are
    started and stopped, and the status snapshot. *)

From S2P Require Import Prelude GoStrings GoNet Domains IPv4Tree Sha256 Dataset GoCodec.
From S2P Require Import Config Classifier GoHeap Lru Learning Failover SessionTable SniffParse.
From S2P Require Import SniffPeek AddrText Tcp Udp GoConn Socks5 HttpConnect SocksUdp.
From S2P Require Import FailOpen RelayFallback Hy2Status Control.

(** ** The stacks of dialers *)

(** The dialers at the bottom carry the socket marks they were built with: one for
    the Reality client, a variadic argument for the others.  A fail-open dialer
    carries its probe interval. *)
Inductive stream_path :=
| SHy2 (marks : list Z)
| SReality (mark : Z)
| SDirect (marks : list Z)
| SRelay (primary backup : stream_path)
| SFailOpen (proxy direct : stream_path) (probe : duration)
| SLanding (l : landing) (base : stream_path).

Inductive packet_path :=
| PHy2 (marks : list Z)
| PReality (mark : Z)
| PDirect (marks : list Z)
| PBlock
| PRelay (primary backup : packet_path)
| PFailOpen (proxy direct : packet_path)
| PSocks (d : socks5Dialer) (max_payload : Z) (control : stream_path) (packets : packet_path).

(** The DNS exchangers: queries to a server over the network, over a stream with
    its deadline, and one exchanger with another to fall back to. *)
Inductive dns_path :=
| DNetwork (server : bytes) (marks : list Z)
| DStream (path : stream_path) (server : bytes) (timeout : duration)
| DFallback (primary fallback : dns_path).

Record appTCP := mkAppTCP {
  at_server : TCPServer; at_direct : stream_path; at_proxy : stream_path; at_maxActive : Z }.
Record appUDP := mkAppUDP {
  au_server : UDPServer; au_listen : bytes; au_direct : packet_path; au_proxy : packet_path;
  au_sessions : sessionTable }.

(** The DNS server and the arguments of its resolver. *)
Record appDNS := mkAppDNS {
  ad_listen : bytes; ad_classifier : Classifier; ad_domestic : dns_path; ad_trusted : dns_path;
  ad_cacheEntries : Z; ad_timeout : duration }.

Record application := mkApp {
  app_dns : appDNS; app_tcp : option appTCP; app_udp : option appUDP;
  app_controlPath : bytes; app_controller : Controller; app_hy2Status : hy2StatusTracker;
  app_learned : LearningTable; app_tcpRelay : option RelayFallback;
  app_udpRelay : option packetRelay; app_udpViaLanding : bool; app_dnsOnly : bool }.

Definition app_trusted (app : application) : dns_path := ad_trusted (app_dns app).

Definition dataplaneSniff (cfg : Config) : Limits :=
  mkLim (lim_sniff_bytes (cfg_limits cfg)) (lim_sniff_timeout (cfg_limits cfg)).

(** The exchanger, the clients and the dialers [newApplication] makes, each with its
    mark. *)
Definition bypassMark (cfg : Config) : Z := fw_bypass_mark (cfg_firewall cfg).
Definition app_domestic (cfg : Config) : dns_path := DNetwork (cfg_domestic_dns cfg) [bypassMark cfg].
Definition app_hy2Client (cfg : Config) : list Z := [bypassMark cfg].
Definition app_realityClient (cfg : Config) : Z := bypassMark cfg.
Definition app_direct (cfg : Config) : stream_path := SDirect [bypassMark cfg].
Definition app_directPacket (cfg : Config) : packet_path := PDirect [bypassMark cfg].

(** The relays below everything, and what the fail-open option wraps around them. *)
Definition trusted_route (cfg : Config) : stream_path :=
  let hy2 := SHy2 (app_hy2Client cfg) in
  let route := if relay_enabled (cfg_relay cfg) then SRelay (SReality (app_realityClient cfg)) hy2 else hy2 in
  if cfg_fail_open cfg then SFailOpen route (app_direct cfg) (health_probe_interval (cfg_health cfg)) else route.

Definition udp_route (cfg : Config) : packet_path :=
  let hy2 := PHy2 (app_hy2Client cfg) in
  let route := if relay_enabled (cfg_relay cfg) then PRelay hy2 (PReality (app_realityClient cfg)) else hy2 in
  if cfg_fail_open cfg then PFailOpen route (app_directPacket cfg) else route.

(** The trusted exchanger: over the relays, with the domestic one to fall back to
    when failing open. *)
Definition app_trustedDNS (cfg : Config) : dns_path :=
  let trusted := DStream (trusted_route cfg) (cfg_trusted_dns cfg) (5 * Second) in
  if cfg_fail_open cfg then DFallback trusted (app_domestic cfg) else trusted.

(** The proxied UDP path and whether it is reported as going via the landing. *)
Definition udp_proxy (cfg : Config) : result (packet_path * bool) :=
  let? (path, via) :=
    if landing_udp (cfg_landing cfg) then
      let? (d, max) := NewPacket (cfg_landing cfg) in
      Ok (PSocks d max (trusted_route cfg) (udp_route cfg),
          bool_decide (cfg_udp_policy cfg = str "proxy"))
    else Ok (udp_route cfg, false) in
  let path := if bool_decide (cfg_udp_policy cfg = str "direct") then app_directPacket cfg else path in
  let path := if bool_decide (cfg_udp_policy cfg = str "block") then PBlock else path in
  Ok (path, via).

(** [newApplication]; [load] is the routing data, [reality] the outcome of building
    the Reality client.  The second part says whether the HY2 client was closed. *)
Definition newApplication (cfg : Config) (dnsOnly : bool) (load : result Data) (reality : option error)
  : result application * bool :=
  match load with
  | Err e => (Err (EWrap "load routing data" e), false)
  | Ok data =>
      match New data (cfg_rules cfg) with
      | Err e => (Err (EWrap "build classifier" e), false)
      | Ok classifier =>
          let limits := cfg_limits cfg in
          let learner := NewLearningTable (lim_learned_ip limits) in
          let tracker := newHY2StatusTracker
            [hy2_auth (cfg_hy2 cfg); landing_username (cfg_landing cfg); landing_password (cfg_landing cfg)] in
          let status := mkTracker (st_snapshot tracker) (st_sequence tracker) (st_secrets tracker)
            (negb (bool_decide (cfg_log_level cfg = str "none"))) (st_lastLog tracker) (st_logs tracker) in
          let health := cfg_health cfg in
          let controller := NewController
            (mkFailoverConfig (health_failures health) (health_successes health) (health_cooldown health)) in
          match (if relay_enabled (cfg_relay cfg) then reality else None) with
          | Some e => (Err (EWrap "build Reality transport" e), true)
          | None =>
              let tcpRelay := if relay_enabled (cfg_relay cfg)
                then Some (NewRelayFallback (str "reality") (str "hy2") (health_cooldown health)) else None in
              let udpRelay := if relay_enabled (cfg_relay cfg)
                then Some (NewPacketRelayFallback (health_cooldown health)) else None in
              let dns := mkAppDNS (listen_dns (cfg_listen cfg)) classifier (app_domestic cfg)
                (app_trustedDNS cfg) (lim_dns_cache limits) (3 * Second) in
              let app := mkApp dns None None (cfg_control_socket cfg)
                controller status learner tcpRelay udpRelay false dnsOnly in
              if dnsOnly then (Ok app, false) else
              match New_landing (cfg_landing cfg) with
              | Err e => (Err (EWrap "build landing transport" e), false)
              | Ok l =>
                  match udp_proxy cfg with
                  | Err e => (Err e, false)
                  | Ok (udpProxy, via) =>
                      let tcp := mkAppTCP
                        (mkTCPServer (listen_tcp (cfg_listen cfg)) (Some classifier) true true
                           (dataplaneSniff cfg) (cfg_tcp_domain_dial cfg))
                        (app_direct cfg) (match l with LandDirect => trusted_route cfg
                                 | _ => SLanding l (trusted_route cfg) end)
                        (lim_tcp_sessions limits) in
                      let udp := mkAppUDP (mkUDPServer (Some classifier) true true)
                        (listen_udp (cfg_listen cfg)) (app_directPacket cfg) udpProxy
                        (newSessionTable (lim_udp_sessions limits) (lim_udp_idle limits)) in
                      (Ok (mkApp dns (Some tcp) (Some udp)
                             (cfg_control_socket cfg) controller status learner tcpRelay udpRelay via
                             dnsOnly), false)
                  end
              end
          end
      end
  end.

(** ** What a stack dials *)

(** The ways out of the router. *)
Inductive exit := ExitHy2 | ExitReality | ExitDirect.

#[export] Instance exit_eq_dec : EqDecision exit.
Proof. solve_decision. Defined.

(** The connections a stack may make for a target: where out, and to what
    address. *)
Fixpoint stream_exits (p : stream_path) (target : bytes) : list (exit * bytes) :=
  match p with
  | SHy2 _ => [(ExitHy2, target)]
  | SReality _ => [(ExitReality, target)]
  | SDirect _ => [(ExitDirect, target)]
  | SRelay a b | SFailOpen a b _ => stream_exits a target ++ stream_exits b target
  | SLanding LandDirect base => stream_exits base target
  | SLanding (LandHTTP d) base => stream_exits base (hd_server d)
  | SLanding (LandSOCKS5 d) base => stream_exits base (s5_server d)
  end.

(** The same for datagrams; over SOCKS5 they go to the [relay] of the
    association. *)
Fixpoint packet_exits (p : packet_path) (relay target : bytes) : list (exit * bytes) :=
  match p with
  | PHy2 _ => [(ExitHy2, target)]
  | PReality _ => [(ExitReality, target)]
  | PDirect _ => [(ExitDirect, target)]
  | PBlock => []
  | PRelay a b | PFailOpen a b => packet_exits a relay target ++ packet_exits b relay target
  | PSocks d _ control packets => stream_exits control (s5_server d) ++ packet_exits packets relay relay
  end.

Fixpoint dns_exits (p : dns_path) : list (exit * bytes) :=
  match p with
  | DNetwork server _ => [(ExitDirect, server)]
  | DStream path server _ => stream_exits path server
  | DFallback primary fallback => dns_exits primary ++ dns_exits fallback
  end.

(** ** One dial through a stack *)

(** The state of each dialer of a stack, and what it reads or meets while it dials:
    clocks, the end of the context, how bytes arrive. *)
Inductive path_state :=
| StLeaf
| StRelay (rf : RelayFallback) (now failed : time) (ctx : option error) (primary backup : path_state)
| StFailOpen (fo : failOpen) (mode probe_mode probe record : time) (proxy direct : path_state)
| StLanding (fills : list nat) (deadline_err : option error) (base : path_state).

Definition err_of {A} (r : result A) : option error := match r with Ok _ => None | Err e => Some e end.

(** The address a landing asks its base for. *)
Definition landing_address (l : landing) (target : bytes) : bytes :=
  match l with LandDirect => target | LandHTTP d => hd_server d | LandSOCKS5 d => s5_server d end.

(** [Dial] of a stack, by the dialers' own operations; [net] is what the ways out
    answer.  The result is every attempt on the network, in order, a recovery probe
    it starts included, and the connection. *)
Fixpoint path_dial (net : exit → bytes → result conn) (p : stream_path) (st : path_state) (target : bytes)
  : list (exit * bytes) * result conn :=
  match p, st with
  | SHy2 _, _ => ([(ExitHy2, target)], net ExitHy2 target)
  | SReality _, _ => ([(ExitReality, target)], net ExitReality target)
  | SDirect _, _ => ([(ExitDirect, target)], net ExitDirect target)
  | SRelay a b, StRelay rf now failed ctx sa sb =>
      let '(ta, ra) := path_dial net a sa target in
      let '(tb, rb) := path_dial net b sb target in
      let '(_, tried, out) := relay_Dial rf (mkRelayEnv now failed (err_of ra) (err_of rb) ctx) in
      (mjoin ((λ side, match side with Primary => ta | Backup => tb end) <$> tried),
       match out with Ok Primary => ra | Ok Backup => rb | Err e => Err e end)
  | SFailOpen a b _, StFailOpen fo mode probe_mode probe record sa sb =>
      let '(ta, ra) := path_dial net a sa target in
      let '(tb, rb) := path_dial net b sb target in
      let '(fo', out) := failOpen_Dial fo target
        (mkDialEnv mode probe_mode probe record (err_of ra) (err_of rb)) in
      (if bool_decide ((controller_Mode (fo_controller fo) mode).2 = ModeProxy)
       then ta ++ match ra with Ok _ => [] | Err _ => tb end
       else tb ++ if (length (fo_probes fo) <? length (fo_probes fo'))%nat then ta else [],
       match out with Ok ViaProxy => ra | Ok ViaDirect => rb | Err e => Err e end)
  | SLanding l base, StLanding fills deadline_err sb =>
      let '(r, out) := landing_Dial fills (λ a, (path_dial net base sb a).2) l deadline_err target in
      ((path_dial net base sb (landing_address l target)).1,
       match r, out with
       | Some r, Ok _ => Ok (br_conn r)
       | None, Ok _ => errorf "no connection"
       | _, Err e => Err e
       end)
  | _, _ => ([], errorf "not the state of this stack")
  end.

(** ** Running *)

(** What ends one wait for a listener: it is ready, a server has returned, or the
    context has ended. *)
Inductive waited := WReady | WServer (err : option error) | WContext (err : error).

(** What [Run] did: its result, whether the control socket was opened, whether it
    was closed again, and whether the HY2 client was closed. *)
Record runOutcome := mkRun {
  run_err : option error; run_control : bool; run_control_closed : bool; run_hy2_closed : bool }.

Fixpoint wait_ready (waits : list waited) : option (option error) :=
  match waits with
  | [] => None
  | WReady :: waits => wait_ready waits
  | WServer err :: _ => Some err
  | WContext err :: _ => Some (Some err)
  end.

(** The first error of the servers after the start. *)
Fixpoint first_error (errs : list (option error)) : option error :=
  match errs with
  | [] => None
  | Some e :: _ => Some e
  | None :: errs => first_error errs
  end.

Definition app_Run (app : application) (dns : option error) (waits : list waited)
    (listen : option error) (errs : list (option error)) : runOutcome :=
  if app_dnsOnly app then mkRun dns false false true else
  match wait_ready (take 3 waits) with
  | Some err => mkRun err false false true
  | None =>
      match listen with
      | Some e => mkRun (Some (EWrap "start control socket" e)) false false true
      | None => mkRun (first_error errs) true true true
      end
  end.

(** [heartbeat]: the number of refreshes, from the outcome of each refresh and
    whether the context has ended after it. *)
Fixpoint heartbeat (ticks : list (option error * bool)) : nat :=
  match ticks with
  | [] => 0
  | (Some _, _) :: _ => 1
  | (None, true) :: _ => 1
  | (None, false) :: ticks => S (heartbeat ticks)
  end.

(** ** Status *)

(** [processRSSBytes] on the contents of /proc/self/status. *)
Fixpoint rss_of_lines (lines : list bytes) : Z :=
  match lines with
  | [] => 0
  | line :: lines =>
      if negb (HasPrefix line (str "VmRSS:")) then rss_of_lines lines else
      match Fields line with
      | _ :: value :: _ => match ParseUint value 64 with
                           | Some kilobytes => u64 (kilobytes * 1024)
                           | None => 0
                           end
      | _ => 0
      end
  end.

Definition processRSSBytes (status : result bytes) : Z :=
  match status with Err _ => 0 | Ok raw => rss_of_lines (Split raw 10) end.

(** [snapshot]: the clock is read by the controller and by the learning table. *)
Definition app_snapshot (app : application) (status : result bytes) (mode_now learned_now : time)
  : application * ControlSnapshot :=
  let '(controller, m) := controller_Mode (app_controller app) mode_now in
  let mode := match m with
              | ModeProxy => str "proxy"
              | DirectCooldown => str "fail-open"
              | DirectRecovery => str "recovery"
              end in
  let hy2 := st_snapshot (app_hy2Status app) in
  let '(learned, decisions) := Snapshot (app_learned app) learned_now in
  let tcp := match app_tcpRelay app with Some r => rf_active r | None => str "hy2" end in
  let udp := match app_udpRelay app with Some r => pr_active r | None => str "hy2" end in
  (mkApp (app_dns app) (app_tcp app) (app_udp app) (app_controlPath app)
     controller (app_hy2Status app) learned (app_tcpRelay app) (app_udpRelay app)
     (app_udpViaLanding app) (app_dnsOnly app),
   mkSnapshot (app_udpViaLanding app) tcp udp mode (hs_connected hy2) (hs_state hy2)
     (hs_lastSuccess hy2) (hs_lastError hy2) (hs_lastErrorReason hy2) (hs_lastErrorStage hy2)
     0 (Z.of_nat (size decisions)) 0 0 (processRSSBytes status)).

Example rss_sample :
  processRSSBytes (Ok (str "Name:	core" ++ [10] ++ str "VmRSS:	    1234 kB" ++ [10])) = 1263616.
Proof. vm_compute. reflexivity. Qed.

(** ** A validated configuration starts *)

Lemma validateLanding_kind services cfg :
  validateLanding services cfg = None →
  (landing_udp (cfg_landing cfg) = true → landing_type (cfg_landing cfg) = str "socks5") ∧
  is_ok (New_landing (cfg_landing cfg)) = true.
Proof.
  unfold validateLanding, New_landing. destruct (_ && _) eqn:E1; [done|]. destruct (_ || _); [done|].
  intros H. split.
  - intros Hu. rewrite Hu in E1. simpl in E1. by bools.
  - destruct (bool_decide (landing_type _ = str "direct")) eqn:Ed; [done|].
    destruct (one_of _ _) eqn:E2; [|done]. unfold one_of in E2. cbn [existsb] in E2. rewrite orb_false_r in E2.
    apply orb_prop in E2 as [E2|E2]; rewrite E2; [done|]. by repeat case_match.
Qed.

Lemma udp_proxy_total services cfg : validateLanding services cfg = None → ∃ path via, udp_proxy cfg = Ok (path, via).
Proof.
  intros H. apply validateLanding_kind in H as [H _]. unfold udp_proxy, NewPacket.
  destruct (landing_udp (cfg_landing cfg)); [|eauto]. rewrite bool_decide_true by auto. simpl. eauto.
Qed.

(** The application built from parts that were all accepted. *)
Lemma newApplication_inv cfg dnsOnly load reality app closed :
  newApplication cfg dnsOnly load reality = (Ok app, closed) →
  ∃ data cl, load = Ok data ∧ New data (cfg_rules cfg) = Ok cl ∧ closed = false ∧
    app_learned app = NewLearningTable (lim_learned_ip (cfg_limits cfg)) ∧
    app_dns app = mkAppDNS (listen_dns (cfg_listen cfg)) cl (app_domestic cfg) (app_trustedDNS cfg)
                    (lim_dns_cache (cfg_limits cfg)) (3 * Second) ∧
    (dnsOnly = false → ∃ l path via, New_landing (cfg_landing cfg) = Ok l ∧ udp_proxy cfg = Ok (path, via) ∧
       app_tcp app = Some (mkAppTCP
         (mkTCPServer (listen_tcp (cfg_listen cfg)) (Some cl) true true (dataplaneSniff cfg) (cfg_tcp_domain_dial cfg))
         (app_direct cfg) (match l with LandDirect => trusted_route cfg | _ => SLanding l (trusted_route cfg) end)
         (lim_tcp_sessions (cfg_limits cfg))) ∧
       app_udp app = Some (mkAppUDP (mkUDPServer (Some cl) true true) (listen_udp (cfg_listen cfg)) (app_directPacket cfg) path
         (newSessionTable (lim_udp_sessions (cfg_limits cfg)) (lim_udp_idle (cfg_limits cfg))))).
Proof.
  unfold newApplication. destruct load as [data|]; [|done].
  destruct (New data (cfg_rules cfg)) as [cl|] eqn:Hn; [|done].
  destruct (if relay_enabled _ then _ else _); [done|]. destruct dnsOnly.
  - intros [= <- <-]. exists data, cl. by repeat split.
  - destruct (New_landing _) as [l|] eqn:Hl; [|done]. destruct (udp_proxy cfg) as [[path via]|] eqn:Hu; [|done].
    intros [= <- <-]. exists data, cl. repeat (split; [done|]). intros _. exists l, path, via. done.
Qed.

(** A configuration that passed validation starts: with routing data as the
    data file holds it (canonical names, IPv4 prefixes) and, where a Reality relay
    is enabled, a Reality client that can be built, the application is assembled
    without error, with both data planes unless only DNS is served. *)
Theorem validated_config_starts (services : bytes → bytes → option Z) (order : list listenName)
    (cfg : Config) (dnsOnly : bool) (data : Data) (reality : option error) :
  config_ok services order cfg →
  Forall (λ d, is_ok (NormalizeDomain (Name d)) = true) (Domains data) →
  Forall prefix4_ok (Prefixes data) →
  (relay_enabled (cfg_relay cfg) = true → reality = None) →
  ∃ app, newApplication cfg dnsOnly (Ok data) reality = (Ok app, false) ∧
         (is_Some (app_tcp app) ↔ dnsOnly = false) ∧ (is_Some (app_udp app) ↔ dnsOnly = false).
Proof.
  intros Hok Hd Hp Hr. destruct (New_total data (cfg_rules cfg) (ok_rules _ _ _ Hok) Hd Hp) as [cl Hcl].
  destruct (validateLanding_kind services cfg (ok_landing _ _ _ Hok)) as [_ Hl].
  destruct (udp_proxy_total services cfg (ok_landing _ _ _ Hok)) as (path & via & Hu).
  unfold newApplication. rewrite Hcl.
  assert (E : (if relay_enabled (cfg_relay cfg) then reality else None) = None)
    by (destruct (relay_enabled _); auto).
  rewrite E. destruct dnsOnly.
  - eexists. split; [done|]. simpl. split; split; try done; by intros [? ?].
  - destruct (New_landing _) as [l|]; [|done]. rewrite Hu. eexists. split; [done|]. simpl. split; split; eauto.
Qed.

(** ** No unconfigured way out *)

Lemma trusted_route_exits cfg target x a :
  (x, a) ∈ stream_exits (trusted_route cfg) target →
  a = target ∧ (x = ExitDirect → cfg_fail_open cfg = true).
Proof.
  unfold trusted_route. destruct (relay_enabled _), (cfg_fail_open cfg); simpl;
    rewrite ?elem_of_app, ?elem_of_cons, ?elem_of_nil; naive_solver.
Qed.

Lemma udp_route_exits cfg relay target x a :
  (x, a) ∈ packet_exits (udp_route cfg) relay target →
  a = target ∧ (x = ExitDirect → cfg_fail_open cfg = true).
Proof.
  unfold udp_route. destruct (relay_enabled _), (cfg_fail_open cfg); simpl;
    rewrite ?elem_of_app, ?elem_of_cons, ?elem_of_nil; naive_solver.
Qed.

Lemma landing_exits cfg l target x a :
  New_landing (cfg_landing cfg) = Ok l →
  (x, a) ∈ stream_exits (match l with LandDirect => trusted_route cfg | _ => SLanding l (trusted_route cfg) end) target →
  a = (if bool_decide (landing_type (cfg_landing cfg) = str "direct") then target
       else landing_server (cfg_landing cfg)) ∧ (x = ExitDirect → cfg_fail_open cfg = true).
Proof.
  unfold New_landing. destruct (bool_decide (landing_type _ = str "direct")); [intros [= <-]; apply trusted_route_exits|].
  destruct (bool_decide (landing_type _ = str "http")); [intros [= <-]; apply trusted_route_exits|].
  destruct (bool_decide (landing_type _ = str "socks5")); [intros [= <-]; apply trusted_route_exits|done].
Qed.

Lemma udp_proxy_exits cfg path via relay target x a :
  udp_proxy cfg = Ok (path, via) → (x, a) ∈ packet_exits path relay target →
  cfg_udp_policy cfg ≠ str "block" ∧
  if bool_decide (cfg_udp_policy cfg = str "direct") then x = ExitDirect ∧ a = target
  else (x = ExitDirect → cfg_fail_open cfg = true) ∧
       if landing_udp (cfg_landing cfg) then a = landing_server (cfg_landing cfg) ∨ a = relay else a = target.
Proof.
  unfold udp_proxy. intros H Hx.
  destruct (landing_udp (cfg_landing cfg)) eqn:Hu.
  - unfold NewPacket in H. destruct (negb _); [done|]. injection H as <- <-.
    case_bool_decide as Hb; [by apply not_elem_of_nil in Hx|]. split; [done|].
    case_bool_decide as Hd; [by apply list_elem_of_singleton in Hx as [= -> ->]|].
    simpl in Hx. apply elem_of_app in Hx as [Hx|Hx].
    + apply trusted_route_exits in Hx as [-> ?]. split; [done|]. by left.
    + apply udp_route_exits in Hx as [-> ?]. split; [done|]. by right.
  - injection H as <- <-.
    case_bool_decide as Hb; [by apply not_elem_of_nil in Hx|]. split; [done|].
    case_bool_decide as Hd; [by apply list_elem_of_singleton in Hx as [= -> ->]|].
    by apply udp_route_exits in Hx as [-> ?].
Qed.

(** C4: traffic has no way out that was not configured.  Of an application that was
    assembled: proxied TCP reaches a landing's server, never its target, whenever a
    landing is configured, even when failing open; proxied UDP is blocked, direct,
    or sent through the relays and the landing exactly as the policy says; and
    without the fail-open option neither proxied TCP, nor proxied UDP under the
    policy "proxy", nor trusted DNS can leave directly. *)
Theorem no_unconfigured_exit (cfg : Config) (load : result Data) (reality : option error)
    (app : application) (tcp : appTCP) (udp : appUDP) (target relay : bytes) (x : exit) (a : bytes) :
  newApplication cfg false load reality = (Ok app, false) →
  app_tcp app = Some tcp → app_udp app = Some udp →
  ((x, a) ∈ stream_exits (at_proxy tcp) target →
     (x = ExitDirect → cfg_fail_open cfg = true) ∧
     a = if bool_decide (landing_type (cfg_landing cfg) = str "direct") then target
         else landing_server (cfg_landing cfg)) ∧
  ((x, a) ∈ packet_exits (au_proxy udp) relay target →
     cfg_udp_policy cfg ≠ str "block" ∧
     if bool_decide (cfg_udp_policy cfg = str "direct") then x = ExitDirect ∧ a = target
     else (x = ExitDirect → cfg_fail_open cfg = true) ∧
          if landing_udp (cfg_landing cfg) then a = landing_server (cfg_landing cfg) ∨ a = relay
          else a = target) ∧
  ((x, a) ∈ dns_exits (app_trusted app) → x = ExitDirect → cfg_fail_open cfg = true).
Proof.
  intros Happ Ht Hu. apply newApplication_inv in Happ as (data & cl & _ & _ & _ & _ & Htr & Hrest).
  destruct (Hrest eq_refl) as (l & path & via & Hl & Hp & Htcp & Hudp).
  rewrite Htcp in Ht. rewrite Hudp in Hu. injection Ht as <-. injection Hu as <-. cbn [at_proxy au_proxy].
  split; [intros Hx; by apply (landing_exits cfg l) in Hx as [-> ?]|].
  split; [by apply udp_proxy_exits with (via := via)|].
  unfold app_trusted. rewrite Htr. cbn [ad_trusted]. unfold app_trustedDNS.
  destruct (cfg_fail_open cfg) eqn:Hf; [done|]. simpl. intros Hx Hd.
  apply trusted_route_exits in Hx as [_ Hx]. rewrite Hf in Hx. by apply Hx.
Qed.

(** A landing asks its base for one address only. *)
Lemma landing_Dial_base fills base base' l de target :
  base (landing_address l target) = base' (landing_address l target) →
  landing_Dial fills base l de target = landing_Dial fills base' l de target.
Proof.
  destruct l; simpl; intros E; [by rewrite E| |].
  - unfold http_Dial. by rewrite E.
  - unfold socks5_Dial. by rewrite E.
Qed.

(** What a stack dials is what [stream_exits] lists, in every state of its dialers. *)
Lemma path_dial_exits net p st target x a :
  (x, a) ∈ (path_dial net p st target).1 → (x, a) ∈ stream_exits p target.
Proof.
  revert st target. induction p as [m|m|m|p1 IH1 p2 IH2|p1 IH1 p2 IH2 probe|l p IH]; intros st target;
    try (destruct st; done).
  - destruct st; try by (intros H%not_elem_of_nil). simpl. specialize (IH1 st1 target). specialize (IH2 st2 target).
    destruct (path_dial net p1 st1 target) as [ta ra], (path_dial net p2 st2 target) as [tb rb].
    destruct (relay_Dial _ _) as [[rf' tried] out]. simpl in *. rewrite elem_of_app, list_elem_of_join.
    intros (l & Hin & (side & -> & _)%list_elem_of_fmap). destruct side; auto.
  - destruct st; try by (intros H%not_elem_of_nil). simpl. specialize (IH1 st1 target). specialize (IH2 st2 target).
    destruct (path_dial net p1 st1 target) as [ta ra], (path_dial net p2 st2 target) as [tb rb].
    destruct (failOpen_Dial _ _ _) as [fo' out]. simpl in *. rewrite elem_of_app.
    case_bool_decide; rewrite elem_of_app; (intros [H'|H']; [auto|]);
      [destruct ra|destruct (_ <? _)%nat]; solve [by apply not_elem_of_nil in H'|auto].
  - destruct st; try by (intros H%not_elem_of_nil). simpl.
    destruct (landing_Dial _ _ _ _ _) as [r out]. simpl. intros H%IH. by destruct l.
Qed.


(** ** End to end *)

(** A connection that leaves directly is dialled at its original target. *)
Lemma direct_dials_original data rules cl observations now domainDial target ip result :
  New data rules = Ok cl → route_spec data rules observations now ip (r_domain result) RouteDirect →
  dialTarget cl domainDial target ip result = target.
Proof.
  intros Hnew Hr. unfold dialTarget. destruct (_ || _) eqn:E; [done|]. unfold route_spec in Hr.
  destruct (bool_decide (r_domain result = [])) eqn:Ed; [by rewrite !orb_true_r in E|].
  rewrite <- (classify_Domain_spec data rules cl (r_domain result) Hnew) in Hr.
  destruct (bool_decide (dec_action (classify_Domain cl (r_domain result)) = Direct)) eqn:Ea; [|done].
  apply bool_decide_eq_true in Ea. rewrite Ea, (bool_decide_false (Direct = Proxy)), orb_true_r by done. done.
Qed.

(** C3: in an assembled application every accepted connection with a known
    destination is handled without a panic, at any time of its life (whatever has
    been learned), and the relay replays all the client sent.  It takes the way of
    the documented order (explicit rules for the name or the address, proxy before
    direct; then the name the client shows; then what DNS has taught about the
    address; then the China prefixes; then the proxy), wherever the explicit rules
    do not contradict each other: without a visible name, no direct prefix is
    longer than every proxy prefix that covers the address too; with one, the
    explicit rules for the address say what is decided for the name, or the name
    has an explicit proxy rule.  A direct connection leaves directly to its own
    target, and a proxied one leaves directly only when failing open is configured. *)
Theorem application_routes_connections (services : bytes → bytes → option Z) (order : list listenName)
    (cfg : Config) (data : Data) (reality : option error) (app : application) (tcp : appTCP)
    (learned : LearningTable) (socket : result bytes) (local : option bytes) (target : bytes) (ip : Addr)
    (inbound : list bytes) (dial : route → bytes → option error) (copies : copyResult * copyResult)
    (now : time) :
  config_ok services order cfg → Forall prefix4_ok (Prefixes data) → learning_ok learned →
  newApplication cfg false (Ok data) reality = (Ok app, false) → app_tcp app = Some tcp →
  originalTarget socket local (tcp_listen (at_server tcp)) = Ok (target, ip) →
  ∃ learned' way to reader result st,
    handle (at_server tcp) (Some learned) socket local (λ _, None) None inbound dial copies now =
      Some (Some learned', match dial way to with
                           | Some e => DialFailed way to e
                           | None => Relayed way to (Some reader) (relayFrom copies.1 copies.2)
                           end) ∧
    learning_ok learned' ∧ stream reader = mjoin inbound ∧
    parse (take (Z.to_nat (lim_sniff_bytes (cfg_limits cfg))) (mjoin inbound)) = Some (result, st) ∧
    (rules_agree data (cfg_rules cfg) ip (r_domain result) →
     documented_way data (cfg_rules cfg) (lt_entries learned) now ip (r_domain result) way) ∧
    ∀ x a, (x, a) ∈ stream_exits (match way with RouteDirect => at_direct tcp | RouteProxy => at_proxy tcp end) to →
      match way with
      | RouteDirect => (x, a) = (ExitDirect, target)
      | RouteProxy => x = ExitDirect → cfg_fail_open cfg = true
      end.
Proof.
  intros Hok Hpre Hlt Happ Htcp Ho.
  pose proof Happ as Hinv. apply newApplication_inv in Hinv as (d & cl & [= <-] & Hnew & _ & _ & _ & Hrest).
  destruct (Hrest eq_refl) as (l & path & via & Hl & Hp & Ht & Hu). rewrite Ht in Htcp. injection Htcp as <-.
  cbn [at_server at_direct at_proxy] in *.
  destruct (ok_limits _ _ _ Hok) as (_ & _ & _ & _ & _ & Hst & Hsb).
  destruct (handle_spec
    (mkTCPServer (listen_tcp (cfg_listen cfg)) (Some cl) true true (dataplaneSniff cfg) (cfg_tcp_domain_dial cfg))
    learned data (cfg_rules cfg) cl socket local target ip inbound
    dial copies now) as (table & way & reader & result & st & H1 & H2 & H3 & H4 & H5); try done.
  - simpl. lia.
  - simpl. unfold Millisecond in Hst. lia.
  - exists table, way, (dialTarget cl (cfg_tcp_domain_dial cfg) target ip result), reader, result, st.
    split; [exact H1|]. split; [exact H5|]. split; [exact H4|]. split; [exact H2|].
    split; [intros Ha; by eapply route_spec_documented|].
    intros x a Hx. destruct way; [|by apply (landing_exits cfg l) in Hx as [_ ?]].
    rewrite (direct_dials_original _ _ _ _ _ _ _ _ _ Hnew H3) in Hx.
    by apply list_elem_of_singleton in Hx as [= -> ->].
Qed.

(** ** Running *)

(** The control socket is opened only after all three listeners are ready, and it
    is always closed again, like the HY2 client. *)
Lemma app_Run_control app dns waits listen errs :
  let out := app_Run app dns waits listen errs in
  run_hy2_closed out = true ∧ run_control_closed out = run_control out ∧
  (run_control out = true → app_dnsOnly app = false ∧ listen = None ∧ Forall (λ w, w = WReady) (take 3 waits)).
Proof.
  unfold app_Run. destruct (app_dnsOnly app); [done|].
  destruct (wait_ready (take 3 waits)) as [err|] eqn:E; [done|]. destruct listen; [done|]. simpl.
  split; [done|]. split; [done|]. intros _. split; [done|]. split; [done|].
  revert E. generalize (take 3 waits). clear. induction l as [|[|err|err] ws IH]; intros E; try done.
  constructor; [done|]. by apply IH.
Qed.

(** ** Witnesses *)

Definition sample_validated : Config := (Validate (λ _ _, None) [LUDP; LDNS; LTCP] sample_config).1.

Lemma sample_validated_ok : config_ok (λ _ _, None) [LUDP; LDNS; LTCP] sample_validated.
Proof.
  apply (Validate_config_ok (λ _ _, None) [LUDP; LDNS; LTCP] sample_config).
  - simpl. lia.
  - vm_compute. reflexivity.
Qed.

Definition sample_app : application :=
  match newApplication sample_validated false (Ok sample_data) None with
  | (Ok app, _) => app
  | (Err _, _) => mkApp (mkAppDNS [] sample_classifier (DNetwork [] []) (DNetwork [] []) 0 0) None None [] (NewController (mkFailoverConfig 1 1 1))
                    (newHY2StatusTracker []) (NewLearningTable 1) None None false false
  end.

Lemma validated_config_starts_witness :
  ∃ app, newApplication sample_validated true (Ok sample_data) None = (Ok app, false) ∧ app_tcp app = None.
Proof.
  destruct (validated_config_starts (λ _ _, None) [LUDP; LDNS; LTCP] sample_validated true sample_data None)
    as (app & H1 & H2 & _).
  - exact sample_validated_ok.
  - repeat constructor.
  - exact sample_prefixes_ok.
  - reflexivity.
  - exists app. split; [exact H1|]. destruct (app_tcp app); [|reflexivity].
    discriminate (proj1 H2 (ex_intro _ a eq_refl)).
Defined.

Lemma no_unconfigured_exit_witness :
  ∃ tcp udp, app_tcp sample_app = Some tcp ∧ app_udp sample_app = Some udp ∧
    (ExitDirect, str "1.1.1.1:443") ∈ stream_exits (at_proxy tcp) (str "1.1.1.1:443") ∧
    cfg_fail_open sample_validated = true.
Proof.
  destruct (app_tcp sample_app) as [tcp|] eqn:Ht; [|vm_compute in Ht; discriminate].
  destruct (app_udp sample_app) as [udp|] eqn:Hu; [|vm_compute in Hu; discriminate].
  exists tcp, udp. split; [reflexivity|]. split; [reflexivity|].
  assert (Hx : (ExitDirect, str "1.1.1.1:443") ∈ stream_exits (at_proxy tcp) (str "1.1.1.1:443")).
  { vm_compute in Ht. injection Ht as <-. apply list_elem_of_further, list_elem_of_here. }
  split; [exact Hx|].
  refine (proj1 (proj1 (no_unconfigured_exit sample_validated (Ok sample_data) None sample_app tcp udp
    (str "1.1.1.1:443") [] ExitDirect (str "1.1.1.1:443") _ Ht Hu) Hx) eq_refl).
  vm_compute. reflexivity.
Defined.

(** With the HY2 relay down, the sample application connects directly. *)
Definition sample_dial (tcp : appTCP) : list (exit * bytes) * result conn :=
  path_dial (λ x _, match x with ExitDirect => Ok (mkConn [] [] 0 false) | _ => Err EEOF end) (at_proxy tcp)
    (StFailOpen (NewFailOpenWithProbe (app_controller sample_app) Second) 0 0 0 0 StLeaf StLeaf) (str "1.1.1.1:443").


Lemma application_routes_connections_witness :
  ∃ tcp learned' to reader,
    app_tcp sample_app = Some tcp ∧ stream reader = [0; 1] ∧
    handle (at_server tcp) (Some (app_learned sample_app)) (Ok (str "9.9.9.9:80")) None (λ _, None) None
      [[0; 1]] (λ _ _, None) sample_copies 0 =
      Some (Some learned', Relayed RouteProxy to (Some reader) (relayFrom sample_copies.1 sample_copies.2)).
Proof.
  destruct (app_tcp sample_app) as [tcp|] eqn:Ht; [|vm_compute in Ht; discriminate].
  destruct (application_routes_connections (λ _ _, None) [LUDP; LDNS; LTCP] sample_validated sample_data None
    sample_app tcp (app_learned sample_app) (Ok (str "9.9.9.9:80")) None (str "9.9.9.9:80") (Addr4 9 9 9 9)
    [[0; 1]] (λ _ _, None) sample_copies 0) as (learned' & way & to & reader & result & st & H1 & _ & H2 & Hp & Hway & _).
  - exact sample_validated_ok.
  - exact sample_prefixes_ok.
  - exact (new_learning_ok _).
  - vm_compute. reflexivity.
  - exact Ht.
  - vm_compute in Ht. injection Ht as <-. vm_compute. reflexivity.
  - vm_compute in Hp. injection Hp as <- <-.
    assert (way = RouteProxy) as ->.
    { assert (Hempty : lt_entries (app_learned sample_app) = ∅) by (vm_compute; reflexivity).
      destruct Hway as (_ & _ & Hway).
      - intros d _ _ _ H. vm_compute in H. discriminate.
      - apply Hway; intros (dom & e & He & _); rewrite Hempty, lookup_empty in He; discriminate. }
    exists tcp, learned', to, reader. split; [reflexivity|]. split; [exact H2|exact H1].
Defined.
