(* ===== verification/DnsUpstreams.v ===== *)
(** * Which DNS servers see which names: [newApplication] of
    [cmd/hy2route-core/application.go], [internal/dnsproxy/resolver.go],
    [internal/transport/dnsfallback.go]

    The resolver chooses between a domestic and a trusted exchanger; with the
    fail-open option the trusted one is itself a fallback from the trusted server
    over the relays to the domestic server.  This file follows a query of the
    application down to the servers it is sent to. *)

From S2P Require Import Prelude GoStrings GoNet Domains IPv4Tree Sha256 Dataset GoCodec.
From S2P Require Import Config Classifier Lru Learning Firewall DnsCache DnsMsg Resolver DnsTransport.
From S2P Require Import DnsRouting Application.

(** ** The exchangers of an application *)

(** What the outside answers: a query over the network, and dialling a stream to a
    DNS server. *)
Record exchangeEnv := mkExchangeEnv {
  xe_network : bytes → Msg → result (option Msg); xe_dial : stream_path → bytes → result streamConn }.

Section upstreams.
Context {lib : DnsLib}.

Fixpoint dns_Exchange (env : exchangeEnv) (p : dns_path) : exchanger :=
  match p with
  | DNetwork server _ => network_Exchange (xe_network env server)
  | DStream path server _ => λ q, let? m := (stream_Exchange (xe_dial env path server) q).2 in Ok (Some m)
  | DFallback primary fallback =>
      fallback_Exchange (Some (dns_Exchange env primary)) (Some (dns_Exchange env fallback))
  end.

(** The servers a query is sent to, in order. *)
Inductive asked := AskedNetwork (server : bytes) | AskedStream (server : bytes).

#[export] Instance asked_eq_dec : EqDecision asked.
Proof. solve_decision. Defined.

Fixpoint dns_asked (env : exchangeEnv) (p : dns_path) (q : Msg) : list asked :=
  match p with
  | DNetwork server _ => [AskedNetwork server]
  | DStream _ server _ => [AskedStream server]
  | DFallback primary fallback =>
      dns_asked env primary q ++
      match dns_Exchange env primary q with Ok (Some _) => [] | _ => dns_asked env fallback q end
  end.

(** The resolver of an application, in the state it starts in. *)
Definition resolver_of (env : exchangeEnv) (app : application) : Resolver (option LearningTable) :=
  let d := app_dns app in
  NewResolver (Some (ad_classifier d)) (Some (dns_Exchange env (ad_domestic d)))
    (Some (dns_Exchange env (ad_trusted d))) (Some (Some (app_learned app))) (ad_cacheEntries d) (ad_timeout d).

(** The servers the application's resolver reaches when it asks an upstream. *)
Definition servers_asked (env : exchangeEnv) (app : application) (q : Msg) (who : list upstream) : list asked :=
  who ≫= λ u, dns_asked env (match u with Domestic => ad_domestic (app_dns app)
                                        | Trusted => ad_trusted (app_dns app) end) q.

(** The resolvers an application has over its life. *)
Definition resolver_reachable (env : exchangeEnv) (cfg : Config) (app : application)
    (r : Resolver (option LearningTable)) : Prop :=
  app_reachable cfg (ad_classifier (app_dns app)) (dns_Exchange env (ad_domestic (app_dns app)))
    (dns_Exchange env (ad_trusted (app_dns app))) r.

Lemma resolver_of_reachable env cfg dnsOnly load reality app closed :
  newApplication cfg dnsOnly load reality = (Ok app, closed) → resolver_reachable env cfg app (resolver_of env app).
Proof.
  intros H. apply newApplication_inv in H as (data & cl & _ & _ & _ & Hl & Hd & _).
  unfold resolver_reachable, resolver_of. rewrite Hl, Hd. apply ar_start.
Qed.

End upstreams.

(** ** Witness *)

(** The relays are down: the sample application, which fails open, asks the domestic
    server about a proxied name after the trusted one. *)
Definition sample_exchanges : exchangeEnv :=
  mkExchangeEnv (λ _ m, Ok (Some (sample_answer m))) (λ _ _, Err EEOF).

