(* ===== verification/Sockets.v ===== *)
(** * Sockets: [internal/dataplane/listener_linux.go], the listeners of
    [internal/dataplane/tcp.go], [udp.go] and [internal/dnsproxy/server.go],
    [internal/transport/socketmark.go], [socketmark_linux.go], [direct.go],
    [internal/transport/reality/client.go]

    Which system calls the program makes on its sockets, in which order, and what
    is open afterwards.  The system is an oracle [os] that may fail any call; a
    program runs in a state and error monad over the trace of calls and the open
    sockets.  The triple [owns] says which sockets a program opens and closes on
    every path; it has a frame, so the programs compose. *)

From S2P Require Import Prelude GoStrings GoNet GoCodec Config Lru Tcp Udp Resolver Dataset Classifier SocksUdp Hy2 Application.

(** ** System calls *)

(** A socket is named by the number of the call that made it.  [SysControl] is
    [RawConn.Control] getting hold of the descriptor; [SysHandshake] and
    [SysRequest] are the TLS and VLESS exchanges of the Reality libraries;
    [SysLookup] is a question to the system's name resolver, whose own sockets are
    not made here and carry no mark. *)
Inductive sysop :=
| SysLookup (name : bytes)
| SysSocket (network addr : bytes)
| SysBind (s : nat) (addr : bytes)
| SysConnect (s : nat) (addr : bytes)
| SysRawConn (s : nat)
| SysControl (s : nat)
| SysSetNonblock (s : nat)
| SysSetsockopt (s : nat) (level name value : Z)
| SysSetDeadline (s : nat) (at_ : option time)
| SysHandshake (s : nat)
| SysRequest (s : nat) (target : bytes)
| SysSendTo (s : nat) (payload addr : bytes)
| SysReceive (s : nat)
| SysClose (s : nat).

Record world := mkWorld { w_trace : list sysop; w_open : list nat }.

Definition sys (A : Type) : Type := world → world * result A.

Definition sys_ret {A} (a : A) : sys A := λ w, (w, Ok a).
Definition sys_lift {A} (r : result A) : sys A := λ w, (w, r).
Definition sys_bind {A B} (m : sys A) (k : A → sys B) : sys B := λ w,
  match m w with
  | (w, Ok a) => k a w
  | (w, Err e) => (w, Err e)
  end.

Notation "'do!' x ':=' m 'in' k" := (sys_bind m (λ x, k))
  (at level 10, x pattern, m at level 100, k at level 200) : go_scope.

(** [if err != nil { cleanup; return wrap(err) }]. *)
Definition on_error {A} (m : sys A) (cleanup : sys ()) : sys A := λ w,
  match m w with
  | (w, Ok a) => (w, Ok a)
  | (w, Err e) => ((cleanup w).1, Err e)
  end.

(** [defer cleanup]: runs on every path, its own error is dropped. *)
Definition deferred {A} (cleanup : sys ()) (m : sys A) : sys A := λ w,
  let '(w, r) := m w in ((cleanup w).1, r).

Section programs.
Context (os : nat → option error).

(** One call; the error of the [i]-th call is the oracle's. *)
Definition call (op : sysop) : sys () := λ w,
  (mkWorld (w_trace w ++ [op]) (w_open w),
   match os (length (w_trace w)) with Some e => Err e | None => Ok () end).

Definition socket (network addr : bytes) : sys nat := λ w,
  let s := length (w_trace w) in
  let trace := w_trace w ++ [SysSocket network addr] in
  match os s with
  | Some e => (mkWorld trace (w_open w), Err e)
  | None => (mkWorld trace (w_open w ++ [s]), Ok s)
  end.

(** Closing releases the descriptor even when it reports an error. *)
Definition close (s : nat) : sys () := λ w,
  (mkWorld (w_trace w ++ [SysClose s]) (remove_key (w_open w) s),
   match os (length (w_trace w)) with Some e => Err e | None => Ok () end).

(** A socket of the [net] package: made, prepared by the [Control] hook, bound or
    connected, and closed if any of this fails. *)
Definition net_socket (network addr : bytes) (control : nat → sys ()) (use : nat → sysop) : sys nat :=
  do! s := socket network addr in
  do! _ := on_error (do! _ := control s in call (use s)) (close s) in
  sys_ret s.

Definition no_control (_ : nat) : sys () := sys_ret ().

(** ** Transparent listeners *)

Definition SOL_IP : Z := 0.
Definition IP_TRANSPARENT : Z := 19.
Definition SOL_SOCKET : Z := 1.
Definition SO_MARK : Z := 36.

Definition prepareListener (s : nat) : sys () :=
  do! _ := call (SysRawConn s) in
  do! _ := call (SysControl s) in
  call (SysSetNonblock s).

Definition setTransparent (s : nat) : sys () :=
  do! _ := call (SysRawConn s) in
  do! _ := call (SysControl s) in
  call (SysSetsockopt s SOL_IP IP_TRANSPARENT 1).

Definition listenTransparentTCP (network addr : bytes) : sys nat :=
  do! listener := net_socket network addr no_control (λ s, SysBind s addr) in
  do! _ := on_error (setTransparent listener) (close listener) in
  do! _ := on_error (prepareListener listener) (close listener) in
  sys_ret listener.

(** [Run] of the TCP proxy up to its end: [resolved] is the listen address,
    [accepts] what the listener and the handlers do, each failure of [Accept] with
    whether the context had ended.  The loop is [accept_step]; [None] while it
    still runs. *)
Inductive serveEvent := ServeEvent (e : acceptEvent) | AcceptFailed (err : error) (ctx_done : bool).

Fixpoint accept_loop (maxActive : Z) (s : acceptState) (events : list serveEvent)
  : acceptState * option (option error) :=
  match events with
  | [] => (s, None)
  | ServeEvent e :: events => accept_loop maxActive (accept_step maxActive s e) events
  | AcceptFailed err ctx_done :: _ => (s, Some (if ctx_done then None else Some err))
  end.

Definition tcp_Run (resolved : result bytes) (maxActive : Z) (events : list serveEvent)
  : sys (acceptState * option (option error)) :=
  do! addr := sys_lift resolved in
  do! listener := listenTransparentTCP (str "tcp4") addr in
  deferred (close listener) (sys_ret (accept_loop maxActive (mkAccept [] []) events)).

(** The listener of the UDP proxy: the TPROXY library's socket, made non-blocking. *)
Definition udp_listen (resolved : result bytes) (tproxy_listen : bytes → sys nat) : sys nat :=
  do! addr := sys_lift resolved in
  do! conn := tproxy_listen addr in
  do! _ := on_error (prepareListener conn) (close conn) in
  sys_ret conn.

(** [Run] of the UDP proxy: the loop on the listener, which is closed on return. *)
Definition udp_Run (resolved : result bytes) (tproxy_listen : bytes → sys nat) (server : UDPServer) (s : udpState)
    (turns : list udpTurn) : sys (option (udpState * option (option error))) :=
  do! conn := udp_listen resolved tproxy_listen in
  deferred (close conn) (sys_ret (udp_loop server s turns)).

(** ** Marked sockets *)

Definition socketMarkControl (mark : Z) (s : nat) : sys () :=
  do! _ := call (SysControl s) in
  call (SysSetsockopt s SOL_SOCKET SO_MARK mark).

Definition mark_control (mark : Z) : nat → sys () :=
  if mark =? 0 then no_control else socketMarkControl mark.

(** The stub of systems other than Linux: no mark is set. *)
Definition socketMarkControl_other (mark : Z) : nat → sys () := λ _, sys_ret ().

(** [DialContext] of the dialer of [NewMarkedDialer]: the addresses of the target
    are tried in turn; the first error is reported if all fail. *)
Fixpoint dial_addresses (mark : Z) (network : bytes) (addrs : list bytes) : sys nat :=
  match addrs with
  | [] => sys_lift (errorf "no address")
  | addr :: rest => λ w,
      match net_socket network addr (mark_control mark) (λ s, SysConnect s addr) w with
      | (w, Ok s) => (w, Ok s)
      | (w, Err e) => match rest with
                      | [] => (w, Err e)
                      | _ => match dial_addresses mark network rest w with
                             | (w, Ok s) => (w, Ok s)
                             | (w, Err _) => (w, Err e)
                             end
                      end
      end
  end.

(** The addresses of a target: itself when its host is an address (of version 4 for
    the networks that end in 4) or empty, and otherwise what the system's resolver
    says, [lookup]. *)
Definition resolve_addrs (network : bytes) (lookup : bytes → result (list bytes)) (target : bytes)
  : sys (list bytes) :=
  match SplitHostPort target with
  | Err e => sys_lift (Err e)
  | Ok (host, _) =>
      if bool_decide (host = []) then sys_ret [target] else
      match ParseAddr host with
      | Some a => if HasSuffix network (str "4") && negb (Is4 (Unmap a))
                  then sys_lift (errorf "no suitable address found") else sys_ret [target]
      | None => do! _ := call (SysLookup target) in sys_lift (lookup target)
      end
  end.

Definition NewMarkedDialer (mark : Z) (network : bytes) (lookup : bytes → result (list bytes))
    (target : bytes) : sys nat :=
  do! addrs := resolve_addrs network lookup target in dial_addresses mark network addrs.

Definition ListenMarkedPacket (network addr : bytes) (mark : Z) : sys nat :=
  net_socket network addr (mark_control mark) (λ s, SysBind s addr).

(** ** Direct dialling *)

Definition firstMark (marks : list Z) : Z := match marks with [] => 0 | m :: _ => m end.

Definition direct_Dial (marks : list Z) (lookup : bytes → result (list bytes)) (target : bytes) : sys nat :=
  NewMarkedDialer (firstMark marks) (str "tcp4") lookup target.

(** [is_udp]: the type assertion on the packet connection. *)
Definition direct_OpenPacket (mark : Z) (ctx_err : option error) (is_udp : bool) : sys nat :=
  do! _ := sys_lift (match ctx_err with Some e => Err e | None => Ok () end) in
  do! packet := ListenMarkedPacket (str "udp4") (str "0.0.0.0:0") mark in
  if is_udp then sys_ret packet
  else on_error (sys_lift (errorf "marked packet listener is not UDP")) (close packet).

(** ** The sockets of the libraries *)

(** The socket of a query of the domestic upstream: [dns.Client] connects with the
    dialer and the network [NewNetworkExchanger] gives it. *)
Definition NewNetworkExchanger_dial (marks : list Z) (lookup : bytes → result (list bytes)) (address : bytes)
  : sys nat :=
  NewMarkedDialer (match marks with [] => 0 | m :: _ => m end) (str "udp") lookup address.

(** The packet socket of the HY2 client: [New] of the connection factory. *)
Definition packetConnFactory_New (mark : Z) : sys nat :=
  ListenMarkedPacket (str "udp4") (str "0.0.0.0:0") mark.

Definition direct_Send (resolve : bytes → result bytes) (conn : nat) (payload target : bytes) : sys () :=
  do! addr := sys_lift (resolve target) in call (SysSendTo conn payload addr).

(** [Receive]: [packet] is what arrives, cut to the buffer of 64 KiB. *)
Definition direct_Receive (conn : nat) (packet : bytes * bytes) : sys (bytes * bytes) :=
  do! _ := call (SysReceive conn) in
  let n := Nat.min (length packet.1) (Z.to_nat (Z.shiftl 64 10)) in
  sys_ret (take n packet.1, packet.2).

(** ** The Reality client *)

(** [New]: the VLESS flow of a configuration. *)
Definition reality_flow (cfg : TCPRelayConfig) : bytes :=
  if bool_decide (relay_flow cfg = str "xtls-rprx-vision-udp443") then str "xtls-rprx-vision"
  else relay_flow cfg.

Definition reality_New (cfg : TCPRelayConfig) (tls : bytes → option error)
    (protocol : bytes → bytes → option error) : result bytes :=
  let? (host, _) := SplitHostPort (relay_server cfg) in
  match tls host with
  | Some e => Err (EWrap "Reality TLS" e)
  | None => match protocol (relay_uuid cfg) (reality_flow cfg) with
            | Some e => Err e
            | None => Ok (reality_flow cfg)
            end
  end.

Definition reality_connect (server : bytes) (mark : Z) (lookup : bytes → result (list bytes)) : sys nat :=
  do! raw := NewMarkedDialer mark (str "tcp4") lookup server in
  do! _ := on_error (call (SysHandshake raw)) (close raw) in
  sys_ret raw.

(** The deadline of the VLESS request: four seconds, or the context's if earlier. *)
Definition reality_deadline (now : time) (ctx : option time) : time :=
  match ctx with
  | Some d => if d <? now + 4 * Second then d else now + 4 * Second
  | None => now + 4 * Second
  end.

(** Setting a deadline may fail; the code ignores it. *)
Definition set_deadline (s : nat) (at_ : option time) : sys () := λ w,
  ((call (SysSetDeadline s at_) w).1, Ok ()).

(** [valid]: whether the library parses the target as an address. *)
Definition reality_Dial (server : bytes) (mark : Z) (lookup : bytes → result (list bytes))
    (valid : bytes → bool) (target : bytes) (now : time) (ctx : option time) : sys nat :=
  if negb (valid target) then sys_lift (errorf "invalid VLESS destination") else
  do! conn := reality_connect server mark lookup in
  do! _ := set_deadline conn (Some (reality_deadline now ctx)) in
  do! _ := on_error (call (SysRequest conn target)) (close conn) in
  do! _ := set_deadline conn None in
  sys_ret conn.

Definition reality_OpenPacket (server : bytes) (mark : Z) (lookup : bytes → result (list bytes))
    (now : time) : sys nat :=
  do! conn := reality_connect server mark lookup in
  do! _ := set_deadline conn (Some (now + 4 * Second)) in
  do! _ := on_error (call (SysRequest conn [])) (close conn) in
  do! _ := set_deadline conn None in
  sys_ret conn.

Definition reality_Send (valid : bytes → bool) (conn : nat) (payload target : bytes) : sys () :=
  if negb (valid target) then sys_lift (errorf "invalid XUDP destination")
  else call (SysSendTo conn payload target).

Definition reality_Receive (conn : nat) (packet : bytes * bytes) : sys (bytes * bytes) :=
  do! _ := call (SysReceive conn) in
  let n := Nat.min (length packet.1) (Z.to_nat 65536) in
  sys_ret (take n packet.1, packet.2).

(** ** The DNS server *)

(** The address of the UDP listener, if it is one, is that of the TCP listener. *)
Definition dns_Run (has_resolver : bool) (listen : bytes) (udp_address : option bytes) (ending : serverEnd)
  : sys () :=
  if negb has_resolver then sys_lift (errorf "DNS server resolver is required") else
  do! udpConn := net_socket (str "udp4") listen no_control (λ s, SysBind s listen) in
  deferred (close udpConn)
    match udp_address with
    | None => sys_lift (errorf "DNS UDP listener did not return a UDP address")
    | Some addr =>
        do! tcpListener := net_socket (str "tcp4") addr no_control (λ s, SysBind s addr) in
        deferred (close tcpListener)
          (sys_lift match server_end ending with Some e => Err e | None => Ok () end)
    end.
End programs.

(** ** Which sockets are open afterwards *)

(** Open sockets are distinct and were made by calls of the trace. *)
Definition world_ok (w : world) : Prop :=
  NoDup (w_open w) ∧ Forall (λ s, (s < length (w_trace w))%nat) (w_open w).

(** [owns pre m post err]: a program that is handed the sockets [pre], whatever else
    is open, leaves exactly [post a] of them and its own open when it returns [a],
    and [err] when it fails. *)
Definition owns {A} (pre : list nat) (m : sys A) (post : A → list nat) (err : list nat) : Prop :=
  ∀ base w, world_ok w → w_open w = base ++ pre →
    let '(w', r) := m w in
    world_ok w' ∧ w_open w' = base ++ match r with Ok a => post a | Err _ => err end.

Lemma owns_frame {A} front pre (m : sys A) post err :
  owns pre m post err → owns (front ++ pre) m (λ a, front ++ post a) (front ++ err).
Proof.
  intros H base w Hok Hw. rewrite app_assoc in Hw. specialize (H (base ++ front) w Hok Hw).
  destruct (m w) as [w' []]; by rewrite app_assoc.
Qed.

Lemma owns_ret {A} (a : A) post err : owns (post a) (sys_ret a) post err.
Proof. by intros base w. Qed.

Lemma owns_lift {A} pre (r : result A) : owns pre (sys_lift r) (λ _, pre) pre.
Proof. intros base w Hok Hw. simpl. by destruct r. Qed.

Lemma owns_bind {A B} pre (m : sys A) (k : A → sys B) mid post err :
  owns pre m mid err → (∀ a, owns (mid a) (k a) post err) → owns pre (sys_bind m k) post err.
Proof.
  intros Hm Hk base w Hok Hw. unfold sys_bind. specialize (Hm base w Hok Hw).
  destruct (m w) as [w' [a|e]]; [|done]. destruct Hm as [Hok' Hw']. by apply (Hk a base w').
Qed.

(** A cleanup takes what the failed program left down to [err]. *)
Lemma owns_on_error {A} pre (m : sys A) cleanup post left_ err :
  owns pre m post left_ → owns left_ cleanup (λ _, err) err → owns pre (on_error m cleanup) post err.
Proof.
  intros Hm Hc base w Hok Hw. unfold on_error. specialize (Hm base w Hok Hw).
  destruct (m w) as [w' [a|e]]; [done|]. destruct Hm as [Hok' Hw']. specialize (Hc base w' Hok' Hw').
  by destruct (cleanup w') as [w'' []].
Qed.

Lemma owns_deferred {A} pre (m : sys A) cleanup left_ post :
  owns pre m (λ _, left_) left_ → owns left_ cleanup (λ _, post) post →
  owns pre (deferred cleanup m) (λ _, post) post.
Proof.
  intros Hm Hc base w Hok Hw. unfold deferred. specialize (Hm base w Hok Hw).
  destruct (m w) as [w' r]. assert (Hw' : world_ok w' ∧ w_open w' = base ++ left_) by (by destruct r).
  destruct Hw' as [Hok' Hw']. specialize (Hc base w' Hok' Hw').
  destruct (cleanup w') as [w'' []], r; done.
Qed.

Section owned.
Context (os : nat → option error).

Lemma owns_call pre op : owns pre (call os op) (λ _, pre) pre.
Proof.
  intros base w [H1 H2] Hw. unfold call. destruct (os _); (split; [|done]); (split; [done|]); simpl;
    (eapply list.Forall_impl; [exact H2|]); simpl; intros s Hs; rewrite length_app; simpl; lia.
Qed.

Lemma owns_set_deadline pre s at_ err : owns pre (set_deadline os s at_) (λ _, pre) err.
Proof.
  intros base w Hok Hw. pose proof (owns_call pre (SysSetDeadline s at_) base w Hok Hw) as H.
  unfold set_deadline. destruct (call os _ w) as [w' []]; done.
Qed.

Lemma owns_socket network addr : owns [] (socket os network addr) (λ s, [s]) [].
Proof.
  intros base w [H1 H2] Hw. rewrite app_nil_r in Hw.
  assert (Hlt : Forall (λ s, (s < length (w_trace w ++ [SysSocket network addr]))%nat) (w_open w)).
  { eapply list.Forall_impl; [exact H2|]. simpl. intros s Hs. rewrite length_app. simpl. lia. }
  unfold socket. destruct (os _); simpl; [by rewrite app_nil_r|]. split; [|by rewrite Hw].
  split; simpl.
  - apply list.NoDup_app. split; [done|]. split; [|apply NoDup_singleton].
    intros s Hs ->%list_elem_of_singleton. rewrite list.Forall_forall in H2. apply H2 in Hs. lia.
  - apply Forall_app. split; [done|]. repeat constructor. rewrite length_app. simpl. lia.
Qed.

Lemma owns_close s : owns [s] (close os s) (λ _, []) [].
Proof.
  intros base w [H1 H2] Hw. unfold close.
  assert (Hr : remove_key (w_open w) s = base).
  { rewrite Hw in *. apply list.NoDup_app in H1 as (_ & Hd & _). unfold remove_key.
    rewrite list.filter_app, (filter_cons_False _ s) by naive_solver. rewrite filter_nil, app_nil_r.
    apply remove_key_notin. intros Hs. by eapply Hd, list_elem_of_singleton. }
  assert (Hok : world_ok (mkWorld (w_trace w ++ [SysClose s]) (remove_key (w_open w) s))).
  { split; simpl; [by apply NoDup_remove_key|]. rewrite Hr. rewrite Hw in H2.
    apply Forall_app in H2 as [H2 _]. eapply list.Forall_impl; [exact H2|]. simpl. intros x Hx.
    rewrite length_app. simpl. lia. }
  destruct (os _); (split; [done|]); simpl; by rewrite Hr, app_nil_r.
Qed.

(** A step on sockets that are kept, closing one on failure. *)
Lemma owns_or_close {A} s (m : sys A) post :
  owns [s] m post [s] → owns [s] (on_error m (close os s)) post [].
Proof. intros H. eapply owns_on_error; [exact H|apply owns_close]. Qed.

(** A hook that neither opens nor closes anything. *)
Definition steady (m : sys ()) : Prop := ∀ pre, owns pre m (λ _, pre) pre.

Lemma steady_calls op1 op2 op3 :
  steady (call os op1) ∧ steady (do! _ := call os op1 in call os op2) ∧
  steady (do! _ := call os op1 in do! _ := call os op2 in call os op3).
Proof.
  split; [intros pre; apply owns_call|]. split; intros pre.
  - eapply owns_bind; [apply owns_call|intros []; apply owns_call].
  - eapply owns_bind; [apply owns_call|intros []]. eapply owns_bind; [apply owns_call|intros []; apply owns_call].
Qed.

Lemma owns_net_socket network addr control use :
  (∀ s, steady (control s)) → owns [] (net_socket os network addr control use) (λ s, [s]) [].
Proof.
  intros Hc. eapply owns_bind; [apply owns_socket|]. intros s.
  eapply owns_bind with (mid := λ _, [s]); [|intros []; by apply (owns_ret s (λ s, [s]))].
  apply owns_or_close. eapply owns_bind; [apply Hc|]. intros []. apply owns_call.
Qed.

Lemma no_control_steady s : steady (no_control s).
Proof. intros pre. apply (owns_ret () (λ _, pre)). Qed.

Lemma mark_control_steady mark s : steady (mark_control os mark s).
Proof.
  unfold mark_control. destruct (mark =? 0); [apply no_control_steady|].
  apply (steady_calls _ _ (SysControl s)).
Qed.

Lemma owns_dial_addresses mark network addrs :
  owns [] (dial_addresses os mark network addrs) (λ s, [s]) [].
Proof.
  induction addrs as [|addr rest IH]; intros base w Hok Hw; [done|]. simpl.
  pose proof (owns_net_socket network addr (mark_control os mark) (λ s, SysConnect s addr)
    (mark_control_steady mark) base w Hok Hw) as H.
  destruct (net_socket os _ _ _ _ w) as [w' [s|e]]; [done|]. destruct rest; [done|].
  destruct H as [Hok' Hw']. specialize (IH base w' Hok' Hw').
  by destruct (dial_addresses os mark network _ w') as [w'' []].
Qed.

Lemma owns_dial mark network lookup target :
  owns [] (NewMarkedDialer os mark network lookup target) (λ s, [s]) [].
Proof.
  eapply owns_bind with (mid := λ _, []); [|intros addrs; apply owns_dial_addresses].
  unfold resolve_addrs. destruct (SplitHostPort target) as [[host port]|e]; [|apply owns_lift].
  destruct (bool_decide _); [by apply (owns_ret _ (λ _, []))|]. destruct (ParseAddr host).
  - destruct (_ && _); [apply owns_lift|by apply (owns_ret _ (λ _, []))].
  - eapply owns_bind; [apply owns_call|]. intros []. apply owns_lift.
Qed.

Lemma owns_listenTransparentTCP network addr :
  owns [] (listenTransparentTCP os network addr) (λ s, [s]) [].
Proof.
  eapply owns_bind; [apply owns_net_socket, no_control_steady|]. intros s.
  eapply owns_bind with (mid := λ _, [s]); [apply owns_or_close, steady_calls|]. intros [].
  eapply owns_bind with (mid := λ _, [s]); [apply owns_or_close, steady_calls|]. intros []. by apply (owns_ret _ (λ s, [s])).
Qed.

Lemma owns_reality_connect server mark lookup :
  owns [] (reality_connect os server mark lookup) (λ s, [s]) [].
Proof.
  eapply owns_bind; [apply owns_dial|]. intros s.
  eapply owns_bind with (mid := λ _, [s]); [apply owns_or_close, owns_call|]. intros []. by apply (owns_ret _ (λ s, [s])).
Qed.

(** The request on a connected Reality socket, between its two deadlines. *)
Lemma owns_reality_request conn at_ target :
  owns [conn] (do! _ := set_deadline os conn at_ in
               do! _ := on_error (call os (SysRequest conn target)) (close os conn) in
               do! _ := set_deadline os conn None in sys_ret conn) (λ s, [s]) [].
Proof.
  eapply owns_bind; [apply owns_set_deadline|]. intros [].
  eapply owns_bind with (mid := λ _, [conn]); [apply owns_or_close, owns_call|]. intros [].
  eapply owns_bind; [apply owns_set_deadline|]. intros []. by apply (owns_ret _ (λ s, [s])).
Qed.

(** No path through the dialers and listeners leaks a socket: whatever calls the
    system fails, a program that returns a socket has opened exactly that one, a
    program that fails or a server that returns has nothing of its own left open,
    and nobody else's socket is touched. *)
Theorem sockets_not_leaked :
  (∀ network addr, owns [] (listenTransparentTCP os network addr) (λ s, [s]) []) ∧
  (∀ resolved maxActive events, owns [] (tcp_Run os resolved maxActive events) (λ _, []) []) ∧
  (∀ resolved tproxy_listen, (∀ addr, owns [] (tproxy_listen addr) (λ s, [s]) []) →
     owns [] (udp_listen os resolved tproxy_listen) (λ s, [s]) [] ∧
     ∀ server state turns, owns [] (udp_Run os resolved tproxy_listen server state turns) (λ _, []) []) ∧
  (∀ marks lookup target, owns [] (direct_Dial os marks lookup target) (λ s, [s]) []) ∧
  (∀ mark ctx_err is_udp, owns [] (direct_OpenPacket os mark ctx_err is_udp) (λ s, [s]) []) ∧
  (∀ marks lookup address, owns [] (NewNetworkExchanger_dial os marks lookup address) (λ s, [s]) []) ∧
  (∀ mark, owns [] (packetConnFactory_New os mark) (λ s, [s]) []) ∧
  (∀ server mark lookup valid target now ctx,
     owns [] (reality_Dial os server mark lookup valid target now ctx) (λ s, [s]) []) ∧
  (∀ server mark lookup now, owns [] (reality_OpenPacket os server mark lookup now) (λ s, [s]) []) ∧
  (∀ has_resolver listen udp_address ending,
     owns [] (dns_Run os has_resolver listen udp_address ending) (λ _, []) []).
Proof.
  split; [apply owns_listenTransparentTCP|].
  split; [|split; [|split; [|split; [|split; [|split; [|split; [|split]]]]]]].
  - intros. eapply owns_bind; [apply owns_lift|]. intros addr.
    eapply owns_bind; [apply owns_listenTransparentTCP|]. intros s.
    eapply owns_deferred; [by apply (owns_ret _ (λ _, [s]))|apply owns_close].
  - intros resolved tproxy_listen Ht.
    assert (Hl : owns [] (udp_listen os resolved tproxy_listen) (λ s, [s]) []).
    { eapply owns_bind; [apply owns_lift|]. intros addr. eapply owns_bind; [apply Ht|]. intros s.
      eapply owns_bind with (mid := λ _, [s]); [apply owns_or_close, steady_calls|]. intros [].
      by apply (owns_ret _ (λ s, [s])). }
    split; [done|]. intros server state turns. eapply owns_bind; [exact Hl|]. intros s.
    eapply owns_deferred; [by apply (owns_ret _ (λ _, [s]))|apply owns_close].
  - intros. apply owns_dial.
  - intros. eapply owns_bind; [apply owns_lift|]. intros [].
    eapply owns_bind; [apply owns_net_socket, mark_control_steady|]. intros s.
    destruct is_udp; [by apply (owns_ret s (λ s, [s]))|]. apply owns_or_close. by intros base w.
  - intros. apply owns_dial.
  - intros. apply owns_net_socket, mark_control_steady.
  - intros. unfold reality_Dial. destruct (negb _); [by intros base w|].
    eapply owns_bind; [apply owns_reality_connect|]. intros s. apply owns_reality_request.
  - intros. eapply owns_bind; [apply owns_reality_connect|]. intros s. apply owns_reality_request.
  - intros. unfold dns_Run. destruct (negb _); [by intros base w|].
    eapply owns_bind; [apply owns_net_socket, no_control_steady|]. intros u.
    eapply owns_deferred with (left_ := [u]); [|apply owns_close].
    destruct udp_address as [addr|]; [|by intros base w].
    eapply owns_bind with (mid := λ t, [u; t]).
    + eapply (owns_frame [u] []). apply owns_net_socket, no_control_steady.
    + intros t. eapply owns_deferred with (left_ := [u; t]).
      * apply owns_lift.
      * apply (owns_frame [u] [t]). apply owns_close.
Qed.
End owned.

(** ** The bypass mark *)

Definition uses_address (op : sysop) (s : nat) : Prop :=
  ∃ addr, op = SysConnect s addr ∨ op = SysBind s addr.

(** Of the calls [ops], made from the [n]-th on, none connects or binds a socket
    that has not been given the mark before, successfully. *)
Definition marked_before (os : nat → option error) (mark : Z) (n : nat) (ops : list sysop) : Prop :=
  ∀ j op s, ops !! j = Some op → uses_address op s →
    ∃ i, (i < j)%nat ∧ ops !! i = Some (SysSetsockopt s SOL_SOCKET SO_MARK mark) ∧ os (n + i)%nat = None.

Section marked.
Context (os : nat → option error) (mark : Z).

(** A program all of whose sockets are marked before they are used. *)
Definition marks {A} (m : sys A) : Prop :=
  ∀ w, ∃ ops, w_trace (m w).1 = w_trace w ++ ops ∧ marked_before os mark (length (w_trace w)) ops.

Lemma marked_before_app n a b :
  marked_before os mark n a → marked_before os mark (n + length a) b → marked_before os mark n (a ++ b).
Proof.
  intros Ha Hb j op s Hj Hu. apply lookup_app_Some in Hj as [Hj|[Hge Hj]].
  - destruct (Ha j op s Hj Hu) as (i & Hi & Hl & Ho). exists i. split; [done|]. split; [|done].
    by apply lookup_app_l_Some.
  - destruct (Hb _ op s Hj Hu) as (i & Hi & Hl & Ho). exists (length a + i)%nat. split; [lia|].
    split; [|by rewrite Nat.add_assoc]. rewrite lookup_app_r by lia. by replace (_ + i - _)%nat with i by lia.
Qed.

Lemma marked_before_nil n : marked_before os mark n [].
Proof. intros j op s Hj. by rewrite lookup_nil in Hj. Qed.

Lemma marks_lift {A} (r : result A) : marks (sys_lift r).
Proof. intros w. exists []. split; [by rewrite app_nil_r|apply marked_before_nil]. Qed.

Lemma marks_bind {A B} (m : sys A) (k : A → sys B) : marks m → (∀ a, marks (k a)) → marks (sys_bind m k).
Proof.
  intros Hm Hk w. unfold sys_bind. destruct (Hm w) as (ops & Ht & Hops).
  destruct (m w) as [w' [a|e]]; [|eauto]. simpl in Ht. destruct (Hk a w') as (ops' & Ht' & Hops').
  exists (ops ++ ops'). split; [by rewrite Ht', Ht, app_assoc|]. apply marked_before_app; [done|].
  by rewrite Ht, length_app in Hops'.
Qed.

Lemma marks_on_error {A} (m : sys A) cleanup : marks m → marks cleanup → marks (on_error m cleanup).
Proof.
  intros Hm Hc w. unfold on_error. destruct (Hm w) as (ops & Ht & Hops).
  destruct (m w) as [w' [a|e]]; [eauto|]. simpl in Ht. destruct (Hc w') as (ops' & Ht' & Hops').
  exists (ops ++ ops'). split; [simpl; by rewrite Ht', Ht, app_assoc|]. apply marked_before_app; [done|].
  by rewrite Ht, length_app in Hops'.
Qed.

Lemma marks_op op : (∀ s, ¬ uses_address op s) → ∀ {A} (m : sys A),
  (∀ w, w_trace (m w).1 = w_trace w ++ [op]) → marks m.
Proof.
  intros Hop A m Hm w. exists [op]. split; [done|]. intros j op' s Hj Hu.
  apply list_lookup_singleton_Some in Hj as [_ <-]. by destruct (Hop s).
Qed.

Lemma uses_cases op s : uses_address op s → (∃ addr, op = SysConnect s addr) ∨ ∃ addr, op = SysBind s addr.
Proof. intros [addr [->| ->]]; eauto. Qed.

Lemma marks_call op : (∀ s, ¬ uses_address op s) → marks (call os op).
Proof. intros H. by apply (marks_op op). Qed.

Lemma marks_close s : marks (close os s).
Proof. apply (marks_op (SysClose s)); [|done]. intros x Hx. by destruct (uses_cases _ _ Hx) as [[? ?]|[? ?]]. Qed.

Lemma marks_set_deadline s at_ : marks (set_deadline os s at_).
Proof.
  apply (marks_op (SysSetDeadline s at_)); [|done]. intros x Hx. by destruct (uses_cases _ _ Hx) as [[? ?]|[? ?]].
Qed.

(** The calls of a marked socket: the mark is set, successfully, before the call
    that uses the address. *)
Lemma marks_net_socket network addr (use : nat → sysop) :
  mark ≠ 0 → (∀ s x, uses_address (use s) x → x = s) →
  marks (net_socket os network addr (mark_control os mark) use).
Proof.
  intros Hm Hu w. unfold net_socket, mark_control, socketMarkControl. rewrite (proj2 (Z.eqb_neq mark 0) Hm).
  set (n := length (w_trace w)).
  assert (Hpre : ∀ ops, (∀ op, op ∈ ops → ∀ s, ¬ uses_address op s) → marked_before os mark n ops).
  { intros ops H j op s Hj Hx. destruct (H op (list_elem_of_lookup_2 _ _ _ Hj) s Hx). }
  assert (Huse : os (n + 2)%nat = None → ∀ rest, (∀ op, op ∈ rest → ∀ s, ¬ uses_address op s) →
    marked_before os mark n ([SysSocket network addr; SysControl n;
      SysSetsockopt n SOL_SOCKET SO_MARK mark; use n] ++ rest)).
  { intros Ho rest Hrest j op s Hj Hx. destruct j as [|[|[|[|j]]]]; simpl in Hj; simplify_eq;
      try by destruct (uses_cases _ _ Hx) as [[? ?]|[? ?]].
    - apply Hu in Hx as ->. exists 2%nat. split; [lia|]. done.
    - destruct (Hrest op (list_elem_of_lookup_2 _ _ _ Hj) s Hx). }
  unfold sys_bind, on_error, socket, call, close, sys_ret. cbn [w_trace]. fold n.
  destruct (os n); cbn.
  { eexists. split; [reflexivity|]. apply Hpre. intros op Hop%list_elem_of_singleton s Hx. subst.
    by destruct (uses_cases _ _ Hx) as [[? ?]|[? ?]]. }
  rewrite !length_app. fold n. cbn.
  destruct (os (n + 1)%nat); cbn.
  { rewrite <- !app_assoc. eexists. split; [reflexivity|]. apply Hpre. intros op Hop s Hx.
    destruct (uses_cases _ _ Hx) as [[? ->]|[? ->]]; set_solver. }
  replace (n + 1 + 1)%nat with (n + 2)%nat by lia.
  destruct (os (n + 2)%nat) eqn:E2; cbn.
  { rewrite <- !app_assoc. eexists. split; [reflexivity|]. apply Hpre. intros op Hop s Hx.
    destruct (uses_cases _ _ Hx) as [[? ->]|[? ->]]; set_solver. }
  match goal with |- context [os ?x] => destruct (os x) end; cbn; rewrite <- !app_assoc; eexists; (split; [reflexivity|]).
  - apply (Huse eq_refl [SysClose n]). intros op ->%list_elem_of_singleton s Hx.
    by destruct (uses_cases _ _ Hx) as [[? ?]|[? ?]].
  - apply (Huse eq_refl []). intros op Hop. set_solver.
Qed.

Lemma connect_uses addr s x : uses_address (SysConnect s addr) x → x = s.
Proof. by intros [? [[= <- <-]|[=]]]. Qed.
Lemma bind_uses addr s x : uses_address (SysBind s addr) x → x = s.
Proof. by intros [? [[=]|[= <- <-]]]. Qed.

Lemma marks_dial_addresses network addrs : mark ≠ 0 → marks (dial_addresses os mark network addrs).
Proof.
  intros Hm. induction addrs as [|addr rest IH]; [apply marks_lift|]. intros w. simpl.
  destruct (marks_net_socket network addr (λ s, SysConnect s addr) Hm (connect_uses addr) w)
    as (ops & Ht & Hops).
  destruct (net_socket os _ _ _ _ w) as [w' [s|e]]; [eauto|]. destruct rest as [|r rest]; [eauto|].
  simpl in Ht. destruct (IH w') as (ops' & Ht' & Hops').
  exists (ops ++ ops'). rewrite Ht, length_app in Hops'. split; [|by apply marked_before_app].
  destruct (dial_addresses os mark network (r :: rest) w') as [w'' []]; simpl in *; by rewrite Ht', Ht, app_assoc.
Qed.

Lemma marks_dial network lookup target : mark ≠ 0 → marks (NewMarkedDialer os mark network lookup target).
Proof.
  intros Hm. apply marks_bind; [|intros addrs; by apply marks_dial_addresses].
  unfold resolve_addrs. destruct (SplitHostPort target) as [[host port]|e]; [|apply marks_lift].
  destruct (bool_decide _); [apply (marks_lift (Ok _))|]. destruct (ParseAddr host).
  - destruct (_ && _); [apply marks_lift|apply (marks_lift (Ok _))].
  - apply marks_bind; [|intros _; apply marks_lift]. apply marks_call. intros s Hs.
    by destruct (uses_cases _ _ Hs) as [[? ?]|[? ?]].
Qed.

Lemma marks_request conn at_ target :
  marks (do! _ := set_deadline os conn at_ in
         do! _ := on_error (call os (SysRequest conn target)) (close os conn) in
         do! _ := set_deadline os conn None in sys_ret conn).
Proof.
  apply marks_bind; [apply marks_set_deadline|]. intros _. apply marks_bind.
  - apply marks_on_error; [|apply marks_close]. apply marks_call. intros s Hs.
    by destruct (uses_cases _ _ Hs) as [[? ?]|[? ?]].
  - intros _. apply marks_bind; [apply marks_set_deadline|]. intros _. apply (marks_lift (Ok conn)).
Qed.

Lemma marks_connect server lookup : mark ≠ 0 → marks (reality_connect os server mark lookup).
Proof.
  intros Hm. apply marks_bind; [by apply marks_dial|]. intros s. apply marks_bind.
  - apply marks_on_error; [|apply marks_close]. apply marks_call. intros x Hx.
    by destruct (uses_cases _ _ Hx) as [[? ?]|[? ?]].
  - intros _. apply (marks_lift (Ok s)).
Qed.
End marked.

(** ** Names are not looked up on the way *)

(** A program that does not use the system's name resolver. *)
Definition asks_no_resolver {A} (m : sys A) : Prop :=
  ∀ w, ∃ ops, w_trace (m w).1 = w_trace w ++ ops ∧ Forall (λ op, ∀ name, op ≠ SysLookup name) ops.

Lemma no_resolver_lift {A} (r : result A) : asks_no_resolver (sys_lift r).
Proof. intros w. exists []. by rewrite app_nil_r. Qed.

Lemma no_resolver_bind {A B} (m : sys A) (k : A → sys B) :
  asks_no_resolver m → (∀ a, asks_no_resolver (k a)) → asks_no_resolver (sys_bind m k).
Proof.
  intros Hm Hk w. unfold sys_bind. destruct (Hm w) as (ops & Ht & Hops).
  destruct (m w) as [w' [a|e]]; [|eauto]. simpl in Ht. destruct (Hk a w') as (ops' & Ht' & Hops').
  exists (ops ++ ops'). split; [by rewrite Ht', Ht, app_assoc|]. by apply Forall_app.
Qed.

Lemma no_resolver_on_error {A} (m : sys A) cleanup :
  asks_no_resolver m → asks_no_resolver cleanup → asks_no_resolver (on_error m cleanup).
Proof.
  intros Hm Hc w. unfold on_error. destruct (Hm w) as (ops & Ht & Hops).
  destruct (m w) as [w' [a|e]]; [eauto|]. simpl in Ht. destruct (Hc w') as (ops' & Ht' & Hops').
  exists (ops ++ ops'). split; [simpl; by rewrite Ht', Ht, app_assoc|]. by apply Forall_app.
Qed.

Lemma no_resolver_call os op : (∀ name, op ≠ SysLookup name) → asks_no_resolver (call os op).
Proof. intros H w. exists [op]. split; [done|]. by apply Forall_singleton. Qed.

Lemma no_resolver_net_socket os network addr mark use :
  (∀ s name, use s ≠ SysLookup name) → asks_no_resolver (net_socket os network addr (mark_control os mark) use).
Proof.
  intros Hu. apply no_resolver_bind.
  { intros w. exists [SysSocket network addr]. unfold socket. split; [by destruct (os _)|by apply Forall_singleton]. }
  intros s. apply no_resolver_bind; [|intros _; apply (no_resolver_lift (Ok s))]. apply no_resolver_on_error.
  - apply no_resolver_bind; [|intros _; by apply no_resolver_call].
    unfold mark_control. destruct (mark =? 0); [apply (no_resolver_lift (Ok ()))|].
    apply no_resolver_bind; [by apply no_resolver_call|intros _; by apply no_resolver_call].
  - intros w. exists [SysClose s]. split; [done|]. by apply Forall_singleton.
Qed.

Lemma no_resolver_dial_addresses os mark network addrs : asks_no_resolver (dial_addresses os mark network addrs).
Proof.
  induction addrs as [|addr rest IH]; [apply no_resolver_lift|]. intros w. simpl.
  destruct (no_resolver_net_socket os network addr mark (λ s, SysConnect s addr)
    ltac:(done) w) as (ops & Ht & Hops).
  destruct (net_socket os _ _ _ _ w) as [w' [s|e]]; [eauto|]. destruct rest as [|r rest]; [eauto|].
  simpl in Ht. destruct (IH w') as (ops' & Ht' & Hops'). exists (ops ++ ops'). split; [|by apply Forall_app].
  destruct (dial_addresses os mark network (r :: rest) w') as [w'' []]; simpl in *; by rewrite Ht', Ht, app_assoc.
Qed.

(** A target whose host is an address. *)
Definition literal_target (target : bytes) : Prop :=
  ∃ host port a, SplitHostPort target = Ok (host, port) ∧ ParseAddr host = Some a.

Lemma no_resolver_dial os mark network lookup target :
  literal_target target → asks_no_resolver (NewMarkedDialer os mark network lookup target).
Proof.
  intros (host & port & a & Hs & Ha). apply no_resolver_bind; [|intros addrs; apply no_resolver_dial_addresses].
  unfold resolve_addrs. rewrite Hs, Ha. destruct (bool_decide _); [apply (no_resolver_lift (Ok _))|].
  destruct (_ && _); [apply no_resolver_lift|apply (no_resolver_lift (Ok _))].
Qed.

(** ** The dialers of an application and their sockets *)

(** What an application makes sockets with. *)
Inductive dialer :=
| DlDomestic (server : bytes) (marks : list Z)
| DlHy2 (marks : list Z)
| DlReality (mark : Z)
| DlDirect (marks : list Z)
| DlDirectPacket (marks : list Z).

Fixpoint stream_dialers (p : stream_path) : list dialer :=
  match p with
  | SHy2 marks => [DlHy2 marks]
  | SReality mark => [DlReality mark]
  | SDirect marks => [DlDirect marks]
  | SRelay a b | SFailOpen a b _ => stream_dialers a ++ stream_dialers b
  | SLanding _ base => stream_dialers base
  end.

Fixpoint packet_dialers (p : packet_path) : list dialer :=
  match p with
  | PHy2 marks => [DlHy2 marks]
  | PReality mark => [DlReality mark]
  | PDirect marks => [DlDirectPacket marks]
  | PBlock => []
  | PRelay a b | PFailOpen a b => packet_dialers a ++ packet_dialers b
  | PSocks _ _ control packets => stream_dialers control ++ packet_dialers packets
  end.

Fixpoint dns_dialers (p : dns_path) : list dialer :=
  match p with
  | DNetwork server marks => [DlDomestic server marks]
  | DStream path _ _ => stream_dialers path
  | DFallback a b => dns_dialers a ++ dns_dialers b
  end.

Definition app_dialers (app : application) : list dialer :=
  dns_dialers (ad_domestic (app_dns app)) ++ dns_dialers (ad_trusted (app_dns app)) ++
  match app_tcp app with Some t => stream_dialers (at_direct t) ++ stream_dialers (at_proxy t) | None => [] end ++
  match app_udp app with Some u => packet_dialers (au_direct u) ++ packet_dialers (au_proxy u) | None => [] end.

(** The programs that make the sockets of a dialer: with any target, any answers of
    name resolution and any deadline. *)
Inductive opens (os : nat → option error) (cfg : Config) : dialer → sys nat → Prop :=
| opens_domestic server marks lookup :
    opens os cfg (DlDomestic server marks) (NewNetworkExchanger_dial os marks lookup server)
| opens_hy2 marks bootstrap core :
    buildCoreConfig (cfg_hy2 cfg) bootstrap marks = Ok core →
    opens os cfg (DlHy2 marks) (packetConnFactory_New os (cc_mark core))
| opens_reality mark lookup valid target now ctx :
    opens os cfg (DlReality mark) (reality_Dial os (relay_server (cfg_relay cfg)) mark lookup valid target now ctx)
| opens_reality_packet mark lookup now :
    opens os cfg (DlReality mark) (reality_OpenPacket os (relay_server (cfg_relay cfg)) mark lookup now)
| opens_direct marks lookup target :
    opens os cfg (DlDirect marks) (direct_Dial os marks lookup target)
| opens_direct_packet marks ctx_err is_udp :
    opens os cfg (DlDirectPacket marks) (direct_OpenPacket os (firstMark marks) ctx_err is_udp).

(** The mark a dialer was built with. *)
Definition dialer_mark (d : dialer) : Z :=
  match d with
  | DlReality mark => mark
  | DlDomestic _ marks | DlHy2 marks | DlDirect marks | DlDirectPacket marks => firstMark marks
  end.

Lemma opens_marked os cfg d m : dialer_mark d ≠ 0 → opens os cfg d m → marks os (dialer_mark d) m.
Proof.
  intros Hm H. destruct H as [server marks lookup|marks bootstrap core Hcore|mark lookup valid target now ctx
    |mark lookup now|marks lookup target|marks ctx_err is_udp]; cbn [dialer_mark] in *.
  - by apply marks_dial.
  - apply buildCoreConfig_mark in Hcore. unfold packetConnFactory_New. rewrite Hcore.
    apply marks_net_socket; [done|]. intros s x. apply bind_uses.
  - unfold reality_Dial. destruct (negb _); [apply marks_lift|].
    apply marks_bind; [by apply marks_connect|]. intros s. apply marks_request.
  - apply marks_bind; [by apply marks_connect|]. intros s. apply marks_request.
  - by apply marks_dial.
  - apply marks_bind; [apply marks_lift|]. intros _. apply marks_bind.
    + apply marks_net_socket; [done|]. intros s x. apply bind_uses.
    + intros s. destruct is_udp; [apply (marks_lift os _ (Ok s))|].
      apply marks_on_error; [apply marks_lift|apply marks_close].
Qed.

Lemma trusted_route_dialers cfg d :
  d ∈ stream_dialers (trusted_route cfg) → dialer_mark d = bypassMark cfg.
Proof.
  unfold trusted_route. destruct (relay_enabled _), (cfg_fail_open cfg); simpl;
    rewrite ?elem_of_cons, ?elem_of_nil; naive_solver.
Qed.

Lemma udp_route_dialers cfg d :
  d ∈ packet_dialers (udp_route cfg) → dialer_mark d = bypassMark cfg.
Proof.
  unfold udp_route. destruct (relay_enabled _), (cfg_fail_open cfg); simpl;
    rewrite ?elem_of_cons, ?elem_of_nil; naive_solver.
Qed.

Lemma udp_proxy_dialers cfg path via d :
  udp_proxy cfg = Ok (path, via) → d ∈ packet_dialers path → dialer_mark d = bypassMark cfg.
Proof.
  unfold udp_proxy. intros H Hd.
  assert (Hcases : path = PBlock ∨ path = app_directPacket cfg ∨ path = udp_route cfg ∨
    ∃ s max, path = PSocks s max (trusted_route cfg) (udp_route cfg)).
  { destruct (landing_udp _); [unfold NewPacket in H; destruct (negb _); [done|]|]; injection H as <- _;
      repeat case_bool_decide; eauto 6. }
  destruct Hcases as [->|[->|[->|(x & max & ->)]]]; simpl in Hd.
  - by apply not_elem_of_nil in Hd.
  - by apply list_elem_of_singleton in Hd as ->.
  - by apply udp_route_dialers.
  - apply elem_of_app in Hd as [Hd|Hd]; [by apply trusted_route_dialers|by apply udp_route_dialers].
Qed.

Lemma newApplication_dnsOnly cfg load reality app closed :
  newApplication cfg true load reality = (Ok app, closed) → app_tcp app = None ∧ app_udp app = None.
Proof. unfold newApplication. repeat case_match; intros [= <- _]; done. Qed.

Lemma app_dialers_marked cfg dnsOnly load reality app closed d :
  newApplication cfg dnsOnly load reality = (Ok app, closed) → d ∈ app_dialers app →
  dialer_mark d = bypassMark cfg.
Proof.
  intros Happ. pose proof Happ as Hinv. apply newApplication_inv in Hinv as (data & cl & _ & _ & _ & _ & Hdns & Hrest).
  unfold app_dialers. rewrite Hdns. cbn [ad_domestic ad_trusted]. rewrite !elem_of_app.
  intros [Hd|[Hd|Hd]].
  - by apply list_elem_of_singleton in Hd as ->.
  - unfold app_trustedDNS in Hd. destruct (cfg_fail_open cfg); simpl in Hd; [|by apply trusted_route_dialers].
    apply elem_of_app in Hd as [Hd|Hd]; [by apply trusted_route_dialers|]. by apply list_elem_of_singleton in Hd as ->.
  - destruct dnsOnly.
    { apply newApplication_dnsOnly in Happ as [Ht Hu]. rewrite Ht, Hu in Hd.
      by destruct Hd as [Hd|Hd]; apply not_elem_of_nil in Hd. }
    destruct (Hrest eq_refl) as (l & path & via & _ & Hp & Ht & Hu). rewrite Ht, Hu in Hd. cbn [at_direct at_proxy au_direct au_proxy] in Hd.
    rewrite !elem_of_app in Hd. destruct Hd as [[Hd|Hd]|[Hd|Hd]].
    + by apply list_elem_of_singleton in Hd as ->.
    + apply trusted_route_dialers. by destruct l.
    + by apply list_elem_of_singleton in Hd as ->.
    + by eapply udp_proxy_dialers.
Qed.

(** The only exchanger over the network is the domestic one. *)
Lemma app_dialers_domestic cfg dnsOnly load reality app closed server mks :
  newApplication cfg dnsOnly load reality = (Ok app, closed) → DlDomestic server mks ∈ app_dialers app →
  server = cfg_domestic_dns cfg.
Proof.
  intros Happ. apply newApplication_inv in Happ as (data & cl & _ & _ & _ & _ & Hdns & _).
  assert (Hs : ∀ p, DlDomestic server mks ∉ stream_dialers p).
  { induction p; simpl; rewrite ?elem_of_app, ?list_elem_of_singleton; naive_solver. }
  assert (Hp : ∀ p, DlDomestic server mks ∉ packet_dialers p).
  { induction p; simpl; rewrite ?elem_of_app, ?list_elem_of_singleton, ?elem_of_nil; naive_solver. }
  unfold app_dialers. rewrite Hdns. cbn [ad_domestic ad_trusted]. rewrite !elem_of_app. intros [Hd|[Hd|[Hd|Hd]]].
  - by apply list_elem_of_singleton in Hd as [= -> _].
  - unfold app_trustedDNS in Hd. destruct (cfg_fail_open cfg); simpl in Hd; [|by apply Hs in Hd].
    apply elem_of_app in Hd as [Hd|Hd]; [by apply Hs in Hd|]. by apply list_elem_of_singleton in Hd as [= -> _].
  - destruct (app_tcp app); [|by apply not_elem_of_nil in Hd]. by apply elem_of_app in Hd as [Hd%Hs|Hd%Hs].
  - destruct (app_udp app); [|by apply not_elem_of_nil in Hd]. by apply elem_of_app in Hd as [Hd%Hp|Hd%Hp].
Qed.

Lemma literal_endpoint services e : is_ok (parseIPv4Endpoint services e) = true → literal_target e.
Proof.
  unfold parseIPv4Endpoint, literal_target. destruct (SplitHostPort e) as [[host port]|]; [|done]. simpl.
  destruct (ParseAddr host) as [a|] eqn:Ea; [|done]. intros _. eauto 6.
Qed.

(** C5: the application's own sockets escape its own firewall rules.  Of an
    application assembled from a validated configuration, whatever dialer it holds
    (the domestic DNS upstream, the HY2 and Reality clients, the direct dialers,
    wherever they sit in its TCP, UDP and DNS paths), every socket that dialer
    connects or binds has been given the configured bypass mark before,
    successfully, whatever calls the system fails.  Besides these sockets, name
    resolution by the system may open others, but not for the domestic DNS upstream,
    whose address is validated, nor for a direct dial to an address, nor for the
    HY2 client and the direct packet sockets. *)
Theorem own_sockets_marked (os : nat → option error) (services : bytes → bytes → option Z)
    (order : list listenName) (cfg : Config) (dnsOnly : bool) (load : result Data) (reality : option error)
    (app : application) (closed : bool) (d : dialer) (m : sys nat) :
  config_ok services order cfg → newApplication cfg dnsOnly load reality = (Ok app, closed) →
  d ∈ app_dialers app → opens os cfg d m →
  marks os (fw_bypass_mark (cfg_firewall cfg)) m ∧
  match d with
  | DlDomestic _ _ | DlHy2 _ | DlDirectPacket _ => asks_no_resolver m
  | DlDirect _ => ∀ marks lookup target, m = direct_Dial os marks lookup target → literal_target target → asks_no_resolver m
  | DlReality _ => True
  end.
Proof.
  intros Hok Happ Hd Hm. pose proof (app_dialers_marked _ _ _ _ _ _ _ Happ Hd) as Hmark.
  unfold bypassMark in Hmark.
  assert (Hne : dialer_mark d ≠ 0) by (rewrite Hmark; apply (ok_bypass _ _ _ Hok)).
  split; [rewrite <- Hmark; by apply (opens_marked os cfg d m)|].
  destruct Hm as [server mks lookup|mks bootstrap core Hcore|? ? ? ? ? ?|? ? ?|mks lookup target|mks ctx_err is_udp]; try done.
  - apply no_resolver_dial. rewrite (app_dialers_domestic _ _ _ _ _ _ _ _ Happ Hd). apply literal_endpoint with services.
    apply (ok_domestic _ _ _ Hok).
  - by apply no_resolver_net_socket.
  - intros mks' lookup' target' -> Hlit. by apply no_resolver_dial.
  - apply no_resolver_bind; [apply no_resolver_lift|]. intros _. apply no_resolver_bind; [by apply no_resolver_net_socket|].
    intros s. destruct is_udp; [apply (no_resolver_lift (Ok s))|]. apply no_resolver_on_error; [apply no_resolver_lift|].
    intros w. exists [SysClose s]. split; [done|]. by apply Forall_singleton.
Qed.

(** ** Evaluations *)

(** A direct dial whose first address refuses the connection: the first socket is
    closed, the second is marked and connected. *)
Example second_address_dialled :
  direct_Dial (λ i, if bool_decide (i = 4%nat) then Some EEOF else None) [7]
    (λ _, Ok [str "1.1.1.1:80"; str "2.2.2.2:80"]) (str "example.com:80") (mkWorld [] []) =
  (mkWorld [SysLookup (str "example.com:80");
            SysSocket (str "tcp4") (str "1.1.1.1:80"); SysControl 1; SysSetsockopt 1 1 36 7;
            SysConnect 1 (str "1.1.1.1:80"); SysClose 1;
            SysSocket (str "tcp4") (str "2.2.2.2:80"); SysControl 6; SysSetsockopt 6 1 36 7;
            SysConnect 6 (str "2.2.2.2:80")] [6%nat], Ok 6%nat).
Proof. vm_compute. reflexivity. Qed.

(** ** Witness *)

Lemma own_sockets_marked_witness :
  let mark := fw_bypass_mark (cfg_firewall sample_validated) in
  marks (λ _, None) mark (direct_Dial (λ _, None) [mark] (λ t, Ok [t]) (str "9.9.9.9:443")) ∧
  asks_no_resolver (direct_Dial (λ _, None) [mark] (λ t, Ok [t]) (str "9.9.9.9:443")).
Proof.
  intros mark.
  destruct (own_sockets_marked (λ _, None) (λ _ _, None) [LUDP; LDNS; LTCP] sample_validated false (Ok sample_data)
    None sample_app false (DlDirect [mark]) (direct_Dial (λ _, None) [mark] (λ t, Ok [t]) (str "9.9.9.9:443")))
    as [H1 H2].
  - exact sample_validated_ok.
  - vm_compute. reflexivity.
  - vm_compute. apply list_elem_of_further, list_elem_of_further, list_elem_of_here.
  - apply opens_direct.
  - split; [exact H1|]. apply (H2 [mark] (λ t, Ok [t]) (str "9.9.9.9:443") eq_refl).
    exists (str "9.9.9.9"), (str "443"), (Addr4 9 9 9 9). split; vm_compute; reflexivity.
Defined.
