(* ===== verification/Main.v ===== *)
(** * The commands: [cmd/hy2route-core/main.go], [cmd/hy2route-core/probe.go],
    [internal/buildinfo/buildinfo.go]

    What each command does with the outcomes of the parts it calls, and its exit
    code. *)

From S2P Require Import Prelude GoStrings GoNet Domains IPv4Tree Sha256 Dataset GoCodec.
From S2P Require Import Config Classifier GoHeap Lru Learning Firewall Failover SessionTable.
From S2P Require Import SniffParse SniffPeek AddrText Tcp Udp GoConn Socks5 HttpConnect.
From S2P Require Import SocksUdp RelayFallback Hy2Status GoJson GoUnmarshal ConfigJson Control DataTool Application.

(** ** Build information *)

Definition buildinfo_String (version commit : bytes) : bytes :=
  str "hy2route-core " ++ version ++ str " (" ++ commit ++ str ")".

(** ** [run] *)

(** What a command finds: its flags, the files it reads, the Reality library, the
    control socket's peer, the run of an application, and what the probe does. *)
Record coreEnv := mkCoreEnv {
  ce_flags : option error; ce_dnsOnly : bool; ce_services : bytes → bytes → option Z; ce_order : list listenName;
  ce_config : result bytes; ce_data_open : option error; ce_data : result bytes; ce_reality : option error;
  ce_dial : option error; ce_write : option error; ce_server : bytes → option bytes; ce_encode : option error;
  ce_run : application → option error; ce_probe : Z * bytes; ce_version : bytes; ce_commit : bytes }.

Inductive command := CmdProbe | CmdVersion | CmdCheck | CmdStatus | CmdServe | CmdUsage.

Definition dispatch (args : list bytes) : command :=
  match args with
  | [] => CmdUsage
  | arg :: rest =>
      if bool_decide (arg = str "probe") then CmdProbe
      else if bool_decide (rest = []) && bool_decide (arg = str "version") then CmdVersion
      else if bool_decide (arg = str "check") then CmdCheck
      else if bool_decide (arg = str "status") then CmdStatus
      else if bool_decide (arg = str "serve") then CmdServe
      else CmdUsage
  end.

(** The exit code and the standard output, where it is a text of the program. *)
Definition core_run (args : list bytes) (env : coreEnv) : option (Z * bytes) :=
  match dispatch args with
  | CmdProbe => Some (ce_probe env)
  | CmdVersion => Some (0, buildinfo_String (ce_version env) (ce_commit env) ++ [10])
  | CmdCheck =>
      match ce_flags env with
      | Some _ => Some (2, [])
      | None =>
          loaded ← ConfigJson.Load (ce_services env) (ce_order env) (ce_config env);
          Some (match loaded with
                | Err _ => (1, [])
                | Ok _ => (0, str "hy2route-core configuration is valid" ++ [10])
                end)
      end
  | CmdStatus =>
      match ce_flags env with
      | Some _ => Some (2, [])
      | None =>
          snapshot ← control_Request (ce_dial env) (ce_write env) (ce_server env) (str "status");
          Some (match snapshot with
                | Err _ => (1, [])
                | Ok s => match ce_encode env with
                          | Some _ => (1, [])
                          | None => (0, Encode (JObject (snapshot_members s)))
                          end
                end)
      end
  | CmdServe =>
      match ce_flags env with
      | Some _ => Some (2, [])
      | None =>
          loaded ← ConfigJson.Load (ce_services env) (ce_order env) (ce_config env);
          match loaded with
          | Err _ => Some (1, [])
          | Ok cfg =>
              data ← Dataset.Load (ce_data_open env) (ce_data env);
              Some (match (newApplication cfg (ce_dnsOnly env) data (ce_reality env)).1 with
                    | Err _ => (1, [])
                    | Ok app => match ce_run env app with Some _ => (1, []) | None => (0, []) end
                    end)
          end
      end
  | CmdUsage => Some (2, [])
  end.

(** ** The probe *)

(** The stacks a probe uses: the application's own, or one transport under the
    configured landing. *)
Definition probe_paths (cfg : Config) (tcp : appTCP) (udp : appUDP) (relay : bytes) (reality : option error)
  : result (stream_path * packet_path) :=
  if bool_decide (relay = str "auto") then Ok (at_proxy tcp, au_proxy udp)
  else
    let? (base, packet) :=
      if bool_decide (relay = str "reality") then
        if negb (relay_enabled (cfg_relay cfg)) then errorf "Reality relay is disabled"
        else match reality with Some e => Err e | None => Ok (SReality (bypassMark cfg), PReality (bypassMark cfg)) end
      else Ok (SHy2 (app_hy2Client cfg), PHy2 (app_hy2Client cfg)) in
    let? packet :=
      if landing_udp (cfg_landing cfg) then
        let? (d, max) := NewPacket (cfg_landing cfg) in Ok (PSocks d max base packet)
      else Ok packet in
    let? l := New_landing (cfg_landing cfg) in
    Ok (match l with LandDirect => base | _ => SLanding l base end, packet).

(** The result of the HTTP request: the status, and the outcome of reading the
    body. *)
Definition probe_tcp (request : option error) (response : result (Z * option error)) : option error :=
  match request with
  | Some e => Some e
  | None =>
      match response with
      | Err e => Some e
      | Ok (status, body) =>
          if negb (status =? 200) && negb (status =? 204) then Some (EMsg "HTTP status") else body
      end
  end.

(** The DNS query over a packet session: [reply] is what was received, or the
    error of the context; [unpack] gives a message's id, response bit and code. *)
Definition probe_udp (open_err send : option error) (reply : error + result bytes)
    (unpack : bytes → result (Z * bool * Z)) (id : Z) : option error :=
  match open_err with
  | Some e => Some e
  | None =>
      match send with
      | Some e => Some e
      | None =>
          match reply with
          | inl e => Some e
          | inr (Err e) => Some e
          | inr (Ok payload) =>
              match unpack payload with
              | Err e => Some e
              | Ok (answer_id, is_response, rcode) =>
                  if negb (answer_id =? id) || negb is_response || negb (rcode =? 0)
                  then Some (EMsg "invalid DNS response") else None
              end
          end
      end
  end.

Record probeEnv := mkProbeEnv {
  pb_flags : option error; pb_network : bytes; pb_transport : bytes; pb_load : result Config;
  pb_app : result application; pb_reality : option error; pb_outcome : stream_path → packet_path → option error;
  pb_encode : option error }.

(** The exit code of [runProbe]. *)
Definition runProbe (env : probeEnv) : Z :=
  match pb_flags env with
  | Some _ => 2
  | None =>
      if (negb (bool_decide (pb_network env = str "tcp")) && negb (bool_decide (pb_network env = str "udp")))
         || (negb (bool_decide (pb_transport env = str "auto")) && negb (bool_decide (pb_transport env = str "reality"))
             && negb (bool_decide (pb_transport env = str "hy2")))
      then 2
      else match pb_load env with
           | Err _ => 1
           | Ok cfg =>
               match pb_app env with
               | Err _ => 1
               | Ok app =>
                   match app_tcp app, app_udp app with
                   | Some tcp, Some udp =>
                       match probe_paths cfg tcp udp (pb_transport env) (pb_reality env) with
                       | Err _ => 1
                       | Ok (stream, packet) =>
                           match pb_outcome env stream packet with
                           | Some _ => 1
                           | None => match pb_encode env with Some _ => 1 | None => 0 end
                           end
                       end
                   | _, _ => 1
                   end
               end
           end
  end.

(** ** A probe tests the transport it names *)

(** The exit of a named transport. *)
Definition transport_exit (relay : bytes) : exit :=
  if bool_decide (relay = str "reality") then ExitReality else ExitHy2.

(** A probe of a named transport exercises that transport and nothing else:
    every connection and datagram of the probe leaves through it, under the
    configured landing, never directly and never through the other relay. *)
Theorem probe_uses_named_transport (cfg : Config) (tcp : appTCP) (udp : appUDP) (relay : bytes)
    (reality : option error) (stream : stream_path) (packet : packet_path) (target via : bytes)
    (x : exit) (a : bytes) :
  relay ≠ str "auto" → probe_paths cfg tcp udp relay reality = Ok (stream, packet) →
  ((x, a) ∈ stream_exits stream target ∨ (x, a) ∈ packet_exits packet via target) →
  x = transport_exit relay ∧ a ∈ [target; via; landing_server (cfg_landing cfg)].
Proof.
  intros Hr. unfold probe_paths. rewrite bool_decide_false by done.
  assert (Hgen : ∀ base packet0 stream packet e,
    (∀ t, stream_exits base t = [(e, t)]) → (∀ r t, packet_exits packet0 r t = [(e, t)]) →
    (let? packet1 := if landing_udp (cfg_landing cfg) then
                       let? (d, max) := NewPacket (cfg_landing cfg) in Ok (PSocks d max base packet0)
                     else Ok packet0 in
     let? l := New_landing (cfg_landing cfg) in
     Ok (match l with LandDirect => base | _ => SLanding l base end, packet1)) = Ok (stream, packet) →
    ((x, a) ∈ stream_exits stream target ∨ (x, a) ∈ packet_exits packet via target) →
    x = e ∧ a ∈ [target; via; landing_server (cfg_landing cfg)]).
  { clear. intros base packet0 stream packet e Hb Hp. unfold NewPacket, New_landing.
    destruct (landing_udp _); [destruct (negb _); [done|]|];
      repeat match goal with |- context [if bool_decide ?P then _ else _] => destruct (bool_decide P) end;
      try done; intros [= <- <-]; simpl; rewrite ?Hb, ?Hp; simpl;
      rewrite ?elem_of_cons, ?elem_of_nil; naive_solver. }
  unfold transport_exit. destruct (bool_decide (relay = str "reality")).
  - destruct (negb _); [done|]. destruct reality; [done|]. by apply (Hgen (SReality (bypassMark cfg)) (PReality (bypassMark cfg))).
  - by apply (Hgen (SHy2 (app_hy2Client cfg)) (PHy2 (app_hy2Client cfg))).
Qed.

(** A probe succeeds only on a valid answer. *)
Lemma probe_udp_valid open_err send reply unpack id :
  probe_udp open_err send reply unpack id = None →
  ∃ payload, reply = inr (Ok payload) ∧ unpack payload = Ok (id, true, 0).
Proof.
  unfold probe_udp. destruct open_err; [done|]. destruct send; [done|].
  destruct reply as [e|[payload|e]]; try done. destruct (unpack payload) as [[[i r] c]|] eqn:E; [|done].
  destruct (_ || _) eqn:E2; [done|]. intros _. exists payload. split; [done|]. rewrite E.
  destruct r; [|by rewrite orb_true_r in E2]. do 3 f_equal; lia.
Qed.

Lemma dispatch_commands rest :
  dispatch (str "check" :: rest) = CmdCheck ∧ dispatch (str "serve" :: rest) = CmdServe ∧
  dispatch (str "status" :: rest) = CmdStatus.
Proof. unfold dispatch. destruct (bool_decide (rest = [])); done. Qed.

Lemma Load_total services order file : ∃ r, ConfigJson.Load services order file = Some r.
Proof. destruct file as [raw|e]; simpl; [apply Decode_total|eauto]. Qed.

(** [check] decides every file, and succeeds exactly on one that loads. *)
Lemma check_exit rest env : ce_flags env = None →
  ∃ loaded, ConfigJson.Load (ce_services env) (ce_order env) (ce_config env) = Some loaded ∧
    fst <$> core_run (str "check" :: rest) env = Some (if is_ok loaded then 0 else 1).
Proof.
  intros Hf. destruct (dispatch_commands rest) as (Hc & _). unfold core_run. rewrite Hc, Hf.
  destruct (Load_total (ce_services env) (ce_order env) (ce_config env)) as [r ->]. exists r.
  split; [done|]. by destruct r.
Qed.

(** [status] prints exactly the snapshot of the server that answers it. *)
Lemma status_prints_snapshot rest env s :
  ce_flags env = None → ce_dial env = None → ce_write env = None → ce_encode env = None →
  (∀ request, ce_server env request = control_handle request s) →
  snapshot_range s → Forall utf8_ok (snapshot_texts s) →
  (length (encode_response (mkResponse true s [])) ≤ S maxRequestBytes)%nat →
  core_run (str "status" :: rest) env = Some (0, Encode (JObject (snapshot_members s))).
Proof.
  intros Hf Hd Hw He Hs Hr Ht Hl. destruct (dispatch_commands rest) as (_ & _ & Hc).
  unfold core_run. rewrite Hc, Hf, Hd, Hw.
  assert (Hreq : control_Request None None (ce_server env) (str "status") = Some (Ok s)).
  { unfold control_Request. rewrite Hs. by apply status_round_trip. }
  by rewrite Hreq, He.
Qed.

(** C40: the files the program accepts make it run.  With a configuration file that
    [Decode] accepts and a data file written by the data compiler from lists it
    accepts, [serve] assembles the application without an error, with both data
    planes unless only DNS is served, and its exit code is the outcome of the
    run; [check] on the same file succeeds. *)
Theorem accepted_files_serve (rest : list bytes) (env : coreEnv) (raw domains prefixes : bytes) (cfg : Config)
    (ds : list Domain) (ps : list Prefix) :
  ce_flags env = None → ce_config env = Ok raw →
  Decode (ce_services env) (ce_order env) raw = Some (Ok cfg) →
  loadDomains None domains = Ok ds → loadPrefixes None prefixes = Ok ps → counts_ok (mkData ds ps) →
  ce_data_open env = None → ce_data env = Ok (mjoin (Write (λ _, None) (mkData ds ps)).1) →
  (relay_enabled (cfg_relay cfg) = true → ce_reality env = None) →
  fst <$> core_run (str "check" :: rest) env = Some 0 ∧
  ∃ app,
    fst <$> core_run (str "serve" :: rest) env = Some (match ce_run env app with Some _ => 1 | None => 0 end) ∧
    (is_Some (app_tcp app) ↔ ce_dnsOnly env = false) ∧ (is_Some (app_udp app) ↔ ce_dnsOnly env = false).
Proof.
  intros Hf Hraw Hd Hds Hps Hc Ho Hfile Hr. destruct (dispatch_commands rest) as (Dc & Ds & _).
  destruct (compiled_file domains prefixes ds ps Hds Hps Hc) as (Hread & _ & Hn & Hp).
  destruct (Decode_Ok _ _ _ _ Hd) as (j & tail & c & _ & _ & _ & Hrange & Hv).
  assert (Hok : config_ok (ce_services env) (ce_order env) cfg).
  { eapply Validate_config_ok; [|exact Hv]. destruct Hrange as (_ & _ & _ & _ & [Hm _]). exact Hm. }
  destruct (validated_config_starts (ce_services env) (ce_order env) cfg (ce_dnsOnly env) (mkData ds ps)
    (ce_reality env) Hok Hn Hp Hr) as (app & Happ & Ht & Hu).
  unfold core_run. rewrite Dc, Ds, Hf, Hraw. cbn [ConfigJson.Load]. rewrite Hd. cbn [mbind option_bind].
  split; [done|]. exists app. rewrite Ho, Hfile. cbn [Dataset.Load]. rewrite Hread. cbn [mbind option_bind].
  rewrite Happ. split; [|done]. simpl. by destruct (ce_run env app).
Qed.

Lemma probe_uses_named_transport_witness :
  ∃ tcp udp stream packet, probe_paths sample_validated tcp udp (str "hy2") None = Ok (stream, packet) ∧
    ∀ x a, (x, a) ∈ stream_exits stream (str "1.1.1.1:443") → x = ExitHy2.
Proof.
  destruct (app_tcp sample_app) as [tcp|] eqn:Ht; [|vm_compute in Ht; discriminate].
  destruct (app_udp sample_app) as [udp|] eqn:Hu; [|vm_compute in Hu; discriminate].
  set (mks := app_hy2Client sample_validated). exists tcp, udp, (SHy2 mks), (PHy2 mks). split; [vm_compute; reflexivity|]. intros x a Hx.
  refine (proj1 (probe_uses_named_transport sample_validated tcp udp (str "hy2") None (SHy2 mks) (PHy2 mks)
    (str "1.1.1.1:443") [] x a _ _ (or_introl Hx))); [discriminate|vm_compute; reflexivity].
Defined.

Definition sample_core : coreEnv :=
  mkCoreEnv None false (λ _ _, None) [LDNS; LTCP; LUDP] (Ok sample_file) None
    (Ok (mjoin (Write (λ _, None) (mkData [mkDomain (str "a.cn") false; mkDomain (str "example.cn") false]
                                      [mkPrefix (Addr4 10 0 0 0) 8])).1))
    None None None (λ _, None) None (λ _, None) (2, []) (str "1.0") (str "abc").

Lemma accepted_files_serve_witness :
  fst <$> core_run [str "serve"; str "-config"; str "core.json"] sample_core = Some 0.
Proof.
  destruct (accepted_files_serve [str "-config"; str "core.json"] sample_core sample_file sample_lists
    (str "10.1.2.3/8") sample_decoded [mkDomain (str "a.cn") false; mkDomain (str "example.cn") false]
    [mkPrefix (Addr4 10 0 0 0) 8]) as (_ & app & H & _).
  - reflexivity.
  - reflexivity.
  - vm_compute. reflexivity.
  - vm_compute. reflexivity.
  - vm_compute. reflexivity.
  - split; vm_compute; reflexivity.
  - reflexivity.
  - reflexivity.
  - intros _. reflexivity.
  - exact H.
Defined.
